(* ===== verification/_CoqProject ===== *)
-Q . S2P
Base.v
Threshold.v
Lagrange.v
Prelude.v
Zigzag.v
UintOps.v
Prog.v
State.v
Externals.v
Models.v
Crypto.v
Seal.v
Metrics.v
Exposition.v
Tee.v
Chain.v
Verifier.v
Pinning.v
Auth.v
Derive.v
Gossip.v
Membership.v
Dkg.v
Lifecycle.v
Epoch.v
Server.v
Client.v
Cluster.v
Ceremony.v
Reshare.v
Refresh.v
Continuity.v
Testing.v
Shamir.v
CryptoTests.v
Ambient.v
Node.v
Main.v
Typed.v
ServiceTests.v
