(* ===== verification/Base.v ===== *)
(** * A threshold key-management cluster, verified

    The program (Rust, [src/src]) is the node of a cluster that jointly holds one BLS
    master key.  No node ever assembles the master: a coordinator collects partial
    signatures of a message that names an application and some material, combines a
    threshold of them, verifies the result under the group public key and derives a
    32-byte application key from it, which it hands, encrypted, to an authorised caller.
    Who may call is decided on an on-chain list of signers and on verdicts of an
    attestation service ("scan"); the shares are created by a distributed key generation
    and moved to a new polynomial (a new epoch) whenever a node recovers, catches up or an
    operator asks for a refresh.

    ** How the program is modelled

    [Prog] defines the programs: a free monad whose nodes are questions to the outside
    (RPCs, clock, file system, randomness), critical sections over the shared state, reads
    of the monotonic clock, sleeps and mutexes.  An [async fn] becomes one such program,
    with a node for every lock it takes, so that other tasks can run between two of them.
    [run] executes a program against an oracle that answers the questions, advances the
    clock and changes the shared state between any two steps; it computes.  [states] are
    the states a crash can leave.  [pool_step] interleaves several programs.  Four program
    logics are proved sound for [run] and used by the component files: [wp] (rely-guarantee
    weakest precondition, with time and the log of questions), [guar] (what every critical
    section changes), [safe] (partial correctness under an invariant other tasks keep, given
    that the answers satisfy a predicate) and [emits] (which questions are asked).

    [State] has the data: configuration, errors, peers, shares, session buffers, caches,
    counters and the file system as one [World] record, and the questions [Call] with their
    answer types [ans].

    Third-party code is an argument: the threshold-BLS library is the class
    [ThresholdScheme] with the laws [ThresholdLaws] ([Threshold]), everything else the class
    [Externals] with one named law per documented fact ([Externals]), the DKG library the
    class [Gennaro] ([Dkg]).  [Lagrange] proves, over any prime field and module, that
    interpolation in the exponent satisfies the threshold laws; [Models.Toy] is a small
    computable instance of all of them, on which the witnesses run; [Shamir] is another, in
    which sharing is Shamir sharing modulo a small prime and the DKG deals, checks and
    reshares polynomials, on which the cryptographic tests run.

    ** Files and what they model

    - [Base], [Prelude]: results and [?]; bytes, big-endian encodings, machine integers with
      their wrap-around, parsing and printing of integers, the shared list lemmas.
    - [Threshold], [Lagrange]: the sharing interface; Shamir sharing and
      [lagrange0] of the DKG tests of [crypto.rs].
    - [Zigzag], [UintOps] ([vendor/uint-zigzag]): the variable-length integers of the DKG
      library; their operators, mixed with every built-in integer type.
    - [Prog], [State], [Externals], [Models], [Shamir]: above.
    - [Crypto] ([crypto.rs]): messages, partials, combination, derivation, ECIES, signing.
    - [Seal] ([seal.rs]): the sealed share, its transport form and its file.
    - [Metrics], [Exposition] ([metrics.rs]): probe, write-once baseline, recovery clock,
      snapshot; the text of [/metrics], with a scraper to read it back.
    - [Tee] ([tee.rs]): the signing key from the mock variables or the tapp-server.
    - [Chain] ([chain.rs]): the nodeList cache and its refreshes.
    - [Verifier] ([verifier.rs]): configuration checks, pins, verdict cache, the gate.
    - [Pinning] ([verifier.rs]): the certificate check of the TLS client for scan, with an
      executable SHA-256, base64 and DER reader on which the openssl vector of its test runs.
    - [Auth] ([auth.rs]): inbound requests and peers' responses.
    - [Derive] ([grpc.rs]): responder, client and coordinator of a derivation.
    - [Gossip] ([grpc.rs]): the Gossip handler and the background round.
    - [Membership] ([init.rs]): the committee from chain and gossip, dealers, majority.
    - [Dkg] ([dkg.rs], [grpc.rs]): round buffers and the five-round session driver.
    - [Lifecycle] ([init.rs], [grpc.rs]): bootstrap, shard requests, genesis, recovery,
      dealers, refresh, sealed reload, the formation loop and the fall-behind watchdog.
    - [Epoch]: the epoch of a share across dealer sessions, alone and overlapping, with an
      executable scheduler of interleaved tasks.
    - [Server] ([server.rs]): [/app-key], [/refresh] and the read-only endpoints.
    - [Client] ([examples/dprf_client.rs]): the client, and its conversation with a node.
    - [Cluster]: a coordinator whose questions to its peers are answered by their handlers.
    - [Ceremony]: several session drivers at once, each on its own node, with what the
      network may put into their buffers; [drive] of the DKG tests of [crypto.rs] as the
      reference; genesis of a whole committee.
    - [Reshare], [Refresh]: the recovery of a member, and a refresh of the whole committee,
      with the dealers they asked, composed in the same way.
    - [Continuity]: a committee after genesis, recovery or refresh, serving derivations.
    - [Ambient]: what an invariant of the shared state has to promise so that every handler
      and background task keeps it (the classes [Ambient], [Gossiping] and [Adopting]).
    - [Node] ([main.rs], [config.rs], the router and the service): booting, the tasks of a
      running process and the steps of their interleaving with arriving requests.
    - [Main] ([main.rs]): the two server tasks, their panics and the end of the process, with
      the standard library's parser of socket addresses.
    - [Typed]: the machine types of the shared state as such an invariant.
    - [Testing], [CryptoTests], [ServiceTests]: the unit tests of [crypto.rs], [verifier.rs],
      [chain.rs], [seal.rs], [metrics.rs] and [main.rs], translated statement by statement and
      run on the model.

    ** What the theorems show

    - Issuing a key: only a registered, attested signer with a fresh timestamp gets one; it
      is the key of the requested application and material; it rests on a threshold of
      distinct indices of one epoch, verified under the group key; a threshold of honest
      members suffices whatever the others do; all coordinators and clients get the same
      key ([Server], [Derive], [Crypto], [Lagrange]).  End to end: members that run their
      handlers give the coordinator the key, and the client prints what the node derived
      ([Cluster], [Client]).
    - The process: what it answers in any reachable state after the boot is authorised, a
      node that holds a share keeps it and its master, the boot enforces the configuration
      and never panics, and the state stays within its machine types ([Node], [Typed],
      [Tee]); under a fair scheduler a panic of one of its servers ends it, and a node whose
      gRPC address does not parse exits without handling an RPC ([Main]).
    - Key generation: the drivers of a committee on separate nodes implement [drive]; a
      session whose messages have arrived completes; a genesis that all members complete
      leaves each with its share of one dealing and all with its group key, which is what
      [Cluster.honest_cluster_derives] asks of the members ([Ceremony], [Dkg]); a recovery or a
      refresh that all its participants complete leaves them with a new dealing of the same
      master, the recovered member included ([Reshare], [Refresh]); and the committee then
      answers every request with the key it had before ([Continuity]).
    - Conformance: the program's own unit tests hold of the model, mock servers included
      ([CryptoTests], [ServiceTests]).
    - The master: no session changes a known group key; genesis never runs next to a cluster
      a seed gives evidence of; a session is the five rounds of the protocol on what was
      received; a reshare on its own only moves the epoch forward; dealers sit on one epoch;
      majorities overlap; a baseline on disk is write-once ([Lifecycle], [Dkg], [Epoch],
      [Membership], [Metrics]).
    - What operators see: a scrape of [/metrics] reads back every counter and gauge, and the
      alert line on leading holders is exactly the gate of a recovery ([Exposition],
      [Lifecycle]).
    - Termination: the wait for scan and the fetch of the signing key end ([Verifier], [Tee]);
      the barrier of a DKG round ends at its deadline, loses no wake-up and reports a
      time-out only when the round is incomplete ([Dkg]).
    - Admission: the gate is fail closed, its staleness is bounded by 24 h, a revocation
      takes effect at once, the questions to scan are bounded, outages do not lock out
      verified signers; lists come from the registry, survive its outages and cost no RPC
      while warm; authentication is sound and complete; scan is whoever holds a pinned key
      ([Verifier], [Chain], [Auth], [Pinning]).
    - Persistence: a restart on the same disk gets back what was stored unless the peers have
      moved on, while the other tasks gossip; writing the file is atomic for one writer and
      not for two ([Seal], [Lifecycle]).
    - Encodings: derivation messages are injective and signed messages bind what they carry
      and never coincide across purposes ([Crypto]); variable-length integers are a prefix
      code that decoding inverts ([Zigzag]); their operators commute with the conversions
      between integer types and panic only in divisions ([UintOps]).
    - What the code does that its text does not say: the freshness check accepts
      [now - 2^63] ([Auth.timestamp_window_exact]), the signature of [/app-key] binds no
      recipient ([Server.app_key_signature_binds_no_recipient]), two concurrent writers can
      empty the share file ([Seal.concurrent_persist_can_truncate]), two overlapping dealer
      sessions can move the epoch back ([Epoch.overlapping_dealers_regress]), a restarted node
      takes up a share of a master its peers have abandoned
      ([Lifecycle.reload_ignores_the_cluster_master]), the messages of
      a failed session pass for those of the next ([Dkg.failed_session_leaves_its_messages]),
      [Uint::from_reader] consumes a byte too many ([Zigzag.from_reader_reads_ahead]), and the
      product of an iterator of [Uint]s is always zero ([UintOps.uint_product_is_zero]).

    Theorems that speak of interference quantify over every oracle whose interference keeps
    the stated invariant; those about timing and exact effects assume [quiet], that no other
    task runs during the call.  Theorems about provenance take predicates for what the
    registry, scan, the clock and the network answer, and are stated over the log of the run.

    ** Bounds and fuel

    [lag_fuel] bounds the wait for scan by the wait divided by the poll interval, plus one:
    each turn sleeps a full interval and the loop stops at the deadline, so it is never
    reached ([Verifier.scan_wait_terminates]; [Verifier.scan_is_asked_boundedly] counts the
    questions).  [wakes] bounds the wake-ups of [await_round] the model follows; reaching the
    bound has a result of its own, [out_of_wakes], which does not occur when the bound is the
    time-out in nanoseconds, since every wake-up takes time ([Dkg.barrier_meets_its_deadline]).
    [turns] bounds the turns of the endless loops (formation, watchdog, gossip); the theorems hold
    for every value of both.  All other recursions are structural.

    ** Modelling decisions

    [Completion_order] asks for the order in which the concurrent partial requests complete
    and the requests are then run in that order; concurrent sends whose results are only
    logged are run in sequence.  A mutex created on demand per key is identified by the key.
    A HashMap is a [gmap], so its iteration order is that of [map_to_list].  Times are
    nanoseconds; [elapsed] saturates at 0.  Integers keep their width where they can wrap
    ([wrap_i64], [wrap_u64]); the arithmetic is that of a release build.  A header value is
    its bytes; [str::trim] is modelled on ASCII white space, [Path::with_file_name] on paths
    that end in a plain file name.  Building an HTTP client can fail, which is the argument
    [builds] of [Verifier_new].  A panic that the source can reach by an [unwrap] is an
    [outcome] of its own.  The dealer session a [StartReshare] call spawns runs as the
    continuation of that call's task, so the call is counted as answered when it is over.
    The clock that is read under a write guard is read just before it.  Positions in the
    on-chain list and participant ids are unbounded integers: lists are shorter than [2^32].
    A crash is the end of the process: what it has written to files stays.
    In [Ceremony], [Reshare] and [Refresh] the network may lose, delay, repeat and reorder messages, but what a buffer
    of the session holds was sent to its node by the party it names, in this ceremony
    ([authentic]; [handler_authentic] shows that the [DkgRound] handler keeps it so).  A mock
    server of a test is an oracle, and the number of requests it expects is read off the log.

    ** Not modelled

    The servers of axum and tonic (a request is a task that starts), the log writer, the
    loss of file data not yet synced in a power failure ([write_blob_file] never syncs), the
    signatures of TLS handshakes (which the verifier hands to the TLS library), the tapp
    service behind [tee.rs], and the build script with the generated protocol code: these are
    third-party or generated code the sources only call.  One unit test is about third-party
    code alone and has no counterpart, the log appender of [main.rs].  The TOML and JSON
    libraries, the syntax check of the log filter and [Channel::from_shared] are arguments of
    the definitions that use them. *)

Declare Scope kms_scope.
Delimit Scope kms_scope with kms.
Open Scope kms_scope.

(** * Results and the [?] operator *)

Inductive result (A E : Type) : Type :=
| Ok (a : A)
| Err (e : E).
Arguments Ok {A E} a.
Arguments Err {A E} e.

Definition is_ok {A E} (r : result A E) : bool :=
  match r with Ok _ => true | Err _ => false end.

Definition map_err {A E F} (f : E -> F) (r : result A E) : result A F :=
  match r with Ok a => Ok a | Err e => Err (f e) end.

Definition ok_or {A E} (o : option A) (e : E) : result A E :=
  match o with Some a => Ok a | None => Err e end.

Definition result_bind {A B E} (r : result A E) (k : A -> result B E) : result B E :=
  match r with Ok a => k a | Err e => Err e end.

Notation "'let?' x ':=' e 'in' k" := (result_bind e (fun x => k))
  (at level 200, x pattern, e at level 100, k at level 200, right associativity) : kms_scope.
