(* ===== verification/Threshold.v ===== *)
(** The interface between the threshold-BLS library ([blsful], instantiated over
    BLS12-381 with public keys in G1) and the program: the operations
    [src/src/crypto.rs] calls, and the documented laws the derivation relies on.
    [Lagrange] shows that in-group Lagrange interpolation satisfies the laws;
    [Crypto] and [Derive] are proved against the interface.  This file is plain
    Standard Library so that both MathComp and stdpp developments can use it. *)
From S2P Require Import Base.
From Stdlib Require Import String List.
From Stdlib.Strings Require Import Byte.

Class ThresholdScheme : Type := {
  Scalar : Type;
  SecretKeyShare : Type;
  SignatureShare : Type;
  Signature : Type;
  PublicKey : Type;
  (** [Scalar::from(id as u64)]. *)
  scalar_from : nat -> Scalar;
  (** [SecretKeyShare(DefaultShare { identifier, value })] and its fields. *)
  default_share : Scalar -> Scalar -> SecretKeyShare;
  share_value : SecretKeyShare -> Scalar;
  (** [share.sign(SignatureSchemes::Basic, msg)]. *)
  share_sign : SecretKeyShare -> list byte -> result SignatureShare string;
  (** [Signature::from_shares(partials)]. *)
  from_shares : list SignatureShare -> result Signature string;
  (** [sigma.verify(&pk, msg)]. *)
  sig_verify : Signature -> PublicKey -> list byte -> result unit string
}.

(** What a sharing with reconstruction threshold [t] promises.  A [Dealing] is the
    outcome of one genesis or reshare (one polynomial, hence one epoch); [dealt d i]
    is the scalar participant [i] holds of it, [group_key d] its group public key. *)
Class ThresholdLaws (T : ThresholdScheme) (t : nat) : Type := {
  Dealing : Type;
  dealt : Dealing -> nat -> Scalar;
  group_key : Dealing -> PublicKey;
  (** Participant identifiers the scheme can tell apart. *)
  valid_id : nat -> Prop;
  (** An honest share signs. *)
  sign_total : forall d i msg, valid_id i ->
    exists p, share_sign (default_share (scalar_from i) (dealt d i)) msg = Ok p;
  (** Any [t] or more honest partials of one dealing combine to a signature that
      verifies under its group public key. *)
  combine_honest : forall d ids ps msg,
    NoDup ids -> Forall valid_id ids -> t <= length ids ->
    Forall2 (fun i p => share_sign (default_share (scalar_from i) (dealt d i)) msg = Ok p) ids ps ->
    exists s, from_shares ps = Ok s /\ sig_verify s (group_key d) msg = Ok tt;
  (** BLS signatures are unique: a public key and a message have one signature. *)
  sig_unique : forall pk msg s s',
    sig_verify s pk msg = Ok tt -> sig_verify s' pk msg = Ok tt -> s = s'
}.
