(* ===== verification/Lagrange.v ===== *)
(** The algebra behind the threshold derivation: Shamir sharing over a field [F] with
    partial signatures in an [F]-module [V], combined by Lagrange interpolation at 0
    (the [lagrange0] of the DKG tests of [src/src/crypto.rs], and what
    [Signature::from_shares] computes in the group).  The theorems are the ones the
    header comment of [crypto.rs] states: any [t] or more shares of one polynomial
    yield [s·H(msg)], fewer than [t] shares are compatible with every master, and shares
    of two polynomials do not combine.  [lagrange_laws] discharges the interface of
    [Threshold]. *)
From S2P Require Import Base Threshold.
From Stdlib Require Import String List.
From Stdlib.Strings Require Import Byte.
From mathcomp Require Import boot algebra.
Set Implicit Arguments.
Unset Strict Implicit.
Unset Printing Implicit Defensive.
Import GRing.Theory.
Local Open Scope ring_scope.

Section Lagrange.
Variables (F : fieldType) (V : lmodType F).

(** The Lagrange coefficient at 0 of the point [x] among the points [xs]: the product
    of [xj / (xj - x)] over the other points. *)
Definition lambda0 (xs : seq F) (x : F) : F :=
  \prod_(xj <- xs | xj != x) (xj / (xj - x)).

(** Interpolation at 0 of points [(x, y)] with values in the module. *)
Definition combine (pts : seq (F * V)) : V :=
  \sum_(p <- pts) lambda0 (unzip1 pts) p.1 *: p.2.

End Lagrange.

(** The Lagrange basis polynomial of [x] among [xs]. *)
Definition basis (F : fieldType) (xs : seq F) (x : F) : {poly F} :=
  \prod_(xj <- xs | xj != x) ((xj - x)^-1 *: (xj%:P - 'X)).

Section Scalars.
Variable F : fieldType.

(** [lagrange0] of [crypto.rs]: the other points are told apart by their index, the
    numerator and the denominator are accumulated separately, and the denominator is
    inverted once. *)
Definition lagrange0 (points : seq (F * F)) : F :=
  let x i := (nth (0, 0) points i).1 in
  let y i := (nth (0, 0) points i).2 in
  \sum_(i < size points)
     y i * (\prod_(j < size points | j != i) x j) *
     (\prod_(j < size points | j != i) (x j - x i))^-1.

End Scalars.

(** * Interpolation *)

Section Interpolation.
Variable F : fieldType.
Implicit Types (xs : seq F) (f : {poly F}).

Lemma size_basis xs x : uniq xs -> x \in xs -> (size (basis xs x) <= size xs)%N.
Proof.
move=> U Hx; rewrite /basis (perm_big _ (perm_to_rem Hx)) big_cons eqxx /=.
have -> : size xs = (size (rem x xs)).+1.
  by rewrite size_rem // prednK //; case: xs Hx {U}.
elim: (rem x xs) => [|a s IH]; first by rewrite big_nil size_poly1.
rewrite big_cons; case: ifP => _; last exact: leq_trans IH _.
apply: leq_trans (size_polyMleq _ _) _.
have A : (size ((a - x)^-1 *: (a%:P - 'X))%R <= 2)%N.
  apply: leq_trans (size_scale_leq _ _) _.
  apply: leq_trans (size_polyD _ _) _.
  by rewrite size_polyN size_polyX geq_max (leq_trans (size_polyC_leq1 _)).
by move: (leq_add A IH); case: (_ + _)%N.
Qed.

Lemma basis_self xs x : (basis xs x).[x] = 1.
Proof.
rewrite /basis horner_prod; apply: big1 => xj N.
by rewrite hornerZ !hornerE mulVf // subr_eq0.
Qed.

Lemma basis_other xs x z : z \in xs -> z != x -> (basis xs x).[z] = 0.
Proof.
move=> Hz N; rewrite /basis horner_prod (big_rem z) //= N.
by rewrite hornerZ !hornerE subrr mulr0 mul0r.
Qed.

Lemma basis_0 xs x : (basis xs x).[0] = lambda0 xs x.
Proof.
rewrite /basis horner_prod; apply: eq_bigr => xj _.
by rewrite hornerZ !hornerE subr0 mulrC.
Qed.

(** A polynomial of size at most the number of points is its interpolation. *)
Lemma interpolate xs f :
  uniq xs -> (size f <= size xs)%N -> f = \sum_(x <- xs) f.[x] *: basis xs x.
Proof.
move=> U S; set q := \sum_(x <- xs) _.
apply/eqP; rewrite -subr_eq0; apply/negPn/negP => N.
have Sq : (size q <= size xs)%N.
  rewrite /q big_seq; elim/big_ind: _ => [|p1 p2 S1 S2|x Hx].
  - by rewrite size_poly0.
  - by apply: leq_trans (size_polyD _ _) _; rewrite geq_max S1.
  - by apply: leq_trans (size_scale_leq _ _) _; apply: size_basis.
have Sd : (size (f - q)%R <= size xs)%N.
  by apply: leq_trans (size_polyD _ _) _; rewrite size_polyN geq_max S.
have R : all (root (f - q)) xs.
  apply/allP => z Hz; rewrite rootE !hornerE /q horner_sum (big_rem z) //=.
  rewrite hornerZ basis_self mulr1 big_seq big1 ?addr0 ?subrr // => x.
  rewrite mem_rem_uniq // inE => /andP [Nx _].
  by rewrite hornerZ basis_other ?mulr0 // eq_sym.
by move: (max_poly_roots N R U); rewrite ltnNge Sd.
Qed.

Lemma lambda0_sum xs f :
  uniq xs -> (size f <= size xs)%N -> \sum_(x <- xs) lambda0 xs x * f.[x] = f.[0].
Proof.
move=> U S; rewrite [in RHS](interpolate U S) horner_sum.
by apply: eq_bigr => x _; rewrite hornerZ basis_0 mulrC.
Qed.

Lemma lambda0_neq0 xs x : 0 \notin xs -> lambda0 xs x != 0.
Proof.
move=> Z; rewrite /lambda0 prodf_seq_neq0; apply/allP => xj Hj; apply/implyP => N.
rewrite mulf_neq0 ?invr_eq0 ?subr_eq0 //.
by apply: contraNneq Z => <-.
Qed.

(** [lagrange0] computes the interpolation at 0. *)
Lemma lagrange0_combine (points : seq (F * F)) :
  uniq (unzip1 points) -> lagrange0 points = combine (V := F^o) points.
Proof.
move=> U; rewrite /lagrange0 /combine (big_nth (0, 0)) big_mkord; apply: eq_bigr => i _.
rewrite /lambda0 /unzip1 big_map (big_nth (0, 0)) big_mkord prodf_div /GRing.scale /=.
have E : forall j : 'I_(size points),
  ((nth (0, 0) points j).1 != (nth (0, 0) points i).1) = (j != i).
  move=> j; rewrite -!(nth_map _ 0 fst) //.
  by rewrite nth_uniq ?size_map //.
rewrite !(eq_bigl _ _ E).
by rewrite [RHS]mulrC mulrA.
Qed.

End Interpolation.

Section Sharing.
Variable F : fieldType.
Implicit Types (xs ys : seq F) (f : {poly F}).

Definition shares f xs : seq (F * F) := [seq (x, f.[x]) | x <- xs].

Lemma unzip1_shares f xs : unzip1 (shares f xs) = xs.
Proof. by rewrite /shares /unzip1 -map_comp map_id. Qed.

Lemma combine_shares (V : lmodType F) f xs (h : V) :
  uniq xs -> (size f <= size xs)%N ->
  combine [seq (x, f.[x] *: h) | x <- xs] = f.[0] *: h.
Proof.
move=> U S; rewrite /combine.
have -> : unzip1 [seq (x, f.[x] *: h) | x <- xs] = xs by rewrite /unzip1 -map_comp map_id.
rewrite big_map /= -(lambda0_sum U S) scaler_suml.
by apply: eq_bigr => x _; rewrite scalerA.
Qed.

Lemma lagrange0_shares f xs :
  uniq xs -> (size f <= size xs)%N -> lagrange0 (shares f xs) = f.[0].
Proof.
move=> U S; rewrite lagrange0_combine ?unzip1_shares //.
rewrite /combine unzip1_shares big_map /= -(lambda0_sum U S).
by apply: eq_bigr.
Qed.

(** Any [t] or more shares of one polynomial of size at most [t] (degree below
    the threshold) interpolate to its value at 0, the master, whichever shares they
    are: this is why every threshold subset derives the same key. *)
Theorem lagrange0_threshold_subset f xs t :
  (size f <= t)%N -> uniq xs -> (t <= size xs)%N -> lagrange0 (shares f xs) = f.[0].
Proof. by move=> S U T; apply: lagrange0_shares => //; apply: leq_trans S T. Qed.

(** Epochs must not be mixed.  Replacing one share of the new polynomial [f'] by
    the same node's share of the old polynomial [f] of the same master makes the
    interpolation wrong, unless the refresh left that very share unchanged. *)
Theorem mixed_epochs_wrong f f' x ys :
  f.[0] = f'.[0] -> uniq (x :: ys) -> 0 \notin x :: ys -> (size f' <= (size ys).+1)%N ->
  (lagrange0 ((x, f.[x]) :: shares f' ys) == f.[0]) = (f.[x] == f'.[x]).
Proof.
move=> E U Z S.
have U' : uniq (unzip1 ((x, f.[x]) :: shares f' ys)) by rewrite /= unzip1_shares.
rewrite lagrange0_combine // /combine /= unzip1_shares big_cons big_map /=.
have := lambda0_sum U S; rewrite big_cons E => <-.
rewrite (inj_eq (addIr _)) /GRing.scale /= (inj_eq (mulfI _)) //.
exact: lambda0_neq0.
Qed.

(** Fewer than [t] shares reveal nothing: for every candidate master [s] there is
    a sharing with threshold [t] that agrees with the given one on all those shares and
    whose threshold subsets interpolate to [s]. *)
Theorem subthreshold_shares_fit_any_master f xs t s :
  uniq (0 :: xs) -> (size xs < t)%N -> (size f <= t)%N ->
  exists f', [/\ (size f' <= t)%N, shares f' xs = shares f xs &
    forall ys, uniq ys -> (t <= size ys)%N -> lagrange0 (shares f' ys) = s].
Proof.
move=> U L S; pose f' := f + (s - f.[0]) *: basis (0 :: xs) 0.
have Sf : (size f' <= t)%N.
  apply: leq_trans (size_polyD _ _) _; rewrite geq_max S /=.
  apply: leq_trans (size_scale_leq _ _) _.
  by apply: leq_trans (size_basis U (mem_head _ _)) _.
exists f'; split=> // [|ys Uy Ty].
- apply/eq_in_map => x Hx; congr pair; rewrite !hornerE basis_other ?mulr0 ?addr0 //.
    by rewrite inE Hx orbT.
  by move: U => /= /andP [N _]; apply: contraNneq N => <-.
- rewrite lagrange0_shares ?(leq_trans Sf) // !hornerE basis_self mulr1.
  by rewrite addrC subrK.
Qed.

End Sharing.

(** * The interface of [Threshold], discharged *)

Section Instance.
Variables (p : nat) (p_prime : prime p) (V : lmodType 'F_p) (H : list byte -> V) (t : nat).

(** Secret shares and partial signatures are points; the public key of the master
    [s] stands for [s·G], with verification against [s·H(msg)]. *)
Definition lagrange_scheme : ThresholdScheme := {|
  Scalar := 'F_p;
  SecretKeyShare := 'F_p * 'F_p;
  SignatureShare := 'F_p * V;
  Signature := V;
  PublicKey := 'F_p;
  scalar_from i := i%:R;
  default_share identifier value := (identifier, value);
  share_value sh := sh.2;
  share_sign sh msg := Ok (sh.1, sh.2 *: H msg);
  from_shares ps :=
    if uniq (unzip1 ps) then Ok (combine ps) else Err "duplicate identifier"%string;
  sig_verify s pk msg := if s == pk *: H msg then Ok tt else Err "invalid"%string
|}.

Lemma natr_inj_small i j : (i < p)%N -> (j < p)%N -> (i%:R == j%:R :> 'F_p) = (i == j).
Proof.
move=> Hi Hj; rewrite -val_eqE /= !val_Fp_nat //.
by rewrite !modn_small.
Qed.

Lemma map_id_shares (f : {poly 'F_p}) (ids : list nat) msg (ps : list ('F_p * V)) :
  Forall2 (fun i q => share_sign (ThresholdScheme := lagrange_scheme) (i%:R, f.[i%:R]) msg = Ok q) ids ps ->
  ps = [seq (x, f.[x] *: H msg) | x <- [seq i%:R | i <- ids]].
Proof. by elim=> [|i q ids' ps' [<-] _ ->]. Qed.

Lemma uniq_natr (ids : list nat) :
  NoDup ids -> Forall (fun i => (0 < i < p)%N) ids -> uniq [seq i%:R : 'F_p | i <- ids].
Proof.
elim: ids => //= i ids IH N A; inversion N as [|? ? Ni N']; inversion A as [|? ? Ai A']; subst.
rewrite IH // andbT; apply/negP => /mapP [j Hj E]; apply: Ni.
case/andP: Ai => _ Hi.
have Hjp : (j < p)%N.
  by elim: A' Hj => // k l /andP [_ Hk] _ IHl; rewrite inE => /orP [/eqP ->|/IHl].
have := natr_inj_small Hi Hjp; rewrite E eqxx => /esym/eqP ->.
elim: ids Hj {IH N A N' A'} => // k l IHl; rewrite inE => /orP [/eqP ->|/IHl]; by [left|right].
Qed.

Lemma lagrange_combine_honest (f : {poly 'F_p}) (ids : list nat) (ps : list ('F_p * V)) msg :
  (size f <= t)%N -> NoDup ids -> Forall (fun i => (0 < i < p)%N) ids -> (t <= length ids)%coq_nat ->
  Forall2 (fun i q => share_sign (ThresholdScheme := lagrange_scheme) (i%:R, f.[i%:R]) msg = Ok q) ids ps ->
  exists s, from_shares (ThresholdScheme := lagrange_scheme) ps = Ok s /\
            sig_verify (ThresholdScheme := lagrange_scheme) s f.[0] msg = Ok tt.
Proof.
move=> S N A T E; rewrite (map_id_shares E) /=.
have U := uniq_natr N A.
have -> : unzip1 [seq (x, f.[x] *: H msg) | x <- [seq i%:R | i <- ids]] = [seq i%:R | i <- ids].
  by rewrite /unzip1 -map_comp map_id.
rewrite U; eexists; split; first reflexivity.
rewrite combine_shares ?eqxx // size_map; apply: leq_trans S _; exact/leP.
Qed.

#[local] Obligation Tactic := idtac.

(** Lagrange interpolation in a module over a prime field is a threshold scheme in the
    sense of [Threshold], for every threshold [t]. *)
Program Definition lagrange_laws : ThresholdLaws lagrange_scheme t := {|
  Dealing := { f : {poly 'F_p} | (size f <= t)%N };
  dealt d i := (proj1_sig d).[i%:R];
  group_key d := (proj1_sig d).[0];
  valid_id i := (0 < i < p)%N
|}.
Next Obligation. move=> d i msg Hi; eexists; reflexivity. Qed.
Next Obligation. move=> [f S] ids ps msg N A T E; apply: (lagrange_combine_honest S N A T E). Qed.
Next Obligation.
by move=> pk msg s s' /=; case: eqP => // -> _; case: eqP.
Qed.

End Instance.

(** * The hypotheses hold: a 2-of-3 sharing over the rationals *)

Definition ex_f : {poly rat} := Poly [:: 5%:R; 3%:R].
Definition ex_f' : {poly rat} := Poly [:: 5%:R; 7%:R].

Lemma lagrange0_threshold_subset_witness :
  lagrange0 (shares ex_f [:: 1; 3%:R]) = ex_f.[0].
Proof.
by apply: (@lagrange0_threshold_subset _ _ _ 2) => //; apply: size_Poly.
Defined.

Lemma mixed_epochs_wrong_witness :
  (lagrange0 ((1, ex_f.[1]) :: shares ex_f' [:: 2%:R]) == ex_f.[0]) = (ex_f.[1] == ex_f'.[1]).
Proof.
apply: mixed_epochs_wrong => //; last exact: size_Poly.
by rewrite /ex_f /ex_f' !horner_Poly /= !mulr0 !add0r.
Defined.

Lemma subthreshold_shares_fit_any_master_witness :
  exists f' : {poly rat}, [/\ (size f' <= 2)%N, shares f' [:: 1] = shares ex_f [:: 1] &
    forall ys, uniq ys -> (2 <= size ys)%N -> lagrange0 (shares f' ys) = 11%:R].
Proof.
by apply: subthreshold_shares_fit_any_master => //; apply: size_Poly.
Defined.
