(* ===== verification/Prelude.v ===== *)
(** Bytes, machine integers, and the parts of the Rust standard library on lists and
    strings that several components use; the development's hint database and tactics. *)
From S2P Require Import Base.
From Stdlib Require Import Ascii String ZArith Lia.
From Stdlib.Strings Require Import Byte.
From stdpp Require Import base list gmap strings pretty sorting.

#[global] Set Default Goal Selector "!".
Local Open Scope Z_scope.

(** * Bytes, and big-endian integers *)

Abbreviation bytes := (list Byte.byte).

Definition Z_of_byte (b : Byte.byte) : Z := Z.of_N (Byte.to_N b).

(** [x as u8]: truncation to the low eight bits. *)
Definition byte_of_Z (z : Z) : Byte.byte :=
  match Byte.of_N (Z.to_N (z mod 256)) with Some b => b | None => Byte.x00 end.

Definition str_bytes (s : string) : bytes := list_byte_of_string s.

(** [z.to_be_bytes()] for an integer of [n] bytes. *)
Fixpoint be_bytes (n : nat) (z : Z) : bytes :=
  match n with
  | O => []
  | S n => be_bytes n (z / 256) ++ [byte_of_Z z]
  end.

Fixpoint le_value (l : bytes) : Z :=
  match l with [] => 0 | b :: l => Z_of_byte b + 256 * le_value l end.

(** The inverse of [be_bytes]: [uN::from_be_bytes]. *)
Definition be_value (l : bytes) : Z := le_value (reverse l).

(** * Machine integers *)

Definition in_u32 (z : Z) : Prop := 0 <= z < 2 ^ 32.
Definition in_u64 (z : Z) : Prop := 0 <= z < 2 ^ 64.
Definition in_i64 (z : Z) : Prop := - 2 ^ 63 <= z < 2 ^ 63.
Definition wrap_u64 (z : Z) : Z := z mod 2 ^ 64.
Definition wrap_i64 (z : Z) : Z := (z + 2 ^ 63) mod 2 ^ 64 - 2 ^ 63.
(** [i64::abs], which leaves [i64::MIN] unchanged when overflow checks are off. *)
Definition i64_abs (z : Z) : Z := wrap_i64 (Z.abs z).

(** * Standard-library list and string operations the program uses *)

(** [iter().position(p)]. *)
Fixpoint position {A} (p : A -> bool) (l : list A) : option nat :=
  match l with
  | [] => None
  | x :: l => if p x then Some O else option_map S (position p l)
  end.

(** [iter().max().unwrap_or(0)] on unsigned integers. *)
Definition max_or_0 (l : list Z) : Z := fold_right Z.max 0 l.

(** [Vec::dedup]: drop consecutive repetitions. *)
Fixpoint dedup {A} `{EqDecision A} (l : list A) : list A :=
  match l with
  | [] => []
  | x :: l' =>
      match l' with
      | [] => [x]
      | y :: _ => if decide (x = y) then dedup l' else x :: dedup l'
      end
  end.

(** [s.trim_start_matches("0x")]: every leading occurrence is removed. *)
Fixpoint trim_0x (s : string) : string :=
  match s with
  | String "0"%char (String "x"%char s') => trim_0x s'
  | _ => s
  end.

(** ASCII white space, the part of [str::trim] the configuration values meet. *)
Definition is_ws (c : Ascii.ascii) : bool :=
  let n := Ascii.nat_of_ascii c in (n =? 32)%nat || ((9 <=? n) && (n <=? 13))%nat.

Fixpoint trim_start (s : string) : string :=
  match s with
  | String c s' => if is_ws c then trim_start s' else s
  | EmptyString => s
  end.

Fixpoint trim_end (s : string) : string :=
  match s with
  | EmptyString => EmptyString
  | String c s' =>
      match trim_end s' with
      | EmptyString => if is_ws c then EmptyString else String c EmptyString
      | r => String c r
      end
  end.

Definition trim (s : string) : string := trim_end (trim_start s).

(** Lower-case hexadecimal digits, and visible ASCII (what an HTTP header value may hold). *)
Definition lower_hex_char (c : Ascii.ascii) : bool :=
  let n := Ascii.nat_of_ascii c in ((48 <=? n) && (n <=? 57) || (97 <=? n) && (n <=? 102))%nat.

Fixpoint string_forall (p : Ascii.ascii -> bool) (s : string) : bool :=
  match s with EmptyString => true | String c s => p c && string_forall p s end.

Definition lower_hex (s : string) : bool := string_forall lower_hex_char s.

Definition visible_char (c : Ascii.ascii) : bool :=
  let n := Ascii.nat_of_ascii c in ((32 <=? n) && (n <? 127) || (n =? 9))%nat.

(** [str::parse::<i64>]: an optional sign and at least one decimal digit, in range. *)
Definition digit (c : Ascii.ascii) : option Z :=
  let n := Z.of_nat (Ascii.nat_of_ascii c) in
  if (48 <=? n) && (n <=? 57) then Some (n - 48) else None.

Fixpoint parse_digits (acc : Z) (s : string) : option Z :=
  match s with
  | EmptyString => Some acc
  | String c s => match digit c with Some d => parse_digits (10 * acc + d) s | None => None end
  end.

Definition parse_nat_lit (s : string) : option Z :=
  match s with EmptyString => None | _ => parse_digits 0 s end.

Definition parse_int (s : string) : option Z :=
  match s with
  | String "+"%char s' => parse_nat_lit s'
  | String "-"%char s' => option_map Z.opp (parse_nat_lit s')
  | _ => parse_nat_lit s
  end.

Definition parse_i64 (s : string) : option Z :=
  match parse_int s with
  | Some z => if (- 2 ^ 63 <=? z) && (z <? 2 ^ 63) then Some z else None
  | None => None
  end.

(** [Duration::from_secs], in nanoseconds; and [Instant::elapsed], which saturates. *)
Definition secs (n : Z) : Z := n * 1000000000.
Definition elapsed (now since : Z) : Z := Z.max 0 (now - since).

(** How a call that may panic ends. *)
Inductive outcome (A : Type) : Type :=
| Returned (a : A)
| Panicked (m : string).
Arguments Returned {A} a.
Arguments Panicked {A} m.

(** [<[u8; n]>::try_from]. *)
Definition to_array (n : nat) (b : bytes) : option bytes :=
  if (length b =? n)%nat then Some b else None.

(** * Automation *)

Create HintDb kms.

(** Case analysis on the scrutinee of a match in the goal or a hypothesis. *)
Ltac split_match :=
  match goal with
  | |- context [match ?x with _ => _ end] => destruct x eqn:?
  | H : context [match ?x with _ => _ end] |- _ => destruct x eqn:?
  end.
Ltac crush := repeat (simplify_eq/=; try split_match); simplify_eq/=; auto with kms.

(** * Lemmas on bytes *)

Lemma Z_of_byte_range b : 0 <= Z_of_byte b < 256.
Proof. unfold Z_of_byte. pose proof (Byte.to_N_bounded b). lia. Qed.

Lemma Z_of_byte_inj a b : Z_of_byte a = Z_of_byte b -> a = b.
Proof.
  unfold Z_of_byte. intros H%N2Z.inj.
  pose proof (Byte.of_to_N a). pose proof (Byte.of_to_N b). congruence.
Qed.

Lemma Z_of_byte_of_Z z : Z_of_byte (byte_of_Z z) = z mod 256.
Proof.
  unfold byte_of_Z, Z_of_byte. pose proof (Z.mod_pos_bound z 256 eq_refl) as B.
  destruct (Byte.of_N (Z.to_N (z mod 256))) eqn:E.
  - apply Byte.to_of_N in E. rewrite E. lia.
  - apply Byte.of_N_None_iff in E. lia.
Qed.

Lemma byte_of_Z_of_byte b : byte_of_Z (Z_of_byte b) = b.
Proof.
  apply Z_of_byte_inj. rewrite Z_of_byte_of_Z. apply Z.mod_small, Z_of_byte_range.
Qed.

Lemma length_be_bytes n z : length (be_bytes n z) = n.
Proof. revert z. induction n; intros z; [done|]. simpl. rewrite length_app, IHn. simpl. lia. Qed.

Lemma be_value_be_bytes n z : be_value (be_bytes n z) = z mod 256 ^ Z.of_nat n.
Proof.
  unfold be_value. revert z. induction n as [|n IH]; intros z.
  - simpl. by rewrite Z.mod_1_r.
  - cbn [be_bytes]. rewrite reverse_app, reverse_singleton. simpl.
    rewrite Z_of_byte_of_Z, IH. rewrite Nat2Z.inj_succ, Z.pow_succ_r by lia.
    rewrite Z.rem_mul_r by lia. lia.
Qed.

(** Fixed-width encodings are injective on the width's range. *)
Lemma be_bytes_inj n x y :
  0 <= x < 256 ^ Z.of_nat n -> 0 <= y < 256 ^ Z.of_nat n ->
  be_bytes n x = be_bytes n y -> x = y.
Proof.
  intros Hx Hy H%(f_equal be_value). rewrite !be_value_be_bytes in H.
  by rewrite !Z.mod_small in H.
Qed.

Lemma u32_be_inj x y : in_u32 x -> in_u32 y -> be_bytes 4 x = be_bytes 4 y -> x = y.
Proof. unfold in_u32. intros. eapply (be_bytes_inj 4); [simpl; lia..|done]. Qed.

Lemma u64_be_inj x y : in_u64 x -> in_u64 y -> be_bytes 8 x = be_bytes 8 y -> x = y.
Proof. unfold in_u64. intros. eapply (be_bytes_inj 8); [simpl; lia..|done]. Qed.

Lemma str_bytes_inj s t : str_bytes s = str_bytes t -> s = t.
Proof.
  unfold str_bytes. intros H%(f_equal string_of_list_byte).
  by rewrite !string_of_list_byte_of_string in H.
Qed.

Lemma str_bytes_app s t : str_bytes (s +:+ t) = str_bytes s ++ str_bytes t.
Proof.
  unfold str_bytes. induction s as [|c s IH]; [done|].
  change (list_byte_of_string (String c s +:+ t))
    with (byte_of_ascii c :: list_byte_of_string (s +:+ t)). by rewrite IH.
Qed.

(** * Lemmas on machine integers *)

Lemma wrap_i64_id z : in_i64 z -> wrap_i64 z = z.
Proof. unfold in_i64, wrap_i64. intros. rewrite Z.mod_small by lia. lia. Qed.

Lemma wrap_u64_id z : in_u64 z -> wrap_u64 z = z.
Proof. unfold in_u64, wrap_u64. intros. by rewrite Z.mod_small. Qed.

(** Printing an [i64] and parsing it back. *)
Lemma digit_pretty (x : N) : (x < 10)%N -> digit (pretty_N_char x) = Some (Z.of_N x).
Proof.
  intros H. assert (Z.of_N x ∈ seqZ 0 10) as Hin by (apply elem_of_seqZ; lia). clear H.
  assert (forall z, z ∈ seqZ 0 10 -> digit (pretty_N_char (Z.to_N z)) = Some z) as Hall.
  { apply Forall_forall. by repeat constructor. }
  rewrite <-(N2Z.id x) at 1. by apply Hall.
Qed.

Lemma parse_digits_pretty (x : N) s :
  parse_digits 0 (pretty_N_go x s) = parse_digits (Z.of_N x) s.
Proof.
  revert s. induction (N.lt_wf_0 x) as [x _ IH]; intros s.
  destruct (decide (x = 0%N)) as [->|Hx]; [done|].
  rewrite pretty_N_go_step by lia. rewrite IH by (apply N.div_lt; lia).
  simpl. rewrite digit_pretty by (apply N.mod_lt; lia). f_equal.
  rewrite N2Z.inj_div, N2Z.inj_mod. pose proof (Z.div_mod (Z.of_N x) 10). lia.
Qed.

Lemma pretty_N_go_ne x s c : pretty_N_go x (String c s) <> EmptyString.
Proof.
  revert s c. induction (N.lt_wf_0 x) as [x _ IH]; intros s c.
  destruct (decide (x = 0%N)) as [->|Hx]; [done|].
  rewrite pretty_N_go_step by lia. apply IH, N.div_lt; lia.
Qed.

Lemma parse_nat_lit_pretty (x : N) :
  parse_nat_lit (pretty x) = Some (Z.of_N x) /\
  forall c s, pretty x = String c s -> is_Some (digit c).
Proof.
  unfold pretty, pretty_N. case_decide as Hx; [subst; split; [done|by intros c s [= <- <-]]|].
  assert (pretty_N_go x "" <> EmptyString) as Hne.
  { rewrite pretty_N_go_step by lia. apply pretty_N_go_ne. }
  pose proof (parse_digits_pretty x "") as Hp. split.
  - unfold parse_nat_lit. destruct (pretty_N_go x "") eqn:E; [done|]. by rewrite Hp.
  - intros c s E. rewrite E in Hp. simpl in Hp. destruct (digit c); [by eexists|done].
Qed.

Lemma parse_int_pretty (z : Z) : parse_int (pretty z) = Some z.
Proof.
  destruct z as [|p|p]; [done|..].
  - change (pretty (Z.pos p)) with (pretty (N.pos p)). destruct (parse_nat_lit_pretty (N.pos p)) as [Hp Hd].
    destruct (pretty (N.pos p)) as [|c s] eqn:E; [done|]. specialize (Hd c s eq_refl).
    destruct c as [[] [] [] [] [] [] [] []]; try exact Hp; destruct Hd as [x Hx]; discriminate Hx.
  - destruct (parse_nat_lit_pretty (N.pos p)) as [Hp _].
    change (option_map Z.opp (parse_nat_lit (pretty (N.pos p))) = Some (Z.neg p)). by rewrite Hp.
Qed.

Lemma parse_i64_pretty z : in_i64 z -> parse_i64 (pretty z) = Some z.
Proof.
  intros [Hl Hh]. unfold parse_i64. rewrite parse_int_pretty.
  rewrite (proj2 (Z.leb_le _ _)), (proj2 (Z.ltb_lt _ _)) by lia. done.
Qed.

Lemma map_err_Ok {A E F} (f : E -> F) (r : result A E) a : map_err f r = Ok a <-> r = Ok a.
Proof. destruct r; simpl; naive_solver. Qed.

Lemma str_app_assoc (a b c : string) : a +:+ (b +:+ c) = (a +:+ b) +:+ c.
Proof.
  induction a as [|x a IH]; [done|].
  change (String x (a +:+ (b +:+ c)) = String x ((a +:+ b) +:+ c)). by rewrite IH.
Qed.

(** ** Header-safe strings *)

Lemma string_forall_mono (p q : Ascii.ascii -> bool) s :
  (forall c, p c = true -> q c = true) -> string_forall p s = true -> string_forall q s = true.
Proof.
  intros Hpq. induction s as [|c s IH]; simpl; [done|]. rewrite !andb_true_iff. naive_solver.
Qed.

Lemma lower_hex_visible s : lower_hex s = true -> string_forall visible_char s = true.
Proof.
  apply string_forall_mono. intros c. unfold lower_hex_char, visible_char.
  rewrite !orb_true_iff, !andb_true_iff, !Nat.leb_le, Nat.ltb_lt. lia.
Qed.

Lemma lower_hex_trim s : lower_hex s = true -> trim_0x s = s.
Proof.
  intros H. destruct s as [|a [|b s]]; [done|by destruct a as [[] [] [] [] [] [] [] []]|].
  destruct (decide (b = "x"%char)) as [->|Hb].
  - unfold lower_hex in H. simpl in H. by rewrite andb_false_r in H.
  - simpl. destruct a as [[] [] [] [] [] [] [] []]; try done.
    destruct b as [[] [] [] [] [] [] [] []]; done.
Qed.

(** What holds of the digits and the sign holds of a printed integer. *)
Lemma pretty_N_forall (p : Ascii.ascii -> bool) x s :
  (forall c, is_Some (digit c) -> p c = true) ->
  string_forall p s = true -> string_forall p (pretty_N_go x s) = true.
Proof.
  intros Hp. revert s. induction (N.lt_wf_0 x) as [x _ IH]; intros s Hs.
  destruct (decide (x = 0%N)) as [->|Hx]; [done|].
  rewrite pretty_N_go_step by lia. apply IH; [apply N.div_lt; lia|]. simpl. rewrite Hs, andb_true_r.
  apply Hp. rewrite digit_pretty by (apply N.mod_lt; lia). by eexists.
Qed.

Lemma pretty_Z_forall (p : Ascii.ascii -> bool) (z : Z) :
  (forall c, is_Some (digit c) -> p c = true) -> p "-"%char = true ->
  string_forall p (pretty z) = true.
Proof.
  intros Hp Hm. assert (forall x : N, string_forall p (pretty x) = true) as Hn.
  { intros x. unfold pretty, pretty_N. case_decide; [|by apply pretty_N_forall].
    simpl. rewrite andb_true_r. apply Hp. by eexists. }
  destruct z as [|q|q]; [apply (Hn 0%N)|apply (Hn (N.pos q))|].
  change (p "-"%char && string_forall p (pretty (N.pos q)) = true). by rewrite Hm, Hn.
Qed.

Lemma pretty_Z_visible (z : Z) : string_forall visible_char (pretty z) = true.
Proof.
  apply pretty_Z_forall; [|done]. intros c [d Hd]. unfold digit in Hd. case_match eqn:E; [|done].
  apply andb_true_iff in E as [E1 E2]. apply Z.leb_le in E1, E2.
  unfold visible_char. apply orb_true_iff. left. apply andb_true_iff. rewrite Nat.leb_le, Nat.ltb_lt. lia.
Qed.

(** * Lemmas on lists *)

Lemma position_Some {A} (p : A -> bool) l i :
  position p l = Some i <->
  exists x, l !! i = Some x /\ p x = true /\
            forall j y, (j < i)%nat -> l !! j = Some y -> p y = false.
Proof.
  revert i. induction l as [|x l IH]; intros i; simpl.
  { split; [done|]. intros (y & H & _). by rewrite lookup_nil in H. }
  destruct (p x) eqn:E.
  - split.
    + intros [= <-]. exists x. repeat split; [done|]. intros; lia.
    + intros (y & Hy & Hp & Hmin). destruct i; [done|].
      specialize (Hmin 0%nat x). simpl in Hmin. rewrite Hmin in E; [done|lia|done].
  - split.
    + destruct (position p l); [|done]. intros [= <-].
      destruct (proj1 (IH _) eq_refl) as (y & Hy & Hp & Hmin). exists y. repeat split; [done..|].
      intros [|j] z Hj Hz; simpl in *; [congruence|]. apply (Hmin j); [lia|done].
    + intros (y & Hy & Hp & Hmin). destruct i; simpl in *; [congruence|].
      assert (position p l = Some i) as ->; [|done].
      apply IH. exists y. repeat split; [done..|]. intros j z Hj Hz.
      apply (Hmin (S j) z); [lia|done].
Qed.

Lemma position_None {A} (p : A -> bool) l :
  position p l = None <-> forall x, x ∈ l -> p x = false.
Proof.
  induction l as [|x l IH]; simpl; [set_solver|].
  destruct (p x) eqn:E.
  - split; [done|]. intros H. rewrite H in E; [done|set_solver].
  - destruct (position p l); simpl.
    + split; [done|]. intros H. assert (Some n = None); [|done]. apply IH. set_solver.
    + split; [|done]. intros _ y [->|Hy]%elem_of_cons; [done|]. by apply IH.
Qed.

Lemma position_lt {A} (p : A -> bool) l i : position p l = Some i -> (i < length l)%nat.
Proof. intros (x & H & _)%position_Some. by eapply lookup_lt_Some. Qed.

Lemma max_or_0_nonneg l : 0 <= max_or_0 l.
Proof. induction l; simpl; lia. Qed.

Lemma max_or_0_ge l x : x ∈ l -> x <= max_or_0 l.
Proof. induction 1; simpl; lia. Qed.

Lemma max_or_0_in l : max_or_0 l = 0 \/ max_or_0 l ∈ l.
Proof.
  induction l as [|x l IH]; simpl; [by left|].
  destruct (Z.max_spec x (max_or_0 l)) as [[_ ->]|[_ ->]]; [|right; set_solver].
  destruct IH as [->|]; [by left|right; set_solver].
Qed.

#[export] Hint Resolve Z_of_byte_range max_or_0_nonneg : kms.
#[export] Hint Rewrite length_be_bytes Z_of_byte_of_Z @byte_of_Z_of_byte : kms.
