(* ===== verification/Zigzag.v ===== *)
(** The in-tree fork of [uint-zigzag] ([src/vendor/uint-zigzag/src/lib.rs]), the integer
    encoding the DKG library serialises with: seven bits a byte, low groups first, the high
    bit telling that more follow.  A [u128] is an integer with its wrap-around written out, a
    buffer a list of bytes whose out-of-range writes panic, a stream the bytes left in it. *)
From S2P Require Import Base Prelude.
From Stdlib Require Import ZArith Lia.
From Stdlib.Strings Require Import Byte.
From stdpp Require Import base list strings.
Local Open Scope Z_scope.

Module Uint.

Definition in_u128 (z : Z) : Prop := 0 <= z < 2 ^ 128.
Definition wrap_u128 (z : Z) : Z := z mod 2 ^ 128.

Definition MAX_BYTES : nat := 19.

Definition invalid : string := "invalid byte sequence".

(** ** Conversions *)

(** [From<$tt> for Uint], [v as u128]: sign-extending for a signed type. *)
Definition from (v : Z) : Z := wrap_u128 v.

(** [From<Uint> for $tt], [v.0 as $tt], for the unsigned and the signed type of [w] bits. *)
Definition into_unsigned (w : Z) (u : Z) : Z := u mod 2 ^ w.
Definition into_signed (w : Z) (u : Z) : Z := (u + 2 ^ (w - 1)) mod 2 ^ w - 2 ^ (w - 1).

(** ** Decoding *)

(** [TryFrom<&[u8]>]: [i] counts down from [MAX_BYTES], [value] is what is left of it. *)
Fixpoint try_loop (i : nat) (value : bytes) (s x : Z) : result Z string :=
  match i, value with
  | O, _ | _, [] => Err invalid
  | S i, b :: value =>
      if Z_of_byte b <? 128 then Ok (Z.lor x (wrap_u128 (Z.shiftl (Z_of_byte b) s)))
      else try_loop i value (s + 7) (Z.lor x (wrap_u128 (Z.shiftl (Z.land (Z_of_byte b) 127) s)))
  end.

Definition try_from (value : bytes) : result Z string := try_loop MAX_BYTES value 0 0.

Fixpoint peek_loop (todo : nat) (i : nat) (value : bytes) : option nat :=
  match todo, value with
  | O, _ | _, [] => None
  | S todo, b :: value => if Z_of_byte b <? 128 then Some (S i) else peek_loop todo (S i) value
  end.

Definition peek (value : bytes) : option nat := peek_loop MAX_BYTES 0 value.

(** ** Encoding *)

(** [to_bytes_with_length] into the buffer that is left: how many bytes were used, and the
    buffer afterwards. *)
Fixpoint to_bytes_with_length (x : Z) (buffer : bytes) : outcome (nat * bytes) :=
  match buffer with
  | [] => Panicked "index out of bounds"
  | _ :: rest =>
      if 128 <=? x then
        match to_bytes_with_length (Z.shiftr x 7) rest with
        | Returned (n, rest) => Returned (S n, byte_of_Z (Z.lor (x mod 256) 128) :: rest)
        | Panicked m => Panicked m
        end
      else Returned (1%nat, byte_of_Z x :: rest)
  end.

Definition to_vec (u : Z) : outcome bytes :=
  match to_bytes_with_length u (replicate MAX_BYTES Byte.x00) with
  | Returned (i, output) => Returned (take i output)
  | Panicked m => Panicked m
  end.

(** [to_bytes]: the buffer afterwards. *)
Definition to_bytes (u : Z) (buffer : bytes) : outcome bytes :=
  match to_bytes_with_length u buffer with
  | Returned (_, buffer) => Returned buffer
  | Panicked m => Panicked m
  end.

(** [TryFrom<&Vec<u8>>] and [TryFrom<&Box<Vec<u8>>>]. *)
Definition try_from_vec (value : bytes) : result Z string := try_from value.
Definition try_from_box (value : bytes) : result Z string := try_from value.

(** [Serialize], over the format's [serialize_bytes], and [visit_bytes] of [Deserialize],
    which names the length it was given in its error. *)
Definition serialize {E} (serialize_bytes : bytes -> result bytes E) (u : Z) : outcome (result bytes E) :=
  match to_bytes_with_length u (replicate MAX_BYTES Byte.x00) with
  | Returned (length, buffer) => Returned (serialize_bytes (take length buffer))
  | Panicked m => Panicked m
  end.

Definition visit_bytes (v : bytes) : result Z nat := map_err (fun _ => length v) (try_from v).

(** [Deserialize], over the format's [deserialize_bytes], which hands its bytes to a visitor. *)
Definition deserialize {E} (deserialize_bytes : (bytes -> result Z nat) -> result Z E) : result Z E :=
  deserialize_bytes visit_bytes.

(** ** Streams *)

(** [to_writer] over a [write] that says how many of the bytes it took. *)
Definition to_writer (write : bytes -> result nat string) (u : Z) : outcome (result nat string) :=
  match to_bytes_with_length u (replicate MAX_BYTES Byte.x00) with
  | Returned (length, output) => Returned (write (take length output))
  | Panicked m => Panicked m
  end.

(** The loop of [from_reader]: [output] is [output[..i]]; a byte is read into position [i]
    before [peek] looks at the bytes in front of it. *)
Fixpoint read_loop (todo : nat) (output stream : bytes) : result bytes string * bytes :=
  match todo with
  | O => (Err invalid, stream)
  | S todo =>
      match stream with
      | [] => (Err "failed to fill whole buffer", [])
      | b :: stream =>
          match peek output with
          | Some _ => (Ok output, stream)
          | None => read_loop todo (output ++ [b]) stream
          end
      end
  end.

Definition from_reader (stream : bytes) : result Z string * bytes :=
  let '(r, stream) := read_loop MAX_BYTES [] stream in
  (let? output := r in try_from output, stream).

(** ** Lemmas *)

Lemma split7 x : Z.lor (x mod 128) (Z.shiftl (Z.shiftr x 7) 7) = x.
Proof.
  change 128 with (2 ^ 7). rewrite <-Z.land_ones by lia. apply Z.bits_inj'. intros n Hn.
  rewrite Z.lor_spec, Z.land_spec, Z.testbit_ones_nonneg by lia. destruct (Z.ltb_spec n 7).
  - rewrite (Z.shiftl_spec_low _ 7 n) by lia. by rewrite andb_true_r, orb_false_r.
  - rewrite andb_false_r, Z.shiftl_spec_high, Z.shiftr_spec by lia. simpl. f_equal. lia.
Qed.

Lemma low7 x : 0 <= x -> Z.land (Z.lor (x mod 256) 128) 127 = x mod 128 /\ 128 <= Z.lor (x mod 256) 128 < 256.
Proof.
  intros Hx. split.
  - change 127 with (Z.ones 7). rewrite Z.land_lor_distr_l. change (Z.land 128 (Z.ones 7)) with 0.
    rewrite Z.lor_0_r, Z.land_ones by lia. change (2 ^ 7) with 128. Z.div_mod_to_equations. lia.
  - assert (0 <= x mod 256 < 256) as Hr by (apply Z.mod_pos_bound; lia).
    assert (Z.lor (x mod 256) 128 < 2 ^ 8) as H8.
    { apply Z.log2_lt_cancel. rewrite Z.log2_lor by lia. rewrite Z.log2_pow2 by lia.
      apply Z.max_lub_lt; [|done]. destruct (Z.eq_dec (x mod 256) 0) as [->|]; [done|]. apply Z.log2_lt_pow2; lia. }
    split; [|exact H8]. rewrite Z.lor_comm. assert (Z.testbit (Z.lor 128 (x mod 256)) 7 = true) as Ht.
    { rewrite Z.lor_spec. done. }
    destruct (Z_lt_le_dec (Z.lor 128 (x mod 256)) 128) as [Hl|]; [|done].
    assert (0 <= Z.lor 128 (x mod 256)) by (apply Z.lor_nonneg; lia).
    rewrite (Z.bits_above_log2 _ 7) in Ht; [done|done|].
    destruct (Z.eq_dec (Z.lor 128 (x mod 256)) 0) as [->|]; [done|]. apply Z.log2_lt_pow2; lia.
Qed.

Lemma put_fits rest x : 0 <= x -> x < 2 ^ (7 * Z.of_nat (length rest)) -> rest <> [] ->
  exists n buf, to_bytes_with_length x rest = Returned (n, buf) /\ (1 <= n <= length rest)%nat /\
    length buf = length rest.
Proof.
  revert x. induction rest as [|b rest IH]; intros x Hx Hlt Hne; [done|]. cbn [to_bytes_with_length length].
  destruct (Z.leb_spec 128 x).
  - destruct (IH (Z.shiftr x 7)) as (n & buf & -> & Hn & Hl).
    + by apply Z.shiftr_nonneg.
    + rewrite Z.shiftr_div_pow2 by lia. apply Z.div_lt_upper_bound; [lia|]. rewrite <-Z.pow_add_r by lia.
      eapply Z.lt_le_trans; [exact Hlt|]. apply Z.pow_le_mono_r; [lia|]. cbn [length]. lia.
    + intros ->. change (2 ^ (7 * Z.of_nat (length [b]))) with 128 in Hlt. lia.
    + eexists _, _. split; [done|]. cbn [length]. lia.
  - eexists _, _. split; [done|]. cbn [length]. lia.
Qed.

(** Decoding what was written, whatever follows it. *)
Lemma try_put rest x s acc i n buf tail :
  0 <= x -> 0 <= s -> Z.shiftl x s < 2 ^ 128 -> to_bytes_with_length x rest = Returned (n, buf) -> (n <= i)%nat ->
  try_loop i (take n buf ++ tail) s acc = Ok (Z.lor acc (Z.shiftl x s)).
Proof.
  revert x s acc i n buf. induction rest as [|b rest IH]; intros x s acc i n buf Hx Hs Hlt; cbn [to_bytes_with_length];
    [done|]. assert (forall y, 0 <= y <= x -> wrap_u128 (Z.shiftl y s) = Z.shiftl y s) as Hw.
  { intros y Hy. apply Z.mod_small. rewrite !Z.shiftl_mul_pow2 in * by lia. nia. }
  destruct (Z.leb_spec 128 x).
  - destruct (to_bytes_with_length (Z.shiftr x 7) rest) as [[m buf']|] eqn:E; [|done].
    intros [= <- <-] Hi. destruct i as [|i]; [lia|]. cbn [take app try_loop].
    destruct (low7 x Hx) as [Hl Hr]. rewrite Z_of_byte_of_Z, (Z.mod_small (Z.lor _ _)) by lia.
    rewrite (proj2 (Z.ltb_ge _ _)) by lia. rewrite Hl, Hw by (Z.div_mod_to_equations; lia).
    rewrite (IH (Z.shiftr x 7)); [|by apply Z.shiftr_nonneg|lia| |done|lia].
    + f_equal. rewrite <-Z.lor_assoc. f_equal. rewrite Z.add_comm, <-Z.shiftl_shiftl, <-Z.shiftl_lor by lia.
      by rewrite split7.
    + eapply Z.le_lt_trans; [|exact Hlt]. rewrite Z.shiftr_div_pow2, !Z.shiftl_mul_pow2, Z.pow_add_r by lia.
      change (2 ^ 7) with 128. assert (x / 128 * 128 <= x) by (Z.div_mod_to_equations; lia). nia.
  - intros [= <- <-] Hi. destruct i as [|i]; [lia|]. cbn [take app try_loop].
    rewrite Z_of_byte_of_Z, Z.mod_small by lia. rewrite (proj2 (Z.ltb_lt _ _)) by lia. by rewrite Hw by lia.
Qed.

Lemma peek_put rest x i k n buf tail :
  0 <= x -> to_bytes_with_length x rest = Returned (n, buf) -> (n <= i)%nat ->
  peek_loop i k (take n buf ++ tail) = Some (k + n)%nat.
Proof.
  revert x i k n buf. induction rest as [|b rest IH]; intros x i k n buf Hx; cbn [to_bytes_with_length]; [done|].
  destruct (Z.leb_spec 128 x).
  - destruct (to_bytes_with_length (Z.shiftr x 7) rest) as [[m buf']|] eqn:E; [|done].
    intros [= <- <-] Hi. destruct i as [|i]; [lia|]. cbn [take app peek_loop].
    destruct (low7 x Hx) as [_ Hr]. rewrite Z_of_byte_of_Z, (Z.mod_small (Z.lor _ _)) by lia.
    rewrite (proj2 (Z.ltb_ge _ _)) by lia.
    rewrite (IH (Z.shiftr x 7)); [f_equal; lia|by apply Z.shiftr_nonneg|done|lia].
  - intros [= <- <-] Hi. destruct i as [|i]; [lia|]. cbn [take app peek_loop].
    rewrite Z_of_byte_of_Z, Z.mod_small by lia. rewrite (proj2 (Z.ltb_lt _ _)) by lia. f_equal. lia.
Qed.

(** No proper prefix of an encoding is one. *)
Lemma peek_short rest x i k n buf j :
  0 <= x -> to_bytes_with_length x rest = Returned (n, buf) -> (j < n)%nat -> peek_loop i k (take j buf) = None.
Proof.
  revert x i k n buf j. induction rest as [|b rest IH]; intros x i k n buf j Hx; cbn [to_bytes_with_length]; [done|].
  destruct i as [|i], j as [|j]; try done. destruct (Z.leb_spec 128 x).
  - destruct (to_bytes_with_length (Z.shiftr x 7) rest) as [[m buf']|] eqn:E; [|done].
    intros [= <- <-] Hj. cbn [take peek_loop]. destruct (low7 x Hx) as [_ Hr].
    rewrite Z_of_byte_of_Z, (Z.mod_small (Z.lor _ _)) by lia. rewrite (proj2 (Z.ltb_ge _ _)) by lia.
    eapply IH; [by apply Z.shiftr_nonneg|exact E|lia].
  - intros [= <- <-] Hj. lia.
Qed.

(** The bytes of a [u128]. *)
Lemma to_vec_spec u : in_u128 u -> exists v,
  to_vec u = Returned v /\ (1 <= length v <= MAX_BYTES)%nat /\
  (forall tail, try_from (v ++ tail) = Ok u /\ peek (v ++ tail) = Some (length v)) /\
  (forall j, (j < length v)%nat -> peek (take j v) = None).
Proof.
  intros [H0 H1]. unfold to_vec.
  destruct (put_fits (replicate MAX_BYTES Byte.x00) u) as (n & buf & E & Hn & Hl); [done| |done|].
  { rewrite length_replicate. eapply Z.lt_le_trans; [exact H1|]. by vm_compute. }
  rewrite length_replicate in Hn, Hl. exists (take n buf). rewrite E. split; [done|].
  rewrite length_take, Nat.min_l by lia. split; [done|]. split.
  - intros tail. unfold try_from. rewrite (try_put _ u 0 0 _ n buf tail H0) by (done || lia).
    rewrite Z.shiftl_0_r, Z.lor_0_l. split; [done|]. unfold peek. by rewrite (peek_put _ u _ 0 n buf tail H0) by (done || lia).
  - intros j Hj. rewrite take_take, Nat.min_l by lia. by eapply peek_short.
Qed.

(** The reader takes the encoding and the byte after it. *)
Lemma read_ahead out v b rest todo n :
  (length v < todo)%nat -> peek (out ++ v) = Some n -> (forall j, (j < length v)%nat -> peek (out ++ take j v) = None) ->
  read_loop todo out (v ++ b :: rest) = (Ok (out ++ v), rest).
Proof.
  revert out todo. induction v as [|c v IH]; intros out todo Hl Hp Hn; (destruct todo as [|todo]; [simpl in Hl; lia|]);
    cbn [app read_loop].
  - rewrite app_nil_r in *. by rewrite Hp.
  - pose proof (Hn 0%nat ltac:(simpl; lia)) as H0. cbn [take] in H0. rewrite app_nil_r in H0. rewrite H0.
    rewrite IH; [by rewrite <-app_assoc|simpl in Hl; lia|by rewrite <-app_assoc|].
    intros j Hj. rewrite <-app_assoc. apply (Hn (S j)). simpl. lia.
Qed.

(** Without a byte after it, or with no room for one, the encoding is not read. *)
Lemma read_fails out v rest todo :
  (forall j, (j < length v)%nat -> peek (out ++ take j v) = None) ->
  (todo <= length v)%nat \/ rest = [] -> exists e s, read_loop todo out (v ++ rest) = (Err e, s).
Proof.
  revert out todo. induction v as [|c v IH]; intros out todo Hn Hc; (destruct todo as [|todo]; [by eexists _, _|]);
    cbn [app read_loop].
  - destruct Hc as [Hc| ->]; [simpl in Hc; lia|]. by eexists _, _.
  - pose proof (Hn 0%nat ltac:(simpl; lia)) as H0. cbn [take] in H0. rewrite app_nil_r in H0. rewrite H0.
    apply IH.
    + intros j Hj. rewrite <-app_assoc. apply (Hn (S j)). simpl. lia.
    + destruct Hc; [left; simpl in *; lia|by right].
Qed.

End Uint.

(** C37: the encoding of a [u128] is a prefix code that decoding inverts.  Encoding never
    writes past its buffer: it produces between one and [MAX_BYTES] bytes; whatever bytes
    follow them, decoding yields the integer back and [peek] tells exactly how many bytes it
    takes, and no proper prefix of them is taken for an integer. *)
Theorem uint_codec_roundtrip u : Uint.in_u128 u -> exists v,
  Uint.to_vec u = Returned v /\ (1 <= length v <= Uint.MAX_BYTES)%nat /\
  (forall tail, Uint.try_from (v ++ tail) = Ok u /\ Uint.peek (v ++ tail) = Some (length v)) /\
  (forall j, (j < length v)%nat -> Uint.peek (take j v) = None).
Proof. apply Uint.to_vec_spec. Qed.

Lemma uint_codec_roundtrip_witness : exists v, Uint.to_vec (2 ^ 128 - 1) = Returned v /\ length v = Uint.MAX_BYTES.
Proof.
  destruct (uint_codec_roundtrip (2 ^ 128 - 1)) as (v & E & _); [split; [vm_compute; discriminate|vm_compute; reflexivity]|].
  exists v. split; [exact E|]. vm_compute in E. injection E as <-. reflexivity.
Defined.

(** C38: the stream reader reads one byte too many.  It looks for the end of the integer in
    front of the byte it has just read, so an encoding of fewer than [MAX_BYTES] bytes is
    recognised only after the byte that follows it has been taken from the stream too; at
    the end of the stream the read fails, and an encoding of full length is never accepted. *)
Theorem from_reader_reads_ahead u v : Uint.in_u128 u -> Uint.to_vec u = Returned v ->
  (forall b rest, (length v < Uint.MAX_BYTES)%nat -> Uint.from_reader (v ++ b :: rest) = (Ok u, rest)) /\
  is_ok (Uint.from_reader v).1 = false /\
  (length v = Uint.MAX_BYTES -> forall rest, is_ok (Uint.from_reader (v ++ rest)).1 = false).
Proof.
  intros Hu Hv. destruct (Uint.to_vec_spec u Hu) as (v' & E & Hl & Hd & Hp). rewrite Hv in E. injection E as <-.
  unfold Uint.from_reader. split; [|split].
  - intros b rest Hlt. destruct (Hd []) as [Ht Hk]. rewrite app_nil_r in Ht, Hk.
    rewrite (Uint.read_ahead [] v b rest _ (length v)) by done. cbn [app result_bind]. by rewrite Ht.
  - destruct (Uint.read_fails [] v [] Uint.MAX_BYTES) as (e & s & E); [done|by right|].
    rewrite app_nil_r in E. by rewrite E.
  - intros Hlen rest. destruct (Uint.read_fails [] v rest Uint.MAX_BYTES) as (e & s & ->); [done|left; lia|done].
Qed.

Lemma from_reader_reads_ahead_witness :
  Uint.from_reader [Byte.xce; Byte.x8c; Byte.x15; Byte.x07] = (Ok 345678, []) /\
  is_ok (Uint.from_reader [Byte.xce; Byte.x8c; Byte.x15]).1 = false.
Proof.
  destruct (from_reader_reads_ahead 345678 [Byte.xce; Byte.x8c; Byte.x15]) as (H1 & H2 & _).
  - split; [vm_compute; discriminate|vm_compute; reflexivity].
  - vm_compute. reflexivity.
  - split; [exact (H1 Byte.x07 [] ltac:(vm_compute; lia))|exact H2].
Defined.

(** A cast there and back is the identity on the type, signed or not. *)
Lemma casts_roundtrip w v :
  0 < w <= 128 ->
  (0 <= v < 2 ^ w -> Uint.into_unsigned w (Uint.from v) = v) /\
  (- 2 ^ (w - 1) <= v < 2 ^ (w - 1) -> Uint.into_signed w (Uint.from v) = v).
Proof.
  intros Hw. unfold Uint.from, Uint.wrap_u128, Uint.into_unsigned, Uint.into_signed.
  assert (2 ^ 128 = 2 ^ w * 2 ^ (128 - w)) as -> by (rewrite <-Z.pow_add_r by lia; f_equal; lia).
  assert (2 ^ w = 2 * 2 ^ (w - 1)) as E by (rewrite <-(Z.pow_succ_r 2 (w - 1)) by lia; f_equal; lia).
  assert (0 < 2 ^ (w - 1) /\ 0 < 2 ^ (128 - w)) as [Hp1 Hp2] by (split; apply Z.pow_pos_nonneg; lia).
  split; intros Hv.
  - rewrite Z.rem_mul_r, Z.mul_comm, Z.mod_add, Z.mod_mod by lia. by apply Z.mod_small.
  - rewrite Z.rem_mul_r by lia. rewrite <-Z.add_assoc, (Z.add_comm (2 ^ w * _)), Z.add_assoc, Z.mul_comm, Z.mod_add by lia.
    rewrite Zplus_mod_idemp_l, Z.mod_small by lia. lia.
Qed.

(** ** Tests *)

Module UintTests.

Definition max_bytes : bool :=
  match Uint.to_vec (2 ^ 128 - 1) with Returned bytes => bool_decide (length bytes = Uint.MAX_BYTES) | Panicked _ => false end.

Definition yields (r : outcome bytes) (l : list Z) : bool :=
  match r with Returned b => bool_decide (map Z_of_byte b = l) | Panicked _ => false end.

(** The examples of the documentation. *)
Definition peek_doc : bool := bool_decide (is_Some (Uint.peek [Byte.x34])) && bool_decide (Uint.peek [] = None).
Definition to_bytes_doc : bool :=
  yields (Uint.to_bytes 127 [Byte.x00; Byte.x00]) [127; 0] && yields (Uint.to_bytes 128 [Byte.x00; Byte.x00]) [128; 1].
Definition to_vec_doc : bool := yields (Uint.to_vec 345678) [206; 140; 21] && yields (Uint.to_vec 2048) [128; 16].

End UintTests.

Theorem uint_tests_hold :
  forallb id [UintTests.max_bytes; UintTests.peek_doc; UintTests.to_bytes_doc; UintTests.to_vec_doc] = true.
Proof. vm_compute. reflexivity. Qed.

(** What a format that stores bytes serialises, it deserialises, and [serialize] does not
    panic. *)
Theorem uint_serde_roundtrip u : Uint.in_u128 u -> exists b,
  Uint.serialize (fun b => Ok b : result bytes string) u = Returned (Ok b) /\ Uint.deserialize (fun visit => visit b) = Ok u.
Proof.
  intros (v & Hv & _ & Hd & _)%Uint.to_vec_spec. exists v. destruct (Hd []) as [Ht _]. rewrite app_nil_r in Ht.
  unfold Uint.to_vec in Hv. unfold Uint.serialize, Uint.deserialize, Uint.visit_bytes.
  destruct (Uint.to_bytes_with_length _ _) as [[n buf]|]; [|done]. injection Hv as <-. by rewrite Ht.
Qed.
