(* ===== verification/UintOps.v ===== *)
(** The operators of the in-tree fork of [uint-zigzag] ([src/vendor/uint-zigzag/src/lib.rs]):
    the macros that give [Uint] the arithmetic, bitwise and shift operators of Rust's integers,
    also mixed with every built-in integer type, their assigning forms, and the iterator sums
    and products.  The operators on the built-in types are those of a release build:
    arithmetic wraps around, a shift uses the low bits of its amount, and only a division can
    panic. *)
From S2P Require Import Base Prelude Zigzag.
From Stdlib Require Import ZArith Lia Morphisms Setoid.
From stdpp Require Import base list strings pretty.
Local Open Scope Z_scope.

Module Ops.

(** The integer types the macros are instantiated at; [usize] and [isize] have 64 bits. *)
Inductive IntTy := U128 | U64 | U32 | U16 | U8 | Usize | I128 | I64 | I32 | I16 | I8 | Isize.

Definition bits (ty : IntTy) : Z :=
  match ty with
  | U128 | I128 => 128 | U64 | I64 | Usize | Isize => 64 | U32 | I32 => 32 | U16 | I16 => 16 | U8 | I8 => 8
  end.

Definition is_signed (ty : IntTy) : bool :=
  match ty with I128 | I64 | I32 | I16 | I8 | Isize => true | _ => false end.

(** [z as ty]. *)
Definition cast (ty : IntTy) (z : Z) : Z :=
  if is_signed ty then Uint.into_signed (bits ty) z else Uint.into_unsigned (bits ty) z.

Definition in_ty (ty : IntTy) (z : Z) : Prop :=
  if is_signed ty then - 2 ^ (bits ty - 1) <= z < 2 ^ (bits ty - 1) else 0 <= z < 2 ^ bits ty.

Inductive BinOp := Add | Sub | Mul | Div | Rem | BitAnd | BitOr | BitXor | Shl | Shr.

#[global] Instance BinOp_eq_dec : EqDecision BinOp.
Proof. solve_decision. Defined.

(** The quotient that does not fit: the least value of a signed type by minus one. *)
Definition div_overflows (ty : IntTy) (a b : Z) : bool := is_signed ty && (a =? - 2 ^ (bits ty - 1)) && (b =? -1).

(** [a $op b] in a built-in type. *)
Definition arith (ty : IntTy) (op : BinOp) (a b : Z) : outcome Z :=
  let amount := Z.land b (bits ty - 1) in
  match op with
  | Add => Returned (cast ty (a + b))
  | Sub => Returned (cast ty (a - b))
  | Mul => Returned (cast ty (a * b))
  | Div => if b =? 0 then Panicked "attempt to divide by zero"
           else if div_overflows ty a b then Panicked "attempt to divide with overflow"
           else Returned (Z.quot a b)
  | Rem => if b =? 0 then Panicked "attempt to calculate the remainder with a divisor of zero"
           else if div_overflows ty a b then Panicked "attempt to calculate the remainder with overflow"
           else Returned (Z.rem a b)
  | BitAnd => Returned (cast ty (Z.land a b))
  | BitOr => Returned (cast ty (Z.lor a b))
  | BitXor => Returned (cast ty (Z.lxor a b))
  | Shl => Returned (cast ty (Z.shiftl a amount))
  | Shr => Returned (Z.shiftr a amount)
  end.

(** [ops_impl!]: two [Uint]s (and a [Uint] with a [u128], on either side), a [Uint] with a
    built-in integer on the right, a built-in integer with a [Uint] on the right. *)
Definition uint_uint (op : BinOp) (u v : Z) : outcome Z := arith U128 op u v.
Definition uint_tt (op : BinOp) (u v : Z) : outcome Z := arith U128 op u (cast U128 v).
Definition tt_uint (ty : IntTy) (op : BinOp) (v u : Z) : outcome Z := arith ty op v (cast ty u).

(** [assign_ops_impl!]: what [*self] holds afterwards. *)
Definition assign_uint (op : BinOp) (self rhs : Z) : outcome Z := arith U128 op self rhs.
Definition assign_tt (op : BinOp) (self rhs : Z) : outcome Z := arith U128 op self (cast U128 rhs).

(** [iter_impl!]: iterators over [Uint] and [u128], and over the other integer types.  The
    accumulator of all the loops starts at [0u128]. *)
Definition sum (l : list Z) : Z := foldl (fun i v => cast U128 (i + v)) 0 l.
Definition product (l : list Z) : Z := foldl (fun i v => cast U128 (i * v)) 0 l.
Definition sum_tt (l : list Z) : Z := foldl (fun i v => cast U128 (i + cast U128 v)) 0 l.
Definition product_tt (l : list Z) : Z := foldl (fun i v => cast U128 (i * cast U128 v)) 0 l.

(** [Display]. *)
Definition display (u : Z) : string := pretty u.

(** ** Congruence modulo the width *)

Definition eqm (w a b : Z) : Prop := a mod 2 ^ w = b mod 2 ^ w.

#[global] Instance eqm_equiv w : Equivalence (eqm w).
Proof. split; unfold eqm; repeat intro; congruence. Qed.

#[global] Instance add_eqm w : Proper (eqm w ==> eqm w ==> eqm w) Z.add.
Proof. intros a a' Ha b b' Hb. unfold eqm in *. by rewrite Zplus_mod, Ha, Hb, <-Zplus_mod. Qed.
#[global] Instance sub_eqm w : Proper (eqm w ==> eqm w ==> eqm w) Z.sub.
Proof. intros a a' Ha b b' Hb. unfold eqm in *. by rewrite Zminus_mod, Ha, Hb, <-Zminus_mod. Qed.
#[global] Instance mul_eqm w : Proper (eqm w ==> eqm w ==> eqm w) Z.mul.
Proof. intros a a' Ha b b' Hb. unfold eqm in *. by rewrite Zmult_mod, Ha, Hb, <-Zmult_mod. Qed.

(** Congruent integers have the same low bits, which a bitwise operator combines one by one. *)
Lemma eqm_bits w a b : 0 <= w -> eqm w a b <-> forall i, 0 <= i < w -> Z.testbit a i = Z.testbit b i.
Proof.
  intros Hw. unfold eqm. split.
  - intros E i Hi. by rewrite <-(Z.mod_pow2_bits_low a w i), E, Z.mod_pow2_bits_low by lia.
  - intros H. apply Z.bits_inj'. intros i Hi. destruct (Z.ltb_spec i w).
    + rewrite !Z.mod_pow2_bits_low by lia. by apply H.
    + by rewrite !Z.mod_pow2_bits_high by lia.
Qed.

Lemma bitwise_eqm w (f : Z -> Z -> Z) (g : bool -> bool -> bool) :
  0 <= w -> (forall a b i, Z.testbit (f a b) i = g (Z.testbit a i) (Z.testbit b i)) ->
  Proper (eqm w ==> eqm w ==> eqm w) f.
Proof.
  intros Hw Hf a a' Ha b b' Hb. apply eqm_bits; [done|]. intros i Hi. rewrite !Hf.
  by rewrite (proj1 (eqm_bits w a a' Hw) Ha i Hi), (proj1 (eqm_bits w b b' Hw) Hb i Hi).
Qed.

Lemma eqm_narrow w w' a b : 0 <= w <= w' -> eqm w' a b -> eqm w a b.
Proof. intros Hw H. apply eqm_bits; [lia|]. intros i Hi. apply (eqm_bits w'); [lia|done|lia]. Qed.

(** A cast keeps the low bits, depends on nothing else, and lands in its type. *)
Lemma bits_bounds ty : 8 <= bits ty <= 128.
Proof. destruct ty; simpl; lia. Qed.

Lemma half_bits ty : 2 ^ bits ty = 2 * 2 ^ (bits ty - 1) /\ 0 < 2 ^ (bits ty - 1).
Proof. by destruct ty. Qed.

Lemma cast_eqm ty z : eqm (bits ty) (cast ty z) z.
Proof.
  unfold cast, eqm, Uint.into_signed, Uint.into_unsigned. destruct (half_bits ty) as [H1 H2]. destruct (is_signed ty).
  - rewrite Zminus_mod_idemp_l. f_equal. lia.
  - apply Z.mod_mod. lia.
Qed.

#[global] Instance cast_proper ty : Proper (eqm (bits ty) ==> eq) (cast ty).
Proof.
  intros a b H. unfold cast, Uint.into_signed, Uint.into_unsigned. destruct (is_signed ty); [|exact H].
  f_equal. unfold eqm in H. by rewrite Zplus_mod, H, <-Zplus_mod.
Qed.

Lemma cast_in ty z : in_ty ty (cast ty z).
Proof.
  unfold in_ty, cast, Uint.into_signed, Uint.into_unsigned. destruct (half_bits ty) as [H1 H2].
  destruct (is_signed ty); [|apply Z.mod_pos_bound; lia].
  pose proof (Z.mod_pos_bound (z + 2 ^ (bits ty - 1)) (2 ^ bits ty)). lia.
Qed.

Lemma cast_id ty z : in_ty ty z -> cast ty z = z.
Proof.
  unfold in_ty, cast, Uint.into_signed, Uint.into_unsigned. destruct (half_bits ty) as [H1 H2].
  destruct (is_signed ty); intros H; rewrite Z.mod_small by lia; lia.
Qed.

Lemma cast_u128_eqm ty z : eqm (bits ty) (cast U128 z) z.
Proof. apply (eqm_narrow _ 128); [pose proof (bits_bounds ty); lia|]. apply (cast_eqm U128). Qed.

(** ** Operators *)

(** The operators whose low bits depend on the low bits of the operands only. *)
Definition narrowing (op : BinOp) : bool :=
  match op with Add | Sub | Mul | BitAnd | BitOr | BitXor => true | _ => false end.

Lemma narrowing_spec op : narrowing op = true -> exists f,
  (forall ty a b, arith ty op a b = Returned (cast ty (f a b))) /\
  (forall w, 0 <= w -> Proper (eqm w ==> eqm w ==> eqm w) f).
Proof.
  destruct op; try done; intros _; eexists; (split; [intros; reflexivity|intros w Hw]); try apply _;
    (eapply bitwise_eqm; [done|]); intros a b i; [apply Z.land_spec|apply Z.lor_spec|apply Z.lxor_spec].
Qed.

Definition divides (op : BinOp) : Prop := op = Div \/ op = Rem.

Lemma arith_panics ty op a b :
  (exists m, arith ty op a b = Panicked m) <-> divides op /\ (b = 0 \/ div_overflows ty a b = true).
Proof.
  unfold divides. destruct op; cbn [arith]; try (split; [by intros [m ?]|by intros [[|] _]]).
  all: destruct (Z.eqb_spec b 0) as [->|Hb]; [split; [auto|by eexists]|].
  all: destruct (div_overflows ty a b); (split; [|intros [_ [|]]; done || by eexists]); intros [m ?]; auto; done.
Qed.

Lemma quot_bound a b : b <> 0 -> Z.abs (Z.quot a b) <= Z.abs a /\ (2 <= Z.abs b -> 2 * Z.abs (Z.quot a b) <= Z.abs a).
Proof.
  intros Hb. rewrite <-Z.quot_abs by done. rewrite Z.quot_div_nonneg by lia. split; [|intros H2]; Z.div_mod_to_equations; nia.
Qed.

Lemma shiftr_bound a n : 0 <= n -> (0 <= a -> 0 <= Z.shiftr a n <= a) /\ (a < 0 -> a <= Z.shiftr a n < 0).
Proof.
  intros Hn. rewrite Z.shiftr_div_pow2 by done. assert (0 < 2 ^ n) by (by apply Z.pow_pos_nonneg).
  split; intros Ha; Z.div_mod_to_equations; nia.
Qed.

(** The result of an operator is a value of its type. *)
Lemma arith_in ty op a b r : in_ty ty a -> in_ty ty b -> arith ty op a b = Returned r -> in_ty ty r.
Proof.
  intros Ha Hb. destruct op; cbn [arith]; try (intros [= <-]; apply cast_in).
  - destruct (Z.eqb_spec b 0) as [|Hb0]; [done|]. destruct (div_overflows ty a b) eqn:Eo; [done|]. intros [= <-].
    pose proof (quot_bound a b Hb0) as [H1 H2]. unfold in_ty, div_overflows in *. destruct (half_bits ty) as [E1 E2].
    destruct (is_signed ty); cbn in Eo; [|pose proof (Z.quot_pos a b); lia].
    destruct (Z.eqb_spec a (- 2 ^ (bits ty - 1))), (Z.eqb_spec b (-1)); try done; try lia.
    destruct (Z.eq_dec b 1) as [->|]; [rewrite Z.quot_1_r; lia|]. lia.
  - destruct (Z.eqb_spec b 0) as [|Hb0]; [done|]. destruct (div_overflows ty a b); [done|]. intros [= <-].
    pose proof (Z.rem_bound_abs a b Hb0) as H1. pose proof (Z.rem_sign_nz a b Hb0) as H2.
    pose proof (Z.rem_bound_pos a b) as H3.
    unfold in_ty in *. destruct (half_bits ty) as [E1 E2]. destruct (is_signed ty); lia.
  - intros [= <-]. destruct (shiftr_bound a (Z.land b (bits ty - 1))) as [H1 H2].
    + apply Z.land_nonneg. right. pose proof (bits_bounds ty). lia.
    + unfold in_ty in *. destruct (half_bits ty) as [E1 E2]. destruct (is_signed ty), (Z_lt_le_dec a 0); lia.
Qed.

(** A built-in integer is zero as a [u128] only if it is zero. *)
Lemma cast_u128_zero ty v : in_ty ty v -> cast U128 v = 0 <-> v = 0.
Proof.
  intros Hv. split; [|by intros ->]. pose proof (bits_bounds ty) as Hb.
  assert (- 2 ^ 128 < v < 2 ^ 128) as Hr.
  { pose proof (Z.pow_le_mono_r 2 (bits ty) 128 ltac:(lia) ltac:(lia)). destruct (half_bits ty).
    unfold in_ty in Hv. destruct (is_signed ty); lia. }
  unfold cast, Uint.into_unsigned. cbn [is_signed bits]. intros (k & Hk)%Z.mod_divide; [|done]. nia.
Qed.

Lemma cast_low ty u r : in_ty ty r -> cast ty u = r <-> u mod 2 ^ bits ty = r mod 2 ^ bits ty.
Proof.
  intros Hr. rewrite <-(cast_id ty r Hr) at 1. split; intros H.
  - transitivity (cast ty u mod 2 ^ bits ty); [symmetry; apply cast_eqm|]. rewrite H. apply cast_eqm.
  - by apply cast_proper.
Qed.

(** The loops of the iterators, over what is added or multiplied for an item. *)
Lemma foldl_zero (f : Z -> Z) l : foldl (fun i v => cast U128 (i * f v)) 0 l = 0.
Proof. induction l as [|v l IH]; [done|]. cbn [foldl]. by rewrite Z.mul_0_l. Qed.

Lemma foldl_sum (f : Z -> Z) l : (forall v, eqm 128 (f v) v) ->
  foldl (fun i v => cast U128 (i + f v)) 0 l = cast U128 (foldr Z.add 0 l).
Proof.
  intros Hf. assert (forall i, cast U128 (foldl (fun i v => cast U128 (i + f v)) i l) = cast U128 (i + foldr Z.add 0 l)) as H.
  { induction l as [|v l IH]; intros i; cbn [foldl foldr]; [by rewrite Z.add_0_r|]. rewrite IH. apply cast_proper.
    rewrite (cast_eqm U128 (i + f v)). cbn [bits]. rewrite (Hf v). by rewrite Z.add_assoc. }
  specialize (H 0). rewrite Z.add_0_l in H. rewrite <-H. symmetry. apply cast_id.
  clear H. destruct l as [|v l _] using rev_ind; [done|]. rewrite foldl_snoc. apply cast_in.
Qed.

End Ops.

(** C39: the operators that work on low bits commute with the conversions.  For addition,
    subtraction, multiplication and the bitwise operators it does not matter on which side
    of an operator a [Uint] meets a built-in integer, of any width and signed or not:
    computing in [u128] and converting the result gives what computing in the built-in type
    gives, wrap-around included. *)
Theorem uint_operators_respect_casts ty op u v : Ops.narrowing op = true -> exists r r',
  Ops.uint_tt op u v = Returned r /\ Ops.arith ty op (Ops.cast ty u) v = Returned (Ops.cast ty r) /\
  Ops.arith Ops.U128 op (Ops.cast Ops.U128 v) u = Returned r' /\ Ops.tt_uint ty op v u = Returned (Ops.cast ty r') /\
  Ops.in_ty Ops.U128 r /\ Ops.in_ty Ops.U128 r'.
Proof.
  intros (f & Hf & Hp)%Ops.narrowing_spec. pose proof (Ops.bits_bounds ty). specialize (Hp (Ops.bits ty) ltac:(lia)).
  unfold Ops.uint_tt, Ops.tt_uint. eexists _, _. rewrite !Hf. split; [done|]. split; [|split; [done|split; [|split; apply Ops.cast_in]]].
  all: f_equal; apply Ops.cast_proper; symmetry; etrans; [apply Ops.cast_u128_eqm|]; apply Hp;
    (apply Ops.cast_u128_eqm || (symmetry; apply Ops.cast_eqm) || reflexivity).
Qed.

(** A byte plus a [Uint] that does not fit a byte, a negative number added to a [Uint]. *)
Lemma uint_operators_respect_casts_witness :
  Ops.tt_uint Ops.U8 Ops.Add 255 258 = Returned 1 /\ Ops.uint_tt Ops.Add 5 (-3) = Returned 2.
Proof.
  destruct (uint_operators_respect_casts Ops.U8 Ops.Add 258 255 eq_refl) as (_ & r' & _ & _ & E & H & _).
  destruct (uint_operators_respect_casts Ops.I8 Ops.Add 5 (-3) eq_refl) as (r & _ & H2 & _).
  vm_compute in E. injection E as <-. split; [exact H|]. rewrite H2. vm_compute in H2. injection H2 as <-. reflexivity.
Defined.

(** An operator panics exactly in a division, and its divisor is what is left of the
    [Uint] in the type of the dividend.  With a [Uint] on the left the divisor must be
    zero; with a built-in integer on the left the division also panics for every [Uint]
    that is a multiple of [2 ^ bits], and in a signed type for the least value divided by a
    [Uint] whose low bits are all ones.  In every other case, shifts by any amount included, the
    operator returns a value of its type. *)
Theorem uint_operators_panic_only_in_divisions ty op u v :
  Ops.in_ty Ops.U128 u -> Ops.in_ty ty v ->
  ((exists m, Ops.uint_tt op u v = Panicked m) <-> Ops.divides op /\ v = 0) /\
  ((exists m, Ops.tt_uint ty op v u = Panicked m) <->
   Ops.divides op /\ (u mod 2 ^ Ops.bits ty = 0 \/
     Ops.is_signed ty = true /\ v = - 2 ^ (Ops.bits ty - 1) /\ u mod 2 ^ Ops.bits ty = 2 ^ Ops.bits ty - 1)) /\
  (forall r, Ops.uint_tt op u v = Returned r -> Ops.in_ty Ops.U128 r) /\
  (forall r, Ops.tt_uint ty op v u = Returned r -> Ops.in_ty ty r).
Proof.
  intros Hu Hv. split; [|split; [|split]].
  - unfold Ops.uint_tt. rewrite Ops.arith_panics, (Ops.cast_u128_zero ty v Hv). unfold Ops.div_overflows. cbn. intuition done.
  - unfold Ops.tt_uint. rewrite Ops.arith_panics. destruct (Ops.half_bits ty) as [E1 E2].
    assert (Ops.in_ty ty 0) as H0 by (unfold Ops.in_ty; destruct (Ops.is_signed ty); lia).
    rewrite (Ops.cast_low ty u 0 H0), Z.mod_0_l by lia. unfold Ops.div_overflows.
    rewrite !andb_true_iff, !Z.eqb_eq. destruct (Ops.is_signed ty) eqn:Es; [|intuition done].
    rewrite (Ops.cast_low ty u (-1)) by (unfold Ops.in_ty; rewrite Es; lia).
    replace (-1 mod 2 ^ Ops.bits ty) with (2 ^ Ops.bits ty - 1); [tauto|].
    apply (Z.mod_unique _ _ (-1)); lia.
  - intros r. apply Ops.arith_in; [done|apply Ops.cast_in].
  - intros r. apply Ops.arith_in; [done|apply Ops.cast_in].
Qed.

(** One divided by [Uint(256)] is a division by zero on a byte and not on two. *)
Lemma uint_operators_panic_only_in_divisions_witness :
  (exists m, Ops.tt_uint Ops.U8 Ops.Div 1 256 = Panicked m) /\ Ops.tt_uint Ops.U16 Ops.Div 1 256 = Returned 0.
Proof.
  split; [|vm_compute; reflexivity].
  destruct (uint_operators_panic_only_in_divisions Ops.U8 Ops.Div 256 1) as (_ & H & _);
    [split; [vm_compute; discriminate|vm_compute; reflexivity]..|].
  apply H. split; [left; reflexivity|left; vm_compute; reflexivity].
Defined.

(** C40: the sum of an iterator is the sum modulo [2 ^ 128], also of negative numbers; the
    product of any iterator is zero, because its accumulator starts at zero. *)
Theorem uint_product_is_zero l :
  Ops.product l = 0 /\ Ops.product_tt l = 0 /\
  Ops.sum l = Ops.cast Ops.U128 (foldr Z.add 0 l) /\ Ops.sum_tt l = Ops.cast Ops.U128 (foldr Z.add 0 l).
Proof.
  split; [|split; [|split]].
  - apply (Ops.foldl_zero (fun v => v)).
  - apply (Ops.foldl_zero (Ops.cast Ops.U128)).
  - apply (Ops.foldl_sum (fun v => v)). reflexivity.
  - apply (Ops.foldl_sum (Ops.cast Ops.U128)). apply (Ops.cast_eqm Ops.U128).
Qed.
