(* ===== verification/Prog.v ===== *)
(** The language the program's [async fn]s are written in: a free monad over
    - [Ask c]: an interaction with the outside world (an RPC, the wall clock,
      an environment variable, a file system fault) whose answer the
      environment picks;
    - [Atom u]: one critical section on the process's shared state, which hands
      the state it found to the continuation and leaves [u] of it behind (a read
      guard is [Atom id]);
    - [Now], [Sleep]: the monotonic clock ([std::time::Instant], [tokio::time::sleep]);
    - [Lock], [Unlock]: the [tokio::sync::Mutex]es used for single flight.

    Three semantics are given.  [run] executes a program against an oracle that
    answers the questions, advances the clock and lets the other tasks of the
    process change the shared state before every step; it computes.  [wp] is a
    rely-guarantee weakest precondition, sound for [run] under every oracle whose
    interference stays inside the rely.  [pool_step] interleaves several tasks
    over one shared state, with mutual exclusion on the mutexes. *)
From S2P Require Import Base Prelude.
From Stdlib Require Import ZArith Lia.
From stdpp Require Import base list gmap strings relations.

Section Prog.
Context {S C : Type} {ans : C -> Type}.

Inductive prog (A : Type) : Type :=
| Ret (a : A)
| Ask (c : C) (k : ans c -> prog A)
| Atom (upd : S -> S) (k : S -> prog A)
| Now (k : Z -> prog A)
| Sleep (d : Z) (k : prog A)
| Lock (l : string) (k : prog A)
| Unlock (l : string) (k : prog A).
Arguments Ret {A} a.
Arguments Ask {A} c k.
Arguments Atom {A} upd k.
Arguments Now {A} k.
Arguments Sleep {A} d k.
Arguments Lock {A} l k.
Arguments Unlock {A} l k.

Fixpoint bind {A B} (p : prog A) (f : A -> prog B) : prog B :=
  match p with
  | Ret a => f a
  | Ask c k => Ask c (fun a => bind (k a) f)
  | Atom u k => Atom u (fun s => bind (k s) f)
  | Now k => Now (fun t => bind (k t) f)
  | Sleep d k => Sleep d (bind k f)
  | Lock l k => Lock l (bind k f)
  | Unlock l k => Unlock l (bind k f)
  end.

(** The [?] operator inside an [async fn]. *)
Definition bind_ok {A B E} (p : prog (result A E)) (f : A -> prog (result B E)) :
    prog (result B E) :=
  bind p (fun r => match r with Ok a => f a | Err e => Ret (Err e) end).

Definition ask (c : C) : prog (ans c) := Ask c Ret.
Definition get : prog S := Atom id Ret.
Definition modify (u : S -> S) : prog unit := Atom u (fun _ => Ret tt).
Definition now : prog Z := Now Ret.
Definition sleep (d : Z) : prog unit := Sleep d (Ret tt).

(** A mutex guard held for the extent of [p]; early returns of [p] drop it too. *)
Definition with_lock {A} (l : string) (p : prog A) : prog A :=
  Lock l (bind p (fun a => Unlock l (Ret a))).

(** [for x in l { f(x) }]. *)
Fixpoint for_each {X} (l : list X) (f : X -> prog unit) : prog unit :=
  match l with
  | [] => Ret tt
  | x :: l => bind (f x) (fun _ => for_each l f)
  end.

(** A loop that runs its body at most [fuel] times: [inr] is a loop exit, [inl]
    the loop state when the fuel ran out. *)
Fixpoint iter {B A} (fuel : nat) (body : B -> prog (B + A)) (b : B) : prog (B + A) :=
  match fuel with
  | O => Ret (inl b)
  | Datatypes.S fuel =>
      bind (body b) (fun r => match r with inl b => iter fuel body b | inr a => Ret (inr a) end)
  end.

(** ** Execution against an oracle *)

Inductive event : Type := Ev (c : C) (a : ans c).

Record oracle := Oracle {
  o_ans : nat -> forall c, ans c;
  o_env : nat -> S -> S;
  o_delay : nat -> N
}.

Record exec := Exec {
  x_st : S;
  x_n : nat;
  x_now : Z;
  x_log : list event
}.

(** What happens before step [x_n x]: the other tasks act and time passes. *)
Definition tick (o : oracle) (x : exec) : exec :=
  Exec (o_env o (x_n x) (x_st x)) (Datatypes.S (x_n x))
       (x_now x + Z.of_N (o_delay o (x_n x)))%Z (x_log x).

Definition with_st (x : exec) (s : S) : exec := Exec s (x_n x) (x_now x) (x_log x).

Fixpoint run {A} (o : oracle) (p : prog A) (x : exec) : A * exec :=
  let y := tick o x in
  match p with
  | Ret a => (a, x)
  | Ask c k =>
      let a := o_ans o (x_n x) c in
      run o (k a) (Exec (x_st y) (x_n y) (x_now y) (x_log y ++ [Ev c a]))
  | Atom u k => run o (k (x_st y)) (with_st y (u (x_st y)))
  | Now k => run o (k (x_now y)) y
  | Sleep d k => run o k (Exec (x_st y) (x_n y) (x_now y + Z.max 0 d)%Z (x_log y))
  | Lock _ k | Unlock _ k => run o k y
  end.

(** The states a run goes through: what survives a crash after any of its steps. *)
Fixpoint states {A} (o : oracle) (p : prog A) (x : exec) : list S :=
  let y := tick o x in
  match p with
  | Ret _ => [x_st x]
  | Ask c k =>
      let a := o_ans o (x_n x) c in
      x_st x :: states o (k a) (Exec (x_st y) (x_n y) (x_now y) (x_log y ++ [Ev c a]))
  | Atom u k => x_st x :: states o (k (x_st y)) (with_st y (u (x_st y)))
  | Now k => x_st x :: states o (k (x_now y)) y
  | Sleep d k => x_st x :: states o k (Exec (x_st y) (x_n y) (x_now y + Z.max 0 d)%Z (x_log y))
  | Lock _ k | Unlock _ k => x_st x :: states o k y
  end.

Definition start (s : S) (t : Z) : exec := Exec s 0 t [].

(** No other task runs. *)
Definition quiet (o : oracle) : Prop := forall n s, o_env o n s = s.

(** Every interference stays inside [R]. *)
Definition relies (o : oracle) (R : S -> S -> Prop) : Prop := forall n s, R s (o_env o n s).

(** ** The rely-guarantee weakest precondition *)

Fixpoint wp {A} (R : S -> S -> Prop) (p : prog A)
    (Q : A -> S -> Z -> list event -> Prop) (s : S) (t : Z) (log : list event) : Prop :=
  forall s' t', R s s' -> (t <= t')%Z ->
  match p with
  | Ret a => Q a s' t' log
  | Ask c k => forall a, wp R (k a) Q s' t' (log ++ [Ev c a])
  | Atom u k => wp R (k s') Q (u s') t' log
  | Now k => wp R (k t') Q s' t' log
  | Sleep d k => (t + d <= t')%Z -> wp R k Q s' t' log
  | Lock _ k | Unlock _ k => wp R k Q s' t' log
  end.

(** Every critical section of [p] changes the state within [G]. *)
Fixpoint guar {A} (G : S -> S -> Prop) (p : prog A) : Prop :=
  match p with
  | Ret _ => True
  | Ask c k => forall a, guar G (k a)
  | Atom u k => forall s, G s (u s) /\ guar G (k s)
  | Now k => forall t, guar G (k t)
  | Sleep _ k | Lock _ k | Unlock _ k => guar G k
  end.

(** Partial correctness under an invariant: [p] keeps [I] at each of its critical
    sections, relying on it there, and returns a value in [Q], as long as every answer it
    is given satisfies [OK]. *)
Fixpoint safe {A} (I : S -> Prop) (OK : forall c, ans c -> Prop) (p : prog A) (Q : A -> Prop) :
    Prop :=
  match p with
  | Ret a => Q a
  | Ask c k => forall a, OK c a -> safe I OK (k a) Q
  | Atom u k => forall s, I s -> I (u s) /\ safe I OK (k s) Q
  | Now k => forall t, safe I OK (k t) Q
  | Sleep _ k | Lock _ k | Unlock _ k => safe I OK k Q
  end.

(** Every question [p] puts to the outside satisfies [good], and [p] returns a value in
    [Q], as long as every answer satisfies [OK]; whatever the state. *)
Fixpoint emits {A} (good : C -> Prop) (OK : forall c, ans c -> Prop) (p : prog A) (Q : A -> Prop) :
    Prop :=
  match p with
  | Ret a => Q a
  | Ask c k => good c /\ forall a, OK c a -> emits good OK (k a) Q
  | Atom _ k => forall s, emits good OK (k s) Q
  | Now k => forall t, emits good OK (k t) Q
  | Sleep _ k | Lock _ k | Unlock _ k => emits good OK k Q
  end.

(** ** Interleaving *)

Record pool (A : Type) := Pool {
  p_st : S;
  p_now : Z;
  p_held : gset string;
  p_tasks : list (prog A)
}.
Arguments Pool {A}.
Arguments p_st {A}.
Arguments p_now {A}.
Arguments p_held {A}.
Arguments p_tasks {A}.

(** One step of one task, the outside answering within [OK]. *)
Inductive pool_step_ok {A} (OK : forall c, ans c -> Prop) : pool A -> pool A -> Prop :=
| step_time s t h ps t' :
    (t <= t')%Z -> pool_step_ok OK (Pool s t h ps) (Pool s t' h ps)
| step_ask s t h ps i c k a :
    ps !! i = Some (Ask c k) -> OK c a ->
    pool_step_ok OK (Pool s t h ps) (Pool s t h (<[i := k a]> ps))
| step_atom s t h ps i u k :
    ps !! i = Some (Atom u k) ->
    pool_step_ok OK (Pool s t h ps) (Pool (u s) t h (<[i := k s]> ps))
| step_now s t h ps i k :
    ps !! i = Some (Now k) ->
    pool_step_ok OK (Pool s t h ps) (Pool s t h (<[i := k t]> ps))
| step_sleep s t h ps i d k :
    ps !! i = Some (Sleep d k) ->
    pool_step_ok OK (Pool s t h ps) (Pool s t h (<[i := k]> ps))
| step_lock s t h ps i l k :
    ps !! i = Some (Lock l k) -> l ∉ h ->
    pool_step_ok OK (Pool s t h ps) (Pool s t ({[l]} ∪ h) (<[i := k]> ps))
| step_unlock s t h ps i l k :
    ps !! i = Some (Unlock l k) ->
    pool_step_ok OK (Pool s t h ps) (Pool s t (h ∖ {[l]}) (<[i := k]> ps)).

(** Any answer. *)
Definition pool_step {A} : pool A -> pool A -> Prop := pool_step_ok (fun _ _ => True).

End Prog.

Arguments prog : clear implicits.
Arguments Ret {S C ans A} a.
Arguments Ask {S C ans A} c k.
Arguments Atom {S C ans A} upd k.
Arguments Now {S C ans A} k.
Arguments Sleep {S C ans A} d k.
Arguments Lock {S C ans A} l k.
Arguments Unlock {S C ans A} l k.
Arguments Ev {C ans} c a.
Arguments event : clear implicits.
Arguments oracle : clear implicits.
Arguments exec : clear implicits.
Arguments pool : clear implicits.
Arguments Pool {S C ans A}.
Arguments p_st {S C ans} A.
Arguments p_now {S C ans} A.
Arguments p_held {S C ans} A.
Arguments p_tasks {S C ans} A.

Declare Scope prog_scope.
Delimit Scope prog_scope with prog.
Open Scope prog_scope.
Notation "'let!' x ':=' p 'in' k" := (bind p (fun x => k))
  (at level 200, x pattern, p at level 100, k at level 200, right associativity) : prog_scope.
Notation "'let!?' x ':=' p 'in' k" := (bind_ok p (fun x => k))
  (at level 200, x pattern, p at level 100, k at level 200, right associativity) : prog_scope.
Notation "p ;;; k" := (bind p (fun _ => k))
  (at level 100, k at level 200, right associativity) : prog_scope.

(** * Laws *)

Section Laws.
Context {S C : Type} {ans : C -> Type}.
Notation prog := (prog S C ans).
Notation event := (event C ans).

Lemma run_bind {A B} o (p : prog A) (f : A -> prog B) x :
  run o (bind p f) x = let '(a, y) := run o p x in run o (f a) y.
Proof. revert x. induction p; intros x; simpl; auto. Qed.

Lemma bind_ret {A} (p : prog A) o x : run o (bind p Ret) x = run o p x.
Proof. rewrite run_bind. by destruct (run o p x). Qed.

Section WithRely.
Context (R : S -> S -> Prop) `{!PreOrder R}.

Lemma wp_stable {A} (p : prog A) Q s t log s' t' :
  R s s' -> (t <= t')%Z -> wp R p Q s t log -> wp R p Q s' t' log.
Proof.
  intros HR Ht H. destruct p; simpl in *; intros s'' t'' HR' Ht'.
  all: specialize (H s'' t'' (transitivity HR HR') ltac:(lia)); auto.
  intros. apply H. lia.
Qed.

Lemma wp_mono {A} (p : prog A) (Q Q' : A -> S -> Z -> list event -> Prop) s t log :
  (forall a s t log, Q a s t log -> Q' a s t log) ->
  wp R p Q s t log -> wp R p Q' s t log.
Proof.
  intros HQ. revert s t log. induction p; simpl; intros s t log Hwp s' t' HR Ht.
  all: specialize (Hwp s' t' HR Ht); eauto.
Qed.

Lemma wp_bind {A B} (p : prog A) (f : A -> prog B) Q s t log :
  wp R p (fun a s t log => wp R (f a) Q s t log) s t log ->
  wp R (bind p f) Q s t log.
Proof.
  revert s t log. induction p as [a|c k IH|u k IH|k IH|d k IH|l k IH|l k IH];
    intros s t log Hwp; cbn [bind].
  { apply (Hwp s t); [reflexivity|lia]. }
  all: simpl in *; intros s' t' HR Ht; specialize (Hwp s' t' HR Ht); eauto.
Qed.

Lemma wp_bind_ok {A B E} (p : prog (result A E)) (f : A -> prog (result B E)) Q s t log :
  wp R p (fun r s t log =>
            match r with Ok a => wp R (f a) Q s t log | Err e => wp R (Ret (Err e)) Q s t log end)
     s t log ->
  wp R (bind_ok p f) Q s t log.
Proof.
  intros H. apply wp_bind. eapply wp_mono; [|exact H]. by intros [] ???.
Qed.

Lemma wp_ret {A} (a : A) (Q : A -> S -> Z -> list event -> Prop) s t log :
  (forall s' t', R s s' -> (t <= t')%Z -> Q a s' t' log) -> wp R (Ret a) Q s t log.
Proof. done. Qed.

Lemma wp_with_lock {A} l (p : prog A) (Q : A -> S -> Z -> list event -> Prop) s t log :
  (forall s' t', R s s' -> (t <= t')%Z ->
     wp R p (fun a s t log => forall s' t', R s s' -> (t <= t')%Z -> Q a s' t' log) s' t' log) ->
  wp R (with_lock l p) Q s t log.
Proof.
  intros H s' t' HR Ht. apply wp_bind. eapply wp_mono; [|by apply H].
  intros a s1 t1 l1 HQ s2 t2 H12 ? s3 t3 H23 ?. apply HQ; [by etrans|lia].
Qed.

(** Time does not run backwards and the log only grows. *)
Lemma wp_progress {A} (p : prog A) s t log :
  wp R p (fun _ _ t' log' => (t <= t')%Z /\ log `prefix_of` log') s t log.
Proof.
  assert (forall t0 log0 t log, (t0 <= t)%Z -> log0 `prefix_of` log -> forall s,
    wp R p (fun _ _ t' log' => (t0 <= t')%Z /\ log0 `prefix_of` log') s t log) as H;
    [|by apply H].
  clear. intros t0 log0. induction p as [a|c k IH|u k IH|k IH|d k IH|l k IH|l k IH];
    simpl; intros t log Ht Hl s s' t' HR Ht'.
  { split; [lia|done]. }
  1: intros a; apply IH; [lia|by apply prefix_app_r].
  all: intros; apply IH; [lia|done].
Qed.

Lemma wp_conj {A} (p : prog A) (Q Q' : A -> S -> Z -> list event -> Prop) s t log :
  wp R p Q s t log -> wp R p Q' s t log ->
  wp R p (fun a s t log => Q a s t log /\ Q' a s t log) s t log.
Proof.
  revert s t log. induction p; simpl; intros s t log HQ HQ' s' t' HR Ht;
    specialize (HQ s' t' HR Ht); specialize (HQ' s' t' HR Ht); eauto.
Qed.

(** A program whose critical sections all respect a guarantee that is in the rely. *)
Lemma wp_guar {A} (p : prog A) s t log :
  guar R p -> wp R p (fun _ s' _ _ => R s s') s t log.
Proof.
  assert (forall s0, R s0 s -> guar R p -> wp R p (fun _ s' _ _ => R s0 s') s t log) as H;
    [|intros; by apply H].
  intros s0. revert s t log. induction p as [a|c k IH|u k IH|k IH|d k IH|l k IH|l k IH];
    simpl; intros s t log H0 Hg s' t' HR Ht.
  { by etrans. }
  2: { apply IH; [|apply Hg]. etrans; [done|]. etrans; [done|]. apply Hg. }
  all: intros; apply IH; [by etrans|apply Hg].
Qed.

(** Soundness: what [wp] promises holds of every run whose interference is in [R]. *)
Theorem wp_sound {A} o (p : prog A) (Q : A -> S -> Z -> list event -> Prop) x :
  relies o R -> wp R p Q (x_st x) (x_now x) (x_log x) ->
  Q (run o p x).1 (x_st (run o p x).2) (x_now (run o p x).2) (x_log (run o p x).2).
Proof.
  intros Ho. revert x. induction p as [a|c k IH|u k IH|k IH|d k IH|l k IH|l k IH];
    simpl; intros x Hwp.
  { apply Hwp; [reflexivity|lia]. }
  4: { apply IH. apply Hwp; [apply Ho|simpl; lia..]. }
  all: apply IH; apply Hwp; [apply Ho|simpl; lia].
Qed.

End WithRely.

Lemma relies_quiet (o : oracle S C ans) : quiet o -> relies o eq.
Proof. intros H n s. by rewrite H. Qed.

(** In isolation a program moves the state by any guarantee it respects. *)
Lemma wp_guar_eq {A} (Gd : S -> S -> Prop) `{!PreOrder Gd} (p : prog A) s t log :
  guar Gd p -> wp eq p (fun _ s' _ _ => Gd s s') s t log.
Proof.
  assert (forall s0, Gd s0 s -> guar Gd p -> wp eq p (fun _ s' _ _ => Gd s0 s') s t log) as H;
    [|intros; by apply H].
  intros s0. revert s t log. induction p as [a|c k IH|u k IH|k IH|d k IH|l k IH|l k IH];
    simpl; intros s t log H0 Hg s' t' <- Ht; [done|..].
  2: { apply IH; [|apply Hg]. etrans; [done|]. apply Hg. }
  all: intros; apply IH; [done|apply Hg].
Qed.

(** The form in which the functional theorems use [wp]: no interference. *)
Lemma run_quiet {A} o (p : prog A) (Q : A -> S -> Z -> list event -> Prop) x :
  quiet o -> wp eq p Q (x_st x) (x_now x) (x_log x) ->
  Q (run o p x).1 (x_st (run o p x).2) (x_now (run o p x).2) (x_log (run o p x).2).
Proof. intros H. apply wp_sound; [apply _|by apply relies_quiet]. Qed.

(** Any interference at all. *)
Definition anything (s s' : S) : Prop := True.

#[global] Instance anything_preorder : PreOrder anything.
Proof. by split. Qed.

Lemma run_anything {A} o (p : prog A) (Q : A -> S -> Z -> list event -> Prop) x :
  wp anything p Q (x_st x) (x_now x) (x_log x) ->
  Q (run o p x).1 (x_st (run o p x).2) (x_now (run o p x).2) (x_log (run o p x).2).
Proof. apply wp_sound; [apply _|]. by intros n s. Qed.

(** A pure step that may fail, and a call, for postconditions that errors satisfy, next to
    an invariant [I] of the state. *)
Lemma wp_ok_pure {A B E} (R : S -> S -> Prop) (I : S -> Prop) (r : result A E) (f : A -> prog (result B E)) Q s t log :
  I s -> (forall a s' t', I s' -> r = Ok a -> wp R (f a) Q s' t' log) ->
  (forall e s' t', Q (Err e) s' t' log) ->
  wp R (bind_ok (Ret r) f) Q s t log.
Proof.
  intros HI Hf HQ. destruct r as [a|e]; simpl.
  - by apply Hf.
  - intros s' t' _ _. apply HQ.
Qed.

Lemma wp_ok_call {A B E} (R : S -> S -> Prop) `{!PreOrder R} (I : S -> Prop) (p : prog (result A E))
    (f : A -> prog (result B E)) P Q s t log :
  wp R p (fun r s' t' log' => I s' /\ P r s' t' log') s t log ->
  (forall a s' t' log', I s' -> P (Ok a) s' t' log' -> wp R (f a) Q s' t' log') ->
  (forall e s' t' log', Q (Err e) s' t' log') ->
  wp R (bind_ok p f) Q s t log.
Proof.
  intros Hp Hf HQ. apply wp_bind_ok; [apply _|]. eapply wp_mono; [|exact Hp]. intros [a|e] s' t' log' [HI HP]; [auto|].
  intros s2 t2 _ _. apply HQ.
Qed.

(** The questions a call adds to the log. *)
Definition adds (P : event -> Prop) (log log' : list event) : Prop := exists evs, log' = log ++ evs /\ Forall P evs.

Lemma adds_refl P log : adds P log log.
Proof. exists []. by rewrite app_nil_r. Qed.

Lemma adds_trans P log log' log'' : adds P log log' -> adds P log' log'' -> adds P log log''.
Proof.
  intros (e1 & -> & H1) (e2 & -> & H2). exists (e1 ++ e2). rewrite app_assoc. split; [done|]. by apply Forall_app.
Qed.

Lemma adds_mono (P Q : event -> Prop) log log' : (forall ev, P ev -> Q ev) -> adds P log log' -> adds Q log log'.
Proof. intros HPQ (e & -> & H). exists e. split; [done|]. by eapply Forall_impl. Qed.

Lemma adds_one (P : event -> Prop) log ev : P ev -> adds P log (log ++ [ev]).
Proof. intros H. exists [ev]. split; [done|]. by constructor. Qed.

Lemma adds_prefix P log log' : adds P log log' -> log `prefix_of` log'.
Proof. intros (e & -> & _). by eexists. Qed.

(** Less interference keeps what [wp] promises. *)
Lemma wp_rely_mono {A} (R R' : S -> S -> Prop) (p : prog A) (Q : A -> S -> Z -> list event -> Prop) s t log :
  (forall s s', R s s' -> R' s s') -> wp R' p Q s t log -> wp R p Q s t log.
Proof.
  intros HR. revert s t log. induction p; simpl; intros s0 t0 log0 HQ s1 t1 Hs Ht; specialize (HQ s1 t1 (HR _ _ Hs) Ht); eauto.
Qed.

(** The questions a program may ask are the ones it adds to the log. *)
Lemma wp_emits {A} (R : S -> S -> Prop) (good : C -> Prop) (p : prog A) s t log :
  emits good (fun _ _ => True) p (fun _ => True) ->
  wp R p (fun _ _ _ log' => adds (fun '(Ev c _) => good c) log log') s t log.
Proof.
  assert (forall log0, adds (fun '(Ev c _) => good c) log0 log -> emits good (fun _ _ => True) p (fun _ => True) ->
    wp R p (fun _ _ _ log' => adds (fun '(Ev c _) => good c) log0 log') s t log) as H; [|intros; apply H; [apply adds_refl|done]].
  intros log0. revert s t log. induction p as [a|c k IH|u k IH|k IH|d k IH|l k IH|l k IH];
    cbn [wp emits]; intros s t log Hl He s' t' HR Ht; [done|destruct He as [Hc He]|..]; intros; try (apply IH; by auto).
  apply IH; [|by apply He]. eapply adds_trans; [exact Hl|by apply adds_one].
Qed.

(** A postcondition under an assumption on the log may be proved under the assumption on the
    log so far. *)
Lemma wp_assume {A} (R : S -> S -> Prop) (ok : event -> Prop) (p : prog A) (Q : A -> S -> Z -> list event -> Prop) s t log :
  (Forall ok log -> wp R p (fun a s' t' log' => Forall ok log' -> Q a s' t' log') s t log) ->
  wp R p (fun a s' t' log' => Forall ok log' -> Q a s' t' log') s t log.
Proof.
  revert s t log. induction p as [a|c k IH|u k IH|k IH|d k IH|l k IH|l k IH]; cbn [wp]; intros s t log H s' t' HR Ht.
  { intros Hl. by apply H. }
  1: intros a; apply IH; intros [Hl _]%Forall_app; by apply H.
  all: intros; apply IH; intros Hl; by apply H.
Qed.

(** Interference and critical sections that are all within one preorder. *)
Lemma wp_within {A} (R Gd H : S -> S -> Prop) `{!PreOrder H} (p : prog A) s t log :
  (forall s s', R s s' -> H s s') -> (forall s s', Gd s s' -> H s s') -> guar Gd p ->
  wp R p (fun _ s' _ _ => H s s') s t log.
Proof.
  intros HR HG. assert (forall s0, H s0 s -> guar Gd p -> wp R p (fun _ s' _ _ => H s0 s') s t log) as Hw; [|intros; by apply Hw].
  intros s0. revert s t log. induction p as [a|c k IH|u k IH|k IH|d k IH|l k IH|l k IH];
    cbn [wp guar]; intros s t log H0 Hg s' t' Hs Ht; assert (H s0 s') as H1 by (by etrans; [|apply HR]); [done|..].
  1: intros a; by apply IH.
  1: { destruct (Hg s') as [Hu Hk]. apply IH; [etrans; [exact H1|by apply HG]|done]. }
  all: intros; by apply IH.
Qed.

(** A loop that has exited is not changed by more fuel. *)
Lemma iter_more_fuel {B A} o fuel fuel' (body : B -> prog (B + A)) b x a y :
  (fuel <= fuel')%nat -> run o (iter fuel body b) x = (inr a, y) -> run o (iter fuel' body b) x = (inr a, y).
Proof.
  revert fuel' b x. induction fuel as [|fuel IH]; intros fuel' b x Hf; [done|].
  destruct fuel' as [|fuel']; [lia|]. simpl. rewrite !run_bind.
  destruct (run o (body b) x) as [[b'|a'] z]; [|done]. apply IH. lia.
Qed.

(** ** Guarantees *)

Lemma guar_bind {A B} G (p : prog A) (f : A -> prog B) :
  guar G p -> (forall a, guar G (f a)) -> guar G (bind p f).
Proof. intros Hp Hf. induction p; simpl in *; naive_solver. Qed.

Lemma guar_bind_ok {A B E} G (p : prog (result A E)) (f : A -> prog (result B E)) :
  guar G p -> (forall a, guar G (f a)) -> guar G (bind_ok p f).
Proof. intros Hp Hf. apply guar_bind; [done|]. intros [a|e]; [apply Hf|done]. Qed.

Lemma guar_with_lock {A} G l (p : prog A) : guar G p -> guar G (with_lock l p).
Proof. intros. simpl. by apply guar_bind. Qed.

Lemma guar_for_each {X} G (l : list X) (f : X -> prog unit) :
  (forall x, guar G (f x)) -> guar G (for_each l f).
Proof. intros Hf. induction l; simpl; [done|]. by apply guar_bind. Qed.

Lemma guar_iter {B A} G fuel (body : B -> prog (B + A)) b :
  (forall b, guar G (body b)) -> guar G (iter fuel body b).
Proof.
  intros Hb. revert b. induction fuel; intros b; simpl; [done|].
  apply guar_bind; [done|]. intros [|]; simpl; auto.
Qed.

Lemma guar_mono {A} (G G' : S -> S -> Prop) (p : prog A) :
  (forall s s', G s s' -> G' s s') -> guar G p -> guar G' p.
Proof. intros HG. induction p; simpl; intros Hp; naive_solver. Qed.

(** However the tasks of a pool are interleaved, the shared state only moves by
    the guarantee they all respect. *)
Lemma pool_guar_step {A} OK G (P P' : pool S C ans A) :
  Forall (guar G) (p_tasks _ P) -> pool_step_ok OK P P' ->
  rtc G (p_st _ P) (p_st _ P') /\ Forall (guar G) (p_tasks _ P').
Proof.
  intros HG Hstep. destruct Hstep; simpl in *; (split; [|try done]).
  all: try reflexivity.
  all: try match goal with
       | H : _ !! _ = Some _ |- Forall _ _ =>
           pose proof (proj1 (Forall_lookup _ _) HG _ _ H) as Hg; simpl in Hg;
           apply Forall_insert; [done|]; auto
       | H : _ !! _ = Some _ |- rtc _ _ _ =>
           pose proof (proj1 (Forall_lookup _ _) HG _ _ H) as Hg; simpl in Hg
       end.
  - apply rtc_once. apply Hg.
  - apply Hg.
Qed.

Theorem pool_guar {A} G (P P' : pool S C ans A) :
  Forall (guar G) (p_tasks _ P) -> rtc pool_step P P' -> rtc G (p_st _ P) (p_st _ P').
Proof.
  intros HG Hsteps. induction Hsteps as [|P1 P2 P3 H12 H23 IH]; [reflexivity|].
  destruct (pool_guar_step _ G P1 P2 HG H12) as [? ?]. etrans; eauto.
Qed.

(** Invariants by rule induction on the interleaving. *)
Corollary pool_invariant {A} (I : S -> Prop) (P P' : pool S C ans A) :
  I (p_st _ P) -> Forall (guar (fun s s' => I s -> I s')) (p_tasks _ P) ->
  rtc pool_step P P' -> I (p_st _ P').
Proof.
  intros HI HG Hsteps. pose proof (pool_guar _ P P' HG Hsteps) as H.
  clear -HI H. induction H; auto.
Qed.

(** The same for tasks that rely on the invariant and on the answers they get, with what
    they return. *)
Lemma pool_safe_step {A} OK (I : S -> Prop) (Q : A -> Prop) (P P' : pool S C ans A) :
  I (p_st _ P) -> Forall (fun p => safe I OK p Q) (p_tasks _ P) -> pool_step_ok OK P P' ->
  I (p_st _ P') /\ Forall (fun p => safe I OK p Q) (p_tasks _ P').
Proof.
  intros HI HS Hstep. destruct Hstep; simpl in *; try done.
  all: match goal with
       | H : _ !! _ = Some _ |- _ =>
           pose proof (proj1 (Forall_lookup _ _) HS _ _ H) as Hs; simpl in Hs
       end.
  all: try (split; [done|]; apply Forall_insert; [done|]; auto).
  destruct (Hs s HI) as [HI' Hk]. split; [done|]. by apply Forall_insert.
Qed.

(** A run in isolation moves the state by the guarantee of its program. *)
Lemma run_guar {A} G o (p : prog A) x :
  quiet o -> guar G p -> rtc G (x_st x) (x_st (run o p x).2).
Proof.
  intros Hq Hg. remember (x_st x) as s eqn:Hs. revert s x Hs Hg.
  induction p as [a|c k IH|u k IH|k IH|d k IH|l k IH|l k IH]; simpl; intros s x -> Hg;
    [reflexivity|..].
  2: { etrans; [|eapply IH; [reflexivity|apply Hg]]. simpl. rewrite Hq. apply rtc_once, Hg. }
  all: apply IH; [simpl; by rewrite Hq|apply Hg].
Qed.

(** ** Invariants with answers *)

Section Safe.
Context (I : S -> Prop) (OK : forall c, ans c -> Prop).

Lemma safe_mono {A} (p : prog A) (Q Q' : A -> Prop) :
  safe I OK p Q -> (forall a, Q a -> Q' a) -> safe I OK p Q'.
Proof. intros Hp HQ. induction p; simpl in *; naive_solver. Qed.

Lemma safe_ret {A} (a : A) (Q : A -> Prop) : Q a -> safe I OK (Ret a) Q.
Proof. done. Qed.

Lemma safe_equiv {A} (I' : S -> Prop) (p : prog A) Q :
  (forall s, I s <-> I' s) -> safe I OK p Q -> safe I' OK p Q.
Proof. intros H. induction p; simpl; naive_solver. Qed.

Lemma safe_sleep d (Q : unit -> Prop) : Q tt -> safe I OK (sleep d) Q.
Proof. done. Qed.

Lemma safe_bind {A B} (p : prog A) (f : A -> prog B) Q :
  safe I OK p (fun a => safe I OK (f a) Q) -> safe I OK (bind p f) Q.
Proof. induction p; simpl; naive_solver. Qed.

Lemma safe_bind_ok {A B E} (p : prog (result A E)) (f : A -> prog (result B E)) Q :
  safe I OK p (fun r => match r with Ok a => safe I OK (f a) Q | Err e => Q (Err e) end) ->
  safe I OK (bind_ok p f) Q.
Proof. intros H. apply safe_bind. eapply safe_mono; [exact H|]. by intros []. Qed.

Lemma safe_with_lock {A} l (p : prog A) Q : safe I OK p Q -> safe I OK (with_lock l p) Q.
Proof. intros H. simpl. apply safe_bind. eapply safe_mono; [exact H|]. done. Qed.

Lemma safe_for_each {X} (l : list X) (f : X -> prog unit) (Q : unit -> Prop) :
  (forall x, x ∈ l -> safe I OK (f x) (fun _ => True)) -> Q tt -> safe I OK (for_each l f) Q.
Proof.
  intros Hf HQ. induction l as [|x l IH]; simpl; [done|]. apply safe_bind.
  eapply safe_mono; [apply Hf; set_solver|]. intros _ _. apply IH. set_solver.
Qed.

Lemma safe_iter {B A} fuel (body : B -> prog (B + A)) b (J : B -> Prop) (Q : B + A -> Prop) :
  J b ->
  (forall b, J b -> safe I OK (body b) (fun r => match r with inl b => J b | inr a => Q (inr a) end)) ->
  (forall b, J b -> Q (inl b)) -> safe I OK (iter fuel body b) Q.
Proof.
  intros Hb Hbody Hl. revert b Hb. induction fuel as [|fuel IH]; intros b Hb; simpl; [auto|].
  apply safe_bind. eapply safe_mono; [by apply Hbody|]. intros [b'|a]; simpl; auto.
Qed.

Definition ev_ok (e : event) : Prop := match e with Ev c a => OK c a end.

(** The log of a run extends the log it started with. *)
Lemma run_log_prefix {A} o (p : prog A) x : x_log x `prefix_of` x_log (run o p x).2.
Proof.
  revert x. induction p as [a|c k IH|u k IH|k IH|d k IH|l k IH|l k IH]; intros x; simpl; [done|..].
  { etrans; [|apply IH]. simpl. by eexists. }
  all: etrans; [|apply IH]; done.
Qed.

(** Everything a run logs is an answer of its oracle. *)
Lemma run_log_oracle {A} o (p : prog A) x :
  exists evs, x_log (run o p x).2 = x_log x ++ evs /\
              Forall (fun ev => exists n c, ev = Ev c (o_ans o n c)) evs.
Proof.
  revert x. induction p as [a|c k IH|u k IH|k IH|d k IH|l k IH|l k IH]; intros x; simpl.
  { exists []. by rewrite app_nil_r. }
  1: { match goal with |- context [run o _ ?z] => destruct (IH (o_ans o (x_n x) c) z) as (evs & -> & Hevs) end.
       exists (Ev c (o_ans o (x_n x) c) :: evs). simpl. rewrite <-app_assoc.
       split; [done|]. constructor; [eauto|done]. }
  all: match goal with |- context [run _ (?k ?y) ?z] => apply (IH y z) | |- context [run _ _ ?z] => apply (IH z) end.
Qed.

Lemma run_log_ok {A} o (p : prog A) x :
  (forall n c, OK c (o_ans o n c)) ->
  exists evs, x_log (run o p x).2 = x_log x ++ evs /\ Forall ev_ok evs.
Proof.
  intros Ho. destruct (run_log_oracle o p x) as (evs & -> & Hevs). exists evs. split; [done|].
  eapply Forall_impl; [exact Hevs|]. intros ev (n & c & ->). apply Ho.
Qed.

Lemma start_log_ok {A} o (p : prog A) s t :
  (forall n c, OK c (o_ans o n c)) -> Forall ev_ok (x_log (run o p (start s t)).2).
Proof. intros Ho. by destruct (run_log_ok o p (start s t) Ho) as (evs & -> & Hevs). Qed.

(** Soundness: the other tasks keep the invariant too. *)
Lemma safe_sound {A} o (p : prog A) Q x :
  relies o (fun s s' => I s -> I s') -> I (x_st x) -> safe I OK p Q ->
  Forall ev_ok (x_log (run o p x).2) ->
  Q (run o p x).1 /\ I (x_st (run o p x).2).
Proof.
  intros Ho. revert x. induction p as [a|c k IH|u k IH|k IH|d k IH|l k IH|l k IH];
    simpl; intros x HI Hp Hlog.
  { done. }
  1: { apply IH; [by apply Ho| |done]. apply Hp.
       pose proof (proj1 (Forall_forall _ _) Hlog) as Hall. apply (Hall (Ev c (o_ans o (x_n x) c))).
       eapply elem_of_prefix; [|apply run_log_prefix]. simpl. set_solver. }
  1: { destruct (Hp (x_st (tick o x))) as [? ?]; [by apply Ho|]. by apply IH. }
  all: apply IH; [by apply Ho|apply Hp|done].
Qed.

Lemma safe_ok_mono {A} (OK' : forall c, ans c -> Prop) (p : prog A) Q :
  (forall c a, OK' c a -> OK c a) -> safe I OK p Q -> safe I OK' p Q.
Proof. intros H. induction p; simpl; naive_solver. Qed.

(** The frame rule: what [p] does not touch stays true. *)
Lemma safe_frame {A} (J : S -> Prop) (p : prog A) Q :
  guar (fun s s' => J s -> J s') p -> safe I OK p Q -> safe (fun s => I s /\ J s) OK p Q.
Proof. induction p; simpl; naive_solver. Qed.

Lemma safe_guar {A} (p : prog A) (Q : A -> Prop) :
  guar (fun s s' => I s -> I s') p -> (forall a, Q a) -> safe I OK p Q.
Proof. intros Hg HQ. induction p; simpl in *; naive_solver. Qed.

Lemma safe_any {A} (p : prog A) : (forall s, I s) -> safe I OK p (fun _ => True).
Proof. intros HI. induction p; simpl; auto. Qed.

Lemma safe_conj {A} (p : prog A) (Q Q' : A -> Prop) :
  safe I OK p Q -> safe I OK p Q' -> safe I OK p (fun a => Q a /\ Q' a).
Proof. induction p; simpl; naive_solver. Qed.

(** Two invariants at once. *)
Lemma safe_and {A} (J : S -> Prop) (p : prog A) (Q : A -> Prop) :
  safe I OK p Q -> safe J OK p (fun _ => True) -> safe (fun s => I s /\ J s) OK p Q.
Proof. induction p; simpl; naive_solver. Qed.

(** *** When the value returned does not matter *)

Abbreviation any := (fun _ => True).

Lemma safe_bind_any {A B} (p : prog A) (f : A -> prog B) :
  safe I OK p any -> (forall a, safe I OK (f a) any) -> safe I OK (bind p f) any.
Proof. intros Hp Hf. apply safe_bind. eapply safe_mono; [exact Hp|auto]. Qed.

Lemma safe_bind_ok_any {A B E} (p : prog (result A E)) (f : A -> prog (result B E)) :
  safe I OK p any -> (forall a, safe I OK (f a) any) -> safe I OK (bind_ok p f) any.
Proof. intros Hp Hf. apply safe_bind_any; [done|]. by intros []. Qed.

Lemma safe_for_each_any {X} (l : list X) (f : X -> prog unit) :
  (forall x, safe I OK (f x) any) -> safe I OK (for_each l f) any.
Proof. intros Hf. by apply safe_for_each. Qed.

Lemma safe_iter_any {B A} fuel (body : B -> prog (B + A)) b :
  (forall b, safe I OK (body b) any) -> safe I OK (iter fuel body b) any.
Proof.
  intros Hb. apply (safe_iter _ _ _ any); [done| |done]. intros b' _.
  eapply safe_mono; [apply Hb|]. by intros [].
Qed.

Lemma safe_bind_inv {A B} (p : prog A) (f : A -> prog B) Q :
  safe I OK (bind p f) Q -> safe I OK p (fun a => safe I OK (f a) Q).
Proof. induction p; simpl; naive_solver. Qed.

(** What the first half establishes holds of every success of the whole. *)
Lemma safe_bind_ok_fact {A B E} (p : prog (result A E)) (f : A -> prog (result B E)) (F : Prop) :
  safe I OK (bind_ok p f) any -> safe I OK p (fun r => is_ok r = true -> F) ->
  safe I OK (bind_ok p f) (fun r => is_ok r = true -> F).
Proof.
  intros Hall%safe_bind_inv HF. apply safe_bind. eapply safe_mono; [exact (safe_conj _ _ _ Hall HF)|].
  intros [a|e] [Hs Hf]; [|done]. eapply safe_mono; [exact Hs|]. auto.
Qed.

End Safe.

(** What [safe] promises, in [wp]. *)
Lemma wp_safe {A} (R : S -> S -> Prop) (I : S -> Prop) (OK : forall c, ans c -> Prop) (p : prog A) (Q : A -> Prop) s t log :
  (forall s s', R s s' -> I s -> I s') -> I s -> safe I OK p Q ->
  wp R p (fun a s' _ log' => Forall (ev_ok OK) log' -> I s' /\ Q a) s t log.
Proof.
  intros HR HI Hp. apply wp_assume. intros Hlog. revert s t log HI Hp Hlog.
  induction p as [a|c k IH|u k IH|k IH|d k IH|l k IH|l k IH]; cbn [wp safe]; intros s t log HI Hp Hlog s' t' Hs Ht;
    assert (I s') as HI' by eauto.
  { done. }
  1: { intros a. apply wp_assume. intros [_ Ha]%Forall_app. apply Forall_cons in Ha as [Ha _].
       apply IH; [done|by apply Hp|]. apply Forall_app. split; [done|]. by constructor. }
  1: { destruct (Hp s' HI') as [Hu Hk]. by apply IH. }
  all: intros; apply IH; auto.
Qed.

(** ** Questions asked *)

Section Emits.
Context (good : C -> Prop) (OK : forall c, ans c -> Prop).

Lemma emits_mono {A} (good' : C -> Prop) (p : prog A) (Q Q' : A -> Prop) :
  emits good' OK p Q -> (forall c, good' c -> good c) -> (forall a, Q a -> Q' a) ->
  emits good OK p Q'.
Proof. intros Hp Hg HQ. induction p; simpl in *; naive_solver. Qed.

Lemma emits_bind {A B} (p : prog A) (f : A -> prog B) Q :
  emits good OK p (fun a => emits good OK (f a) Q) -> emits good OK (bind p f) Q.
Proof. induction p; simpl; naive_solver. Qed.

Lemma emits_bind_any {A B} (p : prog A) (f : A -> prog B) Q :
  emits good OK p (fun _ => True) -> (forall a, emits good OK (f a) Q) -> emits good OK (bind p f) Q.
Proof. intros Hp Hf. apply emits_bind. eapply emits_mono; [exact Hp|done|auto]. Qed.

Lemma emits_bind_ok_any {A B E} (p : prog (result A E)) (f : A -> prog (result B E)) :
  emits good OK p (fun _ => True) -> (forall a, emits good OK (f a) (fun _ => True)) ->
  emits good OK (bind_ok p f) (fun _ => True).
Proof. intros Hp Hf. apply emits_bind_any; [done|]. intros []; [apply Hf|done]. Qed.

Lemma emits_with_lock {A} l (p : prog A) :
  emits good OK p (fun _ => True) -> emits good OK (with_lock l p) (fun _ => True).
Proof. intros Hp. simpl. by apply emits_bind_any. Qed.

Lemma emits_for_each {X} (l : list X) (f : X -> prog unit) :
  (forall x, x ∈ l -> emits good OK (f x) (fun _ => True)) ->
  emits good OK (for_each l f) (fun _ => True).
Proof.
  intros Hf. induction l as [|x l IH]; simpl; [done|]. apply emits_bind_any; [apply Hf; set_solver|].
  intros _. apply IH. set_solver.
Qed.

Lemma emits_iter {B A} fuel (body : B -> prog (B + A)) b :
  (forall b, emits good OK (body b) (fun _ => True)) -> emits good OK (iter fuel body b) (fun _ => True).
Proof.
  intros Hb. revert b. induction fuel as [|fuel IH]; intros b; simpl; [done|].
  apply emits_bind_any; [done|]. intros []; simpl; auto.
Qed.

(** Soundness: the questions in the log of a run. *)
Lemma emits_sound {A} o (p : prog A) Q x evs :
  emits good OK p Q -> x_log (run o p x).2 = x_log x ++ evs -> Forall (ev_ok OK) evs ->
  Forall (fun ev => match ev with Ev c _ => good c end) evs /\ Q (run o p x).1.
Proof.
  revert x evs. induction p as [a|c k IH|u k IH|k IH|d k IH|l k IH|l k IH]; intros x evs Hp Hl Hok; simpl in *.
  { rewrite <-(app_nil_r (x_log x)) in Hl at 1. by apply app_inv_head in Hl as <-. }
  1: { destruct Hp as [Hc Hk].
       match type of Hl with x_log (run o ?q ?z).2 = _ => destruct (run_log_prefix o q z) as [evs' Hpre] end.
       simpl in Hpre. rewrite Hl, <-app_assoc in Hpre. apply app_inv_head in Hpre as ->.
       apply Forall_cons in Hok as [Ha Hok]. rewrite app_assoc in Hl.
       destruct (IH _ _ evs' (Hk _ Ha) Hl Hok) as [Hg HQ]. split; [by constructor|done]. }
  all: eapply IH; [apply Hp|exact Hl|done].
Qed.

End Emits.

(** Two tasks never hold the same mutex: a step that acquires [l] finds it free. *)
Lemma pool_lock_free {A} s t h (ps : list (prog A)) i l k :
  ps !! i = Some (Lock l k) -> l ∈ h ->
  forall P', pool_step (Pool s t h ps) P' -> p_tasks _ P' !! i <> Some (Lock l k) -> False.
Proof.
  intros Hi Hl P' Hstep Hne. unfold pool_step in Hstep. inversion Hstep; subst; simpl in *; try done.
  all: try (destruct (decide (i = i0)) as [<-|Hn];
            [congruence|rewrite list_lookup_insert_ne in Hne by done; done]).
Qed.

End Laws.

(** Symbolic execution of a program inside [wp]: unfold the combinators and introduce
    the interference and the clock of each step. *)
Ltac wp_step :=
  match goal with
  | |- wp _ (bind_ok _ _) _ _ _ _ => apply wp_bind_ok; [apply _|]
  | |- wp _ (bind _ _) _ _ _ _ => apply wp_bind; [apply _|]
  | |- wp _ (with_lock _ _) _ _ _ _ => apply wp_with_lock; [apply _|]; intros ? ? ? ?
  | |- wp _ get _ _ _ _ => intros ? ? ? ? ? ? ? ?
  | |- wp _ now _ _ _ _ => intros ? ? ? ? ? ? ? ?
  | |- wp _ (modify _) _ _ _ _ => intros ? ? ? ? ? ? ? ?
  | |- wp _ (ask _) _ _ _ _ => intros ? ? ? ? ? ? ? ? ?
  | |- wp _ (sleep _) _ _ _ _ => intros ? ? ? ? ? ? ? ? ?
  | |- wp _ (Ret _) _ _ _ _ => intros ? ? ? ?
  end; subst; cbv beta iota.

(** Structural descent through a program for [guar]; what is left are the facts about
    the state updates. *)
Ltac guar_step :=
  match goal with
  | |- guar _ (bind_ok _ _) => apply guar_bind_ok
  | |- guar _ (bind _ _) => apply guar_bind
  | |- guar _ (with_lock _ _) => apply guar_with_lock
  | |- guar _ (for_each _ _) => apply guar_for_each; intros ?
  | |- guar _ (iter _ _ _) => apply guar_iter; intros ?
  | |- guar _ (Ret _) => exact I
  | |- guar _ (ask _) => intros ?; exact I
  | |- guar _ now => intros ?; exact I
  | |- guar _ (sleep _) => exact I
  | |- guar _ get => intros ?; split; [|exact I]
  | |- guar _ (modify _) => intros ?; split; [|exact I]
  | |- forall _, guar _ _ => intros ?
  | |- guar _ (match ?x with _ => _ end) => destruct x eqn:?
  | |- guar _ (let (_, _) := ?x in _) => destruct x eqn:?
  end; cbv beta iota.

(** The same for [safe]; [safe_seq] leaves the branching to the proof. *)
Ltac safe_seq :=
  match goal with
  | |- safe _ _ (bind_ok _ _) _ => apply safe_bind_ok
  | |- safe _ _ (bind _ _) _ => apply safe_bind
  | |- safe _ _ (with_lock _ _) _ => apply safe_with_lock
  | |- safe _ _ (Ret _) _ => apply safe_ret
  | |- safe _ _ (ask _) _ => intros ? ?
  | |- safe _ _ now _ => intros ?
  | |- safe _ _ (sleep _) _ => apply safe_sleep
  | |- safe _ _ get _ => intros ? ?; split; [assumption|]
  | |- safe _ _ (modify _) _ => intros ? ?; split
  end; cbv beta iota.
Ltac safe_step :=
  first
  [ safe_seq
  | match goal with
    | |- safe _ _ (match ?x with _ => _ end) _ => destruct x eqn:?
    | |- match ?x with _ => _ end => destruct x eqn:?
    | |- safe _ _ (let (_, _) := ?x in _) _ => destruct x eqn:?
    end; cbv beta iota ].

(** The same when the value returned does not matter; what is left are the updates. *)
Ltac any_step :=
  match goal with
  | |- safe _ _ (bind_ok _ _) _ => apply safe_bind_ok_any
  | |- safe _ _ (bind _ _) _ => apply safe_bind_any
  | |- safe _ _ (with_lock _ _) _ => apply safe_with_lock
  | |- safe _ _ (for_each _ _) _ => apply safe_for_each_any; intros ?
  | |- safe _ _ (Prog.iter _ _ _) _ => apply safe_iter_any; intros ?
  | |- safe _ _ (Ret _) _ => exact I
  | |- safe _ _ (ask _) _ => intros ? ?; exact I
  | |- safe _ _ now _ => intros ?; exact I
  | |- safe _ _ (sleep _) _ => exact I
  | |- safe _ _ get _ => intros ? ?; split; [assumption|exact I]
  | |- safe _ _ (modify _) _ => intros ? ?; split; [|exact I]
  | |- forall _, safe _ _ _ _ => intros ?
  | |- safe _ _ (match ?x with _ => _ end) _ => destruct x eqn:?
  | |- safe _ _ (let (_, _) := ?x in _) _ => destruct x eqn:?
  end; cbv beta iota.

(** The same for [emits], when the value returned does not matter. *)
Ltac emits_step :=
  match goal with
  | |- emits _ _ (bind_ok _ _) _ => apply emits_bind_ok_any
  | |- emits _ _ (bind _ _) _ => apply emits_bind_any
  | |- emits _ _ (with_lock _ _) _ => apply emits_with_lock
  | |- emits _ _ (for_each _ _) _ => apply emits_for_each; intros ? ?
  | |- emits _ _ (iter _ _ _) _ => apply emits_iter; intros ?
  | |- emits _ _ (Ret _) _ => exact I
  | |- emits _ _ (ask _) _ => split; [|intros ? ?; exact I]
  | |- emits _ _ now _ => intros ?; exact I
  | |- emits _ _ (sleep _) _ => exact I
  | |- emits _ _ get _ => intros ?; exact I
  | |- emits _ _ (modify _) _ => intros ?; exact I
  | |- forall _, emits _ _ _ _ => intros ?
  | |- emits _ _ (match ?x with _ => _ end) _ => destruct x eqn:?
  | |- emits _ _ (let (_, _) := ?x in _) _ => destruct x eqn:?
  end; cbv beta iota.
