(* ===== verification/State.v ===== *)
(** The data the node works on: the configuration ([src/src/config.rs]), the error
    type and its HTTP status ([src/src/error.rs]), the shared [AppState]
    ([src/src/server.rs]), the process-wide statics (the nodeList cache of
    [src/src/chain.rs], the verdict cache of [src/src/verifier.rs], the counters of
    [src/src/metrics.rs]) and the file system; and the questions a node puts to the
    outside world, as the [Call] type of the programs of [Prog]. *)
From S2P Require Import Base Prelude Prog.
From Stdlib Require Import ZArith Lia.
From Stdlib.Strings Require Import Byte.
From stdpp Require Import base list gmap strings countable pretty sorting.

Local Open Scope Z_scope.

#[export] Instance byte_eq_dec : EqDecision Byte.byte := Byte.byte_eq_dec.
#[export] Instance byte_countable : Countable Byte.byte :=
  inj_countable Byte.to_N Byte.of_N Byte.of_to_N.

(** Ethereum addresses are 20 bytes, secp256k1 private keys 32. *)
Abbreviation Address := (list Byte.byte).

(** * [error.rs] *)

Inductive KmsError : Type :=
| InvalidTimestamp (m : string)
| InvalidSignature (m : string)
| AppNotFound (m : string)
| NotAttested (m : string)
| BadRequest (m : string)
| ChainError (m : string)
| CryptoError (m : string)
| ConfigError (m : string).

(** The [thiserror] [Display] of each variant. *)
Definition KmsError_to_string (e : KmsError) : string :=
  match e with
  | InvalidTimestamp m => "invalid timestamp: " +:+ m
  | InvalidSignature m => "invalid signature: " +:+ m
  | AppNotFound m => "app not found on-chain: " +:+ m
  | NotAttested m => "attestation required: " +:+ m
  | BadRequest m => "bad request: " +:+ m
  | ChainError m => "chain error: " +:+ m
  | CryptoError m => "crypto error: " +:+ m
  | ConfigError m => "config error: " +:+ m
  end.

(** The HTTP status of an error response. *)
Definition into_response (e : KmsError) : Z * string :=
  let message := KmsError_to_string e in
  match e with
  | InvalidTimestamp _ | InvalidSignature _ => (401, message)
  | AppNotFound _ => (404, message)
  | BadRequest _ => (400, message)
  | NotAttested _ => (403, message)
  | ChainError _ | CryptoError _ | ConfigError _ => (500, message)
  end.

(** * [config.rs] *)

Record ServerConfig := {
  bind_addr : string;
  grpc_bind : string;
  timestamp_tolerance_secs : Z
}.

Record TappConfig := {
  tapp_app_id : string;
  tapp_ip : string;
  tapp_port : Z;
  tapp_socket : option string;
  mock_tee : bool
}.

Record VerifierConfig := {
  verifier_url : string;
  pubkeys : list string;
  api_key : string;
  insecure_http : bool
}.

Record ChainConfig := {
  rpc_url : string;
  contract_address : string
}.

Record ClusterConfig := {
  threshold : Z;
  total_nodes : Z;
  bootstrap : bool;
  self_url : string;
  seeds : list string;
  cfg_sealed_share : option string;
  cfg_sealed_share_path : option string
}.

Record Config := {
  server : ServerConfig;
  tapp : TappConfig;
  chain : ChainConfig;
  cluster : ClusterConfig;
  verifier : option VerifierConfig
}.

Definition tapp_url (c : TappConfig) : string :=
  "http://" +:+ tapp_ip c +:+ ":" +:+ pretty (tapp_port c).

Definition default_http_bind : string := "0.0.0.0:8080".
Definition default_grpc_bind : string := "0.0.0.0:9090".
Definition default_timestamp_tolerance_secs : Z := 300.
Definition default_tapp_ip : string := "127.0.0.1".
Definition default_tapp_port : Z := 50051.

(** [tee::NodeKey]. *)
Record NodeKey := {
  private_key : bytes;
  eth_address : Address
}.

(** * [server.rs]: the shared state *)

Definition PEER_LIVENESS_WINDOW_SECS : Z := 90.

Record PeerInfo := mkPeerInfo {
  grpc_url : string;
  last_seen : Z;
  pubkey : bytes;
  peer_epoch : Z;
  peer_group_pubkey : bytes
}.

Definition is_live (p : PeerInfo) (now : Z) : bool :=
  wrap_i64 (now - last_seen p) <=? PEER_LIVENESS_WINDOW_SECS.

Record ShardState := mkShardState {
  shard_index : Z;
  shard_bytes : bytes;
  shard_epoch : Z
}.

(** [rounds[round][from_index] = (broadcast, p2p)]; the [Notify] carries no data. *)
Record DkgSession := mkDkgSession { rounds : gmap Z (gmap Z (bytes * bytes)) }.

Definition DkgSession_default : DkgSession := mkDkgSession ∅.

Definition record_round (d : DkgSession) (round from_index : Z) (broadcast p2p : bytes) :
    DkgSession :=
  let msgs := default ∅ (rounds d !! round) in
  mkDkgSession (<[round := <[from_index := (broadcast, p2p)]> msgs]> (rounds d)).

(** [chain.rs]: an entry of the nodeList cache. *)
Record NodeListEntry := mkNodeListEntry {
  addrs : list Address;
  fetched_at : Z;
  miss_refresh_at : option Z
}.

(** [verifier.rs]: an entry of the verdict cache. *)
Record CacheEntry := mkCacheEntry {
  verified : bool;
  refusal : string;
  damp : Z;
  at_ : Z;
  confirmed_at : Z
}.

(** * [metrics.rs]: the process-wide atomics *)

Inductive Metric : Set :=
| appkey_ok | appkey_unauthorized | appkey_not_ready | appkey_bad_request | appkey_error
| dprf_discarded_malformed | dprf_discarded_peer_error | dprf_short
| genesis_ok | genesis_fail | recovery_ok | recovery_fail | dealer_ok | dealer_fail
| refresh_ok | refresh_fail | fall_behind | membership_fail
| sealed_persist_fail | sealed_stale_discarded | sealed_identity_mismatch
| share_path_writable | master_matches_baseline | last_recovery_seconds
| verifier_enabled | verifier_allowed | verifier_denied | verifier_stale_served
| verifier_unavailable_refused | verifier_scan_behind
| gossip_push_ok | gossip_push_fail | gossip_last_success
| chain_rpc_ok | chain_rpc_fail | chain_stale_served.

#[export] Instance Metric_eq_dec : EqDecision Metric.
Proof. solve_decision. Defined.

Definition Metrics : Type := Metric -> Z.

(** [Metrics::new]. *)
Definition Metrics_new : Metrics := fun m =>
  match m with share_path_writable | master_matches_baseline => -1 | _ => 0 end.

Definition metric_store (f : Metric) (v : Z) (m : Metrics) : Metrics :=
  fun g => if decide (g = f) then v else m g.

(** [fetch_add(1)] on an [AtomicU64]: wraps at the width. *)
Definition metric_inc (f : Metric) (m : Metrics) : Metrics :=
  metric_store f (wrap_u64 (m f + 1)) m.

(** * The whole mutable state of a node process *)

Record World := mkWorld {
  shard : option ShardState;
  pending_shards : option (list (Z * bytes));
  peer_table : gmap Address PeerInfo;
  dkg_sessions : gmap string DkgSession;
  group_pubkey : option bytes;
  sealed_share : option string;
  node_list_cache : gmap string NodeListEntry;
  providers : gset string;
  verdict_cache : gmap (string * Address) CacheEntry;
  (** [static VERIFIER]: unset, or set to the configured verifier. *)
  the_verifier : option (option VerifierConfig);
  metrics : Metrics;
  started : Z;
  fs : gmap string string
}.

Definition set_shard v (w : World) : World := let (_, b, c, d, e, f, g, h, i, j, k, l, m) := w in
  mkWorld v b c d e f g h i j k l m.
Definition set_pending_shards v (w : World) : World := let (a, _, c, d, e, f, g, h, i, j, k, l, m) := w in
  mkWorld a v c d e f g h i j k l m.
Definition upd_peer_table u (w : World) : World := let (a, b, c, d, e, f, g, h, i, j, k, l, m) := w in
  mkWorld a b (u c) d e f g h i j k l m.
Definition upd_dkg_sessions u (w : World) : World := let (a, b, c, d, e, f, g, h, i, j, k, l, m) := w in
  mkWorld a b c (u d) e f g h i j k l m.
Definition set_group_pubkey v (w : World) : World := let (a, b, c, d, _, f, g, h, i, j, k, l, m) := w in
  mkWorld a b c d v f g h i j k l m.
Definition set_sealed_share v (w : World) : World := let (a, b, c, d, e, _, g, h, i, j, k, l, m) := w in
  mkWorld a b c d e v g h i j k l m.
Definition upd_node_list_cache u (w : World) : World := let (a, b, c, d, e, f, g, h, i, j, k, l, m) := w in
  mkWorld a b c d e f (u g) h i j k l m.
Definition upd_providers u (w : World) : World := let (a, b, c, d, e, f, g, h, i, j, k, l, m) := w in
  mkWorld a b c d e f g (u h) i j k l m.
Definition upd_verdict_cache u (w : World) : World := let (a, b, c, d, e, f, g, h, i, j, k, l, m) := w in
  mkWorld a b c d e f g h (u i) j k l m.
Definition set_the_verifier v (w : World) : World := let (a, b, c, d, e, f, g, h, i, _, k, l, m) := w in
  mkWorld a b c d e f g h i v k l m.
Definition upd_metrics u (w : World) : World := let (a, b, c, d, e, f, g, h, i, j, k, l, m) := w in
  mkWorld a b c d e f g h i j (u k) l m.
Definition set_started v (w : World) : World := let (a, b, c, d, e, f, g, h, i, j, k, _, m) := w in
  mkWorld a b c d e f g h i j k v m.
Definition upd_fs u (w : World) : World := let (a, b, c, d, e, f, g, h, i, j, k, l, m) := w in
  mkWorld a b c d e f g h i j k l (u m).

(** The state no cache and no counter is part of. *)
Definition core (w : World) :=
  (shard w, pending_shards w, peer_table w, dkg_sessions w, group_pubkey w, sealed_share w,
   the_verifier w, started w, fs w).

(** [AppState::new] on a fresh process started at [t]. *)
Definition AppState_new (t : Z) (disk : gmap string string) : World :=
  mkWorld None None ∅ ∅ None None ∅ ∅ ∅ None Metrics_new t disk.

Definition is_initialized (w : World) : bool :=
  match shard w with Some _ => true | None => false end.

Definition own_epoch (w : World) : Z :=
  match shard w with Some s => shard_epoch s | None => 0 end.

Definition table_values (t : gmap Address PeerInfo) : list PeerInfo := (map_to_list t).*2.

(** [AppState::known_epoch]. *)
Definition known_epoch (w : World) : Z :=
  Z.max (own_epoch w) (max_or_0 (map peer_epoch (table_values (peer_table w)))).

(** [AppState::peer_urls]: sorted and deduplicated. *)
Definition peer_urls (w : World) : list string :=
  dedup (merge_sort String.le (map grpc_url (table_values (peer_table w)))).

(** * The wire messages of [proto/kms_cluster.proto] *)

Record NodeInfo := mkNodeInfo {
  ni_grpc_url : string;
  ni_eth_addr : string;
  ni_pubkey : bytes;
  ni_epoch : Z;
  ni_group_pubkey : bytes
}.

Record EncryptedPartial := mkEncryptedPartial {
  ep_ciphertext : bytes;
  ep_shard_index : Z;
  ep_epoch : Z;
  ep_signature : bytes
}.

Record EncryptedShard := mkEncryptedShard {
  es_ciphertext : bytes;
  es_shard_index : Z;
  es_signature : bytes
}.

Record DkgRoundMsg := mkDkgRoundMsg {
  dm_session_id : string;
  dm_round : Z;
  dm_from_index : Z;
  dm_broadcast : bytes;
  dm_p2p : bytes
}.

Record ReshareRequest := mkReshareRequest {
  rr_session_id : string;
  rr_recovering_id : Z;
  rr_dealer_ids : list Z;
  rr_epoch : Z
}.

(** The gRPC status codes the program distinguishes. *)
Inductive Code : Set :=
| Unauthenticated | PermissionDenied | FailedPrecondition | Unavailable | Internal
| Unimplemented | OtherCode.

#[export] Instance Code_eq_dec : EqDecision Code.
Proof. solve_decision. Defined.

Record Status := mkStatus { code : Code; message : string }.

(** What a gRPC client call can come back with. *)
Inductive RpcReply (A : Type) : Type :=
| ConnectFailed (m : string)
| RpcError (st : Status)
| RpcOk (a : A).
Arguments ConnectFailed {A} m.
Arguments RpcError {A} st.
Arguments RpcOk {A} a.

(** What [POST {url}/verify] can come back with: a transport error, or a status
    with the decoded body ([None] when it is not the expected JSON). *)
Inductive ScanReply : Type :=
| ScanTransportError (m : string)
| ScanHttp (status : Z) (body : option (bool * string)).

(** [std::fs::write] may fail half way: the answer says what the file holds then. *)
Inductive WriteReply : Type :=
| WriteOk
| WriteErr (m : string) (left_behind : option string).

(** How the node reaches its tapp-server. *)
Inductive TappTarget : Type :=
| UnixSocket (path : string)
| Tcp (url : string).

(** [tapp_service::GetAppSecretKeyResponse]. *)
Record AppSecretKey := mkAppSecretKey {
  ask_success : bool;
  ask_message : string;
  ask_private_key : bytes;
  ask_eth_address : bytes
}.

(** The JSON body of [POST /app-key]. *)
Record AppKeyRequest := mkAppKeyRequest {
  req_app_id : string;
  req_timestamp : Z;
  req_pubkey : string;
  req_signature : string;
  req_material : string
}.

(** What an HTTP client call can come back with. *)
Inductive HttpReply : Type :=
| HttpError (m : string)
| HttpResponse (status : Z) (body : string).

(** * Questions to the outside world *)

Inductive Call : Type :=
| Utc_now
| Os_rng
| Env_var (name : string)
| Eth_get_node_list (rpc_url : string) (contract : Address) (app_id : string)
| Eth_get_app_owner (rpc_url : string) (contract : Address) (app_id : string)
| Scan_verify (url api_key app_id : string) (signer : Address)
| Grpc_request_shard (url : string) (sig : bytes) (ts : Z)
| Grpc_gossip (url : string) (self_info : NodeInfo) (sig : bytes) (ts : Z)
| Grpc_dkg_round (url : string) (msg : DkgRoundMsg) (sig : bytes) (ts : Z)
| Grpc_start_reshare (url : string) (req : ReshareRequest) (sig : bytes) (ts : Z)
| Grpc_get_dprf_partial (url app_id : string) (material sig : bytes) (ts : Z)
| Completion_order (urls : list string)
| Notified (session_id : string) (deadline : Z)
| Fs_write (path content : string)
| Fs_rename (from to : string)
| Fs_read (path : string)
| Fs_remove (path : string)
| Cli_args
| Is_terminal
| Log_dir_open (dir : string) (files_kept : Z)
| Tapp_connect (target : TappTarget)
| Tapp_get_app_secret_key (app_id key_type : string) (x25519 : bool)
| Http_post_app_key (url : string) (body : AppKeyRequest).

Definition ans (c : Call) : Type :=
  match c with
  | Utc_now => Z
  | Os_rng => bytes
  | Env_var _ => option string
  | Eth_get_node_list _ _ _ => result (list Address) string
  | Eth_get_app_owner _ _ _ => result Address string
  | Scan_verify _ _ _ _ => ScanReply
  | Grpc_request_shard _ _ _ => RpcReply EncryptedShard
  | Grpc_gossip _ _ _ _ => RpcReply (list NodeInfo)
  | Grpc_dkg_round _ _ _ _ => RpcReply unit
  | Grpc_start_reshare _ _ _ _ => RpcReply unit
  | Grpc_get_dprf_partial _ _ _ _ _ => RpcReply EncryptedPartial
  | Completion_order urls => { l : list string | l ≡ₚ urls }
  (** woken before the deadline, or timed out *)
  | Notified _ _ => bool
  | Fs_write _ _ => WriteReply
  | Fs_rename _ _ | Fs_remove _ => option string
  | Fs_read _ => option string
  | Cli_args => list string
  | Is_terminal => bool
  | Log_dir_open _ _ => option string
  | Tapp_connect _ => result unit string
  | Tapp_get_app_secret_key _ _ _ => result AppSecretKey string
  | Http_post_app_key _ _ => HttpReply
  end.

Abbreviation kms := (prog World Call ans).
Abbreviation kms_oracle := (oracle World Call ans).
Abbreviation kms_event := (event Call ans).

Definition inc (f : Metric) : kms unit := modify (upd_metrics (metric_inc f)).
Definition store_metric (f : Metric) (v : Z) : kms unit := modify (upd_metrics (metric_store f v)).

(** [metrics::record]. *)
Definition record_outcome {A E} (ok fail : Metric) (r : result A E) : kms unit :=
  inc (if is_ok r then ok else fail).
