(* ===== verification/Externals.v ===== *)
(** The third-party code the program calls besides [blsful] (which is [Threshold]): hash
    functions, secp256k1 ([k256]), ECIES ([ecies]), [hex], [base64], [serde_bare], the
    byte encodings of the [blsful] types, HKDF and the [ethers] parsers.  Each is a field
    of [Externals]; [ExternalLaws] collects the documented facts the theorems use, each
    under its own name so that a theorem depends only on the ones it mentions. *)
From S2P Require Import Base Threshold Prelude Prog State.
From Stdlib Require Import ZArith Lia.
From stdpp Require Import base list gmap strings.
Local Open Scope Z_scope.

(** [seal::SealedShareV1]. *)
Record SealedShareV1 := mkSealedShareV1 {
  record_version : Z;
  rec_shard_index : Z;
  rec_epoch : Z;
  master_id : bytes;
  rec_share : bytes
}.

Class Externals (T : ThresholdScheme) : Type := {
  keccak256 : bytes -> bytes;
  hex_encode : bytes -> string;
  hex_decode : string -> option bytes;
  b64url_encode : bytes -> string;
  b64url_decode : string -> option bytes;
  (** [ecies::encrypt], with the randomness it draws made explicit. *)
  ecies_enc : bytes -> bytes -> bytes -> result bytes string;
  ecies_dec : bytes -> bytes -> result bytes string;
  (** [SigningKey::from_bytes] followed by the uncompressed public key. *)
  k256_pubkey : bytes -> result bytes string;
  (** [SigningKey::from_bytes] and [sign_prehash]: the 64 signature bytes and the
      recovery id. *)
  k256_sign : bytes -> bytes -> result (bytes * Z) string;
  (** [Signature::from_slice]. *)
  k256_sig_parse : bytes -> result bytes string;
  (** [VerifyingKey::recover_from_prehash], to the uncompressed public key. *)
  k256_recover : bytes -> bytes -> Z -> result bytes string;
  bare_record_ser : SealedShareV1 -> result bytes string;
  bare_record_de : bytes -> result SealedShareV1 string;
  (** [Vec::<u8>::from] and [try_from] of the [blsful] types. *)
  share_vec : SecretKeyShare -> bytes;
  share_try : bytes -> result SecretKeyShare string;
  partial_vec : SignatureShare -> bytes;
  partial_try : bytes -> result SignatureShare string;
  public_key_try : bytes -> result PublicKey string;
  sigma_vec : Signature -> bytes;
  (** [SecretKey::new().split(threshold, total)], with its randomness. *)
  bls_split : bytes -> nat -> nat -> result (list SecretKeyShare) string;
  (** [Hkdf::<Sha256>::new(None, ikm).expand(info, 32)]. *)
  hkdf_sha256 : bytes -> bytes -> bytes;
  (** [Provider::<Http>::try_from] and [Address::from_str]. *)
  provider_try : string -> result unit string;
  address_parse : string -> option Address
}.

Section Laws.
Context {T : ThresholdScheme} (X : Externals T).

(** [hex::encode] writes lower-case digits that [hex::decode] reads back. *)
Definition hex_roundtrip : Prop := forall b,
  hex_decode (hex_encode b) = Some b /\ lower_hex (hex_encode b) = true.

(** [hex::decode] reads two digits per byte. *)
Definition hex_length : Prop := forall s b,
  hex_decode s = Some b -> String.length s = (2 * length b)%nat.

Definition b64_roundtrip : Prop :=
  forall b, b64url_decode (b64url_encode b) = Some b /\
            trim (b64url_encode b) = b64url_encode b /\
            (b <> [] -> b64url_encode b <> EmptyString).

(** Decryption with the private key of the public key encrypted to. *)
Definition ecies_roundtrip : Prop := forall rng sk pk m c,
  k256_pubkey sk = Ok pk -> ecies_enc rng pk m = Ok c -> ecies_dec sk c = Ok m.

(** Encryption to a valid public key succeeds. *)
Definition ecies_total : Prop := forall rng sk pk m,
  k256_pubkey sk = Ok pk -> exists c, ecies_enc rng pk m = Ok c.

(** A ciphertext carries at least its ephemeral key. *)
Definition ecies_nonempty : Prop := forall rng pk m c, ecies_enc rng pk m = Ok c -> c <> [].

(** A signature recovers to its signer's public key under its own recovery id. *)
Definition ecdsa_recover : Prop := forall sk pk h sig v,
  k256_pubkey sk = Ok pk -> k256_sign sk h = Ok (sig, v) ->
  length sig = 64%nat /\ 0 <= v < 4 /\ k256_sig_parse sig = Ok sig /\ k256_recover h sig v = Ok pk.

Definition bare_roundtrip : Prop := forall r b,
  bare_record_ser r = Ok b -> bare_record_de b = Ok r.

(** [Keccak256::digest] is 32 bytes. *)
Definition keccak_length : Prop := forall m, length (keccak256 m) = 32%nat.

(** A decoded record has fields of its types. *)
Definition bare_record_typed : Prop := forall b r,
  bare_record_de b = Ok r -> in_u32 (rec_shard_index r) /\ in_u64 (rec_epoch r).

Definition share_roundtrip : Prop := forall s, share_try (share_vec s) = Ok s.
Definition partial_roundtrip : Prop := forall p, partial_try (partial_vec p) = Ok p.

End Laws.
