(* ===== verification/Models.v ===== *)
(** A small computable model of the third-party interfaces ([Threshold], [Externals]) with
    proofs that it satisfies the laws the theorems name.  It shows that those hypotheses
    can hold together and lets the witnesses run the program on concrete inputs; it makes
    no claim about cryptography. *)
From S2P Require Import Base Threshold Prelude Prog State Externals.
From Stdlib Require Import ZArith Lia.
From Stdlib.Strings Require Import Byte.
From stdpp Require Import base list gmap strings.
Local Open Scope Z_scope.

Module Toy.

(** Every participant holds the master itself. *)
Definition from_shares (ps : list (byte * byte * bytes)) : result bytes string :=
  match ps with
  | [] => Err "no shares"
  | (_, v, m) :: ps' =>
      if forallb (fun p => bool_decide (p.1.2 = v /\ p.2 = m)) ps' then Ok (v :: m)
      else Err "shares disagree"
  end.

#[global] Instance scheme : ThresholdScheme := {|
  Scalar := byte; SecretKeyShare := byte * byte; SignatureShare := byte * byte * bytes;
  Signature := bytes; PublicKey := byte;
  scalar_from i := byte_of_Z (Z.of_nat i);
  default_share i v := (i, v);
  share_value := snd;
  share_sign s msg := Ok (s.1, s.2, msg);
  Threshold.from_shares := from_shares;
  sig_verify s pk msg := if decide (s = pk :: msg) then Ok tt else Err "bad signature"
|}.

Lemma from_shares_same v m ps :
  ps <> [] -> Forall (fun p : byte * byte * bytes => p.1.2 = v /\ p.2 = m) ps ->
  from_shares ps = Ok (v :: m).
Proof.
  destruct ps as [|[[i v'] m'] ps]; [done|]. intros _ [[Hv Hm] H]%Forall_cons. simpl in *. subst.
  replace (forallb _ _) with true; [done|]. symmetry. apply forallb_forall.
  intros p Hp%list_elem_of_In. apply bool_decide_true. by eapply Forall_forall in H.
Qed.

#[global] Program Instance laws (n : nat) : ThresholdLaws scheme (S n) := {|
  Dealing := byte; dealt d _ := d; group_key d := d; valid_id _ := True
|}.
Next Obligation. intros n d i msg _. by eexists. Qed.
Next Obligation.
  intros n d ids ps msg _ _ Hlen Hps. exists (d :: msg). split.
  - apply from_shares_same.
    + intros ->. inversion Hps; subst. simpl in Hlen. lia.
    + clear Hlen. induction Hps as [|i p ids ps Hp _ IH]; constructor; [|done].
      simpl in Hp. by injection Hp as <-.
  - simpl. by rewrite decide_True.
Qed.
Next Obligation. intros n pk msg s s'. simpl. repeat case_decide; naive_solver. Qed.

Definition hash (m : bytes) : bytes := reverse (take 32 (reverse m ++ replicate 32 Byte.x00)).

Definition nibble (z : Z) : Ascii.ascii :=
  Ascii.ascii_of_nat (Z.to_nat (if z <? 10 then 48 + z else 87 + z)).

Definition unnibble (c : Ascii.ascii) : option Z :=
  let n := Z.of_nat (Ascii.nat_of_ascii c) in
  if (48 <=? n) && (n <=? 57) then Some (n - 48)
  else if (97 <=? n) && (n <=? 102) then Some (n - 87) else None.

Fixpoint hex (b : bytes) : string :=
  match b with
  | [] => EmptyString
  | x :: b => String (nibble (Z_of_byte x / 16)) (String (nibble (Z_of_byte x mod 16)) (hex b))
  end.

Fixpoint unhex (s : string) : option bytes :=
  match s with
  | EmptyString => Some []
  | String a (String b s) =>
      match unnibble a, unnibble b, unhex s with
      | Some x, Some y, Some r => Some (byte_of_Z (16 * x + y) :: r)
      | _, _, _ => None
      end
  | _ => None
  end.

Definition pubkey (sk : bytes) : bytes := Byte.x04 :: sk ++ sk.

Definition pubkey_of (sk : bytes) : result bytes string :=
  if (length sk =? 32)%nat then Ok (pubkey sk) else Err "bad key".

Definition record_ser (r : SealedShareV1) : result bytes string :=
  if bool_decide (0 <= record_version r < 2 ^ 64 /\ 0 <= rec_shard_index r < 2 ^ 32 /\
                  0 <= rec_epoch r < 2 ^ 64 /\ Z.of_nat (length (master_id r)) < 2 ^ 64)
  then Ok (be_bytes 8 (record_version r) ++ be_bytes 8 (rec_shard_index r) ++
           be_bytes 8 (rec_epoch r) ++ be_bytes 8 (Z.of_nat (length (master_id r))) ++
           master_id r ++ rec_share r)
  else Err "out of range".

Definition record_de (b : bytes) : result SealedShareV1 string :=
  if (length b <? 32)%nat then Err "short"
  else
    let n := Z.to_nat (be_value (take 8 (drop 24 b))) in
    let i := be_value (take 8 (drop 8 b)) in
    let e := be_value (take 8 (drop 16 b)) in
    if bool_decide (0 <= i < 2 ^ 32 /\ 0 <= e < 2 ^ 64)
    then Ok (mkSealedShareV1 (be_value (take 8 b)) i e (take n (drop 32 b)) (drop n (drop 32 b)))
    else Err "out of range".

#[global] Instance externals : Externals scheme := {|
  keccak256 := hash;
  hex_encode := hex; hex_decode := unhex; b64url_encode := hex; b64url_decode := unhex;
  ecies_enc _ pk m := if (length pk =? 65)%nat then Ok (pk ++ m) else Err "bad public key";
  ecies_dec sk c := if decide (take 65 c = pubkey sk) then Ok (drop 65 c) else Err "not for us";
  k256_pubkey := pubkey_of;
  k256_sign sk h := if ((length sk =? 32) && (length h =? 32))%nat then Ok (sk ++ h, 0)
                    else Err "bad key";
  k256_sig_parse s := if (length s =? 64)%nat then Ok s else Err "bad signature";
  k256_recover h s v := if decide (drop 32 s = h) then Ok (pubkey (take 32 s)) else Err "no key";
  bare_record_ser := record_ser; bare_record_de := record_de;
  share_vec s := [s.1; s.2];
  share_try b := match b with [i; v] => Ok (i, v) | _ => Err "bad share" end;
  partial_vec p := p.1.1 :: p.1.2 :: p.2;
  partial_try b := match b with i :: v :: m => Ok (i, v, m) | _ => Err "bad partial" end;
  public_key_try b := match b with [k] => Ok k | _ => Err "bad group key" end;
  sigma_vec s := s;
  bls_split rng t n := match rng with
    | [] => Err "no randomness"
    | k :: _ => Ok (map (fun i => (byte_of_Z (Z.of_nat i), k)) (seq 1 n)) end;
  hkdf_sha256 ikm info := take 32 (ikm ++ info ++ replicate 32 Byte.x00);
  provider_try u := if decide (u = EmptyString) then Err "empty" else Ok tt;
  address_parse s := match unhex (trim_0x s) with
    | Some a => if (length a =? 20)%nat then Some a else None | None => None end
|}.

(** ** The laws *)

Lemma unnibble_nibble z : 0 <= z < 16 -> unnibble (nibble z) = Some z.
Proof.
  intros H. assert (z ∈ seqZ 0 16) as Hin by (apply elem_of_seqZ; lia). clear H.
  revert z Hin. apply Forall_forall. by repeat constructor.
Qed.

Lemma unhex_hex b : unhex (hex b) = Some b.
Proof.
  induction b as [|x b IH]; [done|]. cbn [hex unhex]. pose proof (Z_of_byte_range x).
  rewrite !unnibble_nibble, IH;
    [|by apply Z.mod_pos_bound|split; [apply Z.div_pos; lia|apply Z.div_lt_upper_bound; lia]].
  do 2 f_equal. rewrite <-Z.div_mod by done. apply byte_of_Z_of_byte.
Qed.

Lemma nibble_not_ws z : 0 <= z < 16 -> is_ws (nibble z) = false.
Proof.
  intros H. assert (z ∈ seqZ 0 16) as Hin by (apply elem_of_seqZ; lia). clear H.
  revert z Hin. apply Forall_forall. by repeat constructor.
Qed.

Lemma trim_end_hex b : trim_end (hex b) = hex b.
Proof.
  induction b as [|x b IH]; [done|]. cbn [hex trim_end]. rewrite IH.
  pose proof (Z_of_byte_range x).
  destruct (hex b); [|done]. rewrite nibble_not_ws by (by apply Z.mod_pos_bound). done.
Qed.

Lemma trim_hex b : trim (hex b) = hex b.
Proof.
  unfold trim. rewrite <-(trim_end_hex b) at 2. f_equal.
  destruct b as [|x b]; [done|]. cbn [hex trim_start]. pose proof (Z_of_byte_range x).
  rewrite nibble_not_ws; [done|].
  split; [apply Z.div_pos; lia|apply Z.div_lt_upper_bound; lia].
Qed.

Lemma hex_ok : hex_roundtrip externals.
Proof.
  intros b. split; [apply unhex_hex|]. cbn [hex_encode externals].
  unfold lower_hex. induction b as [|x b IH]; [done|]. cbn [hex string_forall].
  pose proof (Z_of_byte_range x).
  assert (forall z, 0 <= z < 16 -> lower_hex_char (nibble z) = true) as Hn.
  { intros z Hz. assert (z ∈ seqZ 0 16) as Hin by (apply elem_of_seqZ; lia). clear Hz.
    revert z Hin. apply Forall_forall. by repeat constructor. }
  rewrite !Hn, IH; [done|by apply Z.mod_pos_bound|].
  split; [apply Z.div_pos; lia|apply Z.div_lt_upper_bound; lia].
Qed.

Lemma unhex_length s b : unhex s = Some b -> String.length s = (2 * length b)%nat.
Proof.
  enough (forall m s b, (String.length s <= m)%nat -> unhex s = Some b ->
            String.length s = (2 * length b)%nat) as H by (by apply (H _ _ _ (le_n _))).
  clear. intros m. induction m as [|m IH]; intros s b Hm.
  { destruct s; [|simpl in Hm; lia]. by intros [= <-]. }
  destruct s as [|a [|c s]]; simpl; [by intros [= <-]|done|].
  destruct (unnibble a), (unnibble c), (unhex s) as [r|] eqn:E; try done.
  intros [= <-]. simpl in *. rewrite (IH s r) by (done || lia). lia.
Qed.

Lemma hex_length_ok : hex_length externals.
Proof. intros s b. apply unhex_length. Qed.

Lemma b64_ok : b64_roundtrip externals.
Proof. intros b. repeat split; [apply unhex_hex|apply trim_hex|by destruct b]. Qed.

Lemma pubkey_length sk pk : pubkey_of sk = Ok pk -> pk = pubkey sk /\ length sk = 32%nat /\ length pk = 65%nat.
Proof.
  unfold pubkey_of. case_match eqn:E; [|done]. intros [= <-]. apply Nat.eqb_eq in E.
  unfold pubkey. cbn [length]. rewrite length_app, E. done.
Qed.

Lemma ecies_ok : ecies_roundtrip externals.
Proof.
  intros rng sk pk m c (-> & Hs & Hl)%pubkey_length. unfold ecies_enc, ecies_dec, externals.
  rewrite Hl. simpl (_ =? _)%nat. cbv iota. intros Hc.
  assert (c = pubkey sk ++ m) as -> by congruence.
  rewrite take_app_length', drop_app_length' by done. by rewrite decide_True.
Qed.

Lemma ecies_total_ok : ecies_total externals.
Proof.
  intros rng sk pk m (-> & Hs & Hl)%pubkey_length. unfold ecies_enc, externals. rewrite Hl. by eexists.
Qed.

Lemma ecies_nonempty_ok : ecies_nonempty externals.
Proof.
  intros rng pk m c. unfold ecies_enc, externals. destruct (length pk =? 65)%nat eqn:E; [|done].
  apply Nat.eqb_eq in E. intros Hc. assert (c = pk ++ m) as -> by congruence. by destruct pk.
Qed.

Lemma ecdsa_ok : ecdsa_recover externals.
Proof.
  intros sk pk h sig v (-> & Hs & Hl)%pubkey_length.
  unfold k256_sign, k256_sig_parse, k256_recover, externals.
  case_match eqn:E; [|done]. intros [= <- <-]. apply andb_true_iff in E as [E1 E2].
  apply Nat.eqb_eq in E1, E2. rewrite length_app, E1, E2.
  rewrite take_app_length', drop_app_length' by done. by rewrite decide_True.
Qed.

(** Its signatures all have an x-coordinate below the order. *)
Lemma sign_reduced sk h rs v : k256_sign (Externals := externals) sk h = Ok (rs, v) -> v < 2.
Proof. unfold k256_sign, externals. case_match; [|done]. intros [= _ <-]. lia. Qed.

Lemma share_ok : share_roundtrip externals.
Proof. by intros []. Qed.

Lemma partial_ok : partial_roundtrip externals.
Proof. by intros [[]]. Qed.

Lemma be8 z r : 0 <= z < 2 ^ 64 -> be_value (take 8 (be_bytes 8 z ++ r)) = z.
Proof.
  intros. rewrite take_app_length' by (by rewrite length_be_bytes). rewrite be_value_be_bytes.
  by apply Z.mod_small.
Qed.

Lemma bare_ok : bare_roundtrip externals.
Proof.
  intros [v i e m s] b. unfold bare_record_ser, bare_record_de, externals, record_ser, record_de.
  cbn [record_version rec_shard_index rec_epoch master_id rec_share].
  case_bool_decide as H; [|done]. destruct H as (Hv & Hi & He & Hm).
  assert (forall x y : bytes, @Ok bytes string x = Ok y -> x = y) as Hinj by congruence.
  intros <-%Hinj.
  assert (forall z r, drop 8 (be_bytes 8 z ++ r) = r) as Hd.
  { intros. by rewrite drop_app_length' by (by rewrite length_be_bytes). }
  rewrite !length_app, !length_be_bytes. simpl (_ + (_ + _))%nat. case_match eqn:E.
  { apply Nat.ltb_lt in E. lia. }
  replace 32%nat with (8 + 24)%nat by done. replace 24%nat with (8 + 16)%nat by done.
  replace 16%nat with (8 + 8)%nat by done. rewrite <-!drop_drop, !Hd, !be8 by (done || lia).
  rewrite bool_decide_true by done. by rewrite Nat2Z.id, take_app_length, drop_app_length.
Qed.

Lemma bare_typed_ok : bare_record_typed externals.
Proof.
  intros b r. unfold bare_record_de, externals, record_de. case_match; [done|]. case_bool_decide as Hr; [|done].
  assert (forall x y : SealedShareV1, @Ok SealedShareV1 string x = Ok y -> x = y) as Hinj by congruence.
  by intros <-%Hinj.
Qed.

Lemma keccak_ok : keccak_length externals.
Proof.
  intros m. unfold keccak256, externals, hash. rewrite length_reverse, length_take, length_app, length_replicate.
  apply Nat.min_l. apply Nat.le_add_l.
Qed.

(** ** A node to run the program on

    Node 1 of a cluster of two, both registered and vouched for, with a share of epoch 3
    and one known peer; outside, the clock reads 1000, no other task runs and every
    question is answered in the least helpful way. *)

Definition sk1 : bytes := replicate 31 Byte.x01 ++ [Byte.x11].
Definition sk2 : bytes := replicate 31 Byte.x02 ++ [Byte.x22].
Definition addr_of (sk : bytes) : Address := drop 12 (hash (drop 1 (pubkey sk))).
Definition node1 : NodeKey := {| private_key := sk1; eth_address := addr_of sk1 |}.
Definition node2 : NodeKey := {| private_key := sk2; eth_address := addr_of sk2 |}.

Definition scan : VerifierConfig :=
  {| verifier_url := "https://scan"; pubkeys := []; api_key := "k"; insecure_http := false |}.

Definition config : Config := {|
  server := {| bind_addr := default_http_bind; grpc_bind := default_grpc_bind;
               timestamp_tolerance_secs := 300 |};
  tapp := {| tapp_app_id := "kms"; tapp_ip := default_tapp_ip; tapp_port := default_tapp_port;
             tapp_socket := None; mock_tee := true |};
  chain := {| rpc_url := "http://rpc"; contract_address := hex (replicate 20 Byte.xaa) |};
  cluster := {| threshold := 2; total_nodes := 2; bootstrap := false; self_url := "http://n1";
                seeds := ["http://n2"]; cfg_sealed_share := None;
                cfg_sealed_share_path := Some "/data/share" |};
  verifier := Some scan
|}.

Definition group : bytes := [Byte.x07].
Definition share1 : ShardState := mkShardState 1 [Byte.x01; Byte.x07] 3.
Definition share2 : ShardState := mkShardState 2 [Byte.x02; Byte.x07] 3.
Definition members : list Address := [addr_of sk1; addr_of sk2].
Definition registered : NodeListEntry := mkNodeListEntry members 0 None.
Definition attested : CacheEntry := mkCacheEntry true "" 0 0 0.
Definition peer2 : PeerInfo := mkPeerInfo "http://n2" 1000 (pubkey sk2) 3 group.

Definition world : World :=
  mkWorld (Some share1) None {[addr_of sk2 := peer2]} ∅ (Some group) None
    {["http://rpc|" +:+ contract_address (chain config) +:+ "|kms" := registered]} ∅
    {[("kms", addr_of sk1) := attested; ("kms", addr_of sk2) := attested]}
    (Some (Some scan)) Metrics_new 0 ∅.

Definition no_answer (c : Call) : ans c :=
  match c with
  | Utc_now => 1000
  | Os_rng => [Byte.x00]
  | Env_var _ => None
  | Eth_get_node_list _ _ _ => Err "down"
  | Eth_get_app_owner _ _ _ => Err "down"
  | Scan_verify _ _ _ _ => ScanTransportError "down"
  | Grpc_request_shard _ _ _ => ConnectFailed "down"
  | Grpc_gossip _ _ _ _ => ConnectFailed "down"
  | Grpc_dkg_round _ _ _ _ => ConnectFailed "down"
  | Grpc_start_reshare _ _ _ _ => ConnectFailed "down"
  | Grpc_get_dprf_partial _ _ _ _ _ => ConnectFailed "down"
  | Completion_order urls => exist _ urls (Permutation_refl urls)
  | Notified _ _ => false
  | Fs_write _ _ => WriteOk
  | Fs_rename _ _ | Fs_remove _ => None
  | Fs_read _ => None
  | Cli_args => []
  | Is_terminal => false
  | Log_dir_open _ _ => None
  | Tapp_connect _ => Err "down"
  | Tapp_get_app_secret_key _ _ _ => Err "down"
  | Http_post_app_key _ _ => HttpError "down"
  end.

(** Each step takes a tick of the clock. *)
Definition alone (answers : forall c, ans c) : kms_oracle :=
  {| o_ans := fun _ => answers; o_env := fun _ w => w; o_delay := fun _ => 1%N |}.

Definition idle : kms_oracle := alone no_answer.

Lemma alone_quiet answers : quiet (alone answers).
Proof. done. Qed.

(** With no other task, any invariant is kept by the others. *)
Lemma alone_relies answers (I : World -> Prop) : relies (alone answers) (fun w w' => I w -> I w').
Proof. by intros n w. Qed.

End Toy.
