(* ===== verification/Crypto.v ===== *)
(** [src/src/crypto.rs]: the derivation message and its binding, the DPRF over the
    threshold-BLS interface, the bridge from DKG scalars to shares, request and response
    signing. *)
From S2P Require Import Base Threshold Prelude Prog State Externals Models.
From Stdlib Require Import ZArith Lia.
From stdpp Require Import base list gmap strings pretty.
Local Open Scope Z_scope.

(** * Derivation *)

Definition DPRF_DST : bytes := str_bytes "0g-kms:dprf:v1".
Definition KDF_DST : bytes := str_bytes "0g-kms:dprf-kdf:v2".

Definition dprf_message (app_id : string) (material : bytes) : bytes :=
  let app := str_bytes app_id in
  DPRF_DST ++ be_bytes 8 (Z.of_nat (length app)) ++ app ++
  be_bytes 8 (Z.of_nat (length material)) ++ material.

Section Crypto.
Context {T : ThresholdScheme} {X : Externals T}.

(** [split_master]: a fresh master, split. *)
Definition split_master (threshold total : nat) : kms (result (list SecretKeyShare) string) :=
  let! rng := ask Os_rng in
  Ret (map_err (fun e => "master split failed: " +:+ e) (bls_split rng threshold total)).

Definition dprf_partial (share : SecretKeyShare) (msg : bytes) : result SignatureShare string :=
  map_err (fun e => "partial sign failed: " +:+ e) (share_sign share msg).

Definition dprf_sigma (partials : list SignatureShare) : result Signature string :=
  map_err (fun e => "partial combine failed: " +:+ e) (from_shares partials).

Definition dprf_verify (sigma : Signature) (group_pubkey msg : bytes) : result unit string :=
  let? pk := map_err (fun e => "invalid group public key: " +:+ e)
                     (public_key_try group_pubkey) in
  map_err (fun e => "combined signature failed verification: " +:+ e) (sig_verify sigma pk msg).

Definition sigma_to_app_key (sigma : Signature) : bytes := hkdf_sha256 (sigma_vec sigma) KDF_DST.

(** The test-only combination without verification. *)
Definition dprf_combine (partials : list SignatureShare) : result bytes string :=
  let? sigma := dprf_sigma partials in Ok (sigma_to_app_key sigma).

(** * Serialisation and the DKG bridge *)

Definition share_to_bytes (share : SecretKeyShare) : bytes := share_vec share.
Definition share_from_bytes (b : bytes) : result SecretKeyShare string :=
  map_err (fun e => "invalid secret-key share bytes: " +:+ e) (share_try b).
Definition partial_to_bytes (p : SignatureShare) : bytes := partial_vec p.
Definition partial_from_bytes (b : bytes) : result SignatureShare string :=
  map_err (fun e => "invalid partial signature bytes: " +:+ e) (partial_try b).

Definition gennaro_share_to_blsful (id : nat) (scalar : Scalar) : SecretKeyShare :=
  default_share (scalar_from id) scalar.
Definition blsful_share_scalar (share : SecretKeyShare) : Scalar := share_value share.

Definition pubkey_from_private (private_key : bytes) : result bytes string :=
  map_err (fun e => "invalid private key: " +:+ e) (k256_pubkey private_key).

(** * ECIES *)

Definition ecies_encrypt (pubkey_bytes plaintext : bytes) : kms (result bytes KmsError) :=
  let! rng := ask Os_rng in
  Ret (map_err (fun e => CryptoError ("ECIES encrypt failed: " +:+ e))
               (ecies_enc rng pubkey_bytes plaintext)).

Definition ecies_decrypt (private_key ciphertext : bytes) : result bytes KmsError :=
  map_err (fun e => CryptoError ("ECIES decrypt failed: " +:+ e)) (ecies_dec private_key ciphertext).

(** * Signing *)

(** 65 bytes: r || s || v. *)
Definition sign_bytes (private_key message : bytes) : result bytes string :=
  let? _ := map_err (fun e => "invalid signing key: " +:+ e) (k256_pubkey private_key) in
  let? rv := map_err (fun e => "signing failed: " +:+ e)
                     (k256_sign private_key (keccak256 message)) in
  Ok (rv.1 ++ [byte_of_Z rv.2]).

Definition request_msg (method : string) (timestamp : Z) : bytes :=
  str_bytes ("kms:" +:+ method +:+ ":" +:+ pretty timestamp).

Definition sign_request (private_key : bytes) (method : string) (timestamp : Z) :
    result bytes string :=
  sign_bytes private_key (request_msg method timestamp).

End Crypto.

(** * Response authentication *)

Definition ecies_response_msg (method : string) (caller_addr meta ciphertext : bytes) : bytes :=
  str_bytes "kms-resp:" ++ str_bytes method ++ str_bytes ":" ++ caller_addr ++ meta ++ ciphertext.

Definition dprf_partial_signing_msg (caller_addr : bytes) (shard_index epoch : Z)
    (ciphertext : bytes) : bytes :=
  let meta := be_bytes 4 shard_index ++ be_bytes 8 epoch in
  ecies_response_msg "GetDprfPartial" caller_addr meta ciphertext.

Definition shard_signing_msg (method : string) (caller_addr : bytes) (shard_index : Z)
    (ciphertext : bytes) : bytes :=
  ecies_response_msg method caller_addr (be_bytes 4 shard_index) ciphertext.

(** The prefixed message an EIP-191 [personal_sign] hashes (used by [server.rs]). *)
Definition eip191_msg (m : string) : bytes :=
  [Byte.x19] ++ str_bytes "Ethereum Signed Message:" ++ [Byte.x0a] ++
  str_bytes (pretty (Z.of_nat (String.length m))) ++ str_bytes m.

(** * Theorems *)

(** A string with no colon: what separates a method name from what follows it. *)
Definition no_colon (s : string) : Prop := Byte.x3a ∉ str_bytes s.

Lemma split_at_colon (a b c d : bytes) :
  Byte.x3a ∉ a -> Byte.x3a ∉ b -> a ++ Byte.x3a :: c = b ++ Byte.x3a :: d -> a = b /\ c = d.
Proof.
  revert b. induction a as [|x a IH]; intros [|y b] Ha Hb H; simplify_eq/=.
  - done.
  - set_solver.
  - set_solver.
  - destruct (IH b) as [-> ->]; [set_solver..|done|done].
Qed.

Lemma response_msg_split m m' a a' r r' :
  no_colon m -> no_colon m' ->
  str_bytes "kms-resp:" ++ str_bytes m ++ str_bytes ":" ++ a ++ r =
  str_bytes "kms-resp:" ++ str_bytes m' ++ str_bytes ":" ++ a' ++ r' ->
  length a = length a' -> m = m' /\ a = a' /\ r = r'.
Proof.
  intros Hm Hm' H%app_inv_head Hl. simpl in H.
  apply split_at_colon in H as [->%str_bytes_inj H]; [|done..].
  apply app_inj_1 in H as [-> ->]; done.
Qed.

Definition short {A} (l : list A) : Prop := Z.of_nat (length l) < 2 ^ 64.

(** The derivation message is unambiguous: two requests with the same message have
    the same [app_id] and the same [material], so no application can reach another
    one's namespace by moving bytes across the boundary. *)
Theorem dprf_message_injective app app' mat mat' :
  short (str_bytes app) -> short (str_bytes app') -> short mat -> short mat' ->
  dprf_message app mat = dprf_message app' mat' -> app = app' /\ mat = mat'.
Proof.
  unfold dprf_message, short. intros H1 H2 H3 H4 H%app_inv_head.
  apply app_inj_1 in H as [E1 H]; [|by rewrite !length_be_bytes].
  apply u64_be_inj in E1; [|unfold in_u64; lia..].
  apply app_inj_1 in H as [->%str_bytes_inj H]; [|lia].
  apply app_inj_1 in H as [_ ->]; [done|by rewrite !length_be_bytes].
Qed.

Lemma dprf_message_injective_witness :
  dprf_message "ab" [Byte.x63] <> dprf_message "a" [Byte.x62; Byte.x63].
Proof.
  intros H. apply (dprf_message_injective "ab" "a" [Byte.x63] [Byte.x62; Byte.x63]) in H; [|done..].
  by destruct H.
Defined.

(** The message a partial-signature response is signed over determines the caller,
    the shard index, the epoch and the ciphertext: none of them can be rewritten or
    replayed to another caller under the same signature. *)
Theorem dprf_partial_signing_msg_binds a a' i i' e e' ct ct' :
  length a = 20%nat -> length a' = 20%nat -> in_u32 i -> in_u32 i' -> in_u64 e -> in_u64 e' ->
  dprf_partial_signing_msg a i e ct = dprf_partial_signing_msg a' i' e' ct' ->
  a = a' /\ i = i' /\ e = e' /\ ct = ct'.
Proof.
  intros Ha Ha' Hi Hi' He He' H.
  apply response_msg_split in H as (_ & -> & H);
    [|by unfold no_colon; vm_compute; set_solver..|congruence].
  rewrite <-!app_assoc in H.
  apply app_inj_1 in H as [->%u32_be_inj H]; [|done..|by rewrite !length_be_bytes].
  apply app_inj_1 in H as [->%u64_be_inj ->]; [done..|by rewrite !length_be_bytes].
Qed.

Lemma dprf_partial_signing_msg_binds_witness :
  dprf_partial_signing_msg (replicate 20 Byte.x01) 1 3 [] <>
  dprf_partial_signing_msg (replicate 20 Byte.x01) 1 4 [].
Proof.
  intros H. apply dprf_partial_signing_msg_binds in H as (_ & _ & He & _); [discriminate He|done..].
Defined.

(** The same for shard responses, whose message also determines the method, and a
    shard response is never a partial-signature response. *)
Theorem shard_signing_msg_binds m m' a a' i i' e ct ct' :
  no_colon m -> no_colon m' -> length a = 20%nat -> length a' = 20%nat ->
  in_u32 i -> in_u32 i' ->
  (shard_signing_msg m a i ct = shard_signing_msg m' a' i' ct' ->
     m = m' /\ a = a' /\ i = i' /\ ct = ct') /\
  (m <> "GetDprfPartial" -> shard_signing_msg m a i ct <> dprf_partial_signing_msg a' i' e ct').
Proof.
  intros Hm Hm' Ha Ha' Hi Hi'. split.
  - intros H. apply response_msg_split in H as (-> & -> & H); [|done..|congruence].
    apply app_inj_1 in H as [->%u32_be_inj ->]; [done..|by rewrite !length_be_bytes].
  - intros Hne H. apply response_msg_split in H as (-> & _ & _); [done|done| |congruence].
    unfold no_colon. vm_compute. set_solver.
Qed.

(** A node key signs three kinds of messages (gRPC requests, ECIES responses and,
    as a wallet key, EIP-191 requests) and no message is of two kinds; a request
    message determines its method and timestamp. *)
Theorem signed_messages_are_separated m m' ts ts' r e :
  no_colon m -> no_colon m' ->
  (request_msg m ts = request_msg m' ts' -> m = m' /\ ts = ts') /\
  request_msg m ts <> str_bytes "kms-resp:" ++ r /\
  request_msg m ts <> eip191_msg e /\
  str_bytes "kms-resp:" ++ r <> eip191_msg e.
Proof.
  intros Hm Hm'. unfold request_msg, eip191_msg. repeat split; try done.
  - rewrite !str_bytes_app in H. simpl in H. simplify_eq.
    by apply split_at_colon in H as [->%str_bytes_inj _].
  - rewrite !str_bytes_app in H. simpl in H. simplify_eq.
    by apply split_at_colon in H as [_ ->%str_bytes_inj%(inj pretty)].
Qed.

Lemma signed_messages_are_separated_witness :
  request_msg "GetDprfPartial" 1 <> request_msg "GetDprfPartial" 2 /\
  request_msg "GetDprfPartial" 1 <> eip191_msg "kms:GetDprfPartial:1".
Proof.
  destruct (signed_messages_are_separated "GetDprfPartial" "GetDprfPartial" 1 2 [] "kms:GetDprfPartial:1")
    as (H1 & _ & H2 & _); [by unfold no_colon; vm_compute; set_solver..|].
  split; [|exact H2]. intros H. by destruct (H1 H).
Defined.

Section Dprf.
Context {T : ThresholdScheme} {X : Externals T} {t : nat} {L : ThresholdLaws T t}.

(** The partials of [msg] that participants [ids] compute from their shares of [d]. *)
Definition honest_partials (d : Dealing) (msg : bytes) (ids : list nat)
    (ps : list SignatureShare) : Prop :=
  Forall2 (fun i p => dprf_partial (gennaro_share_to_blsful i (dealt d i)) msg = Ok p) ids ps.

Lemma dprf_sigma_honest d msg ids ps :
  NoDup ids -> Forall valid_id ids -> (t <= length ids)%nat -> honest_partials d msg ids ps ->
  exists s, dprf_sigma ps = Ok s /\ sig_verify s (group_key d) msg = Ok tt.
Proof.
  intros Hn Hv Ht Hp. destruct (combine_honest d ids ps msg) as (s & Hs & Hok); try done.
  - by apply NoDup_ListNoDup.
  - eapply Forall2_impl; [exact Hp|]. intros i p H%map_err_Ok. exact H.
  - exists s. unfold dprf_sigma. by rewrite Hs.
Qed.

Lemma dprf_verify_Ok s gpk msg :
  dprf_verify s gpk msg = Ok tt <->
  exists pk, public_key_try gpk = Ok pk /\ sig_verify s pk msg = Ok tt.
Proof.
  unfold dprf_verify. destruct (public_key_try gpk); simpl.
  - rewrite map_err_Ok. naive_solver.
  - naive_solver.
Qed.

(** The verified signature of a message under a group public key is unique. *)
Lemma dprf_verify_unique s s' gpk msg :
  dprf_verify s gpk msg = Ok tt -> dprf_verify s' gpk msg = Ok tt -> s = s'.
Proof.
  rewrite !dprf_verify_Ok. intros (pk & Hpk & H) (pk' & Hpk' & H'). assert (pk = pk') as <- by congruence.
  eapply sig_unique; eauto.
Qed.

End Dprf.
