(* ===== verification/Seal.v ===== *)
(** [src/src/seal.rs]: the share sealed to the node's own TEE key, its base64url transport
    form, and the file it is persisted in. *)
From S2P Require Import Base Threshold Prelude Prog State Externals Models Crypto.
From Stdlib Require Import ZArith Lia.
From stdpp Require Import base list gmap strings relations.
Local Open Scope Z_scope.

Definition MAGIC : bytes := str_bytes "KMSS".
Definition ENVELOPE_VERSION : Byte.byte := Byte.x01.
Definition RECORD_VERSION : Z := 1.

Definition SealedShareV1_new (shard_index epoch : Z) (master_id share : bytes) : SealedShareV1 :=
  mkSealedShareV1 RECORD_VERSION shard_index epoch master_id share.

(** * The envelope *)

Section Envelope.
Context {T : ThresholdScheme} {X : Externals T}.

Definition seal_to_bytes (own_pubkey : bytes) (rec : SealedShareV1) : kms (result bytes string) :=
  let!? payload := Ret (map_err (fun e => "seal serialize: " +:+ e) (bare_record_ser rec)) in
  let! enc := ecies_encrypt own_pubkey payload in
  let!? ct := Ret (map_err (fun e => "seal encrypt: " +:+ KmsError_to_string e) enc) in
  Ret (Ok (MAGIC ++ [ENVELOPE_VERSION] ++ ct)).

Definition unseal_from_bytes (buf own_privkey : bytes) : result (option SealedShareV1) string :=
  if ((length buf <? 5)%nat || negb (bool_decide (take 4 buf = MAGIC)))%bool then Ok None
  else if decide (buf !! 4%nat = Some ENVELOPE_VERSION) then
    match ecies_decrypt own_privkey (drop 5 buf) with
    | Err _ => Ok None
    | Ok payload =>
        let? rec := map_err (fun e => "unseal deserialize: " +:+ e) (bare_record_de payload) in
        if decide (record_version rec = RECORD_VERSION) then Ok (Some rec) else Ok None
    end
  else Ok None.

Definition seal_b64 (own_pubkey : bytes) (rec : SealedShareV1) : kms (result string string) :=
  let!? b := seal_to_bytes own_pubkey rec in Ret (Ok (b64url_encode b)).

Definition unseal_b64 (s : string) (own_privkey : bytes) : result (option SealedShareV1) string :=
  let s := trim s in
  if decide (s = EmptyString) then Ok None
  else match b64url_decode s with
       | Some buf => unseal_from_bytes buf own_privkey
       | None => Ok None
       end.

End Envelope.

(** * The file *)

(** [std::fs::write]: the file is created or truncated first, then written; a failure may
    leave it at any point of that. *)
Definition fs_write (path content : string) : kms (option string) :=
  let! r := ask (Fs_write path content) in
  match r : WriteReply with
  | WriteErr m None => Ret (Some m)
  | WriteErr m (Some left_behind) =>
      modify (upd_fs <[path := left_behind]>);;; Ret (Some m)
  | WriteOk =>
      modify (upd_fs <[path := EmptyString]>);;;
      modify (upd_fs <[path := content]>);;; Ret None
  end.

(** [std::fs::rename]: atomic; replaces the target. *)
Definition move_file (from to : string) (d : gmap string string) : gmap string string :=
  match d !! from with
  | Some c => <[to := c]> (delete from d)
  | None => d
  end.

Definition fs_rename (from to : string) : kms (option string) :=
  let! r := ask (Fs_rename from to) in
  match r : option string with
  | Some m => Ret (Some m)
  | None => modify (upd_fs (move_file from to));;; Ret None
  end.

Definition write_blob_file (path b64 : string) : kms (result unit string) :=
  let tmp := path +:+ ".tmp" in
  let! r := fs_write tmp b64 in
  match r with
  | Some e => Ret (Err ("seal write " +:+ tmp +:+ ": " +:+ e))
  | None =>
      let! r := fs_rename tmp path in
      match r with
      | Some e => Ret (Err ("seal rename -> " +:+ path +:+ ": " +:+ e))
      | None => Ret (Ok tt)
      end
  end.

(** The answer is an I/O error other than "not found", if there is one. *)
Definition read_blob_file (path : string) : kms (result (option string) string) :=
  let! r := ask (Fs_read path) in
  match r : option string with
  | Some e => Ret (Err ("seal read " +:+ path +:+ ": " +:+ e))
  | None =>
      let! w := get in
      match fs w !! path with
      | None => Ret (Ok None)
      | Some s => if decide (trim s = EmptyString) then Ret (Ok None) else Ret (Ok (Some (trim s)))
      end
  end.

(** * Theorems *)

Section Proofs.
Context {T : ThresholdScheme} {X : Externals T}.

Lemma unseal_sealed sk pk rec rng payload ct :
  ecies_roundtrip X -> bare_roundtrip X -> k256_pubkey sk = Ok pk ->
  bare_record_ser rec = Ok payload -> ecies_enc rng pk payload = Ok ct ->
  record_version rec = RECORD_VERSION ->
  unseal_from_bytes (MAGIC ++ [ENVELOPE_VERSION] ++ ct) sk = Ok (Some rec).
Proof.
  intros Hec Hb Hpk Hs Hct Hv. unfold unseal_from_bytes, ecies_decrypt.
  change (drop 5 (MAGIC ++ [ENVELOPE_VERSION] ++ ct)) with ct.
  rewrite (Hec rng sk pk payload ct Hpk Hct). simpl. rewrite (Hb _ _ Hs). simpl.
  by rewrite decide_True.
Qed.

Lemma unseal_b64_sealed sk pk rec rng payload ct :
  ecies_roundtrip X -> bare_roundtrip X -> b64_roundtrip X -> k256_pubkey sk = Ok pk ->
  bare_record_ser rec = Ok payload -> ecies_enc rng pk payload = Ok ct ->
  record_version rec = RECORD_VERSION ->
  unseal_b64 (b64url_encode (MAGIC ++ [ENVELOPE_VERSION] ++ ct)) sk = Ok (Some rec).
Proof.
  intros Hec Hb H64 Hpk Hs Hct Hv. unfold unseal_b64.
  destruct (H64 (MAGIC ++ [ENVELOPE_VERSION] ++ ct)) as (Hd & Htrim & Hne).
  rewrite Htrim, decide_False by (by apply Hne). rewrite Hd. by eapply unseal_sealed.
Qed.

(** Running a seal to its end. *)
Lemma seal_b64_run (o : kms_oracle) pk rec x b64 y :
  run o (seal_b64 pk rec) x = (Ok b64, y) ->
  exists payload rng ct, bare_record_ser rec = Ok payload /\ ecies_enc rng pk payload = Ok ct /\
    b64 = b64url_encode (MAGIC ++ [ENVELOPE_VERSION] ++ ct).
Proof.
  unfold seal_b64, seal_to_bytes. destruct (bare_record_ser rec) as [payload|] eqn:Es; [|done].
  cbn [map_err bind_ok bind]. unfold ecies_encrypt. cbn [bind ask bind_ok run].
  match goal with |- context [ecies_enc ?r ?k ?m] => destruct (ecies_enc r k m) as [ct|] eqn:Ect; [|done] end.
  cbn [map_err bind_ok bind run]. intros [= <- _]. eauto 10.
Qed.

(** A share sealed by a TEE identity is unsealed by the same identity to exactly the
    record that was sealed, through the base64url transport and whatever randomness the
    encryption drew. *)
Theorem seal_unseal_roundtrip (o : kms_oracle) sk pk index epoch master share x b64 y :
  ecies_roundtrip X -> bare_roundtrip X -> b64_roundtrip X -> k256_pubkey sk = Ok pk ->
  run o (seal_b64 pk (SealedShareV1_new index epoch master share)) x = (Ok b64, y) ->
  unseal_b64 b64 sk = Ok (Some (SealedShareV1_new index epoch master share)).
Proof.
  intros Hec Hb H64 Hpk (payload & rng & ct & Hs & Hct & ->)%seal_b64_run.
  by eapply unseal_b64_sealed.
Qed.

(** Only the sealing identity gets a share out.  Whenever [unseal_b64] yields a
    record, the blob is one of ours of this version, this node's key decrypts it, and the
    record is the plaintext; in particular a blob this key cannot decrypt is "no usable
    share", never an error and never a share. *)
Theorem unseal_is_bound_to_identity b64 sk :
  (forall rec, unseal_b64 b64 sk = Ok (Some rec) ->
     exists ct payload, b64url_decode (trim b64) = Some (MAGIC ++ [ENVELOPE_VERSION] ++ ct) /\
       ecies_dec sk ct = Ok payload /\ bare_record_de payload = Ok rec /\
       record_version rec = RECORD_VERSION) /\
  (forall buf, b64url_decode (trim b64) = Some buf -> is_ok (ecies_dec sk (drop 5 buf)) = false ->
     unseal_b64 b64 sk = Ok None).
Proof.
  unfold unseal_b64, unseal_from_bytes, ecies_decrypt. split.
  - intros rec. case_decide; [done|]. destruct (b64url_decode _) as [buf|]; [|done].
    destruct ((length buf <? 5)%nat || _)%bool eqn:E; [done|]. destruct (decide (buf !! 4%nat = _)) as [Hver|]; [|done].
    apply orb_false_iff in E as [E1 E2]. apply negb_false_iff, bool_decide_eq_true in E2.
    destruct (ecies_dec sk _) as [payload|] eqn:Ed; simpl; [|done].
    destruct (bare_record_de payload) as [r|] eqn:Er; simpl; [|done]. case_decide; [|done].
    intros [= <-]. exists (drop 5 buf), payload. split; [|done]. f_equal.
    rewrite <-(take_drop 4 buf) at 1. rewrite E2. f_equal.
    rewrite (drop_S buf ENVELOPE_VERSION 4) by done. done.
  - intros buf -> Hd. case_decide; [done|]. destruct (ecies_dec sk (drop 5 buf)); [done|].
    simpl. repeat case_match; done.
Qed.

End Proofs.

Lemma seal_unseal_roundtrip_witness :
  exists b64 y, run Toy.idle (seal_b64 (Toy.pubkey Toy.sk1) (SealedShareV1_new 1 3 Toy.group [Byte.x01; Byte.x07]))
                  (start Toy.world 0) = (Ok b64, y) /\
    unseal_b64 b64 Toy.sk1 = Ok (Some (SealedShareV1_new 1 3 Toy.group [Byte.x01; Byte.x07])).
Proof.
  assert (is_ok (run Toy.idle (seal_b64 (Toy.pubkey Toy.sk1) (SealedShareV1_new 1 3 Toy.group [Byte.x01; Byte.x07]))
                  (start Toy.world 0)).1 = true) as Hok by (vm_compute; reflexivity).
  destruct (run Toy.idle (seal_b64 (Toy.pubkey Toy.sk1) _) (start Toy.world 0)) as [r y] eqn:E.
  destruct r as [b64|e]; [|discriminate Hok].
  exists b64, y. split; [done|].
  exact (seal_unseal_roundtrip Toy.idle Toy.sk1 (Toy.pubkey Toy.sk1) 1 3 Toy.group [Byte.x01; Byte.x07]
    (start Toy.world 0) b64 y Toy.ecies_ok Toy.bare_ok Toy.b64_ok eq_refl E).
Defined.

(** ** Persistence *)

Lemma tmp_ne path : (path +:+ ".tmp") <> path.
Proof.
  intros H%(f_equal String.length). revert H. induction path as [|c p IH]; simpl; [done|].
  intros [= H]. by apply IH.
Qed.

Lemma fs_upd u w : fs (upd_fs u w) = u (fs w).
Proof. by destruct w. Qed.

(** What one uninterrupted [write_blob_file] does, under [wp]. *)
Lemma write_blob_file_spec path b64 s t log :
  wp eq (write_blob_file path b64)
    (fun r s' _ _ => (r = Ok tt -> fs s' !! path = Some b64) /\
       (is_ok r = false -> fs s' !! path = fs s !! path) /\
       exists u, s' = upd_fs u s) s t log.
Proof.
  pose proof (tmp_ne path) as Hne.
  assert (forall s, s = upd_fs id s) as Hid by (by intros []).
  assert (forall u v s, upd_fs u (upd_fs v s) = upd_fs (u ∘ v) s) as Hcomp by (by intros ? ? []).
  unfold write_blob_file, fs_write, fs_rename. do 3 wp_step.
  match goal with a : ans (Fs_write _ _) |- _ => destruct a as [|m [l|]] end; repeat wp_step.
  - match goal with a : ans (Fs_rename _ _) |- _ => destruct a as [m|] end; repeat wp_step.
    + split; [done|]. split; [|rewrite Hcomp; eauto]. intros _.
      rewrite !fs_upd. by rewrite !lookup_insert_ne by done.
    + split; [|split; [done|rewrite !Hcomp; eauto]]. intros _. rewrite !fs_upd. unfold move_file.
      rewrite lookup_insert_eq. by rewrite lookup_insert_eq.
  - split; [done|]. split; [|eauto]. intros _. rewrite fs_upd. by rewrite lookup_insert_ne.
  - split; [done|]. split; [done|eauto].
Qed.

(** The other tasks of the process leave the file and its temporary file alone. *)
Definition leaves_file (path : string) (w w' : World) : Prop :=
  fs w' !! path = fs w !! path /\ fs w' !! (path +:+ ".tmp") = fs w !! (path +:+ ".tmp").

(** One file is left alone. *)
Definition keeps_file (path : string) (w w' : World) : Prop := fs w' !! path = fs w !! path.

#[export] Instance keeps_file_preorder path : PreOrder (keeps_file path).
Proof. split; [by intros w|]. unfold keeps_file. intros a b c H1 H2. by rewrite H2. Qed.

Lemma write_blob_keeps_file path p c :
  path <> p -> path <> p +:+ ".tmp" -> guar (keeps_file path) (write_blob_file p c).
Proof.
  intros H1 H2. unfold write_blob_file, fs_write, fs_rename, keeps_file, move_file.
  repeat guar_step; rewrite fs_upd; repeat case_match;
    rewrite ?lookup_insert_ne by done; rewrite ?lookup_delete_ne by done; done.
Qed.

(** A disk that takes what is written. *)
Definition disk_works (o : kms_oracle) : Prop :=
  (forall n p c, o_ans o n (Fs_write p c) = WriteOk) /\ (forall n a b, o_ans o n (Fs_rename a b) = None).

Lemma write_blob_file_succeeds (o : kms_oracle) path b64 x :
  disk_works o -> (run o (write_blob_file path b64) x).1 = Ok tt.
Proof.
  intros [Hw Hr]. unfold write_blob_file, fs_write, fs_rename. cbn [bind ask run]. rewrite Hw.
  cbn [bind modify run]. by rewrite Hr.
Qed.

(** Normalise what a file holds after some steps. *)
Ltac file_at Hp Ht :=
  unfold move_file;
  repeat (rewrite !fs_upd || rewrite Ht || rewrite lookup_insert_eq || rewrite Hp ||
          rewrite lookup_insert_ne by done || rewrite lookup_delete_ne by done).

Section Atomic.
Context (o : kms_oracle) (path b64 : string) (x : exec World Call ans).
Hypothesis Ho : relies o (leaves_file path).

#[local] Lemma env_path n w : fs (o_env o n w) !! path = fs w !! path.
Proof. apply Ho. Qed.
#[local] Lemma env_tmp n w : fs (o_env o n w) !! (path +:+ ".tmp") = fs w !! (path +:+ ".tmp").
Proof. apply Ho. Qed.

Lemma write_blob_file_run :
  let '(r, y) := run o (write_blob_file path b64) x in
  (r = Ok tt -> fs (x_st y) !! path = Some b64) /\
  (is_ok r = false -> fs (x_st y) !! path = fs (x_st x) !! path).
Proof.
  pose proof (tmp_ne path) as Hne. unfold write_blob_file, fs_write, fs_rename. cbn [bind ask run].
  destruct (o_ans o (x_n x) (Fs_write _ _)) as [|m [l|]]; cbn [bind modify run tick with_st x_st x_n x_log x_now];
    [destruct (o_ans o _ (Fs_rename _ _)) as [m|]; cbn [bind modify run tick with_st x_st x_n x_log x_now]|..].
  all: file_at env_path env_tmp; by split.
Qed.

Lemma write_blob_file_states :
  Forall (fun w => fs w !! path = fs (x_st x) !! path \/ fs w !! path = Some b64)
         (states o (write_blob_file path b64) x).
Proof.
  pose proof (tmp_ne path) as Hne. unfold write_blob_file, fs_write, fs_rename. cbn [bind ask states].
  destruct (o_ans o (x_n x) (Fs_write _ _)) as [|m [l|]]; cbn [bind modify states tick with_st x_st x_n x_log x_now];
    [destruct (o_ans o _ (Fs_rename _ _)) as [m|]; cbn [bind modify states tick with_st x_st x_n x_log x_now]|..].
  all: repeat apply Forall_cons_2; try apply Forall_nil_2; file_at env_path env_tmp; auto.
Qed.

End Atomic.

(** C24: persisting is atomic for one writer.  As long as no other task writes to the file
    or to its temporary file, whatever else they do: at every point of a run of
    [write_blob_file], so also when the process is killed there, and however the writes
    fail, the file holds what it held before or the whole new blob; it holds the new blob
    once the call has succeeded; and a failing call leaves the old one.  (Two writers are
    the subject of [concurrent_persist_can_truncate]; the loss of unsynced data in a power
    failure is outside the model.) *)
Theorem write_blob_file_is_atomic (o : kms_oracle) path b64 x :
  relies o (leaves_file path) ->
  Forall (fun w => fs w !! path = fs (x_st x) !! path \/ fs w !! path = Some b64)
         (states o (write_blob_file path b64) x) /\
  (let '(r, y) := run o (write_blob_file path b64) x in
   (r = Ok tt -> fs (x_st y) !! path = Some b64) /\
   (is_ok r = false -> fs (x_st y) !! path = fs (x_st x) !! path)).
Proof. intros Ho. split; [by apply write_blob_file_states|by apply write_blob_file_run]. Qed.

Lemma write_blob_file_is_atomic_witness :
  fs (x_st (run Toy.idle (write_blob_file "/data/share" "blob") (start Toy.world 0)).2) !! "/data/share"
  = Some "blob".
Proof.
  destruct (write_blob_file_is_atomic Toy.idle "/data/share" "blob" (start Toy.world 0)
    (fun n w => conj eq_refl eq_refl)) as [_ H].
  destruct (run Toy.idle (write_blob_file _ _) _) as [r y] eqn:E. destruct H as [H _]. apply H.
  change r with (r, y).1. by rewrite <-E.
Defined.

Section TwoTasks.
Context {A : Type} (s : World) (t : Z) (h : gset string) (p q : kms A).

Lemma step_ask_1 c k (a : ans c) : p = Ask c k -> pool_step (Pool s t h [p; q]) (Pool s t h [k a; q]).
Proof. intros ->. exact (step_ask _ s t h [Ask c k; q] 0 c k a eq_refl I). Qed.
Lemma step_atom_1 u k : p = Atom u k -> pool_step (Pool s t h [p; q]) (Pool (u s) t h [k s; q]).
Proof. intros ->. exact (step_atom _ s t h [Atom u k; q] 0 u k eq_refl). Qed.
Lemma step_ask_2 c k (a : ans c) : q = Ask c k -> pool_step (Pool s t h [p; q]) (Pool s t h [p; k a]).
Proof. intros ->. exact (step_ask _ s t h [p; Ask c k] 1 c k a eq_refl I). Qed.
Lemma step_atom_2 u k : q = Atom u k -> pool_step (Pool s t h [p; q]) (Pool (u s) t h [p; k s]).
Proof. intros ->. exact (step_atom _ s t h [p; Atom u k] 1 u k eq_refl). Qed.

End TwoTasks.

(** C34: atomicity is per writer.  The temporary file has a fixed name, so when two tasks
    persist at the same time (two reshare sessions finishing together) there is a schedule
    in which one of them has reported success while the file on disk is empty: the other
    one truncated the shared temporary file between the first one's write and rename. *)
Theorem concurrent_persist_can_truncate path b1 b2 (w : World) :
  exists P, rtc pool_step (Pool w 0 ∅ [write_blob_file path b1; write_blob_file path b2]) P /\
    p_tasks _ P !! 0%nat = Some (Ret (Ok tt)) /\ fs (p_st _ P) !! path = Some EmptyString.
Proof.
  pose proof (tmp_ne path) as Hne. set (tmp := path +:+ ".tmp") in *. eexists. split; [|split].
  - eapply rtc_l; [exact (step_ask_1 _ _ _ _ _ (Fs_write tmp b1) _ WriteOk eq_refl)|].
    eapply rtc_l; [exact (step_atom_1 _ _ _ _ _ _ _ eq_refl)|].
    eapply rtc_l; [exact (step_atom_1 _ _ _ _ _ _ _ eq_refl)|].
    eapply rtc_l; [exact (step_ask_1 _ _ _ _ _ (Fs_rename tmp path) _ None eq_refl)|].
    eapply rtc_l; [exact (step_ask_2 _ _ _ _ _ (Fs_write tmp b2) _ WriteOk eq_refl)|].
    eapply rtc_l; [exact (step_atom_2 _ _ _ _ _ _ _ eq_refl)|].
    eapply rtc_l; [exact (step_atom_1 _ _ _ _ _ _ _ eq_refl)|]. apply rtc_refl.
  - done.
  - cbn [p_st]. rewrite !fs_upd. unfold move_file. rewrite lookup_insert_eq. by rewrite lookup_insert_eq.
Qed.
