(* ===== verification/Metrics.v ===== *)
(** The parts of [src/src/metrics.rs] that decide something: the writability probe, the
    write-once master baseline, the recovery clock, and the cluster snapshot behind
    [/metrics] and [/peers].  (The counters themselves are in [State], the text
    of [/metrics] is in [Exposition].) *)
From S2P Require Import Base Threshold Prelude Prog State Externals Models Crypto Seal.
From Stdlib Require Import Ascii ZArith Lia.
From stdpp Require Import base list gmap strings.
Local Open Scope Z_scope.

Definition BASELINE_FILE : string := "master.baseline".

Fixpoint has_slash (s : string) : bool :=
  match s with EmptyString => false | String c s => Ascii.eqb c "/"%char || has_slash s end.

(** Everything up to and including the last separator. *)
Fixpoint dir_prefix (s : string) : string :=
  match s with
  | EmptyString => EmptyString
  | String c s' =>
      if has_slash s' then String c (dir_prefix s')
      else if Ascii.eqb c "/"%char then String c EmptyString else EmptyString
  end.

(** [Path::with_file_name] on a path whose last component is a plain file name. *)
Definition with_file_name (path name : string) : string := dir_prefix path +:+ name.

Definition baseline_path (sealed_share_path : option string) : option string :=
  option_map (fun p => with_file_name p BASELINE_FILE) sealed_share_path.

Definition fs_remove (path : string) : kms (option string) :=
  let! r := ask (Fs_remove path) in
  match r : option string with
  | Some m => Ret (Some m)
  | None => modify (upd_fs (delete path));;; Ret None
  end.

Definition probe_share_path (path : option string) : kms Z :=
  let! verdict :=
    (match path with
     | None => Ret (-1)
     | Some p =>
         let probe := p +:+ ".probe" in
         let! r := fs_write probe EmptyString in
         match r with
         | None => let! _ := fs_remove probe in Ret 1
         | Some _ => Ret 0
         end
     end) in
  store_metric share_path_writable verdict;;; Ret verdict.

(** Seconds from boot to the first share, floored at one. *)
Definition note_share_acquired : kms unit :=
  let! w := get in
  if metrics w last_recovery_seconds =? 0 then
    let! t := now in
    store_metric last_recovery_seconds (Z.max 1 (elapsed t (started w) / secs 1))
  else Ret tt.

Section Baseline.
Context {T : ThresholdScheme} {X : Externals T}.

Definition check_master_baseline (path : option string) (live_master : bytes) : kms Z :=
  match baseline_path path with
  | None => Ret (-1)
  | Some path =>
      let live := hex_encode live_master in
      let! r := read_blob_file path in
      let! verdict :=
        (match r with
         | Ok (Some recorded) => Ret (if decide (recorded = live) then 1 else 0)
         | Ok None =>
             let! r := write_blob_file path live in
             Ret (match r with Ok _ => 1 | Err _ => -1 end)
         | Err _ => Ret (-1)
         end) in
      store_metric master_matches_baseline verdict;;; Ret verdict
  end.

End Baseline.

(** * The cluster snapshot *)

Record ClusterView := mkClusterView {
  has_share : bool;
  own_id : Z;
  cv_own_epoch : Z;
  cluster_epoch : Z;
  cv_threshold : Z;
  cv_total_nodes : Z;
  recovery_threshold : Z;
  live_share_holders : Z;
  leading_holders : Z;
  peers_known : Z;
  peers_live : Z;
  cv_group_pubkey : option bytes;
  group_pubkey_mismatch : Z
}.

Definition count {A} (p : A -> bool) (l : list A) : Z := Z.of_nat (length (List.filter p l)).

(** The snapshot of a state at a clock reading. *)
Definition view_of (config : Config) (now : Z) (w : World) : ClusterView :=
  let '(own_id, own_epoch, has_share) :=
    match shard w with Some x => (shard_index x, shard_epoch x, true) | None => (0, 0, false) end in
  let table := table_values (peer_table w) in
  let live := List.filter (fun p => is_live p now) table in
  let own := if has_share then 1 else 0 in
  let leading_epoch :=
    max_or_0 (map peer_epoch (List.filter (fun p => 0 <? peer_epoch p) live) ++
              (if has_share then [own_epoch] else [])) in
  let threshold := threshold (cluster config) in
  let total := total_nodes (cluster config) in
  {| has_share := has_share;
     own_id := own_id;
     cv_own_epoch := own_epoch;
     cluster_epoch := Z.max own_epoch (max_or_0 (map peer_epoch table));
     cv_threshold := threshold;
     cv_total_nodes := total;
     recovery_threshold := Z.max threshold (total / 2);
     live_share_holders := own + count (fun p => 0 <? peer_epoch p) live;
     leading_holders :=
       if leading_epoch =? 0 then 0
       else (if has_share && (own_epoch =? leading_epoch) then 1 else 0) +
            count (fun p => peer_epoch p =? leading_epoch) live;
     peers_known := Z.of_nat (length table);
     peers_live := Z.of_nat (length live);
     cv_group_pubkey := group_pubkey w;
     group_pubkey_mismatch :=
       match group_pubkey w with
       | Some own => count (fun p => negb (bool_decide (peer_group_pubkey p = [])) &&
                                     negb (bool_decide (peer_group_pubkey p = own))) live
       | None => 0
       end |}.

(** The three reads are separate critical sections. *)
Definition cluster_view (config : Config) : kms ClusterView :=
  let! now := ask Utc_now in
  let! w1 := get in
  let! w2 := get in
  let! w3 := get in
  Ret (view_of config now
         (set_group_pubkey (group_pubkey w2) (set_shard (shard w1) w3))).

(** * Theorems *)

Lemma lower_hex_no_ws s : lower_hex s = true -> trim s = s.
Proof.
  assert (forall c, lower_hex_char c = true -> is_ws c = false) as Hws.
  { intros c. unfold lower_hex_char, is_ws. rewrite orb_true_iff, !andb_true_iff, !Nat.leb_le.
    intros H. apply orb_false_iff. rewrite Nat.eqb_neq, andb_false_iff, !Nat.leb_nle. lia. }
  intros H. unfold trim. assert (trim_start s = s) as ->.
  { destruct s as [|c s]; [done|]. unfold lower_hex in H. simpl in *. apply andb_true_iff in H as [Hc _].
    by rewrite Hws. }
  induction s as [|c s IH]; [done|]. unfold lower_hex in *. simpl in *.
  apply andb_true_iff in H as [Hc Hs]. rewrite (IH Hs). destruct s; [by rewrite Hws|done].
Qed.

Section BaselineProofs.
Context {T : ThresholdScheme} {X : Externals T}.

Lemma hex_encode_inj a b : hex_roundtrip X -> hex_encode a = hex_encode b -> a = b.
Proof. intros H E. destruct (H a) as [Ha _], (H b) as [Hb _]. congruence. Qed.

(** One check, from what the file holds. *)
Lemma check_master_baseline_spec p m s t log :
  hex_roundtrip X ->
  wp eq (check_master_baseline (Some p) m)
    (fun v s' _ log' =>
       (forall c, fs s !! with_file_name p BASELINE_FILE = Some c -> trim c <> EmptyString ->
          fs s' = fs s /\ (v = -1 \/ v = if decide (trim c = hex_encode m) then 1 else 0)) /\
       (v = 1 -> exists c, fs s' !! with_file_name p BASELINE_FILE = Some c /\ trim c = hex_encode m)) s t log.
Proof.
  intros Hhex. destruct (Hhex m) as [_ Hlow]. apply lower_hex_no_ws in Hlow.
  unfold check_master_baseline, read_blob_file. simpl baseline_path. cbv iota.
  set (f := with_file_name p BASELINE_FILE).
  assert (forall u w, fs (upd_metrics u w) = fs w) as Hm by (by intros ? []).
  assert (forall s s0 t0 log0,
    (forall c, fs s !! f = Some c -> trim c <> EmptyString -> False) ->
    wp eq (let! verdict := (let! r := write_blob_file f (hex_encode m) in
                            Ret (match r with Ok _ => 1 | Err _ => -1 end)) in
           store_metric master_matches_baseline verdict;;; Ret verdict)
      (fun v s' _ _ => (forall c, fs s !! f = Some c -> trim c <> EmptyString ->
          fs s' = fs s /\ (v = -1 \/ v = if decide (trim c = hex_encode m) then 1 else 0)) /\
       (v = 1 -> exists c, fs s' !! f = Some c /\ trim c = hex_encode m)) s0 t0 log0) as Hw.
  { intros s2 s0 t0 log0 Hno. do 2 wp_step. eapply wp_mono; [|apply write_blob_file_spec].
    intros r s1 t1 log1 (H1 & _). unfold store_metric. repeat wp_step. rewrite Hm.
    split; [intros c Hc Hne; by destruct (Hno c)|]. intros Hv. exists (hex_encode m).
    destruct r as [[]|]; [|done]. auto. }
  do 3 wp_step. match goal with a : ans (Fs_read _) |- _ => destruct a as [e|] end.
  { unfold store_metric. repeat wp_step. rewrite Hm. split; [|done]. auto. }
  do 2 wp_step.
  unfold id in *. destruct (fs _ !! f) as [c|] eqn:Ef; [destruct (decide (trim c = EmptyString)) as [Hc|Hc]|].
  - wp_step. rewrite <-Ef. apply Hw. rewrite Ef. by intros c' [= <-] Hne.
  - unfold store_metric. repeat wp_step. rewrite Hm. split.
    + intros c' [= <-] _. split; [done|]. by right.
    + case_decide; [|done]. eauto.
  - wp_step. rewrite <-Ef. apply Hw. rewrite Ef. by intros c'.
Qed.

End BaselineProofs.

(** The master baseline is write-once, so it detects a changed master.  Once a check
    has reported a match for a master (recording it if the file was absent), any later
    check on the same disk, by this process or after a restart, leaves the file as it is
    and reports 1 exactly for that master and 0 for any other, unless the file cannot be
    read. *)
Theorem master_baseline_is_write_once {T : ThresholdScheme} {X : Externals T} (o : kms_oracle)
    p m m' x :
  hex_roundtrip X -> quiet o -> hex_encode m <> EmptyString ->
  let '(v, y) := run o (check_master_baseline (Some p) m) x in
  v = 1 -> forall z, fs (x_st z) = fs (x_st y) ->
  let '(v', z') := run o (check_master_baseline (Some p) m') z in
  fs (x_st z') = fs (x_st z) /\ (v' = -1 \/ v' = if decide (m' = m) then 1 else 0).
Proof.
  intros Hhex Hq Hne.
  pose proof (run_quiet o _ _ x Hq (check_master_baseline_spec p m _ _ _ Hhex)) as H.
  destruct (run _ _ x) as [v y]. intros ->. destruct H as [_ H]. destruct (H eq_refl) as (c & Hc & Ht).
  intros z Hz. simpl in Hc. rewrite <-Hz in Hc.
  pose proof (run_quiet o _ _ z Hq (check_master_baseline_spec p m' _ _ _ Hhex)) as H'.
  destruct (run _ _ z) as [v' z']. destruct H' as [H' _]. simpl in H'.
  destruct (H' c Hc) as [Hfs Hv]; [|split; [done|]; destruct Hv as [?| ->]; [by left|right]].
  - by rewrite Ht.
  - rewrite Ht. destruct (decide (m' = m)) as [->|Hm]; [by rewrite decide_True|].
    rewrite decide_False; [done|]. intros E. by apply Hm, hex_encode_inj.
Qed.

(** On the disk of a node that had no baseline, the first master is recorded and a
    different one is then reported. *)
Lemma master_baseline_is_write_once_witness :
  let '(v, y) := run Toy.idle (check_master_baseline (Some "/data/share") Toy.group) (start Toy.world 0) in
  v = 1 /\ fs (x_st (run Toy.idle (check_master_baseline (Some "/data/share") [Byte.x08]) y).2) = fs (x_st y).
Proof.
  pose proof (master_baseline_is_write_once Toy.idle "/data/share" Toy.group [Byte.x08]
    (start Toy.world 0) Toy.hex_ok (Toy.alone_quiet _) ltac:(discriminate)) as H.
  assert ((run Toy.idle (check_master_baseline (Some "/data/share") Toy.group) (start Toy.world 0)).1 = 1) as Hv
    by (vm_compute; reflexivity).
  destruct (run Toy.idle _ (start Toy.world 0)) as [v y]. cbn [fst] in Hv. split; [exact Hv|].
  specialize (H Hv y eq_refl). destruct (run Toy.idle _ y) as [v' z']. exact (proj1 H).
Defined.
