(* ===== verification/Exposition.v ===== *)
(** The monitoring surface: the Prometheus text exposition of [src/src/metrics.rs]
    ([render]), with every metric family in the order it is written and every atomic read
    at the point where it is formatted.  A scraper is given as the reference definition
    ([scrape]: lines, comments, the value after the last space), and the exposition is
    shown to be read back by it. *)
From S2P Require Import Base Threshold Prelude Prog State Externals Models Crypto Seal Metrics.
From Stdlib Require Import Ascii ZArith Lia.
From stdpp Require Import base list gmap strings pretty.
Local Open Scope Z_scope.

Definition nl_char : Ascii.ascii := Ascii.ascii_of_nat 10.
Definition nl : string := String nl_char EmptyString.
(** The double quote. *)
Definition dq : string := String (Ascii.ascii_of_nat 34) EmptyString.

(** Where a sample's value comes from: computed from the snapshot, an atomic [load], the
    process uptime, or the age of a recorded time. *)
Inductive Source : Type :=
| Lit (z : Z)
| Load (m : Metric)
| Uptime
| Age (now : Z) (m : Metric).

(** A metric family; a sample is the text after the family's name and its source. *)
Record Family := mkFamily {
  fam_name : string;
  fam_help : string;
  fam_kind : string;
  fam_samples : list (string * Source)
}.

(** [m.started.elapsed().as_secs()]. *)
Definition uptime : kms Z :=
  let! w := get in
  let! t := now in
  Ret (elapsed t (started w) / secs 1).

Definition read_source (s : Source) : kms Z :=
  match s with
  | Lit z => Ret z
  | Load m => let! w := get in Ret (metrics w m)
  | Uptime => uptime
  | Age now m =>
      let! w := get in
      let last := metrics w m in
      Ret (if last =? 0 then -1 else wrap_i64 (now - last))
  end.

Fixpoint read_samples (l : list (string * Source)) : kms (list (string * Z)) :=
  match l with
  | [] => Ret []
  | (suffix, s) :: l =>
      let! v := read_source s in
      let! vs := read_samples l in
      Ret ((suffix, v) :: vs)
  end.

Definition sample_line (name : string) (s : string * Z) : string :=
  (name +:+ s.1 +:+ " " +:+ pretty s.2) +:+ nl.

(** The text of a family whose samples have been read. *)
Definition family_text (f : Family) (samples : list (string * Z)) : string :=
  ("# HELP " +:+ fam_name f +:+ " " +:+ fam_help f) +:+ nl +:+
  ("# TYPE " +:+ fam_name f +:+ " " +:+ fam_kind f) +:+ nl +:+
  foldr (fun s rest => sample_line (fam_name f) s +:+ rest) EmptyString samples.

(** Write the families one after the other. *)
Fixpoint write_families (fs : list Family) : kms string :=
  match fs with
  | [] => Ret EmptyString
  | f :: fs =>
      let! samples := read_samples (fam_samples f) in
      let! rest := write_families fs in
      Ret (family_text f samples +:+ rest)
  end.

(** The macro [g!]: one unlabelled sample. *)
Definition g (name help kind : string) (val : Source) : Family :=
  mkFamily name help kind [(EmptyString, val)].

(** [k1="v1",k2="v2"] in braces. *)
Definition labels (kvs : list (string * string)) : string :=
  "{" +:+ String.concat "," (map (fun kv => kv.1 +:+ "=" +:+ dq +:+ kv.2 +:+ dq) kvs) +:+ "}".

Section Render.
Context {T : ThresholdScheme} {X : Externals T}.

(** Only when the master is known; its first sixteen hexadecimal digits are the label. *)
Definition group_pubkey_info (v : ClusterView) : list Family :=
  match cv_group_pubkey v with
  | Some pk =>
      [mkFamily "kms_group_pubkey_info"
         "The cluster master this node holds, as a label. Always 1." "gauge"
         [("{hash=" +:+ dq +:+ String.substring 0 (Nat.min 16 (length pk * 2)) (hex_encode pk)
             +:+ dq +:+ "}", Lit 1)]]
  | None => []
  end.

Definition share_and_epoch (version : string) (v : ClusterView) : list Family :=
  [ mkFamily "kms_build_info" "Build metadata; always 1, read the labels." "gauge"
      [(" {version=" +:+ dq +:+ version +:+ dq +:+ "}", Lit 1)];
    g "kms_uptime_seconds"
      "Seconds since process start."
      "gauge" Uptime;
    g "kms_has_share"
      "1 if this node holds a share of the master key."
      "gauge" (Lit (if has_share v then 1 else 0));
    g "kms_shardless_seconds"
      ("Seconds this node has been running without a share. Stays 0 once a share is held. " +:+
      "Unbounded growth means recovery is not converging and needs a human.")
      "gauge" (if has_share v then Lit 0 else Uptime);
    g "kms_own_id"
      ("This node's 1-based participant id, which is also its shard index. Derived from its " +:+
      "position in the on-chain nodeList, so it changes if that list is reordered. 0 = no " +:+
      "share.")
      "gauge" (Lit (own_id v));
    g "kms_epoch"
      "Polynomial epoch of this node's own share. 0 = none."
      "gauge" (Lit (cv_own_epoch v));
    g "kms_cluster_epoch"
      "Highest epoch known across self and all gossiped peers."
      "gauge" (Lit (cluster_epoch v));
    g "kms_epoch_lag"
      ("cluster_epoch - own epoch. Non-zero for more than a reshare's duration means this " +:+
      "node is stranded on a stale polynomial and is silently not contributing to derives.")
      "gauge" (Lit (Z.max 0 (cluster_epoch v - cv_own_epoch v))) ].

Definition committee (v : ClusterView) : list Family :=
  [ g "kms_threshold"
      "Partials required to derive a key (the service threshold)."
      "gauge" (Lit (cv_threshold v));
    g "kms_total_nodes"
      "Configured committee size."
      "gauge" (Lit (cv_total_nodes v));
    g "kms_recovery_threshold"
      ("max(threshold, floor(n/2)) — live leading-epoch holders needed for a shardless node " +:+
      "to rejoin. Alert on this, not on kms_threshold: derives keep working below it while " +:+
      "the cluster has already lost the ability to heal.")
      "gauge" (Lit (recovery_threshold v));
    g "kms_leading_holders"
      ("Live share-holders on the leading epoch, self included. The population a reshare can " +:+
      "draw dealers from.")
      "gauge" (Lit (leading_holders v));
    g "kms_live_share_holders"
      ("Live share-holders on any epoch, self included. Reported for continuity; alert on " +:+
      "kms_leading_holders, since a holder on a stale epoch cannot be a dealer.")
      "gauge" (Lit (live_share_holders v));
    g "kms_peers_known"
      "Peers in the gossip table, alive or not."
      "gauge" (Lit (peers_known v));
    g "kms_peers_live"
      "Peers seen by direct contact within the liveness window."
      "gauge" (Lit (peers_live v)) ].

Definition master_identity (v : ClusterView) : list Family :=
  [ g "kms_group_pubkey_known"
      "1 if this node knows the cluster's group public key."
      "gauge" (Lit (match cv_group_pubkey v with Some _ => 1 | None => 0 end)) ] ++
  group_pubkey_info v ++
  [ g "kms_group_pubkey_mismatch"
      ("Live peers whose gossiped master differs from ours. This node's own observation — it " +:+
      "says a fork exists, not who is right. Use kms_group_pubkey_info to decide that.")
      "gauge" (Lit (group_pubkey_mismatch v));
    g "kms_master_matches_baseline"
      ("1 = the master matches the baseline recorded when this node first formed, 0 = it does " +:+
      "NOT (the cluster forked, or a re-genesis ran without clearing the baseline), -1 = no " +:+
      "baseline on file. Unlike the gossip comparison this survives a TEE identity change, " +:+
      "which is precisely when a rejoining node has no other memory of which cluster it was " +:+
      "in.")
      "gauge" (Load master_matches_baseline);
    g "kms_last_recovery_seconds"
      ("Seconds this node took to go from boot to holding a share. 0 = no such transition " +:+
      "since boot. This is the single-node recovery time the committee's fault tolerance is " +:+
      "spent in units of — when it runs away, the margin goes with it.")
      "gauge" (Load last_recovery_seconds) ].

Definition derive_path : list Family :=
  [ mkFamily "kms_appkey_requests_total"
      "App-key requests by outcome." "counter"
      [(labels [("result", "ok")], Load appkey_ok);
       (labels [("result", "unauthorized")], Load appkey_unauthorized);
       (labels [("result", "bad_request")], Load appkey_bad_request);
       (labels [("result", "not_ready")], Load appkey_not_ready);
       (labels [("result", "error")], Load appkey_error)];
    mkFamily "kms_dprf_discarded_total"
      "Peer partials dropped during collection, by reason." "counter"
      [(labels [("reason", "malformed")], Load dprf_discarded_malformed);
       (labels [("reason", "peer_error")], Load dprf_discarded_peer_error)];
    g "kms_dprf_short_total"
      "Derives that failed because no single epoch reached threshold."
      "counter" (Load dprf_short) ].

Definition formation_and_repair : list Family :=
  [ mkFamily "kms_session_total"
      "Key-formation sessions by kind and outcome." "counter"
      [(labels [("kind", "genesis"); ("result", "ok")], Load genesis_ok);
       (labels [("kind", "genesis"); ("result", "fail")], Load genesis_fail);
       (labels [("kind", "recovery"); ("result", "ok")], Load recovery_ok);
       (labels [("kind", "recovery"); ("result", "fail")], Load recovery_fail);
       (labels [("kind", "dealer"); ("result", "ok")], Load dealer_ok);
       (labels [("kind", "dealer"); ("result", "fail")], Load dealer_fail);
       (labels [("kind", "refresh"); ("result", "ok")], Load refresh_ok);
       (labels [("kind", "refresh"); ("result", "fail")], Load refresh_fail)];
    g "kms_fall_behind_total"
      "Times the watchdog found this node on a stale epoch and triggered a catch-up rejoin."
      "counter" (Load fall_behind);
    g "kms_membership_failures_total"
      ("Failures to assemble the committee (chain lookup failed, or this node's signer is not " +:+
      "in the on-chain nodeList). While this climbs the node cannot form or rejoin.")
      "counter" (Load membership_fail) ].

Definition sealed_share_health : list Family :=
  [ g "kms_sealed_persist_failures_total"
      ("Failures to write the sealed share to durable storage. Harmless while running, fatal " +:+
      "on the next restart — the node would have to rejoin instead of reloading.")
      "counter" (Load sealed_persist_fail);
    g "kms_sealed_stale_discarded_total"
      "Sealed blobs dropped at boot for being older than the cluster epoch."
      "counter" (Load sealed_stale_discarded);
    g "kms_sealed_identity_mismatch_total"
      ("Sealed blobs that could not be opened by this TEE identity, meaning the hardware " +:+
      "identity changed and a rejoin is required.")
      "counter" (Load sealed_identity_mismatch);
    g "kms_share_path_writable"
      ("1 = the sealed-share path was writable at the last probe, 0 = not writable (a " +:+
      "read-only filesystem looks healthy everywhere else), -1 = no path configured.")
      "gauge" (Load share_path_writable) ].

Definition verifier_outcomes : list Family :=
  [ g "kms_verifier_enabled"
      ("1 = attested-admission gate active ([verifier] configured), 0 = admission is on-chain " +:+
      "membership only. The fleet must be uniformly 1 or 0 — a mixed fleet gates " +:+
      "inconsistently.")
      "gauge" (Load verifier_enabled);
    mkFamily "kms_verifier_total"
      "Attested-admission checks by outcome." "counter"
      [(labels [("result", "allowed")], Load verifier_allowed);
       (labels [("result", "denied")], Load verifier_denied);
       (labels [("result", "unavailable_served_stale")], Load verifier_stale_served);
       (labels [("result", "unavailable_refused")], Load verifier_unavailable_refused);
       (labels [("result", "scan_behind")], Load verifier_scan_behind)] ].

Definition gossip_and_chain (now : Z) : list Family :=
  [ mkFamily "kms_gossip_push_total"
      "Outbound gossip pushes by outcome." "counter"
      [(labels [("result", "ok")], Load gossip_push_ok);
       (labels [("result", "fail")], Load gossip_push_fail)];
    g "kms_gossip_last_success_age_seconds"
      ("Seconds since the last gossip push that reached any peer. -1 = never succeeded. " +:+
      "Growing past a few rounds means this node is partitioned and its peer view is going " +:+
      "stale.")
      "gauge" (Age now gossip_last_success);
    mkFamily "kms_chain_rpc_total"
      "nodeList lookups against the chain RPC, by outcome." "counter"
      [(labels [("result", "ok")], Load chain_rpc_ok);
       (labels [("result", "fail")], Load chain_rpc_fail)];
    g "kms_chain_stale_served_total"
      ("RPC failures absorbed by serving the last known nodeList. Authorization is running on " +:+
      "data that is no longer being refreshed.")
      "counter" (Load chain_stale_served) ].

Definition exported (version : string) (v : ClusterView) (now : Z) : list Family :=
  share_and_epoch version v ++ committee v ++ master_identity v ++ derive_path ++
  formation_and_repair ++ sealed_share_health ++ verifier_outcomes ++ gossip_and_chain now.

Definition render (config : Config) (version : string) : kms string :=
  let! v := cluster_view config in
  let! now := ask Utc_now in
  write_families (exported version v now).

End Render.

(** * The scraper *)

(** [str::lines]. *)
Fixpoint split_lines (s : string) : list string :=
  match s with
  | EmptyString => []
  | String c s =>
      if Ascii.eqb c nl_char then EmptyString :: split_lines s
      else match split_lines s with
           | [] => [String c EmptyString]
           | l :: ls => String c l :: ls
           end
  end.

(** What stands before and after the last space. *)
Fixpoint rsplit_space (s : string) : option (string * string) :=
  match s with
  | EmptyString => None
  | String c s =>
      match rsplit_space s with
      | Some (a, b) => Some (String c a, b)
      | None => if Ascii.eqb c " "%char then Some (EmptyString, s) else None
      end
  end.

Definition is_comment (l : string) : bool :=
  match l with String c _ => Ascii.eqb c "#"%char | EmptyString => false end.

Definition parse_line (l : string) : option (list (string * Z)) :=
  if is_comment l then Some []
  else match rsplit_space l with
       | Some (series, v) => option_map (fun z => [(series, z)]) (parse_int v)
       | None => None
       end.

(** The series of an exposition, in order. *)
Fixpoint scrape_lines (ls : list string) : option (list (string * Z)) :=
  match ls with
  | [] => Some []
  | l :: ls =>
      match parse_line l, scrape_lines ls with
      | Some a, Some b => Some (a ++ b)
      | _, _ => None
      end
  end.

Definition scrape (text : string) : option (list (string * Z)) := scrape_lines (split_lines text).

(** The series under which a counter is exported. *)
Definition series_of (m : Metric) : option string :=
  let appkey r := "kms_appkey_requests_total" +:+ labels [("result", r)] in
  let discarded r := "kms_dprf_discarded_total" +:+ labels [("reason", r)] in
  let session k r := "kms_session_total" +:+ labels [("kind", k); ("result", r)] in
  let gate r := "kms_verifier_total" +:+ labels [("result", r)] in
  let gossip r := "kms_gossip_push_total" +:+ labels [("result", r)] in
  let rpc r := "kms_chain_rpc_total" +:+ labels [("result", r)] in
  match m with
  | appkey_ok => Some (appkey "ok")
  | appkey_unauthorized => Some (appkey "unauthorized")
  | appkey_not_ready => Some (appkey "not_ready")
  | appkey_bad_request => Some (appkey "bad_request")
  | appkey_error => Some (appkey "error")
  | dprf_discarded_malformed => Some (discarded "malformed")
  | dprf_discarded_peer_error => Some (discarded "peer_error")
  | dprf_short => Some "kms_dprf_short_total"
  | genesis_ok => Some (session "genesis" "ok")
  | genesis_fail => Some (session "genesis" "fail")
  | recovery_ok => Some (session "recovery" "ok")
  | recovery_fail => Some (session "recovery" "fail")
  | dealer_ok => Some (session "dealer" "ok")
  | dealer_fail => Some (session "dealer" "fail")
  | refresh_ok => Some (session "refresh" "ok")
  | refresh_fail => Some (session "refresh" "fail")
  | fall_behind => Some "kms_fall_behind_total"
  | membership_fail => Some "kms_membership_failures_total"
  | sealed_persist_fail => Some "kms_sealed_persist_failures_total"
  | sealed_stale_discarded => Some "kms_sealed_stale_discarded_total"
  | sealed_identity_mismatch => Some "kms_sealed_identity_mismatch_total"
  | share_path_writable => Some "kms_share_path_writable"
  | master_matches_baseline => Some "kms_master_matches_baseline"
  | last_recovery_seconds => Some "kms_last_recovery_seconds"
  | verifier_enabled => Some "kms_verifier_enabled"
  | verifier_allowed => Some (gate "allowed")
  | verifier_denied => Some (gate "denied")
  | verifier_stale_served => Some (gate "unavailable_served_stale")
  | verifier_unavailable_refused => Some (gate "unavailable_refused")
  | verifier_scan_behind => Some (gate "scan_behind")
  | gossip_push_ok => Some (gossip "ok")
  | gossip_push_fail => Some (gossip "fail")
  (** exported as an age *)
  | gossip_last_success => None
  | chain_rpc_ok => Some (rpc "ok")
  | chain_rpc_fail => Some (rpc "fail")
  | chain_stale_served => Some "kms_chain_stale_served_total"
  end.

(** The gauges an operator alerts on, from the snapshot. *)
Definition view_series (v : ClusterView) : list (string * Z) :=
  [("kms_has_share", if has_share v then 1 else 0);
   ("kms_epoch", cv_own_epoch v);
   ("kms_cluster_epoch", cluster_epoch v);
   ("kms_threshold", cv_threshold v);
   ("kms_recovery_threshold", recovery_threshold v);
   ("kms_leading_holders", leading_holders v);
   ("kms_group_pubkey_mismatch", group_pubkey_mismatch v)].

(** * Theorems *)

(** ** The text is read back *)

Definition no_nl (s : string) : bool := string_forall (fun c => negb (Ascii.eqb c nl_char)) s.
Definition no_space (s : string) : bool := string_forall (fun c => negb (Ascii.eqb c " "%char)) s.

Lemma string_forall_app p a b :
  string_forall p (a +:+ b) = string_forall p a && string_forall p b.
Proof.
  induction a as [|c a IH]; [done|].
  change (p c && string_forall p (a +:+ b) = (p c && string_forall p a) && string_forall p b).
  by rewrite IH, andb_assoc.
Qed.

Lemma split_lines_app l rest :
  no_nl l = true -> split_lines (l +:+ nl +:+ rest) = l :: split_lines rest.
Proof.
  induction l as [|c l IH]; intros H; [done|].
  unfold no_nl in H. simpl in H. apply andb_true_iff in H as [Hc Hl].
  change (String c l +:+ nl +:+ rest) with (String c (l +:+ nl +:+ rest)).
  cbn [split_lines]. rewrite (IH Hl). apply negb_true_iff in Hc. by rewrite Hc.
Qed.

Lemma rsplit_no_space v : no_space v = true -> rsplit_space v = None.
Proof.
  induction v as [|c v IH]; [done|]. unfold no_space. simpl. intros [Hc Hv]%andb_true_iff.
  rewrite (IH Hv). apply negb_true_iff in Hc. by rewrite Hc.
Qed.

Lemma rsplit_space_app k v :
  no_space v = true -> rsplit_space (k +:+ " " +:+ v) = Some (k, v).
Proof.
  intros Hv. induction k as [|c k IH].
  - change (rsplit_space (String " "%char v) = Some (EmptyString, v)).
    cbn [rsplit_space]. by rewrite rsplit_no_space.
  - change (rsplit_space (String c (k +:+ " " +:+ v)) = Some (String c k, v)).
    cbn [rsplit_space]. by rewrite IH.
Qed.

Lemma digit_not c d : is_Some (digit c) -> digit d = None -> negb (Ascii.eqb c d) = true.
Proof.
  intros [z Hz] Hd. apply negb_true_iff. apply Ascii.eqb_neq. intros ->. congruence.
Qed.

Lemma pretty_no_space z : no_space (pretty (z : Z)) = true.
Proof. apply pretty_Z_forall; [|done]. intros c Hc. by apply digit_not. Qed.

Lemma pretty_no_nl z : no_nl (pretty (z : Z)) = true.
Proof. apply pretty_Z_forall; [|done]. intros c Hc. by apply digit_not. Qed.

(** What a family must be for its text to be readable. *)
Definition plain_family (f : Family) : bool :=
  no_nl (fam_name f) && no_nl (fam_help f) && no_nl (fam_kind f) &&
  forallb (fun s => no_nl s.1) (fam_samples f) &&
  match fam_name f with String c _ => negb (Ascii.eqb c "#"%char) | EmptyString => false end.

Definition series (f : Family) (samples : list (string * Z)) : list (string * Z) :=
  map (fun s => (fam_name f +:+ s.1, s.2)) samples.

Lemma parse_sample f (s : string * Z) :
  plain_family f = true ->
  parse_line (fam_name f +:+ s.1 +:+ " " +:+ pretty s.2) = Some [(fam_name f +:+ s.1, s.2)].
Proof.
  intros H. unfold plain_family in H. apply andb_true_iff in H as [_ Hc]. unfold parse_line.
  destruct (fam_name f) as [|c n] eqn:E; [done|]. apply negb_true_iff in Hc.
  replace (is_comment _) with false by (symmetry; exact Hc).
  rewrite (str_app_assoc (String c n)),  rsplit_space_app by apply pretty_no_space.
  by rewrite parse_int_pretty.
Qed.

Lemma no_nl_app a b : no_nl (a +:+ b) = no_nl a && no_nl b.
Proof. apply string_forall_app. Qed.

Lemma scrape_samples f samples rest :
  plain_family f = true -> Forall (fun s => no_nl s.1 = true) samples ->
  scrape (foldr (fun s rest => sample_line (fam_name f) s +:+ rest) EmptyString samples +:+ rest) =
  option_map (app (series f samples)) (scrape rest).
Proof.
  intros Hf Hs. induction Hs as [|s samples Hnl Hs IH]; [|].
  { cbn [foldr series map]. change (EmptyString +:+ rest) with rest. by destruct (scrape rest). }
  cbn [foldr]. unfold sample_line at 1. rewrite <-!str_app_assoc.
  rewrite (str_app_assoc (fam_name f)), (str_app_assoc _ " "), (str_app_assoc _ (pretty s.2)).
  unfold scrape. rewrite split_lines_app.
  - cbn [scrape_lines]. rewrite <-!str_app_assoc, parse_sample by done.
    unfold scrape in IH. rewrite IH. by destruct (scrape_lines (split_lines rest)).
  - unfold plain_family in Hf. rewrite !andb_true_iff in Hf. destruct Hf as ((((Hn & _) & _) & _) & _).
    rewrite !no_nl_app, Hn, Hnl, pretty_no_nl. done.
Qed.

(** A comment line contributes no series. *)
Lemma scrape_comment l rest :
  no_nl l = true -> is_comment l = true -> scrape (l +:+ nl +:+ rest) = scrape rest.
Proof.
  intros Hn Hc. unfold scrape. rewrite split_lines_app by done. cbn [scrape_lines]. unfold parse_line.
  rewrite Hc. by destruct (scrape_lines _).
Qed.

Lemma scrape_family f samples rest :
  plain_family f = true -> Forall (fun s => no_nl s.1 = true) samples ->
  scrape (family_text f samples +:+ rest) = option_map (app (series f samples)) (scrape rest).
Proof.
  intros Hf Hs. pose proof Hf as Hf'. unfold plain_family in Hf'. rewrite !andb_true_iff in Hf'.
  destruct Hf' as ((((Hn & Hh) & Hk) & _) & _).
  unfold family_text. rewrite <-(scrape_samples f samples rest) by done.
  rewrite <-!str_app_assoc.
  rewrite (str_app_assoc "# HELP "), (str_app_assoc _ " "), (str_app_assoc _ (fam_help f)).
  rewrite scrape_comment by (rewrite ?no_nl_app, ?Hn, ?Hh; done).
  rewrite (str_app_assoc "# TYPE "), (str_app_assoc _ " "), (str_app_assoc _ (fam_kind f)).
  by rewrite scrape_comment by (rewrite ?no_nl_app, ?Hn, ?Hk; done).
Qed.

(** ** What is read *)

(** The value a source has in a state that nothing changes. *)
Definition reads (w : World) (s : Source) (z : Z) : Prop :=
  match s with
  | Lit y => z = y
  | Load m => z = metrics w m
  | Uptime => 0 <= z
  | Age now m => z = if metrics w m =? 0 then -1 else wrap_i64 (now - metrics w m)
  end.

Definition reading (w : World) (f : Family) (vs : list (string * Z)) : Prop :=
  Forall2 (fun s v => v.1 = s.1 /\ reads w s.2 v.2) (fam_samples f) vs.

Lemma read_source_spec src s t log :
  wp eq (read_source src) (fun z s' _ _ => s' = s /\ reads s src z) s t log.
Proof.
  destruct src; cbn [read_source]; unfold uptime; repeat wp_step; unfold id in *;
    (split; [done|]); try done.
  unfold reads, elapsed, secs. apply Z.div_pos; lia.
Qed.

Lemma read_samples_spec l s t log :
  wp eq (read_samples l)
    (fun vs s' _ _ => s' = s /\ Forall2 (fun s0 v => v.1 = s0.1 /\ reads s s0.2 v.2) l vs) s t log.
Proof.
  revert t log. induction l as [|[suffix src] l IH]; intros t log; cbn [read_samples].
  { wp_step. by constructor. }
  wp_step. eapply wp_mono; [|apply read_source_spec]. intros z s1 t1 log1 [-> Hz].
  wp_step. eapply wp_mono; [|apply IH]. intros vs s2 t2 log2 [-> Hvs]. wp_step.
  split; [done|]. by constructor.
Qed.

Definition all_series (fs : list Family) (vss : list (list (string * Z))) : list (string * Z) :=
  concat (zip_with series fs vss).

Lemma reading_plain w f vs :
  plain_family f = true -> reading w f vs -> Forall (fun s => no_nl s.1 = true) vs.
Proof.
  unfold plain_family, reading. rewrite !andb_true_iff. intros ((_ & Hs) & _) H.
  revert Hs. induction H as [|s v l vs [E _] _ IH]; simpl; [constructor|].
  rewrite andb_true_iff. intros [Hs Hl]. constructor; [by rewrite E|auto].
Qed.

Lemma write_families_spec fs s t log :
  Forall (fun f => plain_family f = true) fs ->
  wp eq (write_families fs)
    (fun text s' _ _ => s' = s /\ exists vss,
       Forall2 (reading s) fs vss /\ scrape text = Some (all_series fs vss)) s t log.
Proof.
  intros Hfs. revert t log. induction Hfs as [|f fs Hf Hfs IH]; intros t log; cbn [write_families].
  { wp_step. split; [done|]. exists []. by split; [constructor|]. }
  wp_step. eapply wp_mono; [|apply read_samples_spec]. intros vs s1 t1 log1 [-> Hvs].
  wp_step. eapply wp_mono; [|apply IH]. intros rest s2 t2 log2 (-> & vss & Hvss & Hrest). wp_step.
  split; [done|]. exists (vs :: vss). split; [by constructor|].
  rewrite scrape_family, Hrest by (done || by eapply reading_plain). done.
Qed.

(** The series of families with the sources of their values. *)
Definition sources (fs : list Family) : list (string * Source) :=
  concat (map (fun f => map (fun s => (fam_name f +:+ s.1, s.2)) (fam_samples f)) fs).

Lemma all_series_sources w fs vss :
  Forall2 (reading w) fs vss ->
  Forall2 (fun s v => v.1 = s.1 /\ reads w s.2 v.2) (sources fs) (all_series fs vss).
Proof.
  unfold sources, all_series. induction 1 as [|f vs fs vss Hf _ IH]; [constructor|].
  simpl. apply Forall2_app; [|done]. unfold series. induction Hf as [|s v l vs [E Hr] _ IH']; [constructor|].
  simpl. constructor; [|done]. split; [simpl; by rewrite E|done].
Qed.

Lemma forall2_keys w (l : list (string * Source)) vs :
  Forall2 (fun s v => v.1 = s.1 /\ reads w s.2 v.2) l vs -> map fst vs = map fst l.
Proof. induction 1 as [|s v l vs [E _] _ IH]; [done|]. simpl. by rewrite E, IH. Qed.

Lemma forall2_in w (l : list (string * Source)) vs k src :
  Forall2 (fun s v => v.1 = s.1 /\ reads w s.2 v.2) l vs -> In (k, src) l ->
  exists z, reads w src z /\ In (k, z) vs.
Proof.
  induction 1 as [|s v l vs [E Hr] _ IH]; [done|]. intros [->|Hin].
  - exists v.2. split; [done|]. left. destruct v. simpl in *. by subst.
  - destruct (IH Hin) as (z & Hz & Hv). exists z. split; [done|]. by right.
Qed.

(** ** The families of the program *)

Section Exported.
Context {T : ThresholdScheme} {X : Externals T}.

Lemma substring_forall p s n m : string_forall p s = true -> string_forall p (String.substring n m s) = true.
Proof.
  revert n m. induction s as [|c s IH]; intros n m Hs; [by destruct n, m|].
  pose proof Hs as Hs'. simpl in Hs'. apply andb_true_iff in Hs' as [Hc Hs'].
  destruct n as [|n], m as [|m]; simpl; try done; [by rewrite Hc, IH|by apply IH..].
Qed.

Lemma lower_hex_no_nl s : lower_hex s = true -> no_nl s = true.
Proof.
  apply string_forall_mono. intros c Hc. apply negb_true_iff, Ascii.eqb_neq. by intros ->.
Qed.

Lemma group_pubkey_info_plain v :
  hex_roundtrip X -> Forall (fun f => plain_family f = true) (group_pubkey_info v).
Proof.
  intros Hhex. unfold group_pubkey_info. destruct (cv_group_pubkey v) as [pk|]; [|constructor].
  constructor; [|constructor]. destruct (Hhex pk) as [_ Hlow]. apply lower_hex_no_nl in Hlow.
  unfold plain_family. cbn [fam_samples forallb fst fam_name fam_help fam_kind].
  rewrite !no_nl_app.
  assert (forall n, no_nl (String.substring 0 n (hex_encode pk)) = true) as ->
    by (intros n; by apply substring_forall). done.
Qed.

Lemma plain_forallb fs : forallb plain_family fs = true -> Forall (fun f => plain_family f = true) fs.
Proof. intros H. apply Forall_forall. intros f Hf. by eapply forallb_forall, list_elem_of_In. Qed.

Lemma exported_plain version v now :
  hex_roundtrip X -> no_nl version = true ->
  Forall (fun f => plain_family f = true) (exported version v now).
Proof.
  intros Hhex Hv. unfold exported.
  repeat apply Forall_app_2; try (apply plain_forallb; vm_compute; reflexivity).
  - unfold share_and_epoch. constructor.
    + unfold plain_family. cbn [fam_samples forallb fst fam_name fam_help fam_kind].
      rewrite !no_nl_app, Hv. done.
    + apply plain_forallb. destruct (has_share v); vm_compute; reflexivity.
  - by apply group_pubkey_info_plain.
Qed.

(** The two labels that hold data, without it. *)
Definition without_data (k : string) : string :=
  if String.prefix "kms_build_info" k then "kms_build_info"
  else if String.prefix "kms_group_pubkey_info" k then "kms_group_pubkey_info" else k.

Lemma NoDup_map_inv {A B} (f : A -> B) l : NoDup (map f l) -> NoDup l.
Proof. apply (NoDup_fmap_1 f). Qed.

Lemma exported_NoDup version v now : NoDup (map fst (sources (exported version v now))).
Proof.
  apply (NoDup_map_inv without_data).
  unfold exported, master_identity, group_pubkey_info, share_and_epoch.
  destruct (cv_group_pubkey v), (has_share v);
    match goal with |- NoDup ?l => let l := eval vm_compute in l in change (NoDup l) end;
    refine (bool_decide_unpack _ _); vm_compute; exact I.
Qed.

Definition loads (k : string) (m : Metric) (s : string * Source) : bool :=
  String.eqb s.1 k && match s.2 with Load m' => bool_decide (m' = m) | _ => false end.

Lemma existsb_loads k m l : existsb (loads k m) l = true -> In (k, Load m) l.
Proof.
  intros ([k' s] & Hin & Hl)%existsb_exists. unfold loads in Hl. simpl in Hl.
  apply andb_true_iff in Hl as [->%String.eqb_eq Hs]. destruct s; try done.
  by apply bool_decide_eq_true in Hs as ->.
Qed.

(** Every counter is somewhere. *)
Lemma exported_metric version v now m k :
  series_of m = Some k -> In (k, Load m) (sources (exported version v now)).
Proof.
  intros Hk. assert (In (k, Load m) (sources
    (master_identity v ++ derive_path ++ formation_and_repair ++ sealed_share_health ++
     verifier_outcomes ++ gossip_and_chain now))) as Hin.
  { apply existsb_loads. unfold master_identity, group_pubkey_info.
    destruct (cv_group_pubkey v); destruct m; (injection Hk as <- || discriminate Hk);
      vm_compute; reflexivity. }
  revert Hin. unfold exported, sources. rewrite !map_app, !concat_app, !in_app_iff. tauto.
Qed.

Lemma exported_view version v now k z :
  In (k, z) (view_series v) -> In (k, Lit z) (sources (exported version v now)).
Proof.
  intros Hin. assert (In (k, Lit z) (sources (share_and_epoch version v ++ committee v ++
     (g "kms_group_pubkey_mismatch" EmptyString EmptyString (Lit (group_pubkey_mismatch v))) :: []))) as H.
  { simpl in Hin. intuition simplify_eq; vm_compute; repeat first [left; reflexivity|right]. }
  revert H. unfold exported, master_identity, sources. rewrite !map_app, !concat_app, !in_app_iff.
  simpl. tauto.
Qed.

End Exported.

Section Scrape.
Context {T : ThresholdScheme} {X : Externals T}.

Lemma render_spec config version s t log :
  hex_roundtrip X -> no_nl version = true ->
  wp eq (render config version)
    (fun text s' _ _ => s' = s /\ exists now now' l,
       scrape text = Some l /\
       Forall2 (fun s0 v => v.1 = s0.1 /\ reads s s0.2 v.2)
         (sources (exported version (view_of config now s) now')) l) s t log.
Proof.
  intros Hhex Hv. unfold render. wp_step.
  eapply wp_mono with (Q := fun v s' _ _ => s' = s /\ exists now, v = view_of config now s).
  2: { unfold cluster_view. repeat wp_step. unfold id in *. split; [done|]. eexists. by destruct s'. }
  intros v s1 t1 log1 (-> & now & ->). do 2 wp_step.
  eapply wp_mono; [|by apply write_families_spec, exported_plain].
  intros text s2 t2 log2 (-> & vss & Hvss & Hs). split; [done|].
  eexists _, _, _. split; [exact Hs|]. by apply all_series_sources.
Qed.

End Scrape.

(** C29: a scrape of [/metrics] reads the node.  In isolation, rendering changes nothing, and
    parsing the text it produces succeeds: no two samples are of the same series, every
    counter of the process appears under its own series with the value it holds, and the
    cluster gauges (share held, own and cluster epoch, thresholds, leading holders, masters
    that differ) are those of the snapshot at one clock reading. *)
Theorem metrics_scrape_roundtrip {T : ThresholdScheme} {X : Externals T} (o : kms_oracle)
    config version x :
  hex_roundtrip X -> quiet o -> no_nl version = true ->
  let '(text, y) := run o (render config version) x in
  x_st y = x_st x /\
  exists l now, scrape text = Some l /\ NoDup (map fst l) /\
    (forall m k, series_of m = Some k -> In (k, metrics (x_st x) m) l) /\
    (forall k z, In (k, z) (view_series (view_of config now (x_st x))) -> In (k, z) l).
Proof.
  intros Hhex Hq Hv. pose proof (run_quiet o _ _ x Hq (render_spec config version _ _ _ Hhex Hv)) as H.
  destruct (run _ _ x) as [text y]. destruct H as (Hy & now & now' & l & Hs & Hl). split; [exact Hy|].
  exists l, now. split; [done|]. split; [|split].
  - rewrite (forall2_keys _ _ _ Hl). apply exported_NoDup.
  - intros m k Hk. destruct (forall2_in _ _ _ _ _ Hl (exported_metric version _ now' m k Hk)) as (z & Hz & Hin).
    simpl in Hz. by subst.
  - intros k z Hk. destruct (forall2_in _ _ _ _ _ Hl (exported_view version _ now' k z Hk)) as (z' & Hz & Hin).
    simpl in Hz. by subst.
Qed.

(** The model node reports its epoch and that its gate has admitted nobody yet. *)
Lemma metrics_scrape_roundtrip_witness :
  exists l, scrape (run Toy.idle (render Toy.config "0.1.0") (start Toy.world 0)).1 = Some l /\
    In ("kms_epoch", 3) l /\ In ("kms_verifier_total" +:+ labels [("result", "allowed")], 0) l.
Proof.
  pose proof (metrics_scrape_roundtrip Toy.idle Toy.config "0.1.0" (start Toy.world 0)
    Toy.hex_ok (Toy.alone_quiet _) eq_refl) as H.
  destruct (run Toy.idle (render Toy.config "0.1.0") (start Toy.world 0)) as [text y].
  destruct H as (_ & l & now & Hs & _ & Hm & Hv). exists l. split; [exact Hs|]. split.
  - apply Hv. right. left. reflexivity.
  - exact (Hm verifier_allowed _ eq_refl).
Defined.
