(* ===== verification/Tee.v ===== *)
(** [src/src/tee.rs]: where the node's signing key comes from, the environment when the
    enclave is mocked and the local tapp-server otherwise.  A panic ([unwrap]) is an
    outcome of its own, so that its absence is a theorem. *)
From S2P Require Import Base Threshold Prelude Prog State Externals Models.
From Stdlib Require Import ZArith Lia.
From stdpp Require Import base list gmap strings pretty.
Local Open Scope Z_scope.

Inductive TeeError : Type :=
| NotSet (var : string)
| WrongLength (var : string) (chars : nat)
| NotHex (var : string)
| InvalidUrl (url m : string)
| CannotConnect (target : TappTarget) (m : string)
| KeyRefused (m : string)
| BadPrivateKey (len : nat)
| BadEthAddress (len : nat)
| NeverAttempted
| RpcFailed (m : string).

Definition MAX_ATTEMPTS : nat := 10.

Section Tee.
Context {T : ThresholdScheme} {X : Externals T}.
(** [Channel::from_shared] on the tapp-server's URL. *)
Context (endpoint_try : string -> result unit string).

(** One variable of the mock: [0x]-prefixed hexadecimal of exactly [n] bytes. *)
Definition mock_var (var : string) (n : nat) : kms (outcome (result bytes TeeError)) :=
  let! raw := ask (Env_var var) in
  Ret (match raw : option string with
       | None => Returned (Err (NotSet var))
       | Some raw =>
           let hex := trim_0x raw in
           if negb (String.length hex =? 2 * n)%nat then
             Returned (Err (WrongLength var (String.length hex)))
           else match hex_decode hex with
                | None => Returned (Err (NotHex var))
                | Some b => match to_array n b with
                            | Some a => Returned (Ok a)
                            | None => Panicked "unwrap on Err"
                            end
                end
       end).

Definition fetch_mock : kms (outcome (result NodeKey TeeError)) :=
  let! k := mock_var "MOCK_APP_PRIVATE_KEY" 32 in
  match k with
  | Panicked m => Ret (Panicked m)
  | Returned (Err e) => Ret (Returned (Err e))
  | Returned (Ok private_key) =>
      let! a := mock_var "MOCK_APP_ETH_ADDRESS" 20 in
      Ret (match a with
           | Panicked m => Panicked m
           | Returned (Err e) => Returned (Err e)
           | Returned (Ok eth_address) =>
               Returned (Ok {| State.private_key := private_key; State.eth_address := eth_address |})
           end)
  end.

(** What a reply of the tapp-server is turned into. *)
Definition key_of_reply (resp : AppSecretKey) : outcome (result NodeKey TeeError) :=
  if negb (ask_success resp) then Returned (Err (KeyRefused (ask_message resp)))
  else if negb (length (ask_private_key resp) =? 32)%nat then
    Returned (Err (BadPrivateKey (length (ask_private_key resp))))
  else if negb (length (ask_eth_address resp) =? 20)%nat then
    Returned (Err (BadEthAddress (length (ask_eth_address resp))))
  else match to_array 32 (ask_private_key resp), to_array 20 (ask_eth_address resp) with
       | Some k, Some a => Returned (Ok {| private_key := k; eth_address := a |})
       | _, _ => Panicked "unwrap on Err"
       end.

(** [for attempt in 1..=10]. *)
Fixpoint attempts (app_id : string) (tries : nat) (attempt : Z) (last_err : TeeError) :
    kms (outcome (result NodeKey TeeError)) :=
  match tries with
  | O => Ret (Returned (Err last_err))
  | S tries =>
      let! r := ask (Tapp_get_app_secret_key app_id "ethereum" false) in
      match r : result AppSecretKey string with
      | Ok resp => Ret (key_of_reply resp)
      | Err e => sleep (secs attempt);;; attempts app_id tries (attempt + 1) (RpcFailed e)
      end
  end.

Definition tapp_target (cfg : TappConfig) : result TappTarget TeeError :=
  match tapp_socket cfg with
  | Some sock => Ok (UnixSocket sock)
  | None => let? _ := map_err (InvalidUrl (tapp_url cfg)) (endpoint_try (tapp_url cfg)) in
            Ok (Tcp (tapp_url cfg))
  end.

Definition fetch_grpc (cfg : TappConfig) : kms (outcome (result NodeKey TeeError)) :=
  match tapp_target cfg with
  | Err e => Ret (Returned (Err e))
  | Ok target =>
      let! c := ask (Tapp_connect target) in
      match c : result unit string with
      | Err m => Ret (Returned (Err (CannotConnect target m)))
      | Ok _ => attempts (tapp_app_id cfg) MAX_ATTEMPTS 1 NeverAttempted
      end
  end.

Definition fetch_signing_key (cfg : TappConfig) : kms (outcome (result NodeKey TeeError)) :=
  if mock_tee cfg then fetch_mock else fetch_grpc cfg.

End Tee.

(** * Theorems *)

Definition well_formed_key (k : NodeKey) : Prop :=
  length (private_key k) = 32%nat /\ length (eth_address k) = 20%nat.

(** A call that returns, and whose key, if it returns one, is well formed. *)
Definition sound_key (r : outcome (result NodeKey TeeError)) : Prop :=
  exists res, r = Returned res /\ forall k, res = Ok k -> well_formed_key k.

(** The questions put to the tapp-server for the key, and the replies to them. *)
Definition key_reply (ev : kms_event) : option (result AppSecretKey string) :=
  match ev with
  | Ev c a => match c return ans c -> option (result AppSecretKey string) with
              | Tapp_get_app_secret_key _ _ _ => fun a => Some a
              | _ => fun _ => None
              end a
  end.

Definition key_replies (evs : list kms_event) : list (result AppSecretKey string) := omap key_reply evs.

(** The time the failed attempts [attempt, attempt + 1, ...] sleep. *)
Fixpoint backoff (tries : nat) (attempt : Z) : Z :=
  match tries with O => 0 | S tries => attempt + backoff tries (attempt + 1) end.

Lemma to_array_Some n b a : to_array n b = Some a -> length a = n /\ a = b.
Proof. unfold to_array. case_match eqn:E; [|done]. intros [= <-]. by apply Nat.eqb_eq in E. Qed.

Lemma key_of_reply_sound resp : sound_key (key_of_reply resp).
Proof.
  unfold key_of_reply, sound_key. repeat case_match; try (eexists; split; [done|done]).
  - eexists. split; [done|]. intros k [= <-].
    split; simpl; [eapply (to_array_Some 32)|eapply (to_array_Some 20)]; eassumption.
  - exfalso. repeat match goal with H : negb _ = false |- _ => apply negb_false_iff in H end.
    unfold to_array in *. simplify_eq/=. by repeat case_match.
  - exfalso. repeat match goal with H : negb _ = false |- _ => apply negb_false_iff in H end.
    unfold to_array in *. simplify_eq/=. by repeat case_match.
Qed.

Section Proofs.
Context {T : ThresholdScheme} {X : Externals T}.
Context (endpoint_try : string -> result unit string).

Lemma mock_var_sound var n s t log :
  hex_length X ->
  wp anything (mock_var var n)
    (fun r _ _ log' => key_replies log' = key_replies log /\
       exists res, r = Returned res /\ forall a, res = Ok a -> length a = n) s t log.
Proof.
  intros Hhex. unfold mock_var. repeat wp_step. unfold key_replies. rewrite omap_app, app_nil_r.
  split; [done|]. match goal with |- context [match ?a with Some _ => _ | None => _ end] => destruct a as [raw|] end;
    [|by eexists].
  case_match eqn:El; [by eexists|]. apply negb_false_iff, Nat.eqb_eq in El.
  destruct (hex_decode _) as [b|] eqn:Eb; [|by eexists]. apply Hhex in Eb.
  unfold to_array. assert (length b = n) as -> by lia. rewrite Nat.eqb_refl. eexists. split; [done|].
  intros a [= <-]. lia.
Qed.

Lemma fetch_mock_sound s t log :
  hex_length X ->
  wp anything fetch_mock (fun r _ _ log' => key_replies log' = key_replies log /\ sound_key r) s t log.
Proof.
  intros Hhex. unfold fetch_mock. wp_step. eapply wp_mono; [|by apply mock_var_sound].
  intros r s1 t1 log1 (Hl1 & res & -> & Hk). destruct res as [k|e]; [|wp_step; split; [done|by eexists]].
  wp_step. eapply wp_mono; [|by apply mock_var_sound].
  intros r s2 t2 log2 (Hl2 & res & -> & Ha). wp_step. split; [congruence|].
  destruct res as [a|e]; (eexists; split; [done|]); [|done]. intros key [= <-]. split; simpl; auto.
Qed.

(** The first reply that is not a transport error decides; without one every attempt was
    made, with a growing pause after each. *)
Definition attempts_outcome (tries : nat) (attempt t : Z) (r : outcome (result NodeKey TeeError)) (t' : Z)
    (replies : list (result AppSecretKey string)) : Prop :=
  exists errs : list string,
    (length errs < tries /\ exists resp, replies = map Err errs ++ [Ok resp] /\ r = key_of_reply resp)%nat \/
    (length errs = tries /\ replies = map Err errs /\ (exists e, r = Returned (Err e)) /\
     t + secs (backoff tries attempt) <= t').

Lemma attempts_spec app tries attempt last s t log :
  wp anything (attempts app tries attempt last)
    (fun r _ t' log' => exists replies, key_replies log' = key_replies log ++ replies /\
       attempts_outcome tries attempt t r t' replies) s t log.
Proof.
  revert attempt last s t log. induction tries as [|tries IH]; intros attempt last s t log; cbn [attempts].
  { wp_step. exists []. rewrite app_nil_r. split; [done|]. exists []. right. cbn [backoff]. unfold secs.
    repeat split; [by eexists|lia]. }
  do 2 wp_step. match goal with a : ans _ |- _ => destruct a as [resp|e] end.
  - wp_step. exists [Ok resp]. unfold key_replies. rewrite omap_app. split; [done|].
    exists []. left. simpl. split; [lia|]. by exists resp.
  - do 2 wp_step. eapply wp_mono; [|apply IH]. intros r s1 t1 log1 (replies & Hl & errs & Ho).
    exists (Err e :: replies). unfold key_replies in *. rewrite Hl, omap_app, <-app_assoc. split; [done|].
    exists (e :: errs). destruct Ho as [(Hn & resp & -> & ->)|(Hn & -> & He & Ht)].
    + left. simpl. split; [lia|]. by exists resp.
    + right. simpl. rewrite Hn. repeat split; [done|]. unfold secs in *. lia.
Qed.

Lemma fetch_signing_key_spec cfg s t log :
  hex_length X ->
  wp anything (fetch_signing_key endpoint_try cfg)
    (fun r _ t' log' => sound_key r /\ exists replies, key_replies log' = key_replies log ++ replies /\
       (replies = [] \/ exists t0, t <= t0 /\ attempts_outcome MAX_ATTEMPTS 1 t0 r t' replies)) s t log.
Proof.
  intros Hhex. unfold fetch_signing_key. destruct (mock_tee cfg).
  { eapply wp_mono; [|by apply fetch_mock_sound]. intros r s1 t1 log' [Hl Hs]. split; [done|].
    exists []. rewrite app_nil_r. auto. }
  unfold fetch_grpc. destruct (tapp_target _ _) as [target|e].
  2: { wp_step. split; [by eexists|]. exists []. rewrite app_nil_r. auto. }
  do 2 wp_step. match goal with a : ans _ |- _ => destruct a as [[]|m] end.
  2: { wp_step. split; [by eexists|]. exists []. unfold key_replies. rewrite omap_app, !app_nil_r. auto. }
  eapply wp_mono; [|apply attempts_spec]. intros r s1 t1 log1 (replies & Hl & errs & Ho). split.
  - destruct Ho as [(_ & resp & _ & ->)|(_ & _ & [e ->] & _)]; [apply key_of_reply_sound|by eexists].
  - exists replies. unfold key_replies in *. rewrite omap_app, app_nil_r in Hl. split; [done|]. right.
    exists t'0. split; [lia|]. by exists errs.
Qed.

End Proofs.

(** C28: fetching the node's signing key always comes to an end without a panic.  Whatever
    the environment and the tapp-server answer, the call returns; a key it returns has a
    private key of 32 and an address of 20 bytes; the tapp-server is asked at most ten
    times, its first reply that is not a transport error decides, and giving up takes at
    least 55 seconds of back-off. *)
Theorem signing_key_fetch_is_total {T : ThresholdScheme} {X : Externals T} (o : kms_oracle)
    endpoint_try cfg x :
  hex_length X ->
  let '(r, y) := run o (fetch_signing_key endpoint_try cfg) x in
  sound_key r /\ exists replies, key_replies (x_log y) = key_replies (x_log x) ++ replies /\
    (length replies <= MAX_ATTEMPTS)%nat /\
    (forall resp, Ok resp ∈ replies -> r = key_of_reply resp) /\
    (replies <> [] -> (forall resp, Ok resp ∉ replies) -> x_now x + secs 55 <= x_now y).
Proof.
  intros Hhex. pose proof (run_anything o _ _ x (fetch_signing_key_spec endpoint_try cfg _ _ _ Hhex)) as H.
  destruct (run o _ x) as [r y]. cbn [fst snd] in H. destruct H as (Hs & replies & Hl & H). split; [done|].
  exists replies. split; [done|]. destruct H as [->|(t0 & Ht0 & errs & H)]; [simpl; set_solver by lia|].
  assert (forall resp, Ok resp ∉ map (@Err AppSecretKey string) errs) as Herr.
  { intros resp. rewrite list_elem_of_fmap. by intros (? & ? & _). }
  destruct H as [(Hn & resp & -> & ->)|(Hn & -> & _ & Ht)].
  - rewrite length_app, length_map. split; [simpl; lia|]. split.
    + intros resp'. rewrite elem_of_app, list_elem_of_singleton. naive_solver.
    + intros _ Hno. destruct (Hno resp). set_solver.
  - rewrite length_map. split; [lia|]. split; [naive_solver|]. intros _ _. simpl in Ht. unfold secs in *. lia.
Qed.

(** The tapp-server is not up yet at the first attempt and answers the second. *)
Definition toy_tapp : kms_oracle :=
  {| o_ans := fun n c => match c return ans c with
       | Tapp_connect _ => Ok tt
       | Tapp_get_app_secret_key _ _ _ =>
           if (n <=? 1)%nat then Err "not ready"
           else Ok (mkAppSecretKey true EmptyString Toy.sk1 (Toy.addr_of Toy.sk1))
       | c => Toy.no_answer c
       end;
     o_env := fun _ w => w; o_delay := fun _ => 1%N |}.

Definition toy_tapp_config : TappConfig :=
  {| tapp_app_id := "kms"; tapp_ip := default_tapp_ip; tapp_port := default_tapp_port;
     tapp_socket := Some "/run/tapp/tapp.sock"; mock_tee := false |}.

Lemma signing_key_fetch_is_total_witness :
  let r := (run toy_tapp (fetch_signing_key (fun _ => Ok tt) toy_tapp_config) (start Toy.world 0)).1 in
  r = Returned (Ok Toy.node1) /\ sound_key r.
Proof.
  pose proof (signing_key_fetch_is_total toy_tapp (fun _ => Ok tt) toy_tapp_config (start Toy.world 0)
    Toy.hex_length_ok) as H.
  assert ((run toy_tapp (fetch_signing_key (fun _ => Ok tt) toy_tapp_config) (start Toy.world 0)).1 =
          Returned (Ok Toy.node1)) as E by (vm_compute; reflexivity).
  destruct (run toy_tapp _ _) as [r y]. split; [exact E|exact (proj1 H)].
Defined.
