(* ===== verification/Chain.v ===== *)
(** [src/src/chain.rs]: the on-chain nodeList behind a TTL cache with single-flight
    refresh, a stale fallback when the RPC fails, and the rate-limited refresh a missing
    signer forces.  The list this component returns is what every authorisation in the
    program is decided on. *)
From S2P Require Import Base Threshold Prelude Prog State Externals Models.
From Stdlib Require Import ZArith Lia.
From stdpp Require Import base list gmap strings.
Local Open Scope Z_scope.

Definition NODE_LIST_TTL : Z := secs 30.
Definition MISS_REFRESH_MIN : Z := secs 5.

Definition cache_key (rpc_url contract_address app_id : string) : string :=
  rpc_url +:+ "|" +:+ contract_address +:+ "|" +:+ app_id.

Definition refresh_lock : string := "chain::refresh_lock".
Definition miss_lock (key : string) : string := "chain::miss_locks/" +:+ key.

Section Chain.
Context {T : ThresholdScheme} {X : Externals T}.

(** One provider per RPC URL for the process lifetime. *)
Definition provider_for (rpc_url : string) : kms (result unit KmsError) :=
  let! w := get in
  if decide (rpc_url ∈ providers w) then Ret (Ok tt)
  else
    match provider_try rpc_url with
    | Err e => Ret (Err (ChainError ("invalid RPC URL: " +:+ e)))
    | Ok _ => modify (upd_providers (fun p => {[rpc_url]} ∪ p));;; Ret (Ok tt)
    end.

Definition parse_contract (contract_address : string) : result Address KmsError :=
  ok_or (address_parse contract_address)
        (ChainError ("invalid contract address: " +:+ contract_address)).

Definition get_app_owner (rpc_url contract_address app_id : string) :
    kms (result Address KmsError) :=
  let!? _ := provider_for rpc_url in
  let!? contract := Ret (parse_contract contract_address) in
  let! info := ask (Eth_get_app_owner rpc_url contract app_id) in
  Ret (map_err (fun e => ChainError ("getAppInfo failed: " +:+ e)) (info : result Address string)).

Definition fetch_node_list (rpc_url contract_address app_id : string) :
    kms (result (list Address) KmsError) :=
  let!? _ := provider_for rpc_url in
  let!? contract := Ret (parse_contract contract_address) in
  let! l := ask (Eth_get_node_list rpc_url contract app_id) in
  Ret (map_err (fun e => ChainError ("getNodeList failed: " +:+ e))
               (l : result (list Address) string)).

(** The cached list, if it is within the TTL. *)
Definition fresh_list (key : string) : kms (option (list Address)) :=
  let! w := get in
  match node_list_cache w !! key with
  | Some e =>
      let! t := now in
      Ret (if elapsed t (fetched_at e) <? NODE_LIST_TTL then Some (addrs e) else None)
  | None => Ret None
  end.

Definition get_signer_addresses (rpc_url contract_address app_id : string) :
    kms (result (list Address) KmsError) :=
  let key := cache_key rpc_url contract_address app_id in
  let! hit := fresh_list key in
  match hit with
  | Some l => Ret (Ok l)
  | None =>
      with_lock refresh_lock (
        let! hit := fresh_list key in
        match hit with
        | Some l => Ret (Ok l)
        | None =>
            let! r := fetch_node_list rpc_url contract_address app_id in
            match r with
            | Ok l =>
                inc chain_rpc_ok;;;
                let! t := now in
                modify (upd_node_list_cache <[key := mkNodeListEntry l t None]>);;;
                Ret (Ok l)
            | Err e =>
                inc chain_rpc_fail;;;
                let! w := get in
                match node_list_cache w !! key with
                | Some old => inc chain_stale_served;;; Ret (Ok (addrs old))
                | None => Ret (Err e)
                end
            end
        end)
  end.

Definition recent (t since : Z) : bool := elapsed t since <? MISS_REFRESH_MIN.

(** Whether the entry answers a miss without another refresh: somebody else's refresh
    brought the signer in, or a refresh is too recent to repeat. *)
Definition answers_miss (e : NodeListEntry) (signer : Address) : kms bool :=
  if decide (signer ∈ addrs e) then Ret true
  else
    let! t := now in
    if recent t (fetched_at e) then Ret true
    else
      match miss_refresh_at e with
      | Some s => let! t := now in Ret (recent t s)
      | None => Ret false
      end.

(** The forced refresh; [l] is the list the caller already has. *)
Definition refresh_on_miss (rpc_url contract_address app_id : string) (l : list Address) :
    kms (result (list Address) KmsError) :=
  let key := cache_key rpc_url contract_address app_id in
  let! r := fetch_node_list rpc_url contract_address app_id in
  match r with
  | Ok fresh =>
      inc chain_rpc_ok;;;
      let! t1 := now in
      let! t2 := now in
      modify (upd_node_list_cache <[key := mkNodeListEntry fresh t1 (Some t2)]>);;;
      Ret (Ok fresh)
  | Err e =>
      inc chain_rpc_fail;;;
      let! t := now in
      modify (upd_node_list_cache
        (alter (fun e => mkNodeListEntry (addrs e) (fetched_at e) (Some t)) key));;;
      Ret (Ok l)
  end.

Definition get_signer_addresses_for (rpc_url contract_address app_id : string) (signer : Address) :
    kms (result (list Address) KmsError) :=
  let!? l := get_signer_addresses rpc_url contract_address app_id in
  if decide (signer ∈ l) then Ret (Ok l)
  else
    let key := cache_key rpc_url contract_address app_id in
    with_lock (miss_lock key) (
      let! w := get in
      match node_list_cache w !! key with
      | Some e =>
          let! answered := answers_miss e signer in
          if answered : bool then Ret (Ok (addrs e))
          else refresh_on_miss rpc_url contract_address app_id l
      | None => refresh_on_miss rpc_url contract_address app_id l
      end).

End Chain.

(** * Specification and theorems *)

Definition is_chain_call (e : kms_event) : bool :=
  match e with Ev (Eth_get_node_list _ _ _) _ => true | _ => false end.

Lemma cache_key_inj rpc_url contract_address app app' :
  cache_key rpc_url contract_address app = cache_key rpc_url contract_address app' -> app = app'.
Proof.
  unfold cache_key. intros H. do 2 apply (inj (String.app _)) in H.
  by do 2 apply (inj (String.app _)) in H.
Qed.

Section ChainProofs.
Context {T : ThresholdScheme} {X : Externals T}.
Context (rpc_url contract_address : string).

Abbreviation key app := (cache_key rpc_url contract_address app).

(** ** The warm path *)

(** Nothing happens but the passing of time. *)
Lemma fresh_list_quiet app s t log :
  wp eq (fresh_list (key app))
    (fun r s' t' log' => s' = s /\ log' = log /\ t <= t' /\
       forall e, node_list_cache s !! key app = Some e -> elapsed t' (fetched_at e) < NODE_LIST_TTL ->
                 r = Some (addrs e)) s t log.
Proof.
  unfold fresh_list. repeat wp_step.
  destruct (node_list_cache _ !! _) as [e|] eqn:E; repeat wp_step.
  - repeat split; [lia|]. intros e' [= <-] Hlt. rewrite (proj2 (Z.ltb_lt _ _)); [done|].
    unfold elapsed in *. lia.
  - repeat split; [lia|]. intros e' [=].
Qed.

Lemma get_signer_addresses_warm app e s t log :
  node_list_cache s !! key app = Some e ->
  wp eq (get_signer_addresses rpc_url contract_address app)
    (fun r s' t' log' => elapsed t' (fetched_at e) < NODE_LIST_TTL ->
       r = Ok (addrs e) /\ s' = s /\ log' = log /\ t <= t') s t log.
Proof.
  intros He. unfold get_signer_addresses. wp_step.
  eapply wp_mono; [|apply fresh_list_quiet]. intros r s' t' log' (-> & -> & Ht & Hr).
  specialize (Hr e He). destruct r as [l|].
  - wp_step. intros Hlt. assert (Some l = Some (addrs e)) as [= ->]; [|repeat split; lia].
    apply Hr. unfold elapsed in *. lia.
  - eapply wp_mono; [|apply wp_progress; apply _].
    intros r'' s'' t'' log'' [Ht'' _] Hlt. exfalso.
    assert (None = Some (addrs e)); [|done]. apply Hr. unfold elapsed in *. lia.
Qed.

(** A listed signer costs no refresh on a miss. *)
Lemma get_signer_addresses_for_warm app e a s t log :
  node_list_cache s !! key app = Some e -> a ∈ addrs e ->
  wp eq (get_signer_addresses_for rpc_url contract_address app a)
    (fun r s' t' log' => t <= t' /\ (elapsed t' (fetched_at e) < NODE_LIST_TTL ->
       r = Ok (addrs e) /\ s' = s /\ log' = log)) s t log.
Proof.
  intros He Ha. unfold get_signer_addresses_for. wp_step.
  eapply wp_mono; [|apply wp_conj; [by apply get_signer_addresses_warm|apply wp_progress; apply _]].
  intros r s1 t1 log1 [Hw [Ht _]].
  assert (elapsed t1 (fetched_at e) < NODE_LIST_TTL \/ NODE_LIST_TTL <= elapsed t1 (fetched_at e))
    as [Hlt|Hge] by lia.
  - destruct (Hw Hlt) as (-> & -> & -> & _). rewrite decide_True by done. wp_step. split; [lia|done].
  - assert (forall A (p : kms A) (Q : A -> World -> Z -> list kms_event -> Prop),
      (forall r s' t' log', t1 <= t' -> Q r s' t' log') -> wp eq p Q s1 t1 log1) as Hany.
    { intros A p Q HQ. eapply wp_mono; [|apply wp_progress; apply _]. intros ? ? ? ? [? _]. auto. }
    destruct r; apply Hany; intros r' s' t' log' Ht'; (split; [lia|]); intros; exfalso; unfold elapsed in *; lia.
Qed.

End ChainProofs.

(** The authorisation hot path does not touch the chain.  When the cached list is
    still within its TTL at the end of the call, the call returned exactly that list,
    asked nobody anything and changed nothing. *)
Theorem warm_nodelist_makes_no_rpc {T : ThresholdScheme} {X : Externals T} (o : kms_oracle) rpc ca app e x :
  quiet o -> node_list_cache (x_st x) !! cache_key rpc ca app = Some e ->
  let '(r, y) := run o (get_signer_addresses rpc ca app) x in
  elapsed (x_now y) (fetched_at e) < NODE_LIST_TTL ->
  r = Ok (addrs e) /\ x_st y = x_st x /\ x_log y = x_log x.
Proof.
  intros Hq He. destruct (run _ _ _) as [r y] eqn:E. intros Hlt.
  pose proof (run_quiet o _ _ x Hq
    (get_signer_addresses_warm rpc ca app e _ (x_now x) (x_log x) He)) as H.
  rewrite E in H. simpl in H. destruct (H Hlt) as (? & ? & ? & ?). done.
Qed.

Lemma warm_nodelist_makes_no_rpc_witness :
  (run Toy.idle (get_signer_addresses "http://rpc" (contract_address (chain Toy.config)) "kms")
     (start Toy.world 5)).1 = Ok Toy.members.
Proof.
  pose proof (warm_nodelist_makes_no_rpc Toy.idle "http://rpc" (contract_address (chain Toy.config)) "kms"
    Toy.registered (start Toy.world 5) (Toy.alone_quiet _) eq_refl) as H.
  destruct (run _ _ _) as [r y] eqn:E. apply H. change y with (r, y).2. by rewrite <-E.
Defined.

(** ** The stale fallback *)

Section Fallback.
Context {T : ThresholdScheme} {X : Externals T}.

(** Entries of the cache are replaced, never dropped. *)
Definition entries_persist (s s' : World) : Prop :=
  forall k, is_Some (node_list_cache s !! k) -> is_Some (node_list_cache s' !! k).

#[export] Instance entries_persist_preorder : PreOrder entries_persist.
Proof. split; [by intros s k|]. intros s1 s2 s3 H12 H23 k H. auto. Qed.

Lemma persist_is_Some s s' k :
  entries_persist s s' -> is_Some (node_list_cache s !! k) -> is_Some (node_list_cache s' !! k).
Proof. auto. Qed.

Lemma persist_same s s' : node_list_cache s' = node_list_cache s -> entries_persist s s'.
Proof. intros E k. by rewrite E. Qed.

Lemma persist_insert k e s : entries_persist s (upd_node_list_cache <[k := e]> s).
Proof. destruct s. intros k' H. simpl. rewrite lookup_insert_is_Some. destruct (decide (k = k')); auto. Qed.

Lemma persist_alter k f s : entries_persist s (upd_node_list_cache (alter f k) s).
Proof. destruct s. intros k' H. simpl. by rewrite lookup_alter_is_Some. Qed.

Lemma same_cache_metrics u s : node_list_cache (upd_metrics u s) = node_list_cache s.
Proof. by destruct s. Qed.
Lemma cache_upd u s : node_list_cache (upd_node_list_cache u s) = u (node_list_cache s).
Proof. by destruct s. Qed.
Lemma same_cache_providers u s : node_list_cache (upd_providers u s) = node_list_cache s.
Proof. by destruct s. Qed.

Lemma fetch_node_list_guar G rpc ca app :
  (forall u s, G s (upd_providers u s)) -> (forall s, G s s) -> guar G (fetch_node_list rpc ca app).
Proof. intros Hp Hr. unfold fetch_node_list, provider_for. repeat guar_step; auto. Qed.

Lemma get_signer_addresses_persist rpc ca app :
  guar entries_persist (get_signer_addresses rpc ca app).
Proof.
  assert (forall u s, entries_persist s (upd_metrics u s)) by
    (intros; by apply persist_same, same_cache_metrics).
  assert (guar entries_persist (fetch_node_list rpc ca app)).
  { apply fetch_node_list_guar; [|done]. intros. by apply persist_same, same_cache_providers. }
  unfold get_signer_addresses, fresh_list, inc. repeat guar_step; auto using persist_insert; done.
Qed.

Lemma get_signer_addresses_fallback rpc ca app s t log :
  is_Some (node_list_cache s !! cache_key rpc ca app) ->
  wp entries_persist (get_signer_addresses rpc ca app) (fun r _ _ _ => is_ok r = true) s t log.
Proof.
  intros H. set (k := cache_key rpc ca app) in *.
  assert (forall s t log (Q : option (list Address) -> World -> Z -> list kms_event -> Prop),
    is_Some (node_list_cache s !! k) ->
    (forall r s t log, is_Some (node_list_cache s !! k) -> Q r s t log) ->
    wp entries_persist (fresh_list k) Q s t log) as Hf.
  { intros s0 t0 log0 Q H0 HQ. unfold fresh_list. repeat wp_step.
    case_match; repeat wp_step; eauto 6 using persist_is_Some. }
  unfold get_signer_addresses. wp_step. apply Hf; [done|]. clear -Hf k. intros [l|] s t log H.
  { by wp_step. }
  wp_step. wp_step. apply Hf; [by eauto using persist_is_Some|]. clear -k. intros [l|] s t log H.
  { by wp_step. }
  wp_step. eapply wp_mono; [|apply wp_guar; [apply _|]].
  2: { apply fetch_node_list_guar; [|by intros s0 k0].
       intros. by apply persist_same, same_cache_providers. }
  intros [l|e] s' t' log' Hs'; unfold inc; repeat wp_step; [done|].
  case_match eqn:E; [unfold inc; repeat wp_step; done|].
  exfalso. match type of E with node_list_cache ?z !! _ = None =>
    assert (is_Some (node_list_cache z !! k)) as [? Hz]; [|by subst k; rewrite Hz in E] end.
  eauto 8 using persist_is_Some, persist_same, same_cache_metrics.
Qed.

End Fallback.

(** Availability under a failing RPC.  Once a list has been cached for an
    application, authorisation against it never fails again, however the endpoint
    answers and whatever the other tasks do to the cache short of dropping entries;
    and the routine itself never drops one. *)
Theorem stale_nodelist_survives_rpc_failure {T : ThresholdScheme} {X : Externals T}
    (o : kms_oracle) rpc ca app x :
  relies o entries_persist -> is_Some (node_list_cache (x_st x) !! cache_key rpc ca app) ->
  is_ok (run o (get_signer_addresses rpc ca app) x).1 = true /\
  entries_persist (x_st x) (x_st (run o (get_signer_addresses rpc ca app) x).2).
Proof.
  intros Ho H. pose proof (wp_sound entries_persist o _ _ x Ho
    (wp_conj _ _ _ _ _ _ _
      (get_signer_addresses_fallback rpc ca app _ (x_now x) (x_log x) H)
      (wp_guar _ _ _ (x_now x) (x_log x) (get_signer_addresses_persist rpc ca app)))) as [? ?].
  done.
Qed.

(** An hour after the list was fetched, with the endpoint down. *)
Lemma stale_nodelist_survives_rpc_failure_witness :
  is_ok (run Toy.idle (get_signer_addresses "http://rpc" (contract_address (chain Toy.config)) "kms")
           (start Toy.world (secs 3600))).1 = true.
Proof.
  apply (stale_nodelist_survives_rpc_failure Toy.idle); [|by eexists].
  intros n s. by apply persist_same.
Defined.

(** Reading the list touches the list cache and nothing else. *)
Definition outside_chain (s s' : World) : Prop :=
  core s' = core s /\ verdict_cache s' = verdict_cache s.

Section Frame.
Context {T : ThresholdScheme} {X : Externals T}.

Lemma outside_chain_updates :
  (forall s, outside_chain s s) /\ (forall u s, outside_chain s (upd_metrics u s)) /\
  (forall u s, outside_chain s (upd_node_list_cache u s)) /\
  (forall rpc ca app, guar outside_chain (fetch_node_list rpc ca app)).
Proof.
  split; [done|]. split; [by intros u []|]. split; [by intros u []|]. intros rpc ca app.
  apply fetch_node_list_guar; [by intros u []|done].
Qed.

Lemma get_signer_addresses_frame rpc ca app : guar outside_chain (get_signer_addresses rpc ca app).
Proof.
  destruct outside_chain_updates as (Hr & Hm & Hc & Hf).
  unfold get_signer_addresses, fresh_list, inc. repeat (apply Hf || guar_step); auto.
Qed.

Lemma get_signer_addresses_for_frame rpc ca app signer :
  guar outside_chain (get_signer_addresses_for rpc ca app signer).
Proof.
  destruct outside_chain_updates as (Hr & Hm & Hc & Hf).
  unfold get_signer_addresses_for, refresh_on_miss, answers_miss, inc.
  repeat (apply Hf || apply get_signer_addresses_frame || guar_step); auto.
Qed.

End Frame.

(** ** Provenance *)

Section Provenance.
Context {T : ThresholdScheme} {X : Externals T}.
Context (rpc_url contract_address : string) (P : string -> list Address -> Prop).

(** Every list the registry contract answers for an application satisfies [P] of it. *)
Definition registry_says (c : Call) : ans c -> Prop :=
  match c with
  | Eth_get_node_list url contract app => fun a =>
      url = rpc_url -> address_parse contract_address = Some contract ->
      forall l, a = Ok l -> P app l
  | _ => fun _ => True
  end.

(** So does every cached list. *)
Definition vouched (s : World) : Prop := forall app e,
  node_list_cache s !! cache_key rpc_url contract_address app = Some e -> P app (addrs e).

Lemma vouched_metrics u s : vouched s -> vouched (upd_metrics u s).
Proof. unfold vouched. by rewrite same_cache_metrics. Qed.
Lemma vouched_providers u s : vouched s -> vouched (upd_providers u s).
Proof. unfold vouched. by rewrite same_cache_providers. Qed.
Lemma vouched_insert app e s :
  P app (addrs e) -> vouched s -> vouched (upd_node_list_cache
    <[cache_key rpc_url contract_address app := e]> s).
Proof.
  intros HP Hs app' e'. rewrite cache_upd.
  intros [[<-%cache_key_inj <-]|[_ He]]%lookup_insert_Some; [done|by apply Hs].
Qed.
Lemma vouched_alter app f s :
  (forall e, addrs (f e) = addrs e) -> vouched s ->
  vouched (upd_node_list_cache (alter f (cache_key rpc_url contract_address app)) s).
Proof.
  intros Hf Hv app' e'. rewrite cache_upd.
  intros [[<-%cache_key_inj (e & He & ->)]|[_ He]]%lookup_alter_Some; [rewrite Hf|]; by apply Hv.
Qed.

#[local] Hint Resolve vouched_metrics vouched_providers vouched_insert vouched_alter : kms.

Abbreviation safe p Q := (safe vouched registry_says p Q).
Abbreviation ok_P app := (fun r : result (list Address) KmsError => forall l, r = Ok l -> P app l).

Lemma fetch_node_list_vouched app :
  safe (fetch_node_list rpc_url contract_address app) (ok_P app).
Proof.
  unfold fetch_node_list, provider_for, parse_contract. repeat safe_step; try done; auto with kms.
  all: intros l' Hl; match goal with a : ans _ |- _ => destruct a end.
  all: destruct (address_parse contract_address) eqn:E; naive_solver.
Qed.

Lemma get_signer_addresses_vouched app :
  safe (get_signer_addresses rpc_url contract_address app) (ok_P app).
Proof.
  assert (safe (fresh_list (cache_key rpc_url contract_address app))
    (fun r => forall l, r = Some l -> P app l)) as Hf.
  { unfold fresh_list. repeat safe_step; [|done]. intros l. case_match; naive_solver. }
  unfold get_signer_addresses, inc. safe_step. eapply safe_mono; [exact Hf|].
  intros [l|] Hl; [naive_solver|]. do 2 safe_step. eapply safe_mono; [exact Hf|].
  intros [l|] Hl'; [naive_solver|]. safe_step. eapply safe_mono; [apply fetch_node_list_vouched|].
  intros [l|e] Hr; repeat safe_step; naive_solver eauto with kms.
Qed.

Lemma get_signer_addresses_for_vouched app signer :
  safe (get_signer_addresses_for rpc_url contract_address app signer) (ok_P app).
Proof.
  assert (forall l, P app l -> safe (refresh_on_miss rpc_url contract_address app l) (ok_P app)) as Hm.
  { intros l HP. unfold refresh_on_miss, inc. safe_step.
    eapply safe_mono; [apply fetch_node_list_vouched|]. intros [fresh|e] Hr; repeat safe_step.
    all: naive_solver eauto with kms. }
  unfold get_signer_addresses_for, answers_miss. safe_step.
  eapply safe_mono; [apply get_signer_addresses_vouched|]. intros [l|e] Hl; [|done].
  repeat safe_step; naive_solver eauto with kms.
Qed.

End Provenance.

(** C18: An authorisation is decided on a list the registry contract answered for that
    application.  If every list the registry contract answers during the call, and every
    one cached before it, satisfies [P] of the application it is for (say, is its
    registered set at some block), then so does the list the call returns, however the
    refreshes of other tasks race, and also when a stale list is served; and the cache
    still holds only such lists. *)
Theorem nodelist_provenance {T : ThresholdScheme} {X : Externals T} (o : kms_oracle)
    rpc ca app signer P x :
  relies o (fun s s' => vouched rpc ca P s -> vouched rpc ca P s') ->
  vouched rpc ca P (x_st x) ->
  let '(r, y) := run o (get_signer_addresses_for rpc ca app signer) x in
  Forall (ev_ok (registry_says rpc ca P)) (x_log y) ->
  (forall l, r = Ok l -> P app l) /\ vouched rpc ca P (x_st y).
Proof.
  intros Ho Hv. pose proof (safe_sound _ _ o _ _ x Ho Hv
    (get_signer_addresses_for_vouched rpc ca P app signer)) as H.
  by destruct (run _ _ _).
Qed.

Lemma toy_vouched : vouched "http://rpc" (contract_address (chain Toy.config))
  (fun app l => app = "kms" /\ l = Toy.members) Toy.world.
Proof.
  intros app e. change (node_list_cache Toy.world) with
    ({[cache_key "http://rpc" (contract_address (chain Toy.config)) "kms" := Toy.registered]} : gmap string _).
  intros [<-%cache_key_inj <-]%lookup_singleton_Some. done.
Qed.

(** A signer the list does not have, with the endpoint down: the cached list is served. *)
Lemma nodelist_provenance_witness :
  exists l, (run Toy.idle (get_signer_addresses_for "http://rpc" (contract_address (chain Toy.config)) "kms" [])
               (start Toy.world (secs 20))).1 = Ok l /\ l = Toy.members.
Proof.
  pose proof (nodelist_provenance Toy.idle "http://rpc" (contract_address (chain Toy.config)) "kms" []
    (fun app l => app = "kms" /\ l = Toy.members) (start Toy.world (secs 20))
    (fun _ _ H => H) toy_vouched) as H.
  pose proof (start_log_ok (registry_says "http://rpc" (contract_address (chain Toy.config))
    (fun app l => app = "kms" /\ l = Toy.members)) Toy.idle
    (get_signer_addresses_for "http://rpc" (contract_address (chain Toy.config)) "kms" []) Toy.world (secs 20)
    ltac:(by intros n [])) as Hl.
  assert (is_ok (run Toy.idle (get_signer_addresses_for "http://rpc" (contract_address (chain Toy.config)) "kms" [])
    (start Toy.world (secs 20))).1 = true) as Hok by (vm_compute; reflexivity).
  destruct (run _ _ _) as [[l|e] y]; [|discriminate Hok]. exists l. split; [done|].
  destruct (H Hl) as [HP _]. apply (HP l eq_refl).
Defined.

(** ** The refresh a missing signer forces *)

Section Miss.
Context {T : ThresholdScheme} {X : Externals T}.
Context (rpc_url contract_address app : string).
Abbreviation key := (cache_key rpc_url contract_address app).

(** A registry query is at most one RPC and leaves the cache alone. *)
Lemma fetch_node_list_one_rpc s t log :
  wp eq (fetch_node_list rpc_url contract_address app)
    (fun _ s' t' log' => node_list_cache s' = node_list_cache s /\ t <= t' /\
       exists evs, log' = log ++ evs /\ (length evs <= 1)%nat) s t log.
Proof.
  unfold fetch_node_list, provider_for. do 3 wp_step.
  assert (forall z, log = log ++ [] /\ (length ([] : list kms_event) <= z)%nat) as Hnil.
  { intros. rewrite app_nil_r. simpl. split; [done|lia]. }
  case_match; [|case_match]; repeat wp_step.
  all: try (destruct (parse_contract _) eqn:?; repeat wp_step).
  all: (split; [by rewrite ?same_cache_providers|]); (split; [lia|]); eauto.
Qed.

(** What a miss on the warm entry [e] comes to: nothing, or one query and a stamp. *)
Definition miss_outcome (e : NodeListEntry) (s : World) (t : Z) (log : list kms_event)
    (r : result (list Address) KmsError) (s' : World) (log' : list kms_event) : Prop :=
  exists e', node_list_cache s' !! key = Some e' /\ r = Ok (addrs e') /\
    ((s' = s /\ log' = log /\ e' = e) \/
     (exists m evs, miss_refresh_at e' = Some m /\ t <= m /\
                    log' = log ++ evs /\ (length evs <= 1)%nat)).

Lemma refresh_on_miss_outcome e s t log :
  node_list_cache s !! key = Some e ->
  wp eq (refresh_on_miss rpc_url contract_address app (addrs e))
    (fun r s' t' log' => miss_outcome e s t log r s' log' /\ t <= t') s t log.
Proof.
  intros He. unfold refresh_on_miss. wp_step.
  eapply wp_mono; [|apply fetch_node_list_one_rpc].
  intros [l|x] s1 t1 log1 (Hc & Ht & evs & -> & Hlen); unfold inc; repeat wp_step.
  - split; [|lia]. eexists. rewrite cache_upd, lookup_insert_eq.
    split; [done|]. split; [done|]. right. do 2 eexists. simpl. eauto with lia.
  - split; [|lia]. eexists. rewrite cache_upd, same_cache_metrics, Hc, lookup_alter_eq, He.
    split; [done|]. split; [done|]. right. do 2 eexists. simpl. eauto with lia.
Qed.

Definition recently_refreshed (t : Z) (e : NodeListEntry) : bool :=
  recent t (fetched_at e) ||
  match miss_refresh_at e with Some m => recent t m | None => false end.

Lemma recent_anti t t' m : t <= t' -> recent t' m = true -> recent t m = true.
Proof. unfold recent, elapsed. rewrite !Z.ltb_lt. lia. Qed.

Lemma answers_miss_outcome e signer s t log :
  signer ∉ addrs e ->
  wp eq (answers_miss e signer)
    (fun b s' t' log' => s' = s /\ log' = log /\ t <= t' /\
       (recently_refreshed t' e = true -> b = true)) s t log.
Proof.
  intros Hs. unfold answers_miss. rewrite decide_False by done. repeat wp_step.
  destruct (recent t' _) eqn:E1; [repeat wp_step; repeat split; lia|].
  destruct (miss_refresh_at e) as [m|] eqn:E2; repeat wp_step; (repeat split; [lia|]).
  all: unfold recently_refreshed; rewrite E2; intros [H|H]%orb_true_iff.
  all: repeat match goal with
       | H : recent ?b ?f = true, E : recent ?a ?f = false |- _ =>
           by rewrite (recent_anti a b) in E by (lia || done)
       | H : recent ?b ?f = true |- recent ?a ?f = true => apply (recent_anti a b); [lia|done]
       end.
  all: done.
Qed.

Lemma get_signer_addresses_for_miss e signer s t log :
  node_list_cache s !! key = Some e -> signer ∉ addrs e ->
  wp eq (get_signer_addresses_for rpc_url contract_address app signer)
    (fun r s' t' log' => elapsed t' (fetched_at e) < NODE_LIST_TTL ->
       miss_outcome e s t log r s' log' /\
       (recently_refreshed t' e = true -> s' = s /\ log' = log)) s t log.
Proof.
  intros He Hs. unfold get_signer_addresses_for. wp_step.
  eapply wp_mono; [|apply wp_conj; [by apply get_signer_addresses_warm|apply wp_progress; apply _]].
  intros r s1 t1 log1 [Hw [Ht _]].
  assert (elapsed t1 (fetched_at e) < NODE_LIST_TTL \/ NODE_LIST_TTL <= elapsed t1 (fetched_at e))
    as [Hlt|Hge] by lia.
  2: { destruct r; (eapply wp_mono; [|apply wp_progress; apply _]);
         intros ??? ? [? _] ?; unfold elapsed in *; lia. }
  destruct (Hw Hlt) as (-> & -> & -> & _). rewrite decide_False by done.
  do 3 wp_step. rewrite He. wp_step.
  eapply wp_mono; [|by apply answers_miss_outcome]. intros b s2 t2 log2 (-> & -> & Ht2 & Hb).
  destruct b.
  - repeat wp_step. intros ? ? <- ? _. split; [|done]. exists e. split; [done|]. by split; [|left].
  - eapply wp_mono; [|by apply refresh_on_miss_outcome].
    intros r2 s3 t3 log3 ((e' & He1 & He2 & He3) & Ht3) ? ? <- ? Hlt'. split.
    + exists e'. split; [done|]. split; [done|].
      destruct He3 as [?|(m & evs & ? & ? & ? & ?)]; [by left|right].
      exists m, evs. eauto with lia.
    + intros Hrec. exfalso. assert (false = true); [|done]. apply Hb.
      unfold recently_refreshed in *. apply orb_true_iff in Hrec as [Hr|Hr]; apply orb_true_iff.
      * left. eapply recent_anti; [|exact Hr]. lia.
      * right. destruct (miss_refresh_at e); [|done]. eapply recent_anti; [|exact Hr]. lia.
Qed.

End Miss.

(** An unregistered signer costs next to nothing.  Asked for a signer the warm list
    does not have, the call makes at most one RPC, returns the list it leaves cached, and
    either changed nothing or stamped the entry with the time of the attempt; while the
    entry was fetched or stamped less than [MISS_REFRESH_MIN] ago it makes no RPC at all. *)
Theorem miss_refresh_is_rate_limited {T : ThresholdScheme} {X : Externals T} (o : kms_oracle)
    rpc ca app signer e x :
  quiet o -> node_list_cache (x_st x) !! cache_key rpc ca app = Some e -> signer ∉ addrs e ->
  let '(r, y) := run o (get_signer_addresses_for rpc ca app signer) x in
  elapsed (x_now y) (fetched_at e) < NODE_LIST_TTL ->
  miss_outcome rpc ca app e (x_st x) (x_now x) (x_log x) r (x_st y) (x_log y) /\
  (recently_refreshed (x_now y) e = true -> x_st y = x_st x /\ x_log y = x_log x).
Proof.
  intros Hq He Hs. pose proof (run_quiet o _ _ x Hq (get_signer_addresses_for_miss rpc ca app e
    signer _ (x_now x) (x_log x) He Hs)) as H.
  by destruct (run _ _ _).
Qed.

(** Two ticks after the list was fetched, a stranger costs no question. *)
Lemma miss_refresh_is_rate_limited_witness :
  x_log (run Toy.idle (get_signer_addresses_for "http://rpc" (contract_address (chain Toy.config)) "kms" [])
           (start Toy.world 2)).2 = [].
Proof.
  pose proof (miss_refresh_is_rate_limited Toy.idle "http://rpc" (contract_address (chain Toy.config)) "kms" []
    Toy.registered (start Toy.world 2) (Toy.alone_quiet _) eq_refl
    ltac:(intros Hin; apply bool_decide_unpack in Hin || (vm_compute in Hin; set_solver))) as H.
  assert (elapsed (x_now (run Toy.idle (get_signer_addresses_for "http://rpc"
    (contract_address (chain Toy.config)) "kms" []) (start Toy.world 2)).2) 0 < MISS_REFRESH_MIN) as Hlt by (by vm_compute).
  destruct (run _ _ _) as [r y]. simpl in *. destruct H as [_ H].
  - unfold NODE_LIST_TTL, MISS_REFRESH_MIN, secs in *. lia.
  - apply H. unfold recently_refreshed, recent. by apply orb_true_iff; left; apply Z.ltb_lt.
Defined.
