(* ===== verification/Verifier.v ===== *)
(** [src/src/verifier.rs]: the attested-admission gate.  [Verifier_new] validates the
    configuration at boot, [verify_server_cert] is the pinned-key check of the TLS client,
    and [Verifier_require_verified] decides on a signer from the verdict cache and the
    scan service, failing closed for signers it never vouched for. *)
From S2P Require Import Base Threshold Prelude Prog State Externals Models.
From Stdlib Require Import Ascii ZArith Lia.
From stdpp Require Import base list gmap strings fin_maps.
Local Open Scope Z_scope.

Definition POSITIVE_REFRESH : Z := secs 3600.
Definition NEGATIVE_TTL : Z := secs 30.
Definition SCAN_LAG_WAIT : Z := secs 12.
Definition SCAN_LAG_POLL : Z := secs 3.
Definition SCAN_LAG_DAMP : Z := secs 3.
Definition MAX_VERDICT_STALENESS : Z := secs (24 * 3600).
Definition NOT_REGISTERED : string := "not registered on-chain per verifier".

(** * Boot-time validation and the pinned key *)

(** The ways [Verifier::new] refuses a configuration; each carries what its message
    quotes. *)
Inductive NewError : Type :=
| UrlScheme (url : string)
| PlainHttp (rest : string)
| PinNotHex (k : string)
| PinLength (k : string) (len : nat)
| NoPins
| ClientBuild.

(** The HTTP client the verifier asks with. *)
Inductive Client : Type :=
| PlaintextClient
| PinnedClient (pinned : list bytes).

(** [url.strip_prefix(p)]. *)
Fixpoint strip_prefix (p s : string) : option string :=
  match p, s with
  | EmptyString, _ => Some s
  | String a p, String b s => if Ascii.eqb a b then strip_prefix p s else None
  | _, _ => None
  end.

(** [url.trim_end_matches('/')]. *)
Fixpoint trim_end_slash (s : string) : string :=
  match s with
  | EmptyString => EmptyString
  | String c s' =>
      match trim_end_slash s' with
      | EmptyString => if Ascii.eqb c "/"%char then EmptyString else String c EmptyString
      | r => String c r
      end
  end.

Section Verifier.
Context {T : ThresholdScheme} {X : Externals T}.

(** One configured pin: the 32-byte sha256 of the SubjectPublicKeyInfo. *)
Definition parse_pin (k : string) : result bytes NewError :=
  match hex_decode (trim_0x k) with
  | None => Err (PinNotHex k)
  | Some b => if (length b =? 32)%nat then Ok b else Err (PinLength k (length b))
  end.

(** [collect::<Result<_>>]: the first error wins. *)
Fixpoint parse_pins (ks : list string) : result (list bytes) NewError :=
  match ks with
  | [] => Ok []
  | k :: ks => let? b := parse_pin k in let? bs := parse_pins ks in Ok (b :: bs)
  end.

(** [builds] says whether the [reqwest]/[rustls] builders succeed. *)
Definition Verifier_new (builds : bool) (cfg : VerifierConfig) : result Client NewError :=
  match strip_prefix "http://" (verifier_url cfg), strip_prefix "https://" (verifier_url cfg) with
  | None, None => Err (UrlScheme (verifier_url cfg))
  | Some rest, _ =>
      if negb (insecure_http cfg) then Err (PlainHttp rest)
      else if builds then Ok PlaintextClient else Err ClientBuild
  | None, Some _ =>
      let? pinned := parse_pins (pubkeys cfg) in
      match pinned with
      | [] => Err NoPins
      | _ => if builds then Ok (PinnedClient pinned) else Err ClientBuild
      end
  end.

(** [init]: fails the boot on a malformed section, and when called twice. *)
Definition init (builds : bool) (config : Config) : kms (result unit (NewError + string)) :=
  let v := match verifier config with
           | None => Ok None
           | Some cfg => match Verifier_new builds cfg with Ok _ => Ok (Some cfg) | Err e => Err e end
           end in
  match v with
  | Err e => Ret (Err (inl e))
  | Ok v =>
      store_metric verifier_enabled (match v with Some _ => 1 | None => 0 end);;;
      Atom (fun w => match the_verifier w with None => set_the_verifier (Some v) w | Some _ => w end)
        (fun w => match the_verifier w with
                  | None => Ret (Ok tt)
                  | Some _ => Ret (Err (inr "verifier::init called twice"))
                  end)
  end.

(** * Asking scan *)

Inductive Answer : Type :=
| Verdict (verified : bool) (reason : string)
| Unknown.

Definition Key : Type := string * Address.

(** How a reply reads: a 2xx verdict, a 404, anything else. *)
Definition answer_of_reply (reply : ScanReply) : result Answer string :=
  match reply with
  | ScanTransportError m => Err ("verify request: " +:+ m)
  | ScanHttp status body =>
      if (200 <=? status) && (status <=? 299) then
        match body with
        | Some (v, reason) => Ok (Verdict v reason)
        | None => Err "verify response"
        end
      else if status =? 404 then Ok Unknown
      else Err "verifier returned an error status"
  end.

Definition fetch (cfg : VerifierConfig) (app_id : string) (signer : Address) :
    kms (result Answer string) :=
  let! reply := ask (Scan_verify (trim_end_slash (verifier_url cfg) +:+ "/verify")
                                 (api_key cfg) app_id signer) in
  Ret (answer_of_reply reply).

(** * The cache *)

Definition fresh_positive (t : Z) (e : CacheEntry) : bool :=
  verified e && (elapsed t (at_ e) <? POSITIVE_REFRESH) &&
  (elapsed t (confirmed_at e) <? MAX_VERDICT_STALENESS).

Definition damped_refusal (t : Z) (e : CacheEntry) : bool :=
  negb (verified e) && (elapsed t (at_ e) <? damp e).

(** A positive that may still be served while scan cannot answer. *)
Definition stale_positive (t : Z) (e : CacheEntry) : bool :=
  verified e && (elapsed t (confirmed_at e) <? MAX_VERDICT_STALENESS).

Definition cached_decision (key : Key) : kms (option (result unit string)) :=
  let! w := get in
  match verdict_cache w !! key with
  | None => Ret None
  | Some e =>
      let! t := now in
      if fresh_positive t e then inc verifier_allowed;;; Ret (Some (Ok tt))
      else if damped_refusal t e then inc verifier_denied;;; Ret (Some (Err (refusal e)))
      else Ret None
  end.

Definition has_stale_positive (key : Key) : kms bool :=
  let! w := get in
  match verdict_cache w !! key with
  | None => Ret false
  | Some e => let! t := now in Ret (stale_positive t e)
  end.

(** [cache.retain(...)] once there are more than 4096 entries. *)
Definition prune (t : Z) (cache : gmap Key CacheEntry) : gmap Key CacheEntry :=
  if (4096 <? size cache)%nat
  then filter (fun kv => elapsed t (at_ kv.2) < MAX_VERDICT_STALENESS) cache else cache.

Definition refused (at_now : Z) (refusal : string) (damp : Z) : CacheEntry :=
  mkCacheEntry false refusal damp at_now at_now.

(** The decision under the write guard: [at_now] is the instant taken before the guard,
    [t] the clock inside it.  Returns the new cache, the counter to bump and the result. *)
Definition settle (at_now t : Z) (key : Key) (outcome : result Answer string)
    (cache : gmap Key CacheEntry) : gmap Key CacheEntry * Metric * result unit string :=
  let cache := prune t cache in
  let stale := match cache !! key with Some e => stale_positive t e | None => false end in
  let restamp := alter (fun e => mkCacheEntry (verified e) (refusal e) (damp e) at_now
                                              (confirmed_at e)) key in
  match outcome with
  | Ok (Verdict true _) =>
      (<[key := mkCacheEntry true "" 0 at_now at_now]> cache, verifier_allowed, Ok tt)
  | Ok (Verdict false reason) =>
      (<[key := refused at_now ("attestation not verified (recently checked): " +:+ reason)
                        NEGATIVE_TTL]> cache,
       verifier_denied, Err ("attestation not verified: " +:+ reason))
  | Ok Unknown =>
      if stale then (restamp cache, verifier_stale_served, Ok tt)
      else
        let refusal := "attestation not verified: " +:+ NOT_REGISTERED in
        (<[key := refused at_now refusal SCAN_LAG_DAMP]> cache, verifier_scan_behind, Err refusal)
  | Err _ =>
      if stale then (restamp cache, verifier_stale_served, Ok tt)
      else
        (<[key := refused at_now "attestation not verified (recently checked): verifier unreachable"
                          NEGATIVE_TTL]> cache,
         verifier_unavailable_refused,
         Err "attestation verifier unreachable and this signer has no fresh-enough verdict")
  end.

Definition undecided (outcome : result Answer string) : bool :=
  match outcome with Ok Unknown | Err _ => true | _ => false end.

(** [while matches!(outcome, ...) && Instant::now() + SCAN_LAG_POLL <= deadline]. *)
Definition lag_body (cfg : VerifierConfig) (app_id : string) (signer : Address) (deadline : Z)
    (outcome : result Answer string) : kms (result Answer string + result Answer string) :=
  if undecided outcome then
    let! t := now in
    if t + SCAN_LAG_POLL <=? deadline then
      sleep SCAN_LAG_POLL;;;
      let! outcome := fetch cfg app_id signer in Ret (inl outcome)
    else Ret (inr outcome)
  else Ret (inr outcome).

(** Enough iterations for any wait: each one sleeps [SCAN_LAG_POLL]. *)
Definition lag_fuel (scan_lag_wait : Z) : nat := S (Z.to_nat (scan_lag_wait / SCAN_LAG_POLL)).

Definition from_either {A} (r : A + A) : A := match r with inl a | inr a => a end.

(** Only a signer with nothing to fall back on waits for scan. *)
Definition wait_for_scan (cfg : VerifierConfig) (app_id : string) (signer : Address)
    (scan_lag_wait : Z) (outcome : result Answer string) : kms (result Answer string) :=
  let! stale := has_stale_positive (app_id, signer) in
  if stale : bool then Ret outcome
  else
    let! t := now in
    let! r := Prog.iter (lag_fuel scan_lag_wait)
                        (lag_body cfg app_id signer (t + scan_lag_wait)) outcome in
    Ret (from_either r).

Definition fetch_lock (key : Key) : string := "verifier::fetch_locks/" +:+ key.1 +:+ "/" +:+ hex_encode key.2.

(** [Verifier::require_verified].  The lock map's clean-up is not state of the model: a
    mutex is identified with the key it guards. *)
Definition Verifier_require_verified (cfg : VerifierConfig) (app_id : string) (signer : Address)
    (scan_lag_wait : Z) : kms (result unit string) :=
  let key := (app_id, signer) in
  let! d := cached_decision key in
  match d with
  | Some d => Ret d
  | None =>
      with_lock (fetch_lock key) (
        let! d := cached_decision key in
        match d with
        | Some d => Ret d
        | None =>
            let! outcome := fetch cfg app_id signer in
            let! outcome := wait_for_scan cfg app_id signer scan_lag_wait outcome in
            let! at_now := now in
            let! t := now in
            let! mr := Atom (upd_verdict_cache (fun c => (settle at_now t key outcome c).1.1))
                            (fun w => let '(_, m, r) := settle at_now t key outcome (verdict_cache w) in
                                      Ret (m, r)) in
            inc mr.1;;; Ret mr.2
        end)
  end.

(** The process-wide gate. *)
Definition require_verified (app_id : string) (signer : Address) (scan_lag_wait : Z) :
    kms (result unit string) :=
  let! w := get in
  match the_verifier w with
  | Some (Some cfg) => Verifier_require_verified cfg app_id signer scan_lag_wait
  | _ => Ret (Ok tt)
  end.

End Verifier.

(** ** What a configuration that is accepted says *)

(** Either plain HTTP was asked for in so many words, or the connection is pinned. *)
Definition pinned_or_insecure {T : ThresholdScheme} {X : Externals T} (cfg : VerifierConfig) : Prop :=
  (is_Some (strip_prefix "http://" (verifier_url cfg)) /\ insecure_http cfg = true) \/
  (is_Some (strip_prefix "https://" (verifier_url cfg)) /\
   exists pins, parse_pins (pubkeys cfg) = Ok pins /\ pins <> [] /\ Forall (fun p => length p = 32%nat) pins).

Lemma parse_pins_lengths {T : ThresholdScheme} {X : Externals T} ks pins :
  parse_pins ks = Ok pins -> Forall (fun p => length p = 32%nat) pins.
Proof.
  revert pins. induction ks as [|k ks IH]; intros pins; simpl; [by intros [= <-]|].
  unfold parse_pin. destruct (hex_decode _) as [b|]; [|done]. destruct (length b =? 32)%nat eqn:E; [|done]. simpl.
  destruct (parse_pins ks) as [bs|]; [|done]. intros [= <-]. constructor; [by apply Nat.eqb_eq|by apply IH].
Qed.

Lemma Verifier_new_ok {T : ThresholdScheme} {X : Externals T} builds cfg c :
  Verifier_new builds cfg = Ok c -> pinned_or_insecure cfg.
Proof.
  unfold Verifier_new, pinned_or_insecure. destruct (strip_prefix "http://" _) as [rest|].
  - destruct (insecure_http cfg); simpl; [|done]. intros _. left. by split; [eexists|].
  - destruct (strip_prefix "https://" _) as [rest|]; [|done].
    destruct (parse_pins (pubkeys cfg)) as [pins|e] eqn:E; simpl; [|done]. intros H. right.
    split; [by eexists|]. exists pins. split; [done|]. split; [by destruct pins|by eapply parse_pins_lengths].
Qed.

(** [PinnedKeyVerifier::verify_server_cert], over the X.509 parser (the DER of the
    certificate's SubjectPublicKeyInfo) and SHA-256. *)
Definition verify_server_cert (spki_of : bytes -> option bytes) (sha256 : bytes -> bytes)
    (pinned : list bytes) (cert : bytes) : result unit string :=
  match spki_of cert with
  | None => Err "verifier cert unparseable"
  | Some spki =>
      if bool_decide (sha256 spki ∈ pinned) then Ok tt
      else Err "verifier served a key that does not match any pinned attested key"
  end.

(** * Lemmas on the decision *)

Definition says_yes (o : result Answer string) : Prop := exists reason, o = Ok (Verdict true reason).

Lemma prune_Some t c k e : prune t c !! k = Some e -> c !! k = Some e.
Proof. unfold prune. case_match; [|done]. by intros [? _]%map_lookup_filter_Some. Qed.

(** A positive entry comes from a yes, or was there with the same confirmation. *)
Lemma settle_positive a t k o c k' e' :
  (settle a t k o c).1.1 !! k' = Some e' -> verified e' = true ->
  (k' = k /\ says_yes o /\ confirmed_at e' = a) \/
  (exists e, c !! k' = Some e /\ verified e = true /\ confirmed_at e = confirmed_at e').
Proof.
  unfold settle, says_yes. intros H Hv.
  assert (forall e0, verified e0 = false -> <[k:=e0]> (prune t c) !! k' = Some e' ->
    exists e, c !! k' = Some e /\ verified e = true /\ confirmed_at e = confirmed_at e') as Hins.
  { intros e0 H0 [[<- <-]|[? ?%prune_Some]]%lookup_insert_Some; [congruence|eauto]. }
  assert (alter (fun e => mkCacheEntry (verified e) (refusal e) (damp e) a (confirmed_at e)) k
            (prune t c) !! k' = Some e' ->
    exists e, c !! k' = Some e /\ verified e = true /\ confirmed_at e = confirmed_at e') as Halt.
  { rewrite lookup_alter_Some. intros [(-> & e & He%prune_Some & ->)|[_ He%prune_Some]]; eauto. }
  destruct o as [[[] reason|]|m]; simpl in H.
  { apply lookup_insert_Some in H as [[<- <-]|[_ ?%prune_Some]]; simpl; eauto 6. }
  all: right; repeat case_match; simpl in H; eauto.
  all: eapply Hins; [|exact H]; done.
Qed.

Lemma settle_ok a t k o c :
  (settle a t k o c).2 = Ok tt ->
  says_yes o \/ (undecided o = true /\ exists e, c !! k = Some e /\ stale_positive t e = true).
Proof.
  unfold settle, says_yes, undecided. destruct o as [[[] reason|]|m]; simpl; [eauto|done|..].
  all: destruct (prune t c !! k) as [e|] eqn:E; [|done]; apply prune_Some in E.
  all: destruct (stale_positive t e) eqn:Es; [eauto 6|done].
Qed.

Lemma settle_no a t k reason c :
  (settle a t k (Ok (Verdict false reason)) c).2 = Err ("attestation not verified: " +:+ reason) /\
  exists e, (settle a t k (Ok (Verdict false reason)) c).1.1 !! k = Some e /\ verified e = false /\
            damp e = NEGATIVE_TTL /\ at_ e = a.
Proof. simpl. split; [done|]. eexists. by rewrite lookup_insert_eq. Qed.

Lemma settle_stale a t k o c e :
  c !! k = Some e -> stale_positive t e = true -> confirmed_at e <= at_ e -> undecided o = true ->
  (settle a t k o c).2 = Ok tt.
Proof.
  intros He Hs Hle Hu. assert (prune t c !! k = Some e) as Hp.
  { unfold prune. case_match; [|done]. apply map_lookup_filter_Some. split; [done|]. simpl.
    unfold stale_positive, elapsed in *. apply andb_true_iff in Hs as [_ Hs]. rewrite Z.ltb_lt in Hs. lia. }
  unfold settle. rewrite Hp, Hs. by destruct o as [[[]|]|].
Qed.

Section Theorems.
Context {T : ThresholdScheme} {X : Externals T}.

Section Backed.
Context (P : Key -> Prop).

(** Every positive verdict in the cache is one scan gave. *)
Definition verdicts_backed (w : World) : Prop :=
  forall k e, verdict_cache w !! k = Some e -> verified e = true -> P k.

(** [P] holds of what scan vouches for. *)
Definition scan_vouches (c : Call) : ans c -> Prop :=
  match c with
  | Scan_verify _ _ app_id signer => fun a =>
      forall status reason, 200 <= status <= 299 -> a = ScanHttp status (Some (true, reason)) ->
      P (app_id, signer)
  | _ => fun _ => True
  end.

Abbreviation safe p Q := (safe verdicts_backed scan_vouches p Q).

Lemma backed_metrics u w : verdicts_backed w -> verdicts_backed (upd_metrics u w).
Proof. by destruct w. Qed.
#[local] Hint Resolve backed_metrics : kms.

Lemma fetch_backed cfg app_id signer :
  safe (fetch cfg app_id signer) (fun o => says_yes o -> P (app_id, signer)).
Proof.
  unfold fetch. repeat safe_step. intros [reason Hr]. unfold answer_of_reply in Hr.
  match goal with a : ans _ |- _ => destruct a as [m|status [[v r]|]] end; [done|..];
    destruct ((200 <=? status) && (status <=? 299)) eqn:E.
  - injection Hr as -> ->. apply andb_true_iff in E as [E1 E2]. apply Z.leb_le in E1, E2. eauto.
  - by case_match.
  - done.
  - by case_match.
Qed.

Lemma cached_decision_backed key :
  safe (cached_decision key) (fun d => d = Some (Ok tt) -> P key).
Proof.
  unfold cached_decision, inc. repeat safe_step; try done; auto with kms.
  intros _. unfold fresh_positive in *. repeat match goal with
    H : (_ && _)%bool = true |- _ => apply andb_true_iff in H as [? ?] end. eauto.
Qed.

Lemma wait_for_scan_backed cfg app_id signer wait o :
  (says_yes o -> P (app_id, signer)) ->
  safe (wait_for_scan cfg app_id signer wait o) (fun o => says_yes o -> P (app_id, signer)).
Proof.
  intros Ho. unfold wait_for_scan. safe_step.
  eapply (safe_mono _ _ _ (fun _ => True)); [unfold has_stale_positive; by repeat safe_step|].
  intros stale _. destruct stale; [by safe_step|]. do 4 safe_step.
  apply (safe_iter _ _ _ _ _ (fun o => says_yes o -> P (app_id, signer))); [done| |].
  - intros o' Ho'. unfold lag_body. repeat safe_step; try done.
    eapply safe_mono; [apply fetch_backed|]. intros o'' Ho''. by safe_step.
  - intros o' Ho'. by safe_step.
Qed.

Lemma verifier_backed cfg app_id signer wait :
  safe (Verifier_require_verified cfg app_id signer wait) (fun r => r = Ok tt -> P (app_id, signer)).
Proof.
  unfold Verifier_require_verified. safe_step.
  eapply safe_mono; [apply cached_decision_backed|]. intros [d|] Hd; [safe_step; naive_solver|].
  safe_step. safe_step. eapply safe_mono; [apply cached_decision_backed|]. clear Hd.
  intros [d|] Hd; [safe_step; naive_solver|]. clear Hd.
  safe_step. eapply safe_mono; [apply fetch_backed|]. intros o Ho. safe_step.
  eapply safe_mono; [by apply wait_for_scan_backed|].
  clear Ho. intros o' Ho'. do 6 safe_step. apply safe_bind. intros w Hw. split.
  - destruct w. simpl in *. intros k e He Hv.
    destruct (settle_positive _ _ _ _ _ _ _ He Hv) as [(-> & Hy & _)|(e0 & He0 & Hv0 & _)]; eauto.
  - destruct (settle _ _ _ _ _) as [[c m] r] eqn:E. safe_step. unfold inc. repeat safe_step; auto with kms.
    simpl. intros ->. pose proof (f_equal snd E) as Hok. simpl in Hok.
    destruct (settle_ok _ _ _ _ _ Hok) as [Hy|(_ & e & He & Hs)]; [eauto|].
    unfold stale_positive in Hs. apply andb_true_iff in Hs as [Hs _]. eauto.
Qed.

End Backed.

(** ** Timed behaviour of one call *)

(** The scan replies of a call, in order, read as answers. *)
Definition answers (evs : list kms_event) : list (result Answer string) :=
  omap (fun ev => match ev with
                  | Ev (Scan_verify _ _ _ _) a => Some (answer_of_reply a)
                  | _ => None
                  end) evs.

Definition scan_call (app_id : string) (signer : Address) (ev : kms_event) : Prop :=
  match ev with
  | Ev (Scan_verify _ _ app signer') _ => app = app_id /\ signer' = signer
  | _ => False
  end.

Definition says_no (o : result Answer string) : Prop := exists reason, o = Ok (Verdict false reason).

Lemma same_verdicts_metrics u w : verdict_cache (upd_metrics u w) = verdict_cache w.
Proof. by destruct w. Qed.

Lemma verdict_upd u w : verdict_cache (upd_verdict_cache u w) = u (verdict_cache w).
Proof. by destruct w. Qed.

Lemma stale_positive_anti t t' e : t <= t' -> stale_positive t' e = true -> stale_positive t e = true.
Proof.
  unfold stale_positive, elapsed. intros ? [? H]%andb_true_iff. apply andb_true_iff.
  rewrite Z.ltb_lt in *. split; [done|lia].
Qed.

Section Call.
Context (cfg : VerifierConfig) (app_id : string) (signer : Address).
Abbreviation key := (app_id, signer).

Lemma cached_decision_spec s t log :
  wp eq (cached_decision key)
    (fun d s' t' log' => log' = log /\ t <= t' /\ verdict_cache s' = verdict_cache s /\
       (d = Some (Ok tt) -> exists e, verdict_cache s !! key = Some e /\ stale_positive t e = true) /\
       (forall r, d = Some (Err r) -> exists e, verdict_cache s !! key = Some e /\ verified e = false) /\
       (forall e, verdict_cache s !! key = Some e -> damped_refusal t' e = true ->
          d = Some (Err (refusal e))))
    s t log.
Proof.
  unfold cached_decision, inc. repeat wp_step.
  destruct (verdict_cache _ !! _) as [e|] eqn:E; repeat wp_step.
  2: { repeat split; [lia|done..]. }
  destruct (fresh_positive t'1 e) eqn:Ef; [|destruct (damped_refusal t'1 e) eqn:Ed]; repeat wp_step.
  all: rewrite ?same_verdicts_metrics; split; [done|]; split; [lia|]; split; [done|].
  all: repeat split; try done.
  - intros _. exists e. split; [done|]. unfold fresh_positive in Ef.
    apply andb_true_iff in Ef as [[Hv _]%andb_true_iff Hc]. unfold stale_positive. rewrite Hv.
    unfold elapsed in *. rewrite Z.ltb_lt in *. lia.
  - intros e' [= <-] Hd. unfold fresh_positive, damped_refusal in *. by destruct (verified e).
  - intros r [= <-]. exists e. split; [done|]. unfold damped_refusal in Ed. by destruct (verified e).
  - intros e' [= <-] _. done.
  - intros e' [= <-] Hd. unfold damped_refusal, elapsed in *. destruct (verified e); [done|].
    simpl in *. rewrite Z.ltb_lt, Z.ltb_nlt in *. lia.
Qed.

Lemma fetch_spec s t log :
  wp eq (fetch cfg app_id signer)
    (fun o s' t' log' => s' = s /\ t <= t' /\
       exists ev, log' = log ++ [ev] /\ scan_call app_id signer ev /\ answers [ev] = [o]) s t log.
Proof.
  unfold fetch. repeat wp_step. split; [done|]. split; [lia|]. eexists. split; [done|]. done.
Qed.

Lemma answers_app l l' : answers (l ++ l') = answers l ++ answers l'.
Proof. apply omap_app. Qed.

(** The waiting loop ends by its own condition within its fuel, having slept through
    every further question it asked. *)
Lemma lag_loop_spec deadline fuel o s t log :
  Z.max 0 ((deadline - t) / SCAN_LAG_POLL) < Z.of_nat fuel ->
  wp eq (Prog.iter fuel (lag_body cfg app_id signer deadline) o)
    (fun r s' t' log' => s' = s /\ t <= t' /\
       exists evs, log' = log ++ evs /\ Forall (scan_call app_id signer) evs /\
         Z.of_nat (length evs) <= Z.max 0 ((deadline - t) / SCAN_LAG_POLL) /\
         exists o', r = inr o' /\ last (o :: answers evs) = Some o') s t log.
Proof.
  assert (0 < SCAN_LAG_POLL) as Hpoll by done.
  revert o s t log. induction fuel as [|fuel IH]; intros o s t log Hf; cbn [Prog.iter].
  { lia. }
  assert (forall (s : World) t', t <= t' -> s = s /\ t <= t' /\ exists evs, log = log ++ evs /\
    Forall (scan_call app_id signer) evs /\
    Z.of_nat (length evs) <= Z.max 0 ((deadline - t) / SCAN_LAG_POLL) /\
    exists o', (inr o : result Answer string + result Answer string) = inr o' /\
      last (o :: answers evs) = Some o') as Hstop.
  { intros s1 t' Ht. split; [done|]. split; [done|]. exists []. rewrite app_nil_r.
    split; [done|]. split; [constructor|]. split; [simpl; lia|]. eauto. }
  unfold lag_body at 1. wp_step. destruct (undecided o) eqn:Eo; [|repeat wp_step; apply Hstop; lia].
  wp_step. wp_step. destruct (_ <=? deadline) eqn:Ed; [apply Z.leb_le in Ed|repeat wp_step; apply Hstop; lia].
  do 2 wp_step. wp_step. eapply wp_mono; [|apply fetch_spec].
  intros o1 s1 t1 log1 (-> & Ht1 & ev & -> & Hev & Ha). repeat wp_step.
  match goal with |- wp _ _ _ _ ?z _ =>
    assert ((deadline - z) / SCAN_LAG_POLL <= (deadline - t) / SCAN_LAG_POLL - 1) as Hdec end.
  { transitivity ((deadline - t + -1 * SCAN_LAG_POLL) / SCAN_LAG_POLL);
      [apply Z.div_le_mono; lia|rewrite Z.div_add; lia]. }
  assert (0 <= (deadline - t) / SCAN_LAG_POLL - 1).
  { transitivity ((deadline - t + -1 * SCAN_LAG_POLL) / SCAN_LAG_POLL);
      [apply Z.div_pos; lia|rewrite Z.div_add; lia]. }
  eapply wp_mono; [|apply IH; lia].
  intros r s2 t2 log2 (-> & Ht2 & evs & -> & Hevs & Hlen & o' & -> & Hlast).
  split; [done|]. split; [lia|]. exists (ev :: evs). split; [by rewrite <-app_assoc|].
  split; [by constructor|]. split; [simpl length; lia|]. exists o'. split; [done|].
  change (answers (ev :: evs)) with (answers ([ev] ++ evs)). rewrite answers_app, Ha. done.
Qed.

(** What one call of the gate comes to, from the entry it starts with, the answers it
    gets and the time it takes. *)
Record call_spec (wait : Z) (s : World) (t : Z) (log : list kms_event)
    (r : result unit string) (s' : World) (t' : Z) (log' : list kms_event)
    (evs : list kms_event) : Prop := {
  cs_time : t <= t';
  cs_log : log' = log ++ evs;
  cs_calls : Forall (scan_call app_id signer) evs;
  cs_count : Z.of_nat (length evs) <= 1 + Z.max 0 (wait / SCAN_LAG_POLL);
  cs_allow : r = Ok tt ->
    (exists o, last (answers evs) = Some o /\ says_yes o) \/
    (exists e, verdict_cache s !! key = Some e /\ stale_positive t e = true);
  cs_cached : forall e', verdict_cache s' !! key = Some e' -> verified e' = true ->
    (exists o, last (answers evs) = Some o /\ says_yes o) \/
    (exists e, verdict_cache s !! key = Some e /\ verified e = true /\ confirmed_at e = confirmed_at e');
  cs_deny : forall o, last (answers evs) = Some o -> says_no o ->
    is_ok r = false /\ exists e', verdict_cache s' !! key = Some e' /\ verified e' = false;
  cs_damped : forall e, verdict_cache s !! key = Some e -> damped_refusal t' e = true ->
    r = Err (refusal e) /\ evs = [];
  cs_avail : forall e, verdict_cache s !! key = Some e -> stale_positive t' e = true ->
    confirmed_at e <= at_ e -> (forall o, last (answers evs) = Some o -> undecided o = true) ->
    r = Ok tt
}.

Lemma call_spec_cached wait s t log d s' t' :
  t <= t' -> verdict_cache s' = verdict_cache s ->
  (d = Ok tt -> exists e, verdict_cache s !! key = Some e /\ stale_positive t e = true) ->
  (forall r, d = Err r -> exists e, verdict_cache s !! key = Some e /\ verified e = false) ->
  (forall e, verdict_cache s !! key = Some e -> damped_refusal t' e = true -> d = Err (refusal e)) ->
  call_spec wait s t log d s' t' log [].
Proof.
  intros Ht Hc Hok Herr Hd. split; simpl; try done; try lia; eauto.
  - by rewrite app_nil_r.
  - rewrite Hc. eauto 6.
  - intros e He Hs _ _. destruct d as [[]|r]; [done|]. destruct (Herr r) as (e' & ? & ?); [done|].
    unfold stale_positive in Hs. simplify_eq. by destruct (verified e).
Qed.

Lemma call_spec_asked wait s t log a z o m r s' t' evs :
  t <= z <= t' -> t <= t' -> verdict_cache s' = (settle a z key o (verdict_cache s)).1.1 ->
  (settle a z key o (verdict_cache s)).2 = r -> m = (settle a z key o (verdict_cache s)).1.2 ->
  Forall (scan_call app_id signer) evs -> last (answers evs) = Some o ->
  Z.of_nat (length evs) <= 1 + Z.max 0 (wait / SCAN_LAG_POLL) ->
  (forall e, verdict_cache s !! key = Some e -> damped_refusal t' e = false) ->
  call_spec wait s t log r s' t' (log ++ evs) evs.
Proof.
  intros Hz Ht Hc Hr _ Hevs Hlast Hlen Hd. split; try done.
  - intros ->. destruct (settle_ok _ _ _ _ _ Hr) as [?|(_ & e & He & Hs)]; [eauto|right].
    exists e. split; [done|]. apply (stale_positive_anti t z); [lia|done].
  - rewrite Hc. intros e' He' Hv'.
    destruct (settle_positive _ _ _ _ _ _ _ He' Hv') as [(_ & ? & _)|?]; eauto.
  - intros o' Ho' [reason ->]. assert (o = Ok (Verdict false reason)) as -> by congruence.
    destruct (settle_no a z key reason (verdict_cache s)) as [Herr (e & He & Hv & _)].
    rewrite Hc, <-Hr, Herr. eauto.
  - intros e He Hdamp. by rewrite (Hd e He) in Hdamp.
  - intros e He Hs Hle Hu. rewrite <-Hr. apply (settle_stale _ _ _ _ _ e); [done| |done|by apply Hu].
    apply (stale_positive_anti z t'); [lia|done].
Qed.

Lemma damped_anti t t' e : t <= t' -> damped_refusal t' e = true -> damped_refusal t e = true.
Proof.
  unfold damped_refusal, elapsed. intros ? [? H]%andb_true_iff. apply andb_true_iff.
  rewrite Z.ltb_lt in *. split; [done|lia].
Qed.

Lemma has_stale_positive_spec s t log :
  wp eq (has_stale_positive key)
    (fun b s' t' log' => s' = s /\ log' = log /\ t <= t') s t log.
Proof.
  unfold has_stale_positive. repeat wp_step.
  destruct (verdict_cache _ !! _); repeat wp_step; repeat split; lia.
Qed.

(** The part of the call that has to ask. *)
Lemma wait_for_scan_spec wait o s t log :
  wp eq (wait_for_scan cfg app_id signer wait o)
    (fun o' s' t' log' => s' = s /\ t <= t' /\
       exists evs, log' = log ++ evs /\ Forall (scan_call app_id signer) evs /\
         Z.of_nat (length evs) <= Z.max 0 (wait / SCAN_LAG_POLL) /\
         last (o :: answers evs) = Some o') s t log.
Proof.
  unfold wait_for_scan. wp_step. eapply wp_mono; [|apply has_stale_positive_spec]. intros [] s1 t1 log1 (-> & -> & Ht).
  - wp_step. split; [done|]. split; [lia|]. exists []. rewrite app_nil_r.
    split; [done|]. split; [constructor|]. split; [simpl; lia|done].
  - wp_step. wp_step. wp_step. eapply wp_stable; [apply _|reflexivity|reflexivity|].
    eapply wp_mono; [|apply lag_loop_spec].
    + intros r s2 t2 log2 (-> & Ht2 & evs & -> & Hevs & Hlen & o' & -> & Hlast). wp_step.
      split; [done|]. split; [lia|]. exists evs. split; [done|]. split; [done|].
      split; [|done]. etrans; [exact Hlen|]. apply Z.max_le_compat_l, Z.div_le_mono; [done|lia].
    + unfold lag_fuel. rewrite Nat2Z.inj_succ.
      assert ((t' + wait - t'0) / SCAN_LAG_POLL <= wait / SCAN_LAG_POLL)
        by (apply Z.div_le_mono; [done|lia]). lia.
Qed.

Lemma require_verified_spec wait s t log :
  wp eq (Verifier_require_verified cfg app_id signer wait)
    (fun r s' t' log' => exists evs, call_spec wait s t log r s' t' log' evs) s t log.
Proof.
  unfold Verifier_require_verified. wp_step. eapply wp_mono; [|apply cached_decision_spec].
  intros d s1 t1 log1 (-> & Ht1 & Hc1 & Hok & Herr & Hd). destruct d as [d|].
  { wp_step. exists []. apply call_spec_cached; [lia|done|intros ->; by apply Hok|intros r0 ->; by eapply Herr|].
    intros e He Hde. enough (Some d = Some (Err (refusal e))) by congruence.
    apply Hd; [done|]. eapply damped_anti; [|exact Hde]. lia. }
  clear Hok Herr Hd. wp_step. wp_step. eapply wp_mono; [|apply cached_decision_spec].
  intros d s2 t2 log2 (-> & Ht2 & Hc2 & Hok & Herr & Hd). rewrite Hc1 in *. destruct d as [d|].
  { wp_step. intros ? ? <- ?. exists []. apply call_spec_cached; [lia|done| | |].
    - intros ->. destruct Hok as (e & ? & ?); [done|]. exists e. split; [done|].
      eapply stale_positive_anti; [|done]. lia.
    - intros r0 ->. by eapply Herr.
    - intros e He Hde. enough (Some d = Some (Err (refusal e))) by congruence.
      apply Hd; [done|]. eapply damped_anti; [|exact Hde]. lia. }
  assert (forall e z, t2 <= z -> verdict_cache s !! key = Some e -> damped_refusal z e = false) as Hnd.
  { intros e z Hz He. destruct (damped_refusal z e) eqn:E; [|done].
    by specialize (Hd e He (damped_anti _ _ _ Hz E)). }
  clear Hok Herr Hd. wp_step. eapply wp_mono; [|apply fetch_spec].
  intros o s3 t3 log3 (-> & Ht3 & ev & -> & Hev & Ha). wp_step.
  eapply wp_mono; [|apply wait_for_scan_spec].
  intros o' s4 t4 log4 (-> & Ht4 & evs & -> & Hevs & Hlen & Hlast). do 4 wp_step.
  wp_step. intros z tz <- Htz. cbv beta.
  destruct (settle _ _ key o' (verdict_cache _)) as [[c m] r] eqn:E. wp_step. unfold inc.
  repeat wp_step. intros ? ? <- ?. exists (ev :: evs). rewrite <-app_assoc.
  rewrite Hc2 in E.
  eapply (call_spec_asked _ _ _ _ _ _ o' m); [| | | | |by constructor| |simpl length; lia|eauto with lia].
  all: rewrite ?E; try done; try lia.
  - by rewrite same_verdicts_metrics, verdict_upd, Hc2, E.
  - change (answers (ev :: evs)) with (answers ([ev] ++ evs)). by rewrite answers_app, Ha.
Qed.

End Call.

End Theorems.

(** The gate touches the verdict cache and nothing else. *)
Definition outside_verifier (s s' : World) : Prop :=
  core s' = core s /\ node_list_cache s' = node_list_cache s.

Lemma require_verified_frame {T : ThresholdScheme} {X : Externals T} app signer wait :
  guar outside_verifier (require_verified app signer wait).
Proof.
  assert (forall s, outside_verifier s s) as Hr by done.
  assert (forall u s, outside_verifier s (upd_metrics u s)) as Hm by (by intros u []).
  assert (forall u s, outside_verifier s (upd_verdict_cache u s)) as Hc by (by intros u []).
  unfold require_verified, Verifier_require_verified, cached_decision, wait_for_scan,
    has_stale_positive, lag_body, fetch, inc.
  repeat guar_step; auto. intros s. split; [auto|]. by destruct (settle _ _ _ _ _) as [[]].
Qed.

(** The gate answers at once for a signer with a fresh positive verdict, and always when
    no verifier is configured. *)
Definition gate_open (app : string) (signer : Address) (w : World) (t : Z) : Prop :=
  match the_verifier w with
  | Some (Some _) => exists e, verdict_cache w !! (app, signer) = Some e /\ fresh_positive t e = true
  | _ => True
  end.

Lemma fresh_anti t t' e : t <= t' -> fresh_positive t' e = true -> fresh_positive t e = true.
Proof.
  unfold fresh_positive, elapsed. rewrite !andb_true_iff, !Z.ltb_lt. intuition lia.
Qed.

Lemma gate_open_anti app signer w t t' :
  t <= t' -> gate_open app signer w t' -> gate_open app signer w t.
Proof.
  unfold gate_open. intros Ht. destruct (the_verifier w) as [[cfg|]|]; try done.
  intros (e & He & Hf). exists e. split; [done|]. by apply (fresh_anti t t').
Qed.

Lemma gate_open_spec {T : ThresholdScheme} {X : Externals T} app signer wait s t log :
  wp eq (require_verified app signer wait)
    (fun r s' t' log' => gate_open app signer s t' ->
       r = Ok tt /\ log' = log /\ verdict_cache s' = verdict_cache s) s t log.
Proof.
  unfold require_verified, gate_open. do 2 wp_step.
  destruct (the_verifier _) as [[cfg|]|]; [|by wp_step..].
  unfold Verifier_require_verified, cached_decision. do 3 wp_step.
  destruct (verdict_cache _ !! _) as [e|] eqn:E.
  2: { wp_step. eapply wp_mono; [|apply wp_progress; apply _]. naive_solver. }
  do 2 wp_step. destruct (fresh_positive _ e) eqn:Ef.
  - unfold inc. repeat wp_step. by destruct s'.
  - match type of Ef with fresh_positive ?z _ = _ => rename z into z0 end.
    assert (forall z, z0 <= z -> ~ exists e0, Some e = Some e0 /\
      fresh_positive z e0 = true) as Habs.
    { intros z Hz (e0 & He0 & Hf). injection He0 as <-.
      by rewrite (fresh_anti _ _ _ Hz Hf) in Ef. }
    destruct (damped_refusal _ e); [unfold inc; repeat wp_step; intros He0; exfalso; eapply Habs; [|exact He0]; lia|].
    wp_step. eapply wp_mono; [|apply wp_progress; apply _]. intros r s1 t1 log1 [Ht _] He.
    exfalso. eapply Habs; [|exact He]. lia.
Qed.

(** * Theorems *)

(** C14: fail-closed admission.  With a verifier configured, a signer passes the gate
    only if scan vouched for exactly that (application, signer) pair: if [P] holds of
    every pair scan answered "verified" for during the call and of every positive verdict
    cached before it, then it holds of the pair that was let through, and of every
    positive verdict in the cache afterwards, whatever the other tasks cached meanwhile. *)
Theorem admission_needs_scan {T : ThresholdScheme} {X : Externals T} (o : kms_oracle)
    (P : Key -> Prop) cfg app signer wait x :
  relies o (fun w w' => verdicts_backed P w -> verdicts_backed P w') ->
  verdicts_backed P (x_st x) ->
  let '(r, y) := run o (Verifier_require_verified cfg app signer wait) x in
  Forall (ev_ok (scan_vouches P)) (x_log y) ->
  (r = Ok tt -> P (app, signer)) /\ verdicts_backed P (x_st y).
Proof.
  intros Ho Hb. pose proof (safe_sound _ _ o _ _ x Ho Hb
    (verifier_backed P cfg app signer wait)) as H.
  by destruct (run _ _ _).
Qed.

Definition toy_vouched_for (k : Key) : Prop := k = ("kms", Toy.addr_of Toy.sk1) \/ k = ("kms", Toy.addr_of Toy.sk2).

Lemma toy_backed : verdicts_backed toy_vouched_for Toy.world.
Proof.
  intros k e. change (verdict_cache Toy.world) with
    ({[("kms", Toy.addr_of Toy.sk1) := Toy.attested; ("kms", Toy.addr_of Toy.sk2) := Toy.attested]} : gmap Key _).
  intros [[<- _]|[_ [<- _]%lookup_singleton_Some]]%lookup_insert_Some _; [by left|by right].
Qed.

Lemma admission_needs_scan_witness :
  (run Toy.idle (Verifier_require_verified Toy.scan "kms" (Toy.addr_of Toy.sk2) 0) (start Toy.world 5)).1 = Ok tt /\
  toy_vouched_for ("kms", Toy.addr_of Toy.sk2).
Proof.
  pose proof (admission_needs_scan Toy.idle toy_vouched_for Toy.scan "kms" (Toy.addr_of Toy.sk2) 0
    (start Toy.world 5) (fun _ _ H => H) toy_backed) as H.
  pose proof (start_log_ok (scan_vouches toy_vouched_for) Toy.idle
    (Verifier_require_verified Toy.scan "kms" (Toy.addr_of Toy.sk2) 0) Toy.world 5 ltac:(by intros n [])) as Hl.
  assert ((run Toy.idle (Verifier_require_verified Toy.scan "kms" (Toy.addr_of Toy.sk2) 0)
    (start Toy.world 5)).1 = Ok tt) as Hok by (vm_compute; reflexivity).
  destruct (run _ _ _) as [r y]. split; [exact Hok|]. by apply H.
Defined.

Lemma require_verified_run {T : ThresholdScheme} {X : Externals T} (o : kms_oracle)
    cfg app signer wait x :
  quiet o -> let '(r, y) := run o (Verifier_require_verified cfg app signer wait) x in
  exists evs, call_spec app signer wait (x_st x) (x_now x) (x_log x) r (x_st y) (x_now y) (x_log y) evs.
Proof.
  intros Hq. pose proof (run_quiet o _ _ x Hq (require_verified_spec cfg app signer wait _ _ _)) as H.
  by destruct (run _ _ _).
Qed.

Definition heard (app : string) (signer : Address) (log log' : list kms_event)
    (ok : result Answer string -> Prop) : Prop :=
  exists evs o, log' = log ++ evs /\ Forall (scan_call app signer) evs /\
                last (answers evs) = Some o /\ ok o.

(** C23: the revocation latency is bounded.  A signer let through without a fresh "yes"
    from scan had been confirmed by scan less than [MAX_VERDICT_STALENESS] (24 h) before,
    and serving it does not move that confirmation: the positive verdict left in the cache
    keeps the old [confirmed_at] unless scan just said yes. *)
Theorem verdict_staleness_is_bounded {T : ThresholdScheme} {X : Externals T} (o : kms_oracle)
    cfg app signer wait x :
  quiet o ->
  let '(r, y) := run o (Verifier_require_verified cfg app signer wait) x in
  (r = Ok tt -> heard app signer (x_log x) (x_log y) says_yes \/
     exists e, verdict_cache (x_st x) !! (app, signer) = Some e /\ verified e = true /\
               elapsed (x_now x) (confirmed_at e) < MAX_VERDICT_STALENESS) /\
  (forall e', verdict_cache (x_st y) !! (app, signer) = Some e' -> verified e' = true ->
     heard app signer (x_log x) (x_log y) says_yes \/
     exists e, verdict_cache (x_st x) !! (app, signer) = Some e /\ verified e = true /\
               confirmed_at e = confirmed_at e').
Proof.
  intros Hq. pose proof (require_verified_run o cfg app signer wait x Hq) as H.
  destruct (run _ _ _) as [r y], H as (evs & Hs). split.
  - intros Hr. destruct (cs_allow _ _ _ _ _ _ _ _ _ _ _ Hs Hr) as [(a & ? & ?)|(e & He & Hp)].
    + left. exists evs, a. destruct Hs. eauto.
    + right. exists e. unfold stale_positive in Hp. apply andb_true_iff in Hp as [? Hp].
      apply Z.ltb_lt in Hp. eauto.
  - intros e' He' Hv'. destruct (cs_cached _ _ _ _ _ _ _ _ _ _ _ Hs e' He' Hv') as [(a & ? & ?)|?].
    + left. exists evs, a. destruct Hs. eauto.
    + eauto.
Qed.

(** Two hours after its last confirmation, with scan down: served stale. *)
Lemma verdict_staleness_is_bounded_witness :
  exists e, verdict_cache Toy.world !! ("kms", Toy.addr_of Toy.sk2) = Some e /\
    elapsed (secs 7200) (confirmed_at e) < MAX_VERDICT_STALENESS.
Proof.
  pose proof (verdict_staleness_is_bounded Toy.idle Toy.scan "kms" (Toy.addr_of Toy.sk2) 0
    (start Toy.world (secs 7200)) (Toy.alone_quiet _)) as H.
  destruct (run _ _ _) as [r y] eqn:E. assert (r = Ok tt) as Hr.
  { change r with (r, y).1. rewrite <-E. vm_compute. reflexivity. }
  assert (forall a, last (answers (x_log y)) = Some a -> is_ok a = false) as Hno.
  { change y with (r, y).2. rewrite <-E. vm_compute. by intros a [= <-]. }
  destruct H as [H _].
  destruct (H Hr) as [(evs & a & Hl & _ & Ha & reason & ->)|(e & He & _ & Hlt)]; [exfalso|exact (ex_intro _ e (conj He Hlt))].
  cbn [x_log start app] in Hl. subst evs. apply Hno in Ha. discriminate Ha.
Defined.

(** An explicit negative verdict takes effect at once and leaves no stale-positive
    escape hatch: the call it answers refuses, and the next call for the signer, however
    much later and whatever scan's availability then, lets it through only on a new yes. *)
Theorem revocation_is_immediate {T : ThresholdScheme} {X : Externals T} (o : kms_oracle)
    cfg app signer wait wait' x :
  quiet o ->
  let '(r, y) := run o (Verifier_require_verified cfg app signer wait) x in
  heard app signer (x_log x) (x_log y) says_no ->
  is_ok r = false /\
  forall t, let '(r', z) := run o (Verifier_require_verified cfg app signer wait')
                                (Exec (x_st y) (x_n y) t (x_log y)) in
            r' = Ok tt -> heard app signer (x_log y) (x_log z) says_yes.
Proof.
  intros Hq. pose proof (require_verified_run o cfg app signer wait x Hq) as H.
  destruct (run _ _ x) as [r y], H as (evs & Hs). intros (evs' & a & Hl & _ & Ha & Hno).
  rewrite (cs_log _ _ _ _ _ _ _ _ _ _ _ Hs) in Hl. apply app_inv_head in Hl as <-.
  destruct (cs_deny _ _ _ _ _ _ _ _ _ _ _ Hs a Ha Hno) as [Hr (e' & He' & Hv')].
  split; [done|]. intros t.
  pose proof (require_verified_run o cfg app signer wait' (Exec (x_st y) (x_n y) t (x_log y)) Hq) as H.
  destruct (run _ _ (Exec _ _ _ _)) as [r' z], H as (evs' & Hs'). intros Hr'.
  destruct (cs_allow _ _ _ _ _ _ _ _ _ _ _ Hs' Hr') as [(b & ? & ?)|(e & He & Hp)].
  - exists evs', b. destruct Hs'. eauto.
  - simpl in He. simplify_eq. unfold stale_positive in Hp. by rewrite Hv' in Hp.
Qed.

(** Scan answers "not verified" two hours later. *)
Definition deny (c : Call) : ans c :=
  match c with Scan_verify _ _ _ _ => ScanHttp 200 (Some (false, "revoked")) | c => Toy.no_answer c end.

Lemma revocation_is_immediate_witness :
  is_ok (run (Toy.alone deny) (Verifier_require_verified Toy.scan "kms" (Toy.addr_of Toy.sk2) 0)
           (start Toy.world (secs 7200))).1 = false.
Proof.
  pose proof (revocation_is_immediate (Toy.alone deny) Toy.scan "kms" (Toy.addr_of Toy.sk2) 0 0
    (start Toy.world (secs 7200)) (Toy.alone_quiet _)) as H.
  destruct (run _ _ _) as [r y] eqn:E. apply H.
  exists (x_log y), (Ok (Verdict false "revoked")). split; [done|].
  change y with (r, y).2. rewrite <-E. vm_compute. split; [by repeat constructor|]. split; [done|by eexists].
Defined.

(** Asking is bounded.  A call puts at most one question to scan plus one per
    [SCAN_LAG_POLL] of the wait it was given (five for [/app-key], one for peer calls),
    all about its own signer, and none at all while a refusal is damped: the caller then
    gets the cached refusal. *)
Theorem scan_is_asked_boundedly {T : ThresholdScheme} {X : Externals T} (o : kms_oracle)
    cfg app signer wait x :
  quiet o ->
  let '(r, y) := run o (Verifier_require_verified cfg app signer wait) x in
  (exists evs, x_log y = x_log x ++ evs /\ Forall (scan_call app signer) evs /\
     Z.of_nat (length evs) <= 1 + Z.max 0 (wait / SCAN_LAG_POLL)) /\
  (wait = SCAN_LAG_WAIT -> (length (x_log y) <= length (x_log x) + 5)%nat) /\
  (wait = 0 -> (length (x_log y) <= length (x_log x) + 1)%nat) /\
  (forall e, verdict_cache (x_st x) !! (app, signer) = Some e -> damped_refusal (x_now y) e = true ->
     r = Err (refusal e) /\ x_log y = x_log x).
Proof.
  intros Hq. pose proof (require_verified_run o cfg app signer wait x Hq) as H.
  destruct (run _ _ _) as [r y], H as (evs & [_ Hl Hc Hn _ _ _ Hd _]). rewrite Hl. repeat split.
  - eauto.
  - intros ->. change (SCAN_LAG_WAIT / SCAN_LAG_POLL) with 4 in Hn. rewrite length_app. lia.
  - intros ->. change (0 / SCAN_LAG_POLL) with 0 in Hn. rewrite length_app. lia.
  - by apply Hd.
  - destruct (Hd e) as [_ ->]; [done..|]. by rewrite app_nil_r.
Qed.

(** An unknown signer, a wait of 12 s, scan down. *)
Lemma scan_is_asked_boundedly_witness :
  (length (x_log (run Toy.idle (Verifier_require_verified Toy.scan "kms" [] SCAN_LAG_WAIT)
     (start Toy.world 0)).2) <= 5)%nat.
Proof.
  pose proof (scan_is_asked_boundedly Toy.idle Toy.scan "kms" [] SCAN_LAG_WAIT (start Toy.world 0)
    (Toy.alone_quiet _)) as H.
  destruct (run _ _ _) as [r y]. destruct H as (_ & H & _). exact (H eq_refl).
Defined.

(** ** The wait comes to an end *)

Lemma lag_exits {T : ThresholdScheme} {X : Externals T} cfg app signer deadline fuel out s t log :
  Z.max 0 ((deadline - t) / SCAN_LAG_POLL) < Z.of_nat fuel ->
  wp anything (Prog.iter fuel (lag_body cfg app signer deadline) out)
    (fun r _ _ _ => exists out', r = inr out') s t log.
Proof.
  assert (0 < SCAN_LAG_POLL) as Hpos by done.
  revert out s t log. induction fuel as [|fuel IH]; intros out s t log Hf; [lia|].
  cbn [Prog.iter]. unfold lag_body at 1. wp_step.
  destruct (undecided out); [|repeat wp_step; by eexists].
  do 2 wp_step. destruct (_ <=? deadline) eqn:Ed; [apply Z.leb_le in Ed|repeat wp_step; by eexists].
  do 3 wp_step. unfold fetch. repeat wp_step.
  eapply wp_mono; [|apply IH]; [done|].
  match goal with |- Z.max 0 ((deadline - ?z) / _) < _ =>
    assert ((deadline - z) / SCAN_LAG_POLL <= (deadline - t) / SCAN_LAG_POLL - 1) as Hdec end.
  { transitivity ((deadline - t + -1 * SCAN_LAG_POLL) / SCAN_LAG_POLL);
      [apply Z.div_le_mono; lia|rewrite Z.div_add; lia]. }
  assert (0 <= (deadline - t) / SCAN_LAG_POLL - 1).
  { transitivity ((deadline - t + -1 * SCAN_LAG_POLL) / SCAN_LAG_POLL);
      [apply Z.div_pos; lia|rewrite Z.div_add; lia]. }
  lia.
Qed.

(** Waiting for scan ends.  From any state, with any answers and any interference, the
    polling loop leaves through its own exit within the iterations the model gives it, so
    more iterations change neither its result nor anything it did. *)
Theorem scan_wait_terminates {T : ThresholdScheme} {X : Externals T} (o : kms_oracle)
    cfg app signer wait out fuel x :
  (lag_fuel wait <= fuel)%nat ->
  let loop fuel := (let! t := now in Prog.iter fuel (lag_body cfg app signer (t + wait)) out) in
  exists out' y, run o (loop (lag_fuel wait)) x = (inr out', y) /\ run o (loop fuel) x = (inr out', y).
Proof.
  intros Hf loop. unfold loop. rewrite !run_bind. cbn [now run].
  set (t := x_now (tick o x)).
  assert (exists out', (run o (Prog.iter (lag_fuel wait) (lag_body cfg app signer (t + wait)) out) (tick o x)).1 =
                       inr out') as [out' Hout].
  { apply (run_anything o _ (fun r _ _ _ => exists out', r = inr out') (tick o x)). apply lag_exits. fold t.
    unfold lag_fuel. rewrite Nat2Z.inj_succ. replace (t + wait - t) with wait by lia. lia. }
  destruct (run o (Prog.iter (lag_fuel wait) _ _) (tick o x)) as [r y] eqn:E. cbn [fst] in Hout. subst r.
  exists out', y. split; [done|]. by apply (iter_more_fuel o (lag_fuel wait)).
Qed.

Lemma scan_wait_terminates_witness :
  exists out, (run Toy.idle (let! t := now in
     Prog.iter 100 (lag_body Toy.scan "kms" [] (t + SCAN_LAG_WAIT)) (Ok Unknown)) (start Toy.world 0)).1 = inr out.
Proof.
  destruct (scan_wait_terminates Toy.idle Toy.scan "kms" [] SCAN_LAG_WAIT (Ok Unknown) 100 (start Toy.world 0))
    as (out & y & _ & H); [vm_compute; lia|].
  exists out. change (inr out) with (@inr (result Answer string) _ out, y).1. rewrite <-H. reflexivity.
Defined.

(** Existing traffic does not depend on scan's availability: while its last
    confirmation is less than 24 h old, a verified signer is let through even if scan is
    unreachable, answers an error, or no longer knows it. *)
Theorem verified_signer_survives_scan_outage {T : ThresholdScheme} {X : Externals T}
    (o : kms_oracle) cfg app signer wait e x :
  quiet o -> verdict_cache (x_st x) !! (app, signer) = Some e -> confirmed_at e <= at_ e ->
  let '(r, y) := run o (Verifier_require_verified cfg app signer wait) x in
  stale_positive (x_now y) e = true ->
  (forall evs a, x_log y = x_log x ++ evs -> last (answers evs) = Some a -> undecided a = true) ->
  r = Ok tt.
Proof.
  intros Hq He Hle. pose proof (require_verified_run o cfg app signer wait x Hq) as H.
  destruct (run _ _ _) as [r y], H as (evs & [_ Hl _ _ _ _ _ _ Hav]). intros Hs Hu.
  apply (Hav e He Hs Hle). intros a Ha. by apply (Hu evs).
Qed.

Lemma verified_signer_survives_scan_outage_witness :
  (run Toy.idle (Verifier_require_verified Toy.scan "kms" (Toy.addr_of Toy.sk2) 0)
     (start Toy.world (secs 7200))).1 = Ok tt.
Proof.
  pose proof (verified_signer_survives_scan_outage Toy.idle Toy.scan "kms" (Toy.addr_of Toy.sk2) 0 Toy.attested
    (start Toy.world (secs 7200)) (Toy.alone_quiet _) eq_refl (Z.le_refl 0)) as H.
  destruct (run _ _ _) as [r y] eqn:E. apply H.
  - change y with (r, y).2. rewrite <-E. vm_compute. reflexivity.
  - intros evs a Hl. cbn [x_log start app] in Hl. subst evs. change y with (r, y).2. rewrite <-E. vm_compute. by intros [= <-].
Defined.
