(* ===== verification/Pinning.v ===== *)
(** The TLS identity of the scan service ([PinnedKeyVerifier] of [src/src/verifier.rs]): the
    certificate check against the configured pins, and the handshake signatures, which the
    TLS library verifies.  X.509 parsing, SHA-256 and the library's signature checks are
    arguments.  To run the test that carries a certificate made by openssl, the file has
    concrete functions for the first two: SHA-256 as the standard defines it, standard
    base64, and a reader of the certificate's DER. *)
From S2P Require Import Base Threshold Prelude Prog State Externals Models Verifier.
From Stdlib Require Import Ascii ZArith Lia.
From Stdlib.Strings Require Import Byte.
From stdpp Require Import base list strings sets.
Local Open Scope Z_scope.

(** ** The verifier of the TLS client *)

Section Handshake.

(** [rustls::crypto::verify_tls12_signature] and [verify_tls13_signature], and the schemes a
    provider's algorithms support. *)
Context {Algorithms Dss Scheme : Type}.
Context (rustls_tls12 rustls_tls13 : bytes -> bytes -> Dss -> Algorithms -> result unit string).
Context (schemes_of : Algorithms -> list Scheme).

Record PinnedKeyVerifier := mkPinnedKeyVerifier {
  pinned : list bytes;
  provider : Algorithms
}.

Definition verify_tls12_signature (v : PinnedKeyVerifier) (message cert : bytes) (dss : Dss) : result unit string :=
  rustls_tls12 message cert dss (provider v).
Definition verify_tls13_signature (v : PinnedKeyVerifier) (message cert : bytes) (dss : Dss) : result unit string :=
  rustls_tls13 message cert dss (provider v).
Definition supported_verify_schemes (v : PinnedKeyVerifier) : list Scheme := schemes_of (provider v).

(** The verifier [Verifier::new] installs in the client, if it makes a pinned one. *)
Definition installed (c : Client) (ring : Algorithms) : option PinnedKeyVerifier :=
  match c with PlaintextClient => None | PinnedClient pins => Some (mkPinnedKeyVerifier pins ring) end.

End Handshake.

Lemma verify_server_cert_Ok spki_of sha256 pins cert :
  verify_server_cert spki_of sha256 pins cert = Ok tt <-> exists spki, spki_of cert = Some spki /\ sha256 spki ∈ pins.
Proof.
  unfold verify_server_cert. destruct (spki_of cert) as [spki|].
  - case_bool_decide as H; split; [by eauto|done|done|]. by intros (s & [= <-] & ?).
  - split; [done|]. by intros (s & ? & _).
Qed.

Lemma parse_pins_elem {T : ThresholdScheme} {X : Externals T} ks pins : parse_pins ks = Ok pins ->
  forall b, b ∈ pins <-> exists k, k ∈ ks /\ hex_decode (trim_0x k) = Some b.
Proof.
  revert pins. induction ks as [|k ks IH]; intros pins; cbn [parse_pins].
  { intros [= <-] b. split; [set_solver|intros (k & ? & _); set_solver]. }
  unfold parse_pin. destruct (hex_decode (trim_0x k)) as [p|] eqn:E; [|done]. case_match; [|done]. cbn [result_bind].
  destruct (parse_pins ks) as [ps|]; [|done]. intros [= <-] b. rewrite elem_of_cons, (IH ps eq_refl b). split.
  - intros [->|(k' & ? & ?)]; [exists k|exists k']; (split; [set_solver|done]).
  - intros (k' & [->|Hk]%elem_of_cons & Hb); [left; congruence|right; eauto].
Qed.

(** ** SHA-256 *)

Module Sha256.

Definition word (z : Z) : Z := z mod 2 ^ 32.
Definition rotr (n x : Z) : Z := Z.lor (Z.shiftr x n) (word (Z.shiftl x (32 - n))).

(** The constants are the leading fractional bits of roots of the first primes: square roots
    for the initial state, cube roots for the rounds. *)
Definition is_prime (p : nat) : bool := forallb (fun d => negb (p mod d =? 0)%nat) (seq 2 (p - 2)).
Definition primes : list Z := map Z.of_nat (List.filter is_prime (seq 2 310)).

Definition cube_root (z : Z) : Z :=
  foldl (fun r k => let c := r + 2 ^ Z.of_nat k in if c ^ 3 <=? z then c else r) 0 (reverse (seq 0 36)).

Definition initial : list Z := map (fun p => word (Z.sqrt (Z.shiftl p 64))) (take 8 primes).
Definition round_constants : list Z := map (fun p => word (cube_root (Z.shiftl p 96))) (take 64 primes).

(** The message, a one bit, zeros to 56 bytes modulo 64, the length in bits. *)
Definition padded (m : bytes) : bytes :=
  m ++ Byte.x80 :: replicate (Z.to_nat ((55 - Z.of_nat (length m)) mod 64)) Byte.x00 ++ be_bytes 8 (8 * Z.of_nat (length m)).

Fixpoint chunks (fuel n : nat) (l : bytes) : list bytes :=
  match fuel, l with
  | O, _ | _, [] => []
  | S fuel, _ => take n l :: chunks fuel n (drop n l)
  end.

(** The schedule, the latest word first. *)
Fixpoint expand (n : nat) (w : list Z) : list Z :=
  match n with
  | O => w
  | S n =>
      let at_ i := default 0 (w !! i) in
      let s0 := let x := at_ 14%nat in Z.lxor (Z.lxor (rotr 7 x) (rotr 18 x)) (Z.shiftr x 3) in
      let s1 := let x := at_ 1%nat in Z.lxor (Z.lxor (rotr 17 x) (rotr 19 x)) (Z.shiftr x 10) in
      expand n (word (at_ 15%nat + s0 + at_ 6%nat + s1) :: w)
  end.

Definition schedule (block : bytes) : list Z := reverse (expand 48 (reverse (map be_value (chunks 16 4 block)))).

Definition round (state : list Z) (kw : Z * Z) : list Z :=
  match state with
  | [a; b; c; d; e; f; g; h] =>
      let big1 := Z.lxor (Z.lxor (rotr 6 e) (rotr 11 e)) (rotr 25 e) in
      let choice := Z.lxor (Z.land e f) (Z.land (2 ^ 32 - 1 - e) g) in
      let t1 := h + big1 + choice + kw.1 + kw.2 in
      let big0 := Z.lxor (Z.lxor (rotr 2 a) (rotr 13 a)) (rotr 22 a) in
      let major := Z.lxor (Z.lxor (Z.land a b) (Z.land a c)) (Z.land b c) in
      [word (t1 + big0 + major); a; b; c; word (d + t1); e; f; g]
  | _ => state
  end.

Definition compress (state : list Z) (block : bytes) : list Z :=
  zip_with (fun x y => word (x + y)) state (foldl round state (zip round_constants (schedule block))).

Definition digest (m : bytes) : bytes :=
  let p := padded m in concat (map (be_bytes 4) (foldl compress initial (chunks (length p) 64 p))).

End Sha256.

(** The two examples of the standard: one block, and two. *)
Example sha256_abc : Toy.hex (Sha256.digest (str_bytes "abc")) =
  "ba7816bf8f01cfea414140de5dae2223b00361a396177a9cb410ff61f20015ad".
Proof. vm_compute. reflexivity. Qed.

Example sha256_two_blocks : Toy.hex (Sha256.digest (str_bytes "abcdbcdecdefdefgefghfghighijhijkijkljklmklmnlmnomnopnopq")) =
  "248d6a61d20638b8e5c026930c3e6039a33ce45964ff2167f6ecedd419db06c1".
Proof. vm_compute. reflexivity. Qed.

(** ** Certificates *)

Module X509.

(** The standard alphabet of base64. *)
Definition sextet (c : ascii) : option Z :=
  let z := Z.of_nat (nat_of_ascii c) in
  if (65 <=? z) && (z <=? 90) then Some (z - 65)
  else if (97 <=? z) && (z <=? 122) then Some (z - 71)
  else if (48 <=? z) && (z <=? 57) then Some (z + 4)
  else if z =? 43 then Some 62 else if z =? 47 then Some 63 else None.

(** Groups of four characters; only the last may be padded. *)
Fixpoint b64_decode (s : string) : option bytes :=
  match s with
  | EmptyString => Some []
  | String a (String b (String c (String d s))) =>
      match sextet a, sextet b, sextet c, sextet d with
      | Some x, Some y, Some z, Some w =>
          app (be_bytes 3 (((x * 64 + y) * 64 + z) * 64 + w)) <$> b64_decode s
      | Some x, Some y, Some z, None =>
          if Ascii.eqb d "=" && bool_decide (s = EmptyString) && (z mod 4 =? 0)
          then Some (be_bytes 2 (((x * 64 + y) * 64 + z) / 4)) else None
      | Some x, Some y, None, None =>
          if Ascii.eqb c "=" && Ascii.eqb d "=" && bool_decide (s = EmptyString) && (y mod 16 =? 0)
          then Some (be_bytes 1 ((x * 64 + y) / 16)) else None
      | _, _, _, _ => None
      end
  | _ => None
  end.

(** One element of a DER sequence: its tag, all its bytes, its contents, and what follows. *)
Definition element (l : bytes) : option (byte * bytes * bytes * bytes) :=
  match l with
  | tag :: len :: rest =>
      let n := Z_of_byte len in
      let k := if n <? 128 then 0%nat else Z.to_nat (n - 128) in
      let size := if n <? 128 then Z.to_nat n else Z.to_nat (be_value (take k rest)) in
      if (k + size <=? length rest)%nat
      then Some (tag, take (2 + k + size) l, take size (drop k rest), drop (k + size) rest) else None
  | _ => None
  end.

Fixpoint skip (n : nat) (l : bytes) : option bytes :=
  match n with
  | O => Some l
  | S n => match element l with Some (_, _, _, rest) => skip n rest | None => None end
  end.

(** [tbs_certificate.subject_pki.raw]: after the version, which may be absent, come the serial
    number, the algorithm, the issuer, the validity, the subject and then the key. *)
Definition subject_pki (cert : bytes) : option bytes :=
  match element cert with
  | Some (_, _, body, _) =>
      match element body with
      | Some (_, _, tbs, _) =>
          match element tbs with
          | Some (tag, _, _, _) =>
              match skip (if bool_decide (tag = Byte.xa0) then 6 else 5)%nat tbs with
              | Some rest => match element rest with Some (_, raw, _, _) => Some raw | None => None end
              | None => None
              end
          | None => None
          end
      | None => None
      end
  | None => None
  end.

End X509.

Module PinTests.

Definition CERT_DER_B64 : string :=
  "MIIBcjCCARmgAwIBAgIUfCxSzNoq7qm/oi1ugTmy7eEmbPUwCgYIKoZIzj0EAwIwDzENMAsGA1UEAwwEc2NhbjAeFw0yNjA5MzAwMzM4MjBaFw0zNjA5MjcwMzM4MjBaMA8xDTALBgNVBAMMBHNjYW4wWTATBgcqhkjOPQIBBggqhkjOPQMBBwNCAARrYuw2nBIQxct5l9TmkbvUPlToniTlW4UE+sriPnXJeJQCfRax99BTnXoJwFuG3C7ljvv+Fpy21KvK03m77jwio1MwUTAdBgNVHQ4EFgQUTZ063JN8YVwx4edU98NTSNGnYyowHwYDVR0jBBgwFoAUTZ063JN8YVwx4edU98NTSNGnYyowDwYDVR0TAQH/BAUwAwEB/zAKBggqhkjOPQQDAgNHADBEAiA8Btl0CoZIB0Kvj8MZgWUpHq2p/ALnmd4NzMqRHZWN2QIgeT7JsgO7FL+9vtGEUpIlBjV6dChnKvkjJBACgcS1RJM=".
Definition OPENSSL_PIN : string := "915497ac63671c8f78b8cecda9ca2c01e6c702de46bb71091252b60b0b375c80".

(** The certificate openssl made is accepted under the pin openssl computed. *)
Definition pin_matches_openssl_derived_vector : bool :=
  match X509.b64_decode CERT_DER_B64, Toy.unhex OPENSSL_PIN with
  | Some cert, Some pin => is_ok (verify_server_cert X509.subject_pki Sha256.digest [pin] cert)
  | _, _ => false
  end.

End PinTests.

Theorem pin_test_holds : PinTests.pin_matches_openssl_derived_vector = true.
Proof. vm_compute. reflexivity. Qed.

(** C15: the scan service is whoever holds a configured key.  If a configuration is accepted
    with a TLS client, the verifier in that client accepts a certificate exactly when the
    SHA-256 of its SubjectPublicKeyInfo, the whole DER of it, is one of the configured pins;
    there is at least one pin and each has 32 bytes, so neither an empty set nor the raw
    65-byte key can stand for one. *)
Theorem tls_accepts_exactly_the_configured_keys {T : ThresholdScheme} {X : Externals T} {Algorithms : Type}
    spki_of sha256 builds cfg c (ring : Algorithms) v cert :
  Verifier_new builds cfg = Ok c -> installed c ring = Some v ->
  (verify_server_cert spki_of sha256 (pinned v) cert = Ok tt <->
   exists spki k, spki_of cert = Some spki /\ k ∈ pubkeys cfg /\ hex_decode (trim_0x k) = Some (sha256 spki)) /\
  pinned v <> [] /\ Forall (fun p => length p = 32%nat) (pinned v).
Proof.
  intros Hc Hv. destruct c as [|pins]; [done|]. injection Hv as <-. cbn [pinned].
  assert (parse_pins (pubkeys cfg) = Ok pins /\ pins <> []) as [Hp Hne].
  { revert Hc. unfold Verifier_new. destruct (Verifier.strip_prefix "http://" _); [by destruct (negb _), builds|].
    destruct (Verifier.strip_prefix "https://" _); [|done]. destruct (parse_pins _) as [[|p ps]|]; cbn [result_bind]; [done| |done].
    destruct builds; [|done]. by intros [= <-]. }
  split; [|split; [done|by eapply parse_pins_lengths]]. rewrite verify_server_cert_Ok. split.
  - intros (spki & Hs & (k & Hk & Hd)%(parse_pins_elem _ _ Hp)). by exists spki, k.
  - intros (spki & k & Hs & Hk & Hd). exists spki. split; [done|]. apply (parse_pins_elem _ _ Hp). by exists k.
Qed.

Definition openssl_scan : VerifierConfig :=
  {| verifier_url := "https://scan.example"; pubkeys := ["0x" +:+ PinTests.OPENSSL_PIN]; api_key := "key"; insecure_http := false |}.

(** The certificate made by openssl, under the pin computed by openssl. *)
Lemma tls_accepts_exactly_the_configured_keys_witness :
  verify_server_cert X509.subject_pki Sha256.digest [Sha256.digest (default [] (X509.subject_pki
    (default [] (X509.b64_decode PinTests.CERT_DER_B64))))] (default [] (X509.b64_decode PinTests.CERT_DER_B64)) = Ok tt.
Proof.
  destruct (Verifier_new true openssl_scan) as [c|e] eqn:E; [|vm_compute in E; discriminate E].
  destruct (installed c tt) as [v|] eqn:Ev; [|vm_compute in E; injection E as <-; discriminate Ev].
  pose proof (tls_accepts_exactly_the_configured_keys X509.subject_pki Sha256.digest true openssl_scan c tt v
    (default [] (X509.b64_decode PinTests.CERT_DER_B64)) E Ev) as [[_ H] _].
  assert (pinned v = [Sha256.digest (default [] (X509.subject_pki (default [] (X509.b64_decode PinTests.CERT_DER_B64))))]) as <-.
  { vm_compute in E. injection E as <-. injection Ev as <-. vm_compute. reflexivity. }
  apply H. destruct (X509.subject_pki _) as [spki|] eqn:Es; [|vm_compute in Es; discriminate Es].
  exists spki, ("0x" +:+ PinTests.OPENSSL_PIN). split; [reflexivity|]. split; [left|].
  vm_compute in Es. injection Es as <-. vm_compute. reflexivity.
Defined.
