(* ===== verification/Auth.v ===== *)
(** [src/src/auth.rs]: who is calling.  An inbound gRPC request is accepted when its
    signature metadata recovers to a node the registry lists and the attestation gate
    lets through; a peer's ECIES response is accepted on the same terms. *)
From S2P Require Import Base Threshold Prelude Prog State Externals Models Crypto Chain Verifier.
From Stdlib Require Import Ascii String ZArith Lia.
From stdpp Require Import base list gmap strings pretty.
Local Open Scope Z_scope.

(** Request metadata: header names to raw header values. *)
Abbreviation MetadataMap := (gmap string bytes).

Record AuthContext := mkAuthContext {
  caller_pubkey : bytes;
  caller_eth_addr : Address
}.

(** [HeaderValue::to_str]: visible ASCII and tab only. *)
Definition to_str (v : bytes) : option string :=
  if forallb (fun b => let z := Z_of_byte b in (32 <=? z) && (z <? 127) || (z =? 9)) v
  then Some (string_of_list_byte v) else None.

Definition unauthenticated (m : string) : Status := mkStatus Unauthenticated m.
Definition permission_denied (m : string) : Status := mkStatus PermissionDenied m.

(** [(now - ts).abs() > tolerance] on [i64], as a release build computes it. *)
Definition too_far (now ts tolerance : Z) : bool := tolerance <? i64_abs (wrap_i64 (now - ts)).

Section Auth.
Context {T : ThresholdScheme} {X : Externals T}.

(** [{:?}] of an address. *)
Definition fmt_addr (a : Address) : string := "0x" +:+ hex_encode a.

Definition parse_metadata (metadata : MetadataMap) : result (bytes * Z) Status :=
  let? sig_v := ok_or (metadata !! "signature") (unauthenticated "missing 'signature' metadata") in
  let? sig_hex := ok_or (to_str sig_v) (unauthenticated "'signature' is not valid UTF-8") in
  let? ts_v := ok_or (metadata !! "timestamp") (unauthenticated "missing 'timestamp' metadata") in
  let? ts_str := ok_or (to_str ts_v) (unauthenticated "'timestamp' is not valid UTF-8") in
  let? sig_bytes := ok_or (hex_decode (trim_0x sig_hex))
                          (unauthenticated "'signature' is not valid hex") in
  if negb (length sig_bytes =? 65)%nat then Err (unauthenticated "signature must be 65 bytes")
  else
    let? timestamp := ok_or (parse_i64 ts_str)
                            (unauthenticated "'timestamp' is not a valid integer") in
    Ok (sig_bytes, timestamp).

(** On 65 bytes r || s || v; [v % 2] is always a recovery id. *)
Definition recover_pubkey (message sig_bytes : bytes) : result bytes string :=
  let v := default Byte.x00 (sig_bytes !! 64%nat) in
  let recovery_id := Z_of_byte v mod 2 in
  let? sig := map_err (fun e => "cannot parse signature: " +:+ e)
                      (k256_sig_parse (take 64 sig_bytes)) in
  map_err (fun e => "key recovery failed: " +:+ e) (k256_recover (keccak256 message) sig recovery_id).

Definition eth_address_from_pubkey (pubkey : bytes) : Address :=
  drop 12 (keccak256 (drop 1 pubkey)).

Definition recover_signer_address (message sig_bytes : bytes) : result Address string :=
  if negb (length sig_bytes =? 65)%nat then
    Err ("signature must be 65 bytes, got " +:+ pretty (length sig_bytes))
  else
    let? pubkey := recover_pubkey message sig_bytes in
    Ok (eth_address_from_pubkey pubkey).

Definition verify_on_chain (addr : Address) (config : Config) : kms (result unit string) :=
  let! r := get_signer_addresses_for (rpc_url (chain config)) (contract_address (chain config))
                                     (tapp_app_id (tapp config)) addr in
  match r with
  | Err e => Ret (Err ("getNodeList failed: " +:+ KmsError_to_string e))
  | Ok signers =>
      Ret (if decide (signers = []) then
             Err ("app '" +:+ tapp_app_id (tapp config) +:+ "' not found on-chain")
           else if decide (addr ∈ signers) then Ok tt
           else Err ("caller " +:+ fmt_addr addr +:+ " is not a registered node"))
  end.

Definition authenticate (metadata : MetadataMap) (method : string) (config : Config) :
    kms (result AuthContext Status) :=
  let!? p := Ret (parse_metadata metadata) in
  let '(sig_bytes, timestamp) := p in
  let! now := ask Utc_now in
  if too_far now timestamp (timestamp_tolerance_secs (server config)) then
    Ret (Err (unauthenticated ("timestamp " +:+ pretty timestamp +:+ " too far from now (" +:+
                               pretty (now : Z) +:+ ")")))
  else
    let!? caller_pubkey := Ret (map_err (fun e => unauthenticated ("invalid signature: " +:+ e))
                             (recover_pubkey (request_msg method timestamp) sig_bytes)) in
    let caller_eth_addr := eth_address_from_pubkey caller_pubkey in
    let! on_chain := verify_on_chain caller_eth_addr config in
    let!? _ := Ret (map_err (fun e => unauthenticated ("on-chain verification failed: " +:+ e))
                            on_chain) in
    let! verified := require_verified (tapp_app_id (tapp config)) caller_eth_addr 0 in
    let!? _ := Ret (map_err (fun reason => permission_denied ("attestation gate: " +:+ reason))
                            verified) in
    Ret (Ok (mkAuthContext caller_pubkey caller_eth_addr)).

Definition verify_cluster_response (message sig_bytes : bytes) (config : Config) :
    kms (result unit string) :=
  let!? signer := Ret (recover_signer_address message sig_bytes) in
  let! r := get_signer_addresses_for (rpc_url (chain config)) (contract_address (chain config))
                                     (tapp_app_id (tapp config)) signer in
  let!? nodes := Ret (map_err (fun e => "nodeList lookup failed: " +:+ KmsError_to_string e) r) in
  if decide (signer ∈ nodes) then
    let! verified := require_verified (tapp_app_id (tapp config)) signer 0 in
    Ret (map_err (fun reason => "response signer failed attestation gate: " +:+ reason) verified)
  else Ret (Err ("response signer " +:+ fmt_addr signer +:+ " is not a registered node")).

End Auth.

(** * Freshness *)

(** C30: what the freshness check accepts, exactly.  For a clock after the epoch and a
    non-negative tolerance the accepted timestamps are those within the tolerance of now,
    and one more: [now - 2^63], for which the subtraction yields [i64::MIN], whose
    absolute value is itself. *)
Theorem timestamp_window_exact now ts tol :
  0 <= tol -> 0 <= now < 2 ^ 63 - tol -> in_i64 ts ->
  too_far now ts tol = false <-> Z.abs (now - ts) <= tol \/ ts = now - 2 ^ 63.
Proof.
  intros Htol Hnow [Hl Hh]. unfold too_far. rewrite Z.ltb_ge.
  assert (now - ts < 2 ^ 63 \/ 2 ^ 63 <= now - ts) as [Hd|Hd] by lia.
  - rewrite (wrap_i64_id (now - ts)) by (unfold in_i64; lia). unfold i64_abs.
    rewrite wrap_i64_id by (unfold in_i64; lia). lia.
  - unfold wrap_i64, i64_abs. replace ((now - ts + 2 ^ 63) mod 2 ^ 64) with (now - ts - 2 ^ 63)
      by (apply Z.mod_unique with 1; lia).
    destruct (decide (now - ts = 2 ^ 63)) as [E|E].
    + rewrite E. split; [intros _; right; lia|intros _; vm_compute; by destruct tol].
    + unfold wrap_i64. rewrite Z.mod_small by lia. lia.
Qed.

Lemma timestamp_window_exact_witness :
  too_far 1700000000 (1700000000 - 2 ^ 63) 300 = false.
Proof. apply timestamp_window_exact; [lia|lia|unfold in_i64; lia|right; reflexivity]. Defined.

(** * Who gets through *)

Section Admission.
Context {T : ThresholdScheme} {X : Externals T}.
Context (config : Config) (cfg : VerifierConfig).
(** Lists the registry answered for each application, pairs scan vouched for, readings of
    the wall clock. *)
Context (P : string -> list Address -> Prop) (V : Key -> Prop) (C : Z -> Prop).

Abbreviation rpc := (rpc_url (chain config)).
Abbreviation ca := (contract_address (chain config)).
Abbreviation app := (tapp_app_id (tapp config)).

Definition clock_reads (c : Call) : ans c -> Prop :=
  match c with Utc_now => C | _ => fun _ => True end.

Definition sources_ok (c : Call) (a : ans c) : Prop :=
  registry_says rpc ca P c a /\ scan_vouches V c a /\ clock_reads c a.

(** Both caches hold what those sources said, and the gate is on. *)
Definition admission_inv (w : World) : Prop :=
  vouched rpc ca P w /\ verdicts_backed V w /\ the_verifier w = Some (Some cfg).

(** The signer is on a list the registry answered for [app_id] and scan vouched for it. *)
Definition admitted_to (app_id : string) (a : Address) : Prop :=
  (exists l, P app_id l /\ a ∈ l) /\ V (app_id, a).

(** It is a node of the cluster's own application. *)
Definition admitted (a : Address) : Prop := admitted_to app a.

Lemma core_verifier s s' : core s' = core s -> the_verifier s' = the_verifier s.
Proof. unfold core. congruence. Qed.

Lemma signers_safe app_id signer :
  safe admission_inv sources_ok (get_signer_addresses_for rpc ca app_id signer)
    (fun r => forall l, r = Ok l -> P app_id l).
Proof.
  eapply safe_equiv; [|eapply (safe_frame _ _ (fun w => verdicts_backed V w /\
    the_verifier w = Some (Some cfg))); [|eapply safe_ok_mono;
    [|apply (get_signer_addresses_for_vouched rpc ca P)]]].
  - done.
  - eapply guar_mono; [|apply get_signer_addresses_for_frame].
    intros s s' [Hc Hv] [H1 H2]. unfold verdicts_backed. rewrite Hv, (core_verifier _ _ Hc). done.
  - by intros c a [? _].
Qed.

Lemma gate_safe app_id signer wait :
  safe admission_inv sources_ok (require_verified app_id signer wait)
    (fun r => r = Ok tt -> V (app_id, signer)).
Proof.
  unfold require_verified. safe_step. intros w Hw. split; [done|]. safe_step.
  rewrite (proj2 (proj2 Hw)).
  eapply safe_equiv; [|eapply (safe_frame _ _ (fun w => vouched rpc ca P w /\
    the_verifier w = Some (Some cfg))); [|eapply safe_ok_mono; [|apply (verifier_backed V)]]].
  - unfold admission_inv. naive_solver.
  - pose proof (require_verified_frame app_id signer wait) as Hg. unfold require_verified in Hg.
    simpl in Hg. destruct (Hg w) as [_ Hg']. rewrite (proj2 (proj2 Hw)) in Hg'.
    eapply guar_mono; [|exact Hg']. intros s s' [Hc Hn] [H1 H2]. unfold vouched.
    by rewrite Hn, (core_verifier _ _ Hc).
  - by intros c a (_ & ? & _).
Qed.

Lemma verify_on_chain_safe a :
  safe admission_inv sources_ok (verify_on_chain a config)
    (fun r => r = Ok tt -> exists l, P app l /\ a ∈ l).
Proof.
  unfold verify_on_chain. safe_step. eapply safe_mono; [apply signers_safe|].
  intros [l|e] Hl; safe_step; [|done]. repeat case_decide; naive_solver.
Qed.

Lemma authenticate_safe metadata method :
  safe admission_inv sources_ok (authenticate metadata method config)
    (fun r => forall ctx, r = Ok ctx ->
       exists sig ts t, parse_metadata metadata = Ok (sig, ts) /\ C t /\
         too_far t ts (timestamp_tolerance_secs (server config)) = false /\
         recover_pubkey (request_msg method ts) sig = Ok (caller_pubkey ctx) /\
         caller_eth_addr ctx = eth_address_from_pubkey (caller_pubkey ctx) /\
         admitted (caller_eth_addr ctx)).
Proof.
  unfold authenticate. do 2 safe_step. destruct (parse_metadata metadata) as [[sig ts]|e] eqn:Ep; [|done].
  safe_step. intros t (_ & _ & Ht). safe_step. simpl in Ht.
  destruct (too_far _ _ _) eqn:Ef; [by safe_step|]. do 2 safe_step.
  destruct (recover_pubkey _ _) as [pk|e] eqn:Er; cbn [map_err]; [|done].
  safe_step. eapply safe_mono; [apply verify_on_chain_safe|]. intros [[]|e] Hl; do 2 safe_step; cbn [map_err]; [|done].
  safe_step. eapply safe_mono; [apply gate_safe|]. intros [[]|e] Hv; do 2 safe_step; cbn [map_err]; [|done].
  safe_step. intros ctx [= <-]. exists sig, ts, t. unfold admitted, admitted_to. simpl. eauto 10.
Qed.

Lemma verify_cluster_response_safe message sig :
  safe admission_inv sources_ok (verify_cluster_response message sig config)
    (fun r => r = Ok tt -> exists a, recover_signer_address message sig = Ok a /\ admitted a).
Proof.
  unfold verify_cluster_response. do 2 safe_step.
  destruct (recover_signer_address _ _) as [a|e] eqn:Ea; [|done]. safe_step.
  eapply safe_mono; [apply signers_safe|]. intros [l|e] Hl; do 2 safe_step; cbn [map_err]; [|done].
  case_decide as Hin; [|by safe_step]. safe_step. eapply safe_mono; [apply gate_safe|].
  intros [[]|e] Hv; safe_step; cbn [map_err]; [|done]. intros _. exists a.
  split; [done|]. split; eauto.
Qed.

End Admission.

(** C13: an authenticated caller is who it says and is allowed to call.  If [authenticate]
    accepts, the metadata carried a 65-byte signature that recovers, over the method
    called and the stated timestamp, to the caller's key; the timestamp passed the
    freshness check against a reading of the clock; and the caller's address is on a list
    the registry answered for the cluster's application and was vouched for by scan.
    This holds under any interference of the other tasks that keeps the caches honest. *)
Theorem authenticated_caller_is_admitted {T : ThresholdScheme} {X : Externals T} (o : kms_oracle)
    config cfg P V C metadata method x :
  relies o (fun w w' => admission_inv config cfg P V w -> admission_inv config cfg P V w') ->
  admission_inv config cfg P V (x_st x) ->
  let '(r, y) := run o (authenticate metadata method config) x in
  Forall (ev_ok (sources_ok config P V C)) (x_log y) ->
  forall ctx, r = Ok ctx ->
    exists sig ts t, parse_metadata metadata = Ok (sig, ts) /\ C t /\
      too_far t ts (timestamp_tolerance_secs (server config)) = false /\
      recover_pubkey (request_msg method ts) sig = Ok (caller_pubkey ctx) /\
      caller_eth_addr ctx = eth_address_from_pubkey (caller_pubkey ctx) /\
      admitted config P V (caller_eth_addr ctx).
Proof.
  intros Ho Hi. pose proof (safe_sound _ _ o _ _ x Ho Hi
    (authenticate_safe config cfg P V C metadata method)) as H.
  destruct (run _ _ _) as [r y]. intros Hl. by apply H.
Qed.

(** * The honest caller *)

Section Honest.
Context {T : ThresholdScheme} {X : Externals T}.

(** What every gRPC client of the program attaches to its requests ([grpc.rs],
    [init.rs]). *)
Definition request_metadata (sig : bytes) (timestamp : Z) : MetadataMap :=
  <["signature" := str_bytes (hex_encode sig)]>
    (<["timestamp" := str_bytes (pretty timestamp)]> ∅).

Lemma to_str_visible s : string_forall visible_char s = true -> to_str (str_bytes s) = Some s.
Proof.
  intros Hs. unfold to_str, str_bytes. rewrite string_of_list_byte_of_string.
  replace (forallb _ _) with true; [done|]. symmetry.
  induction s as [|c s IH]; [done|]. simpl in Hs. apply andb_true_iff in Hs as [Hc Hs].
  change (list_byte_of_string (String c s)) with (byte_of_ascii c :: list_byte_of_string s).
  cbn [forallb]. rewrite IH by done. rewrite andb_true_r. clear -Hc.
  by destruct c as [[] [] [] [] [] [] [] []].
Qed.

Lemma parse_request_metadata sig ts :
  hex_roundtrip X -> length sig = 65%nat -> in_i64 ts ->
  parse_metadata (request_metadata sig ts) = Ok (sig, ts).
Proof.
  intros Hhex Hlen Hts. destruct (Hhex sig) as [Hd Hl]. unfold parse_metadata, request_metadata.
  rewrite lookup_insert_eq, lookup_insert_ne, lookup_insert_eq by done. simpl.
  rewrite !to_str_visible by (apply pretty_Z_visible || by apply lower_hex_visible). simpl.
  rewrite (lower_hex_trim _ Hl), Hd. simpl. rewrite Hlen. simpl. by rewrite parse_i64_pretty.
Qed.

Lemma Z_of_byte_small v : 0 <= v < 256 -> Z_of_byte (byte_of_Z v) = v.
Proof. intros. rewrite Z_of_byte_of_Z. by apply Z.mod_small. Qed.

(** A signature with an x-coordinate that was not reduced ([v < 2]) recovers its signer. *)
Lemma recover_own_signature sk pk msg rs v :
  ecdsa_recover X -> k256_pubkey sk = Ok pk -> k256_sign sk (keccak256 msg) = Ok (rs, v) -> v < 2 ->
  sign_bytes sk msg = Ok (rs ++ [byte_of_Z v]) /\ length (rs ++ [byte_of_Z v]) = 65%nat /\
  recover_pubkey msg (rs ++ [byte_of_Z v]) = Ok pk.
Proof.
  intros Hlaw Hpk Hs Hv. destruct (Hlaw sk pk _ rs v Hpk Hs) as (Hlen & Hr & Hp & Hrec).
  unfold sign_bytes, recover_pubkey. rewrite Hpk, Hs. simpl.
  rewrite lookup_app_r, Hlen by lia. simpl. rewrite Z_of_byte_small by lia.
  rewrite Z.mod_small by lia. rewrite take_app_length' by done. rewrite Hp. simpl. rewrite Hrec.
  split; [done|]. split; [|done]. rewrite length_app, Hlen. done.
Qed.

Lemma verify_on_chain_member config a e s t log :
  node_list_cache s !! cache_key (rpc_url (chain config)) (contract_address (chain config))
    (tapp_app_id (tapp config)) = Some e -> a ∈ addrs e ->
  wp eq (verify_on_chain a config)
    (fun r s' t' log' => t <= t' /\ (elapsed t' (fetched_at e) < NODE_LIST_TTL ->
       r = Ok tt /\ s' = s /\ log' = log)) s t log.
Proof.
  intros He Ha. unfold verify_on_chain. wp_step.
  eapply wp_mono; [|by apply (get_signer_addresses_for_warm _ _ _ e)].
  intros r s1 t1 log1 [Ht Hw].
  assert (elapsed t1 (fetched_at e) < NODE_LIST_TTL \/ NODE_LIST_TTL <= elapsed t1 (fetched_at e))
    as [Hlt|Hge] by lia.
  - destruct (Hw Hlt) as (-> & -> & ->). wp_step.
    split; [lia|]. intros _. rewrite decide_False by (by intros Hn; rewrite Hn in Ha; apply not_elem_of_nil in Ha).
    by rewrite decide_True.
  - destruct r; wp_step; (split; [lia|]); intros; exfalso; unfold elapsed in *; lia.
Qed.

Lemma authenticate_honest config method sk pk rs v ts e s t log :
  hex_roundtrip X -> ecdsa_recover X ->
  k256_pubkey sk = Ok pk -> k256_sign sk (keccak256 (request_msg method ts)) = Ok (rs, v) -> v < 2 ->
  in_i64 ts ->
  node_list_cache s !! cache_key (rpc_url (chain config)) (contract_address (chain config))
    (tapp_app_id (tapp config)) = Some e ->
  eth_address_from_pubkey pk ∈ addrs e ->
  wp eq (authenticate (request_metadata (rs ++ [byte_of_Z v]) ts) method config)
    (fun r _ t' log' => forall evs, log' = log ++ evs ->
       (forall z, Ev Utc_now z ∈ evs ->
          too_far z ts (timestamp_tolerance_secs (server config)) = false) ->
       elapsed t' (fetched_at e) < NODE_LIST_TTL ->
       gate_open (tapp_app_id (tapp config)) (eth_address_from_pubkey pk) s t' ->
       r = Ok (mkAuthContext pk (eth_address_from_pubkey pk)) /\ length evs = 1%nat) s t log.
Proof.
  intros Hhex Hec Hpk Hs Hv Hts He Ha.
  destruct (recover_own_signature sk pk _ rs v Hec Hpk Hs Hv) as (Hsig & Hlen & Hrec).
  unfold authenticate. rewrite parse_request_metadata by done. wp_step. apply wp_ret.
  intros s0 t0 <- Ht0. wp_step. intros ? t1 <- Ht1 now ? t2 <- Ht2. cbv beta.
  destruct (too_far now _ _) eqn:Ef.
  { wp_step. intros evs Hl Hz. apply app_inv_head in Hl as <-. rewrite Hz in Ef; [done|set_solver]. }
  rewrite Hrec. wp_step. cbn [map_err]. apply wp_ret. intros ? t3 <- Ht3. wp_step.
  eapply wp_mono; [|by apply verify_on_chain_member]. intros r s1 t4 log4 [Ht4 Hon].
  assert (elapsed t4 (fetched_at e) < NODE_LIST_TTL \/ NODE_LIST_TTL <= elapsed t4 (fetched_at e))
    as [Hlt|Hge] by lia.
  2: { eapply wp_mono; [|apply wp_progress; apply _]. intros ? ? ? ? [? _] ? ? ? ?.
       unfold elapsed in *. lia. }
  destruct (Hon Hlt) as (-> & -> & ->). wp_step. cbn [map_err]. apply wp_ret. intros ? t5 <- Ht5. wp_step.
  eapply wp_mono; [|apply wp_conj; [apply gate_open_spec|apply wp_progress; apply _]].
  intros r s2 t6 log6 [Hgate [Ht6 _]].
  wp_step. destruct r as [[]|reason]; cbn [map_err]; repeat wp_step; intros evs Hl Hz Hlt' Hopen.
  all: destruct Hgate as (Hr & -> & _); [eapply gate_open_anti; [|exact Hopen]; lia|]; first [discriminate Hr|idtac].
  apply app_inv_head in Hl as <-. done.
Qed.

End Honest.

(** An honest, registered node is accepted, and accepting it costs nothing.  The
    metadata a client builds from its own signature over the method and a timestamp the
    responder's clock finds fresh authenticates to the client's key and address, the clock
    being the only thing consulted, when the client is on the warm list and the gate is
    open to it. *)
Theorem honest_caller_is_authenticated {T : ThresholdScheme} {X : Externals T} (o : kms_oracle)
    config method sk pk rs v ts e x :
  hex_roundtrip X -> ecdsa_recover X -> quiet o ->
  k256_pubkey sk = Ok pk -> k256_sign sk (keccak256 (request_msg method ts)) = Ok (rs, v) -> v < 2 ->
  in_i64 ts -> (forall n, too_far (o_ans o n Utc_now) ts (timestamp_tolerance_secs (server config)) = false) ->
  node_list_cache (x_st x) !! cache_key (rpc_url (chain config)) (contract_address (chain config))
    (tapp_app_id (tapp config)) = Some e ->
  eth_address_from_pubkey pk ∈ addrs e ->
  exists sig, sign_request sk method ts = Ok sig /\
    let '(r, y) := run o (authenticate (request_metadata sig ts) method config) x in
    elapsed (x_now y) (fetched_at e) < NODE_LIST_TTL ->
    gate_open (tapp_app_id (tapp config)) (eth_address_from_pubkey pk) (x_st x) (x_now y) ->
    r = Ok (mkAuthContext pk (eth_address_from_pubkey pk)) /\
    length (x_log y) = S (length (x_log x)).
Proof.
  intros Hhex Hec Hq Hpk Hs Hv Hts Hclock He Ha. exists (rs ++ [byte_of_Z v]).
  split; [by eapply recover_own_signature|].
  pose proof (run_quiet o _ _ x Hq (authenticate_honest config method sk pk rs v ts e _
    (x_now x) (x_log x) Hhex Hec Hpk Hs Hv Hts He Ha)) as H.
  destruct (run_log_ok (clock_reads (fun z => too_far z ts (timestamp_tolerance_secs (server config)) = false))
    o (authenticate (request_metadata (rs ++ [byte_of_Z v]) ts) method config) x)
    as (evs & Hlog & Hevs).
  { intros n []; simpl; auto. }
  destruct (run o _ x) as [r y]. intros Hlt Hopen. simpl in *.
  destruct (H evs Hlog) as [-> Hl]; [|done..|by rewrite Hlog, length_app, Hl, Nat.add_1_r].
  intros z Hz. exact (proj1 (Forall_forall _ _) Hevs _ Hz).
Qed.

(** ** A call of node 2 to node 1 *)

Definition toy_lists (app : string) (l : list Address) : Prop := app = "kms" /\ l = Toy.members.
Definition toy_clock (t : Z) : Prop := t = 1000.

Lemma toy_admission : admission_inv Toy.config Toy.scan toy_lists toy_vouched_for Toy.world.
Proof. split; [exact toy_vouched|]. split; [exact toy_backed|done]. Qed.

Lemma toy_sources n c : sources_ok Toy.config toy_lists toy_vouched_for toy_clock c (o_ans Toy.idle n c).
Proof. destruct c; (split; [|split]); try exact I; try discriminate; reflexivity. Qed.

Definition toy_sig : bytes := match sign_request Toy.sk2 "Gossip" 1000 with Ok s => s | Err _ => [] end.
Definition toy_metadata : MetadataMap := request_metadata toy_sig 1000.

Lemma authenticated_caller_is_admitted_witness :
  exists ctx, (run Toy.idle (authenticate toy_metadata "Gossip" Toy.config) (start Toy.world 5)).1 = Ok ctx /\
    admitted Toy.config toy_lists toy_vouched_for (caller_eth_addr ctx).
Proof.
  pose proof (authenticated_caller_is_admitted Toy.idle Toy.config Toy.scan toy_lists toy_vouched_for toy_clock
    toy_metadata "Gossip" (start Toy.world 5) (Toy.alone_relies _ _) toy_admission) as H.
  pose proof (start_log_ok (sources_ok Toy.config toy_lists toy_vouched_for toy_clock) Toy.idle
    (authenticate toy_metadata "Gossip" Toy.config) Toy.world 5 toy_sources) as Hl.
  assert (is_ok (run Toy.idle (authenticate toy_metadata "Gossip" Toy.config) (start Toy.world 5)).1 = true) as Hok
    by (vm_compute; reflexivity).
  destruct (run _ _ _) as [[ctx|e] y]; [|discriminate Hok]. exists ctx. split; [done|].
  destruct (H Hl ctx eq_refl) as (sig & ts & t & _ & _ & _ & _ & _ & Ha). exact Ha.
Defined.

Lemma honest_caller_is_authenticated_witness :
  (run Toy.idle (authenticate toy_metadata "Gossip" Toy.config) (start Toy.world 5)).1 =
  Ok (mkAuthContext (Toy.pubkey Toy.sk2) (Toy.addr_of Toy.sk2)).
Proof.
  destruct (honest_caller_is_authenticated Toy.idle Toy.config "Gossip" Toy.sk2 (Toy.pubkey Toy.sk2)
    (take 64 toy_sig) 0 1000 Toy.registered (start Toy.world 5) Toy.hex_ok Toy.ecdsa_ok (Toy.alone_quiet _))
    as (sig & Hs & H).
  - vm_compute. reflexivity.
  - vm_compute. reflexivity.
  - done.
  - done.
  - intros n. vm_compute. reflexivity.
  - vm_compute. reflexivity.
  - vm_compute. right. left.
  - assert (sig = toy_sig) as -> by (unfold toy_sig; by rewrite Hs).
    change (request_metadata toy_sig 1000) with toy_metadata in H.
    assert (x_now (run Toy.idle (authenticate toy_metadata "Gossip" Toy.config) (start Toy.world 5)).2 < 100) as Ht
      by (vm_compute; reflexivity).
    destruct (run _ _ _) as [r y]. cbn [fst snd] in *. apply H.
    + unfold elapsed, NODE_LIST_TTL, secs in *. cbn [fetched_at Toy.registered]. lia.
    + exists Toy.attested. split; [reflexivity|].
      unfold fresh_positive, elapsed, POSITIVE_REFRESH, MAX_VERDICT_STALENESS, secs.
      cbn [verified at_ confirmed_at Toy.attested andb]. apply andb_true_iff. rewrite !Z.ltb_lt. lia.
Defined.
