(* ===== verification/Derive.v ===== *)
(** The derivation path of [src/src/grpc.rs]: the [GetDprfPartial] handler a committee
    member runs, the client call that verifies and decrypts its response, and
    [collect_and_dprf], which collects partials until one epoch has a threshold of them,
    combines them, verifies the result against the group public key and derives the key. *)
From S2P Require Import Base Threshold Prelude Prog State Externals Models Crypto Chain Verifier Auth.
From Stdlib Require Import ZArith Lia.
From stdpp Require Import base list gmap strings pretty sorting.
Local Open Scope Z_scope.

Definition internal (m : string) : Status := mkStatus Internal m.
Definition unavailable (m : string) : Status := mkStatus Unavailable m.
Definition failed_precondition (m : string) : Status := mkStatus FailedPrecondition m.

Record DeriveTrace := mkDeriveTrace {
  coordinator : Z;
  trace_epoch : Z;
  servers : list Z
}.

Section Derive.
Context {T : ThresholdScheme} {X : Externals T}.
Context (config : Config) (signing_key : NodeKey).

(** * The responder *)

(** What the handler does once it holds the shard: sign the message, encrypt the partial
    to the caller, sign the ciphertext bound to caller and metadata. *)
Definition respond_partial (ctx : AuthContext) (app_id : string) (material : bytes)
    (shard : ShardState) : kms (result EncryptedPartial Status) :=
  let!? share := Ret (map_err (fun _ => internal "local shard unavailable")
                              (share_from_bytes (shard_bytes shard))) in
  let msg := dprf_message app_id material in
  let!? partial := Ret (map_err (fun _ => internal "partial signing failed")
                                (dprf_partial share msg)) in
  let! enc := ecies_encrypt (caller_pubkey ctx) (partial_to_bytes partial) in
  let!? ciphertext := Ret (map_err (fun _ => internal "encryption failed") enc) in
  let msg := dprf_partial_signing_msg (caller_eth_addr ctx) (shard_index shard)
                                      (shard_epoch shard) ciphertext in
  let!? signature := Ret (map_err (fun _ => internal "response signing failed")
                                  (sign_bytes (private_key signing_key) msg)) in
  Ret (Ok (mkEncryptedPartial ciphertext (shard_index shard) (shard_epoch shard) signature)).

(** The [GetDprfPartial] handler. *)
Definition handle_get_dprf_partial (metadata : MetadataMap) (app_id : string) (material : bytes) :
    kms (result EncryptedPartial Status) :=
  let!? ctx := authenticate metadata "GetDprfPartial" config in
  let! w := get in
  let!? shard := Ret (ok_or (shard w) (unavailable "node not initialized")) in
  respond_partial ctx app_id material shard.

(** The [GetShardContribution] handler. *)
Definition handle_get_shard_contribution (metadata : MetadataMap) :
    kms (result EncryptedShard Status) :=
  let!? ctx := authenticate metadata "GetShardContribution" config in
  let! w := get in
  let!? shard := Ret (ok_or (shard w) (unavailable "node not initialized")) in
  let! enc := ecies_encrypt (caller_pubkey ctx) (shard_bytes shard) in
  let!? ciphertext := Ret (map_err (fun _ => internal "encryption failed") enc) in
  let msg := shard_signing_msg "GetShardContribution" (caller_eth_addr ctx) (shard_index shard)
                               ciphertext in
  let!? signature := Ret (map_err (fun _ => internal "response signing failed")
                                  (sign_bytes (private_key signing_key) msg)) in
  Ret (Ok (mkEncryptedShard ciphertext (shard_index shard) signature)).

(** * The caller *)

Definition open_partial (own_private_key : bytes) (resp : EncryptedPartial) :
    result (Z * bytes * Z) string :=
  let? partial_bytes := map_err (fun e => "ECIES decrypt failed: " +:+ KmsError_to_string e)
                          (ecies_decrypt own_private_key (ep_ciphertext resp)) in
  Ok (ep_shard_index resp, partial_bytes, ep_epoch resp).

(** Verify origin and integrity, then decrypt. *)
Definition accept_partial (resp : EncryptedPartial) : kms (result (Z * bytes * Z) string) :=
  let signing_msg := dprf_partial_signing_msg (eth_address signing_key) (ep_shard_index resp)
                                              (ep_epoch resp) (ep_ciphertext resp) in
  let! v := verify_cluster_response signing_msg (ep_signature resp) config in
  let!? _ := Ret (map_err (fun e => "partial response verification failed: " +:+ e) v) in
  Ret (open_partial (private_key signing_key) resp).

Definition get_dprf_partial (peer_url app_id : string) (material sig : bytes) (timestamp : Z) :
    kms (result (Z * bytes * Z) string) :=
  let! reply := ask (Grpc_get_dprf_partial peer_url app_id material sig timestamp) in
  match reply : RpcReply EncryptedPartial with
  | ConnectFailed m => Ret (Err m)
  | RpcError st => Ret (Err (message st))
  | RpcOk resp => accept_partial resp
  end.

(** * Collecting *)

Record Collect := mkCollect {
  buckets : gmap Z (list SignatureShare);
  seen : gmap Z (gset Z);
  contributors : gmap Z (list Z);
  ready : option Z
}.

Definition bucket (c : Collect) (epoch : Z) : list SignatureShare :=
  default [] (buckets c !! epoch).
Definition seen_at (c : Collect) (epoch : Z) : gset Z := default ∅ (seen c !! epoch).
Definition contributors_at (c : Collect) (epoch : Z) : list Z :=
  default [] (contributors c !! epoch).

Definition reaches (threshold : Z) (l : list SignatureShare) : bool :=
  threshold <=? Z.of_nat (length l).

(** The own partial opens the collection. *)
Definition collect_own (threshold : Z) (own : ShardState) (own_partial : SignatureShare) : Collect :=
  mkCollect {[shard_epoch own := [own_partial]]} {[shard_epoch own := {[shard_index own]}]}
            {[shard_epoch own := [shard_index own]]}
            (if reaches threshold [own_partial] then Some (shard_epoch own) else None).

(** One answer: [None] for no counter, or the counter its discarding bumps. *)
Definition collect_one (threshold : Z) (c : Collect) (r : result (Z * bytes * Z) string) :
    Collect * option Metric :=
  match r with
  | Err _ => (c, Some dprf_discarded_peer_error)
  | Ok (idx, b, epoch) =>
      if decide (idx ∈ seen_at c epoch) then (c, None)
      else
        let seen' := <[epoch := {[idx]} ∪ seen_at c epoch]> (seen c) in
        match partial_from_bytes b with
        | Err _ => (mkCollect (buckets c) seen' (contributors c) (ready c),
                    Some dprf_discarded_malformed)
        | Ok p =>
            let l := bucket c epoch ++ [p] in
            (mkCollect (<[epoch := l]> (buckets c)) seen'
                       (<[epoch := contributors_at c epoch ++ [idx]]> (contributors c))
                       (if reaches threshold l then Some epoch else ready c), None)
        end
  end.

(** The loop over the answers, in the order they complete; it stops at the first epoch
    that reaches the threshold, dropping the requests still in flight. *)
Fixpoint collect_loop (threshold : Z) (call : string -> kms (result (Z * bytes * Z) string))
    (urls : list string) (c : Collect) : kms Collect :=
  match ready c, urls with
  | Some _, _ => Ret c
  | None, [] => Ret c
  | None, url :: urls =>
      let! r := call url in
      let '(c', m) := collect_one threshold c r in
      match m with
      | Some f => inc f;;; collect_loop threshold call urls c'
      | None => collect_loop threshold call urls c'
      end
  end.

Definition short_error (c : Collect) (threshold : Z) : KmsError :=
  let best := max_or_0 (map (fun kv => Z.of_nat (length kv.2)) (map_to_list (buckets c))) in
  CryptoError ("not enough valid partials in any single epoch: best " +:+ pretty best +:+
               ", need " +:+ pretty threshold).

(** Combine, verify against the group public key, derive. *)
Definition finish (own : ShardState) (c : Collect) (epoch : Z) (msg : bytes)
    (group_pubkey : option bytes) : result (bytes * DeriveTrace) KmsError :=
  let? sigma := map_err CryptoError (dprf_sigma (bucket c epoch)) in
  let? gpk := ok_or group_pubkey (CryptoError "no group public key to verify against") in
  let? _ := map_err CryptoError (dprf_verify sigma gpk msg) in
  Ok (sigma_to_app_key sigma,
      mkDeriveTrace (shard_index own) epoch (merge_sort Z.le (contributors_at c epoch))).

Definition collect_and_dprf (app_id : string) (material : bytes) :
    kms (result (bytes * DeriveTrace) KmsError) :=
  let! w := get in
  let!? own := Ret (ok_or (shard w) (ConfigError "node not initialized")) in
  let!? own_share := Ret (map_err CryptoError (share_from_bytes (shard_bytes own))) in
  let msg := dprf_message app_id material in
  let!? own_partial := Ret (map_err CryptoError (dprf_partial own_share msg)) in
  let! timestamp := ask Utc_now in
  let!? sig := Ret (map_err CryptoError
                 (sign_request (private_key signing_key) "GetDprfPartial" timestamp)) in
  let threshold := threshold (cluster config) in
  let! w := get in
  let! order := ask (Completion_order (peer_urls w)) in
  let! c := collect_loop threshold
              (fun url => get_dprf_partial url app_id material sig timestamp)
              (proj1_sig (order : { l : list string | l ≡ₚ peer_urls w })) (collect_own threshold own own_partial) in
  match ready c with
  | None => inc dprf_short;;; Ret (Err (short_error c threshold))
  | Some epoch =>
      let! w := get in
      Ret (finish own c epoch msg (group_pubkey w))
  end.

End Derive.

(** * The collection invariant *)

Section Collecting.
Context {T : ThresholdScheme} {X : Externals T}.
Context (thr : Z) (H : Z -> Z -> SignatureShare -> Prop).

(** Each bucket holds one partial per distinct contributor, each claimed for that epoch
    ([H e i p]), and [ready] names a bucket that has reached the threshold. *)
Definition collect_inv (c : Collect) : Prop := forall e,
  Forall2 (H e) (contributors_at c e) (bucket c e) /\ NoDup (contributors_at c e) /\
  (forall i, i ∈ contributors_at c e -> i ∈ seen_at c e) /\
  (ready c = Some e -> thr <= Z.of_nat (length (bucket c e))).

Lemma collect_own_inv own p : H (shard_epoch own) (shard_index own) p -> collect_inv (collect_own thr own p).
Proof.
  intros Hp e. unfold collect_own, contributors_at, bucket, seen_at. simpl.
  destruct (decide (e = shard_epoch own)) as [->|Hne].
  - rewrite !lookup_singleton_eq. simpl. split; [by repeat constructor|]. split; [apply NoDup_singleton|].
    split; [set_solver|]. unfold reaches. case_match eqn:E; [|done]. apply Z.leb_le in E. simpl in *. lia.
  - rewrite !lookup_singleton_ne by done. simpl. split; [constructor|]. split; [constructor|].
    split; [set_solver|]. case_match; [|done]. naive_solver.
Qed.

Lemma collect_one_inv c r :
  collect_inv c -> ready c = None ->
  (forall i b e p, r = Ok (i, b, e) -> partial_from_bytes b = Ok p -> H e i p) ->
  collect_inv (collect_one thr c r).1.
Proof.
  intros Hc Hr Hp. destruct r as [[[i b] e]|m]; [|done]. simpl.
  case_decide as Hseen; [done|]. intros e'. destruct (Hc e') as (H1 & H2 & H3 & H4).
  destruct (partial_from_bytes b) as [p|m] eqn:Ep; simpl.
  - unfold contributors_at, bucket, seen_at in *. simpl.
    destruct (decide (e' = e)) as [->|Hne].
    + rewrite !lookup_insert_eq. simpl. split; [apply Forall2_app; [done|constructor; [eauto|constructor]]|].
      split; [|split].
      * apply NoDup_app. split; [done|]. split; [|apply NoDup_singleton]. set_solver.
      * set_solver.
      * unfold reaches. case_match eqn:E; [intros _; by apply Z.leb_le in E|]. by rewrite Hr.
    + rewrite !lookup_insert_ne by done. split; [done|]. split; [done|]. split; [done|].
      case_match; [naive_solver|]. by rewrite Hr.
  - unfold contributors_at, bucket, seen_at in *. simpl. split; [done|]. split; [done|]. split; [|done].
    destruct (decide (e' = e)) as [->|Hne];
      [rewrite lookup_insert_eq; set_solver|by rewrite lookup_insert_ne].
Qed.

End Collecting.

Section Loop.
Context {T : ThresholdScheme} {X : Externals T}.

Lemma collect_loop_safe (I : World -> Prop) OK thr H call urls c :
  (forall w f, I w -> I (upd_metrics (metric_inc f) w)) ->
  (forall url, url ∈ urls -> safe I OK (call url) (fun r =>
     forall i b e p, r = Ok (i, b, e) -> partial_from_bytes b = Ok p -> H e i p)) ->
  collect_inv thr H c -> safe I OK (collect_loop thr call urls c) (collect_inv thr H).
Proof.
  intros HI. revert c. induction urls as [|url urls IH]; intros c Hcall Hc; cbn [collect_loop].
  { by destruct (ready c). }
  destruct (ready c) eqn:Hr; [done|]. safe_step. eapply safe_mono; [apply Hcall; set_solver|].
  intros r Hr'. pose proof (collect_one_inv thr H c r Hc Hr Hr') as Hc'.
  destruct (collect_one thr c r) as [c' m]. simpl in Hc'.
  assert (safe I OK (collect_loop thr call urls c') (collect_inv thr H)) as Hrest.
  { apply IH; [|done]. intros u Hu. apply Hcall. set_solver. }
  destruct m as [f|]; [|done]. unfold inc. safe_step. safe_step; [auto|]. by safe_step.
Qed.

End Loop.

Section Specs.
Context {T : ThresholdScheme} {X : Externals T}.
Context (config : Config) (signing_key : NodeKey).

(** What [finish] returns when it succeeds. *)
Lemma finish_Ok own c e msg g key tr :
  finish own c e msg g = Ok (key, tr) ->
  exists s gpk, dprf_sigma (bucket c e) = Ok s /\ g = Some gpk /\ dprf_verify s gpk msg = Ok tt /\
    key = sigma_to_app_key s /\
    tr = mkDeriveTrace (shard_index own) e (merge_sort Z.le (contributors_at c e)).
Proof.
  unfold finish. destruct (dprf_sigma _) as [s|]; simpl; [|done]. destruct g as [gpk|]; simpl; [|done].
  destruct (dprf_verify s gpk msg) as [[]|] eqn:Ev; simpl; [|done]. intros [= <- <-]. eauto 10.
Qed.

Section Quorum.
Context (cfg : VerifierConfig) (P : string -> list Address -> Prop) (V : Key -> Prop).
(** The shards this node holds over time, the replies the network delivers, and the group
    public key. *)
Context (Sh : ShardState -> Prop) (G : EncryptedPartial -> Prop) (gpk : bytes).

Definition replies_in (c : Call) : ans c -> Prop :=
  match c with
  | Grpc_get_dprf_partial _ _ _ _ _ => fun a => forall resp, a = RpcOk resp -> G resp
  | _ => fun _ => True
  end.

Definition derive_sources (c : Call) (a : ans c) : Prop :=
  sources_ok config P V (fun _ => True) c a /\ replies_in c a.

Definition derive_inv (w : World) : Prop :=
  admission_inv config cfg P V w /\ (forall s, shard w = Some s -> Sh s) /\
  (forall g, group_pubkey w = Some g -> g = gpk).

(** [p] is the partial of [msg] that index [i] contributes at epoch [e]: this node's own,
    or one in a response that names [i] and [e] under the signature of an admitted node,
    bound to this node as the caller. *)
Definition served (msg : bytes) (e i : Z) (p : SignatureShare) : Prop :=
  (exists own share, Sh own /\ shard_epoch own = e /\ shard_index own = i /\
     share_from_bytes (shard_bytes own) = Ok share /\ dprf_partial share msg = Ok p) \/
  (exists resp signer b, G resp /\ ep_shard_index resp = i /\ ep_epoch resp = e /\
     recover_signer_address (dprf_partial_signing_msg (eth_address signing_key) i e (ep_ciphertext resp))
                            (ep_signature resp) = Ok signer /\
     admitted config P V signer /\
     ecies_decrypt (private_key signing_key) (ep_ciphertext resp) = Ok b /\ partial_from_bytes b = Ok p).

Lemma derive_inv_metrics u w : derive_inv w -> derive_inv (upd_metrics u w).
Proof. by destruct w. Qed.

Lemma response_frame message sig :
  guar (fun w w' => core w' = core w) (verify_cluster_response message sig config).
Proof.
  unfold verify_cluster_response. guar_step; [guar_step|]. intros a. repeat guar_step.
  - eapply guar_mono; [|apply get_signer_addresses_for_frame]. by intros ? ? [? _].
  - eapply guar_mono; [|apply require_verified_frame]. by intros ? ? [? _].
Qed.

Lemma core_fields w w' :
  core w' = core w -> shard w' = shard w /\ group_pubkey w' = group_pubkey w.
Proof. unfold core. intros [=]. done. Qed.

Lemma get_dprf_partial_served msg url app material sig ts :
  safe derive_inv derive_sources (get_dprf_partial config signing_key url app material sig ts)
    (fun r => forall i b e p, r = Ok (i, b, e) -> partial_from_bytes b = Ok p -> served msg e i p).
Proof.
  unfold get_dprf_partial. do 2 safe_step. safe_step.
  match goal with Ha : derive_sources _ ?a |- _ => destruct a as [m|st|resp]; [done|done|destruct Ha as [_ HG]] end.
  unfold accept_partial. safe_step.
  eapply safe_mono.
  { eapply safe_frame; [|eapply safe_ok_mono;
      [|apply (verify_cluster_response_safe config cfg P V (fun _ => True))]].
    - eapply guar_mono; [|apply response_frame]. intros s s' Hc Hs.
      destruct (core_fields _ _ Hc) as [-> ->]. exact Hs.
    - by intros c a [? _]. }
  intros [[]|m] Hv; do 2 safe_step; cbn [map_err]; [|done]. apply safe_ret.
  intros i b e p Ho Hp. unfold open_partial in Ho.
  destruct (ecies_decrypt _ _) as [b'|] eqn:Eb; simpl in Ho; [|done]. simplify_eq.
  destruct (Hv eq_refl) as (a & Ha & Hadm). right. exists resp, a, b. eauto 10.
Qed.

Lemma collect_and_dprf_safe app material :
  safe derive_inv derive_sources (collect_and_dprf config signing_key app material)
    (fun r => forall key tr, r = Ok (key, tr) ->
       exists srvs ps s, Forall2 (served (dprf_message app material) (trace_epoch tr)) srvs ps /\
         NoDup srvs /\ servers tr = merge_sort Z.le srvs /\
         threshold (cluster config) <= Z.of_nat (length srvs) /\
         dprf_sigma ps = Ok s /\ dprf_verify s gpk (dprf_message app material) = Ok tt /\
         key = sigma_to_app_key s).
Proof.
  unfold collect_and_dprf. safe_seq. intros w Hw. split; [done|]. repeat safe_seq.
  destruct (shard w) as [own|] eqn:Es; cbn [ok_or]; [|done]. repeat safe_seq.
  destruct (share_from_bytes _) as [share|] eqn:Esh; cbn [map_err]; [|done]. repeat safe_seq.
  destruct (dprf_partial share _) as [p|] eqn:Epa; cbn [map_err]; [|done].
  repeat safe_seq. destruct (sign_request _ _ _) as [sig|] eqn:Esig; cbn [map_err]; [|done].
  repeat safe_seq.
  eapply safe_mono; [apply collect_loop_safe with (H := served (dprf_message app material))|].
  - intros w' f Hw'. by apply derive_inv_metrics.
  - intros url _. apply get_dprf_partial_served.
  - apply collect_own_inv. left. exists own, share.
    destruct Hw as (_ & HSh & _). unfold id in *. eauto 10.
  - intros c Hc. destruct (ready c) as [e|] eqn:Er.
    + safe_seq. intros w2 Hw2. split; [done|]. repeat safe_seq.
      intros key tr (sg & g & Hs & Hg & Hv & -> & ->)%finish_Ok. simpl.
      destruct (Hc e) as (HF & HN & _ & Ht). exists (contributors_at c e), (bucket c e), sg.
      destruct Hw2 as (_ & _ & Hgpk). apply Hgpk in Hg as ->.
      pose proof (Forall2_length _ _ _ HF) as Hlen. rewrite Hlen. eauto 10.
    + unfold inc. safe_seq. safe_seq; [by apply derive_inv_metrics|]. by repeat safe_seq.
Qed.

End Quorum.

(** ** Verification alone *)

Lemma get_dprf_partial_frame url app material sig ts :
  guar (fun w w' => core w' = core w) (get_dprf_partial config signing_key url app material sig ts).
Proof.
  unfold get_dprf_partial, accept_partial. repeat (apply response_frame || guar_step).
Qed.

Definition group_key_is (gpk : bytes) (w : World) : Prop := forall g, group_pubkey w = Some g -> g = gpk.

Lemma collect_and_dprf_verified gpk app material :
  safe (group_key_is gpk) (fun _ _ => True) (collect_and_dprf config signing_key app material)
    (fun r => forall key tr, r = Ok (key, tr) ->
       exists s, dprf_verify s gpk (dprf_message app material) = Ok tt /\ key = sigma_to_app_key s).
Proof.
  assert (forall w f, group_key_is gpk w -> group_key_is gpk (upd_metrics (metric_inc f) w)) as Hm
    by (by intros []).
  unfold collect_and_dprf. repeat safe_seq. destruct (ok_or _ _) as [own|]; [|done]. repeat safe_seq.
  destruct (map_err _ _) as [share|]; [|done]. repeat safe_seq.
  destruct (map_err _ (dprf_partial _ _)) as [p|]; [|done]. repeat safe_seq.
  destruct (map_err _ _) as [sig|]; [|done]. repeat safe_seq.
  eapply safe_mono; [apply collect_loop_safe with (H := fun _ _ _ => True)|]; [done| |by apply collect_own_inv|].
  - intros url _. apply safe_guar; [|done]. eapply guar_mono; [|apply get_dprf_partial_frame].
    intros w w' [_ Hg]%core_fields. unfold group_key_is. by rewrite Hg.
  - intros c _. destruct (ready c) as [e|]; [|unfold inc; repeat safe_seq; auto; done].
    safe_seq. intros w2 Hw2. split; [done|]. repeat safe_seq.
    intros key tr (sg & g & Hs & Hg & Hv & -> & ->)%finish_Ok. apply Hw2 in Hg as ->. eauto.
Qed.

End Specs.

(** C3: a derived key rests on a quorum of one epoch.  When [collect_and_dprf] returns a
    key, at least [threshold] distinct shard indices contributed to it, every one of their
    partials is of the message of this request and was claimed for the same epoch (this
    node's own, or carried by a response that an admitted node signed for this caller,
    index, epoch and ciphertext), the trace names exactly those indices, and the combined
    signature verified under the node's group public key. *)
Theorem derived_key_rests_on_one_epoch_quorum {T : ThresholdScheme} {X : Externals T}
    (o : kms_oracle) config signing_key cfg P V Sh G gpk app material x :
  relies o (fun w w' => derive_inv config cfg P V Sh gpk w -> derive_inv config cfg P V Sh gpk w') ->
  derive_inv config cfg P V Sh gpk (x_st x) ->
  let '(r, y) := run o (collect_and_dprf config signing_key app material) x in
  Forall (ev_ok (derive_sources config P V G)) (x_log y) ->
  forall key tr, r = Ok (key, tr) ->
  exists srvs ps s,
    Forall2 (served config signing_key P V Sh G (dprf_message app material) (trace_epoch tr)) srvs ps /\
    NoDup srvs /\ servers tr = merge_sort Z.le srvs /\
    threshold (cluster config) <= Z.of_nat (length srvs) /\
    dprf_sigma ps = Ok s /\ dprf_verify s gpk (dprf_message app material) = Ok tt /\
    key = sigma_to_app_key s.
Proof.
  intros Ho Hi. pose proof (safe_sound _ _ o _ _ x Ho Hi
    (collect_and_dprf_safe config signing_key cfg P V Sh G gpk app material)) as H.
  destruct (run _ _ _) as [r y]. intros Hl. by apply H.
Qed.

(** Coordinators agree, whoever lies.  Two coordinators of clusters with the same
    group public key, with whatever peers, replies, epochs, clocks and interference each
    has, that both return a key for the same request return the same key. *)
Theorem coordinators_agree {T : ThresholdScheme} {X : Externals T} {t : nat} {L : ThresholdLaws T t}
    (o o' : kms_oracle) config config' sk sk' gpk app material x x' :
  relies o (fun w w' => group_key_is gpk w -> group_key_is gpk w') -> group_key_is gpk (x_st x) ->
  relies o' (fun w w' => group_key_is gpk w -> group_key_is gpk w') -> group_key_is gpk (x_st x') ->
  forall key tr key' tr',
  (run o (collect_and_dprf config sk app material) x).1 = Ok (key, tr) ->
  (run o' (collect_and_dprf config' sk' app material) x').1 = Ok (key', tr') -> key = key'.
Proof.
  intros Ho Hi Ho' Hi' key tr key' tr' Hr Hr'.
  assert (forall o config sk x key tr, relies o (fun w w' => group_key_is gpk w -> group_key_is gpk w') ->
    group_key_is gpk (x_st x) -> (run o (collect_and_dprf config sk app material) x).1 = Ok (key, tr) ->
    exists s, dprf_verify s gpk (dprf_message app material) = Ok tt /\ key = sigma_to_app_key s) as Hv.
  { clear. intros o config sk x key tr Ho Hi Hr.
    destruct (safe_sound _ _ o _ _ x Ho Hi (collect_and_dprf_verified config sk gpk app material)) as [Hs _].
    - apply Forall_forall. by intros [].
    - eauto. }
  destruct (Hv _ _ _ _ _ _ Ho Hi Hr) as (s & Hs & ->).
  destruct (Hv _ _ _ _ _ _ Ho' Hi' Hr') as (s' & Hs' & ->).
  by rewrite (dprf_verify_unique s s' gpk (dprf_message app material)).
Qed.

(** * Liveness *)

Section Live.
Context {T : ThresholdScheme} {X : Externals T}.
Context (thr : Z).

(** The collection as a function of the answers in completion order. *)
Fixpoint collect_all (rs : list (result (Z * bytes * Z) string)) (c : Collect) : Collect :=
  match ready c, rs with
  | Some _, _ | None, [] => c
  | None, r :: rs => collect_all rs (collect_one thr c r).1
  end.

(** Everything heard for an epoch is in its bucket, and no bucket is full. *)
Definition waiting (heard : Z -> Z -> Prop) (c : Collect) : Prop := ready c = None /\ forall e,
  Z.of_nat (length (bucket c e)) < thr /\ (forall i, heard e i <-> i ∈ contributors_at c e) /\
  (forall i, i ∈ seen_at c e -> i ∈ contributors_at c e).

(** Answers that can be used: every response in them parses. *)
Definition well_formed (rs : list (result (Z * bytes * Z) string)) : Prop :=
  forall i b e, Ok (i, b, e) ∈ rs -> exists p, partial_from_bytes b = Ok p.

Definition answered (rs : list (result (Z * bytes * Z) string)) (e i : Z) : Prop :=
  exists b, Ok (i, b, e) ∈ rs.

Lemma well_formed_cons r rs : well_formed (r :: rs) -> well_formed [r] /\ well_formed rs.
Proof. intros H. split; intros i b e Hin; apply (H i b e); set_solver. Qed.

Lemma collect_one_waiting heard c r :
  well_formed [r] -> waiting heard c ->
  ready (collect_one thr c r).1 = None ->
  waiting (fun e i => heard e i \/ answered [r] e i) (collect_one thr c r).1.
Proof.
  intros Hwf [Hr Hw] Hr'. split; [done|]. intros e'. destruct (Hw e') as (H1 & H2 & H3).
  destruct r as [[[i b] e]|m]; simpl in *.
  2: { split; [done|]. split; [|done]. intros j. rewrite <-H2. unfold answered. set_solver. }
  assert (forall e0 j, answered [Ok (i, b, e)] e0 j <-> e0 = e /\ j = i) as Ha.
  { intros e0 j. unfold answered. split.
    - intros (b' & Hb%list_elem_of_singleton). by simplify_eq.
    - intros [-> ->]. exists b. set_solver. }
  setoid_rewrite Ha. clear Ha. case_decide as Hseen.
  { split; [done|]. split; [|done]. intros j. rewrite <-H2. split; [|naive_solver].
    intros [?|[-> ->]]; [done|]. apply H2, H3, Hseen. }
  destruct (Hwf i b e) as [p Hp]; [set_solver|]. rewrite Hp in *. simpl in *.
  unfold bucket, contributors_at, seen_at in *. simpl in *.
  destruct (reaches thr _) eqn:Er; [done|]. unfold reaches in Er. apply Z.leb_nle in Er.
  destruct (decide (e' = e)) as [->|Hne].
  - rewrite !lookup_insert_eq. simpl. split; [lia|]. split.
    + intros j. rewrite elem_of_app, <-H2. set_solver.
    + set_solver.
  - rewrite !lookup_insert_ne by done. split; [done|]. split; [|done]. intros j. rewrite <-H2. naive_solver.
Qed.

Lemma collect_all_waiting heard rs c :
  well_formed rs -> waiting heard c -> ready (collect_all rs c) = None ->
  waiting (fun e i => heard e i \/ answered rs e i) (collect_all rs c).
Proof.
  revert heard c. induction rs as [|r rs IH]; intros heard c Hwf Hw Hr; simpl in *.
  - assert (collect_all [] c = c) as Hc by (simpl; by destruct (ready c)). simpl in Hc.
    rewrite Hc in *. destruct Hw as [? Hw]. split; [done|]. intros e. destruct (Hw e) as (? & H2 & ?).
    split; [done|]. split; [|done]. intros i. rewrite <-H2. unfold answered. set_solver.
  - destruct (ready c) eqn:Ec; [by destruct Hw; congruence|].
    assert (ready (collect_one thr c r).1 = None) as Hr1.
    { destruct (ready (collect_one thr c r).1) eqn:E1; [|done].
      destruct rs; simpl in Hr; rewrite E1 in Hr; congruence. }
    pose proof (collect_one_waiting heard c r) as H1.
    destruct (well_formed_cons _ _ Hwf) as [Hwf1 Hwf2].
    destruct (IH _ (collect_one thr c r).1 Hwf2 (H1 Hwf1 Hw Hr1) Hr) as [? Hw'].
    split; [done|]. intros e. destruct (Hw' e) as (? & H2 & ?). split; [done|]. split; [|done].
    intros i. rewrite <-H2. unfold answered. set_solver.
Qed.

Lemma collect_all_inv H rs c :
  (forall i b e p, Ok (i, b, e) ∈ rs -> partial_from_bytes b = Ok p -> H e i p) ->
  collect_inv thr H c -> collect_inv thr H (collect_all rs c).
Proof.
  revert c. induction rs as [|r rs IH]; intros c Hp Hc; simpl; [by destruct (ready c)|].
  destruct (ready c) eqn:Ec; [done|]. apply IH; [intros i b e p Hin; apply Hp; set_solver|].
  apply collect_one_inv; [done..|]. intros i b e p -> Hb. apply (Hp i b e p); [set_solver|done].
Qed.

(** A threshold of distinct indices heard for one epoch completes the collection. *)
Lemma collect_all_ready rs own p e ids :
  well_formed rs -> NoDup ids -> thr <= Z.of_nat (length ids) ->
  (forall i, i ∈ ids -> (e = shard_epoch own /\ i = shard_index own) \/ answered rs e i) ->
  exists e', ready (collect_all rs (collect_own thr own p)) = Some e'.
Proof.
  intros Hwf Hnd Hlen Hids. set (c0 := collect_own thr own p).
  destruct (ready (collect_all rs c0)) as [e'|] eqn:Er; [by exists e'|]. exfalso.
  assert (ready c0 = None) as Hr0.
  { clear -Er. clearbody c0. destruct (ready c0) eqn:E1; [|done]. destruct rs; simpl in Er; rewrite E1 in Er; congruence. }
  destruct (collect_all_waiting (fun e i => e = shard_epoch own /\ i = shard_index own) rs c0)
    as [_ Hw]; [done| |done|].
  - split; [done|]. intros e0. unfold c0, collect_own in *. simpl in Hr0.
    destruct (reaches thr [p]) eqn:E; [done|]. unfold reaches in E. apply Z.leb_nle in E. simpl in E.
    unfold bucket, contributors_at, seen_at. simpl.
    destruct (decide (e0 = shard_epoch own)) as [->|Hne].
    + rewrite !lookup_singleton_eq. simpl. set_solver by lia.
    + rewrite !lookup_singleton_ne by done. simpl. split; [lia|]. split; set_solver.
  - destruct (Hw e) as (Hlt & Hh & _).
    assert (length ids <= length (contributors_at (collect_all rs c0) e))%nat as Hle.
    { apply submseteq_length, NoDup_submseteq; [done|]. intros i Hi. apply Hh, Hids, Hi. }
    assert (collect_inv thr (fun _ _ _ => True) (collect_all rs c0)) as Hinv.
    { apply collect_all_inv; [done|]. by apply collect_own_inv. }
    destruct (Hinv e) as (HF & _). apply Forall2_length in HF. lia.
Qed.

(** The concurrent collection refines its specification: whatever order the answers
    complete in, the loop computes [collect_all] of what the calls it awaited returned, a
    prefix of them when some epoch reached the threshold and all of them otherwise. *)
Theorem collect_loop_refines (o : kms_oracle) call urls c x :
  let '(c', y) := run o (collect_loop thr call urls c) x in
  exists rs, Forall2 (fun url r => exists x1 y1, run o (call url) x1 = (r, y1)) (take (length rs) urls) rs /\
    c' = collect_all rs c /\ (ready c' = None -> length rs = length urls).
Proof.
  revert c x. induction urls as [|url urls IH]; intros c x; cbn [collect_loop].
  { destruct (ready c) eqn:E; exists []; simpl; rewrite E; (split; [constructor|done]). }
  destruct (ready c) eqn:E; [exists []; simpl; rewrite E; (split; [constructor|]); split; congruence|].
  rewrite run_bind. destruct (run o (call url) x) as [r x1] eqn:Er.
  destruct (collect_one thr c r) as [c1 m] eqn:E1.
  assert (forall x, let '(c', y) := run o (match m with
      | Some f => inc f;;; collect_loop thr call urls c1 | None => collect_loop thr call urls c1 end) x in
    exists rs, Forall2 (fun url r => exists x1 y1, run o (call url) x1 = (r, y1)) (take (length rs) urls) rs /\
      c' = collect_all rs c1 /\ (ready c' = None -> length rs = length urls)) as Hrest.
  { intros z. destruct m as [f|]; [|apply IH]. rewrite run_bind. destruct (run o (inc f) z). apply IH. }
  specialize (Hrest x1). destruct (run _ _ x1) as [c' y], Hrest as (rs & HF & -> & Hlen).
  exists (r :: rs). simpl. rewrite E, E1. split; [constructor; eauto|]. split; [done|].
  intros Hn. by rewrite Hlen.
Qed.

End Live.

Section HonestQuorum.
Context {T : ThresholdScheme} {X : Externals T} {t : nat} {L : ThresholdLaws T t}.

(** The partial of [msg] that participant [i] computes from its share of epoch [e]. *)
Definition honest_partial (D : Z -> Dealing) (msg : bytes) (e i : Z) (p : SignatureShare) : Prop :=
  0 <= i /\ valid_id (Z.to_nat i) /\
  dprf_partial (gennaro_share_to_blsful (Z.to_nat i) (dealt (D e) (Z.to_nat i))) msg = Ok p.

Lemma honest_bucket_verifies D msg e PK srvs ps :
  (forall e, group_key (D e) = PK) -> NoDup srvs -> Z.of_nat t <= Z.of_nat (length srvs) ->
  Forall2 (honest_partial D msg e) srvs ps ->
  exists s, dprf_sigma ps = Ok s /\ sig_verify s PK msg = Ok tt.
Proof.
  intros HPK Hnd Hlen HF. rewrite <-(HPK e). apply (dprf_sigma_honest _ _ (map Z.to_nat srvs)).
  - clear Hlen. revert HF Hnd. induction 1 as [|i p js ps (Hi & _) HF IH]; [constructor|].
    intros [Hni Hnd]%NoDup_cons. simpl. apply NoDup_cons. split; [|by apply IH].
    intros (j & Hj & Hin)%list_elem_of_fmap. apply Hni.
    assert (0 <= j) as Hj0.
    { clear -HF Hin. revert Hin. induction HF as [|k q js ps [Hk _] HF IH]; [set_solver|].
      intros [->|?]%elem_of_cons; auto. }
    by rewrite (Z2Nat.inj i j Hi Hj0 Hj).
  - clear -HF. induction HF as [|i p js ps (_ & Hv & _) HF IH]; constructor; auto.
  - rewrite length_map. lia.
  - clear -HF. induction HF as [|i p js ps (_ & _ & Hp) HF IH]; constructor; auto.
Qed.

(** A completed collection of honest partials combines, verifies and derives. *)
Lemma honest_finish D PK gpk msg own c e :
  (forall e, group_key (D e) = PK) -> public_key_try gpk = Ok PK ->
  collect_inv (Z.of_nat t) (honest_partial D msg) c -> ready c = Some e ->
  exists s tr, finish own c e msg (Some gpk) = Ok (sigma_to_app_key s, tr) /\ sig_verify s PK msg = Ok tt.
Proof.
  intros HPK Hgpk Hinv He. destruct (Hinv e) as (HF & Hnd & _ & Hthr). specialize (Hthr He).
  rewrite <-(Forall2_length _ _ _ HF) in Hthr.
  destruct (honest_bucket_verifies D msg e PK _ _ HPK Hnd Hthr HF) as (s & Hs & Hv).
  assert (dprf_verify s gpk msg = Ok tt) as Hver by (apply dprf_verify_Ok; eauto).
  exists s. eexists. unfold finish. rewrite Hs. simpl. by rewrite Hver.
Qed.

End HonestQuorum.

(** A threshold of honest members is enough, wherever the others are.  If the
    responses heard are honest partials (of dealings with the same group key), the
    remaining peers failing in any way and in any order, and a threshold of distinct
    indices (this node's own among them or not) answered for some epoch, then the
    collection completes on an epoch and the derivation succeeds with the key of the
    signature the group public key determines. *)
Theorem honest_quorum_derives {T : ThresholdScheme} {X : Externals T} {t : nat} {L : ThresholdLaws T t}
    (D : Z -> Dealing) PK gpk msg own p rs e ids :
  (forall e, group_key (D e) = PK) -> public_key_try gpk = Ok PK ->
  honest_partial D msg (shard_epoch own) (shard_index own) p ->
  well_formed rs ->
  (forall i b e p, Ok (i, b, e) ∈ rs -> partial_from_bytes b = Ok p -> honest_partial D msg e i p) ->
  NoDup ids -> Z.of_nat t <= Z.of_nat (length ids) ->
  (forall i, i ∈ ids -> (e = shard_epoch own /\ i = shard_index own) \/ answered rs e i) ->
  let c := collect_all (Z.of_nat t) rs (collect_own (Z.of_nat t) own p) in
  exists e' s tr, ready c = Some e' /\ finish own c e' msg (Some gpk) = Ok (sigma_to_app_key s, tr) /\
    sig_verify s PK msg = Ok tt.
Proof.
  intros HPK Hgpk Hown Hwf Hrs Hnd Hlen Hids c.
  destruct (collect_all_ready (Z.of_nat t) rs own p e ids) as [e' He']; [done..|].
  assert (collect_inv (Z.of_nat t) (honest_partial D msg) c) as Hinv.
  { apply collect_all_inv; [done|]. by apply collect_own_inv. }
  destruct (honest_finish D PK gpk msg own c e' HPK Hgpk Hinv He') as (s & tr & Hf & Hv).
  by exists e', s, tr.
Qed.

(** A member's response, opened by its caller. *)
Lemma response_opens {T : ThresholdScheme} {X : Externals T} (o : kms_oracle)
    responder caller ctx pk_r app material shard share p x resp y :
  ecies_roundtrip X -> ecdsa_recover X -> partial_roundtrip X ->
  k256_pubkey (private_key caller) = Ok (caller_pubkey ctx) ->
  caller_eth_addr ctx = eth_address caller ->
  k256_pubkey (private_key responder) = Ok pk_r ->
  (forall m rs v, k256_sign (private_key responder) (keccak256 m) = Ok (rs, v) -> v < 2) ->
  share_from_bytes (shard_bytes shard) = Ok share ->
  dprf_partial share (dprf_message app material) = Ok p ->
  run o (respond_partial responder ctx app material shard) x = (Ok resp, y) ->
  open_partial (private_key caller) resp = Ok (shard_index shard, partial_to_bytes p, shard_epoch shard) /\
  partial_from_bytes (partial_to_bytes p) = Ok p /\
  recover_signer_address (dprf_partial_signing_msg (eth_address caller) (ep_shard_index resp)
    (ep_epoch resp) (ep_ciphertext resp)) (ep_signature resp) = Ok (eth_address_from_pubkey pk_r).
Proof.
  intros Hec Hsg Hpr Hpk Haddr Hpkr Hv Hsh Hp. unfold respond_partial.
  rewrite Hsh. cbn [map_err bind_ok bind]. rewrite Hp. cbn [map_err bind_ok bind].
  unfold ecies_encrypt. cbn [bind ask run].
  match goal with |- context [ecies_enc ?r ?k ?m] => destruct (ecies_enc r k m) as [ct|] eqn:Ect; [|done] end.
  cbn [map_err bind_ok bind].
  match goal with |- context [sign_bytes ?k ?m] => destruct (sign_bytes k m) as [sg|] eqn:Esg; [|done] end.
  cbn [map_err bind_ok bind run]. intros [= <- _]. simpl.
  split; [|split].
  - unfold open_partial, ecies_decrypt. simpl. by rewrite (Hec _ _ _ _ _ Hpk Ect).
  - unfold partial_from_bytes, partial_to_bytes. by rewrite Hpr.
  - rewrite <-Haddr.
    unfold sign_bytes in Esg. rewrite Hpkr in Esg. simpl in Esg.
    destruct (k256_sign _ _) as [[rs v]|] eqn:Es; simpl in Esg; [|done]. injection Esg as <-.
    destruct (recover_own_signature _ _ _ rs v Hsg Hpkr Es (Hv _ _ _ Es)) as (_ & Hlen & Hrec).
    unfold recover_signer_address. by rewrite Hlen, Hrec.
Qed.

(** What a member answers is what the coordinator gets.  A response produced for a
    caller opens, under the caller's private key, to exactly the responder's partial of
    the requested message, under the responder's shard index and epoch, and its signature
    recovers, over the message the caller recomputes, to the responder's address. *)
Theorem partial_response_roundtrip {T : ThresholdScheme} {X : Externals T} (o : kms_oracle)
    responder caller ctx pk_r app material shard share p x resp y :
  ecies_roundtrip X -> ecdsa_recover X -> partial_roundtrip X ->
  k256_pubkey (private_key caller) = Ok (caller_pubkey ctx) ->
  caller_eth_addr ctx = eth_address caller ->
  k256_pubkey (private_key responder) = Ok pk_r ->
  (forall m rs v, k256_sign (private_key responder) (keccak256 m) = Ok (rs, v) -> v < 2) ->
  share_from_bytes (shard_bytes shard) = Ok share ->
  dprf_partial share (dprf_message app material) = Ok p ->
  run o (respond_partial responder ctx app material shard) x = (Ok resp, y) ->
  open_partial (private_key caller) resp = Ok (shard_index shard, partial_to_bytes p, shard_epoch shard) /\
  partial_from_bytes (partial_to_bytes p) = Ok p /\
  recover_signer_address (dprf_partial_signing_msg (eth_address caller) (ep_shard_index resp)
    (ep_epoch resp) (ep_ciphertext resp)) (ep_signature resp) = Ok (eth_address_from_pubkey pk_r).
Proof. apply response_opens. Qed.

(** ** A derivation in the two-node cluster *)

Definition toy_caller : AuthContext := mkAuthContext (Toy.pubkey Toy.sk1) (Toy.addr_of Toy.sk1).
Definition toy_respond : kms (result EncryptedPartial Status) :=
  respond_partial Toy.node2 toy_caller "kms" [] Toy.share2.
Definition toy_reply : EncryptedPartial :=
  match (run Toy.idle toy_respond (start Toy.world 0)).1 with
  | Ok r => r
  | Err _ => mkEncryptedPartial [] 0 0 []
  end.

(** Node 2 answers honestly. *)
Definition toy_answers (c : Call) : ans c :=
  match c with Grpc_get_dprf_partial _ _ _ _ _ => RpcOk toy_reply | c => Toy.no_answer c end.
Definition toy_net : kms_oracle := Toy.alone toy_answers.

Definition toy_shares (s : ShardState) : Prop := s = Toy.share1.
Definition toy_replies (r : EncryptedPartial) : Prop := r = toy_reply.

Lemma toy_derive_inv :
  derive_inv Toy.config Toy.scan toy_lists toy_vouched_for toy_shares Toy.group Toy.world.
Proof.
  split; [exact toy_admission|]. unfold toy_shares. cbn [shard group_pubkey Toy.world]. split; congruence.
Qed.

Lemma toy_derive_sources n c :
  derive_sources Toy.config toy_lists toy_vouched_for toy_replies c (o_ans toy_net n c).
Proof.
  destruct c; (split; [split; [|split]|]); try exact I; try discriminate.
  by intros resp [= <-].
Qed.

Definition toy_derive : kms (result (bytes * DeriveTrace) KmsError) :=
  collect_and_dprf Toy.config Toy.node1 "kms" [].

Lemma toy_derive_ok : is_ok (run toy_net toy_derive (start Toy.world 5)).1 = true.
Proof. vm_compute. reflexivity. Qed.

Lemma derived_key_rests_on_one_epoch_quorum_witness :
  exists key tr srvs, (run toy_net toy_derive (start Toy.world 5)).1 = Ok (key, tr) /\
    NoDup srvs /\ 2 <= Z.of_nat (length srvs) /\ servers tr = merge_sort Z.le srvs.
Proof.
  pose proof (derived_key_rests_on_one_epoch_quorum toy_net Toy.config Toy.node1 Toy.scan toy_lists
    toy_vouched_for toy_shares toy_replies Toy.group "kms" [] (start Toy.world 5)
    (Toy.alone_relies _ _) toy_derive_inv) as H.
  pose proof (start_log_ok (derive_sources Toy.config toy_lists toy_vouched_for toy_replies) toy_net
    toy_derive Toy.world 5 toy_derive_sources) as Hl.
  pose proof toy_derive_ok as Hok. change (collect_and_dprf _ _ _ _) with toy_derive in H.
  destruct (run toy_net toy_derive _) as [[[key tr]|e] y]; [|discriminate Hok].
  destruct (H Hl key tr eq_refl) as (srvs & ps & s & _ & Hn & Hs & Ht & _).
  exists key, tr, srvs. split; [reflexivity|]. split; [exact Hn|]. split; [exact Ht|exact Hs].
Defined.

(** Node 2's partial arrives in a different run; the keys are equal. *)
Lemma coordinators_agree_witness :
  exists key tr key' tr', (run toy_net toy_derive (start Toy.world 5)).1 = Ok (key, tr) /\
    (run toy_net toy_derive (start Toy.world 50)).1 = Ok (key', tr') /\ key = key'.
Proof.
  assert (group_key_is Toy.group Toy.world) as Hg by (intros g; cbn [group_pubkey Toy.world]; congruence).
  pose proof (coordinators_agree (L := Toy.laws 1) toy_net toy_net Toy.config Toy.config Toy.node1 Toy.node1
    Toy.group "kms" [] (start Toy.world 5) (start Toy.world 50)
    (Toy.alone_relies _ _) Hg (Toy.alone_relies _ _) Hg) as H.
  change (collect_and_dprf _ _ _ _) with toy_derive in H.
  pose proof toy_derive_ok as Hok.
  assert (is_ok (run toy_net toy_derive (start Toy.world 50)).1 = true) as Hok' by (vm_compute; reflexivity).
  destruct (run toy_net toy_derive (start Toy.world 5)) as [[[key tr]|e] y]; [|discriminate Hok].
  destruct (run toy_net toy_derive (start Toy.world 50)) as [[[key' tr']|e] y']; [|discriminate Hok'].
  exists key, tr, key', tr'. split; [reflexivity|]. split; [reflexivity|]. by eapply H.
Defined.

(** Three members, threshold 2: one peer fails, the other answers. *)
Lemma honest_quorum_derives_witness :
  let msg := dprf_message "kms" [] in
  let c := collect_all 2 [Err "down"; Ok (2, [Byte.x02; Byte.x07] ++ msg, 3)]
             (collect_own 2 Toy.share1 (Byte.x01, Byte.x07, msg)) in
  exists key tr, finish Toy.share1 c 3 msg (Some Toy.group) = Ok (key, tr).
Proof.
  destruct (honest_quorum_derives (L := Toy.laws 1) (fun _ => Byte.x07) Byte.x07 Toy.group (dprf_message "kms" [])
    Toy.share1 (Byte.x01, Byte.x07, dprf_message "kms" [])
    [Err "down"; Ok (2, [Byte.x02; Byte.x07] ++ dprf_message "kms" [], 3)] 3 [1; 2]) as (e' & s & tr & He & Hf & _).
  - done.
  - done.
  - split; [done|]. split; [done|]. reflexivity.
  - intros i b e. rewrite elem_of_cons, list_elem_of_singleton. intros [|[= -> -> ->]]; [done|]. by eexists.
  - intros i b e p. rewrite elem_of_cons, list_elem_of_singleton. intros [|[= -> -> ->]]; [done|].
    intros [= <-]. split; [done|]. split; [done|]. reflexivity.
  - by repeat constructor; set_solver.
  - simpl. lia.
  - intros i. rewrite elem_of_cons, list_elem_of_singleton. intros [->| ->]; [by left|].
    right. eexists. right. left.
  - cbn zeta. assert (e' = 3) as -> by (vm_compute in He; congruence). eauto.
Defined.

Lemma partial_response_roundtrip_witness :
  open_partial Toy.sk1 toy_reply = Ok (2, partial_to_bytes (Byte.x02, Byte.x07, dprf_message "kms" []), 3).
Proof.
  destruct (run Toy.idle toy_respond (start Toy.world 0)) as [r y] eqn:E.
  assert (r = Ok toy_reply) as -> by (unfold toy_reply; rewrite E; destruct r; [done|vm_compute in E; discriminate E]).
  exact (proj1 (partial_response_roundtrip Toy.idle Toy.node2 Toy.node1 toy_caller (Toy.pubkey Toy.sk2) "kms" []
    Toy.share2 (Byte.x02, Byte.x07) (Byte.x02, Byte.x07, dprf_message "kms" []) (start Toy.world 0) toy_reply y
    Toy.ecies_ok Toy.ecdsa_ok Toy.partial_ok eq_refl eq_refl eq_refl
    (fun h rs v Hs => Toy.sign_reduced _ _ rs v Hs)
    eq_refl eq_refl E)).
Defined.
