(* ===== verification/Gossip.v ===== *)
(** The gossip half of [src/src/grpc.rs]: the [Gossip] handler, which records what a caller
    says about itself, and [gossip_round], which pushes to every known peer and merges
    what they relay. *)
From S2P Require Import Base Threshold Prelude Prog State Externals Models Crypto Chain Verifier Auth Seal Metrics.
From Stdlib Require Import ZArith Lia.
From stdpp Require Import base list gmap strings.
Local Open Scope Z_scope.

(** * Table updates *)

(** A caller's own report, under the key recovered from its signature. *)
Definition record_caller (ctx : AuthContext) (now : Z) (info : NodeInfo)
    (table : gmap Address PeerInfo) : gmap Address PeerInfo :=
  <[caller_eth_addr ctx := mkPeerInfo (ni_grpc_url info) now (caller_pubkey ctx) (ni_epoch info)
                                      (ni_group_pubkey info)]> table.

(** A successful push is direct evidence that the target is alive. *)
Definition mark_alive (now : Z) (target : string) (table : gmap Address PeerInfo) :
    gmap Address PeerInfo :=
  (fun e => if decide (grpc_url e = target)
            then mkPeerInfo (grpc_url e) now (pubkey e) (peer_epoch e) (peer_group_pubkey e)
            else e) <$> table.

(** What relayed knowledge changes of an entry: never its liveness. *)
Definition merge_entry (peer : NodeInfo) (e : PeerInfo) : PeerInfo :=
  mkPeerInfo (ni_grpc_url peer) (last_seen e)
             (if decide (ni_pubkey peer = []) then pubkey e else ni_pubkey peer)
             (Z.max (peer_epoch e) (ni_epoch peer))
             (if decide (ni_group_pubkey peer = []) then peer_group_pubkey e
              else ni_group_pubkey peer).

Definition fresh_entry (peer : NodeInfo) : PeerInfo :=
  mkPeerInfo (ni_grpc_url peer) 0 (ni_pubkey peer) (ni_epoch peer) (ni_group_pubkey peer).

Section Gossip.
Context {T : ThresholdScheme} {X : Externals T}.
Context (config : Config) (signing_key : NodeKey).

Definition merge_peer (table : gmap Address PeerInfo) (peer : NodeInfo) : gmap Address PeerInfo :=
  if (bool_decide (ni_grpc_url peer = self_url (cluster config)) ||
      bool_decide (ni_grpc_url peer = EmptyString))%bool then table
  else
    match hex_decode (ni_eth_addr peer) with
    | Some key =>
        if (length key =? 20)%nat then
          match table !! key with
          | Some e => <[key := merge_entry peer e]> table
          | None => <[key := fresh_entry peer]> table
          end
        else table
    | None => table
    end.

(** Everything one successful push does to the table. *)
Definition apply_push (now : Z) (target : string) (received : list NodeInfo)
    (table : gmap Address PeerInfo) : gmap Address PeerInfo :=
  foldl merge_peer (mark_alive now target table) received.

(** * The handler *)

Definition member_list (table : gmap Address PeerInfo) : list NodeInfo :=
  map (fun kv => mkNodeInfo (grpc_url kv.2) (hex_encode kv.1) (pubkey kv.2) (peer_epoch kv.2)
                            (peer_group_pubkey kv.2)) (map_to_list table).

Definition handle_gossip (metadata : MetadataMap) (self_info : option NodeInfo) :
    kms (result (list NodeInfo) Status) :=
  let!? ctx := authenticate metadata "Gossip" config in
  let! _ :=
    (match self_info with
     | Some info =>
         if decide (ni_grpc_url info = EmptyString) then Ret tt
         else
           let! now := ask Utc_now in
           modify (upd_peer_table (record_caller ctx now info))
     | None => Ret tt
     end) in
  let! w := get in
  Ret (Ok (member_list (peer_table w))).

(** * The background round *)

Definition push_gossip (peer_url : string) (self_info : NodeInfo) (sig : bytes) (timestamp : Z) :
    kms (result (list NodeInfo) string) :=
  let! r := ask (Grpc_gossip peer_url self_info sig timestamp) in
  Ret (match r : RpcReply (list NodeInfo) with
       | ConnectFailed m => Err m
       | RpcError st => Err (message st)
       | RpcOk peers => Ok peers
       end).

Definition gossip_to (self_info : NodeInfo) (sig : bytes) (timestamp : Z) (target : string) : kms unit :=
  let! r := push_gossip target self_info sig timestamp in
  match r with
  | Ok received =>
      inc gossip_push_ok;;;
      let! now := ask Utc_now in
      store_metric gossip_last_success now;;;
      modify (upd_peer_table (apply_push now target received))
  | Err _ => inc gossip_push_fail
  end.

Definition gossip_round : kms unit :=
  let self_url := self_url (cluster config) in
  if decide (self_url = EmptyString) then Ret tt
  else
    let! w := get in
    let known := map grpc_url (table_values (peer_table w)) in
    let targets := match known with [] => seeds (cluster config) | _ => known end in
    let targets := List.filter (fun u => negb (bool_decide (u = self_url))) targets in
    match targets with
    | [] => Ret tt
    | _ =>
        let! timestamp := ask Utc_now in
        match sign_request (private_key signing_key) "Gossip" timestamp with
        | Err _ => Ret tt
        | Ok sig =>
            let! w1 := get in
            let! w2 := get in
            let self_info := mkNodeInfo self_url (hex_encode (eth_address signing_key)) []
                               (own_epoch w1) (default [] (group_pubkey w2)) in
            for_each targets (gossip_to self_info sig timestamp)
        end
    end.

(** One turn of [start_gossip_task]'s loop; [share_path] is [init::sealed_share_path]. *)
Definition gossip_turn (share_path : kms (option string)) : kms unit :=
  let! p := share_path in
  let! _ := probe_share_path p in
  gossip_round;;; sleep (secs 30).

End Gossip.

(** * Theorems *)

Section Proofs.
Context {T : ThresholdScheme} {X : Externals T} (config : Config).

(** How the entry of one address evolves under relayed knowledge. *)
Definition relay_of (e e' : PeerInfo) : Prop :=
  last_seen e' = last_seen e /\ peer_epoch e <= peer_epoch e' /\
  (pubkey e <> [] -> pubkey e' <> []) /\ (peer_group_pubkey e <> [] -> peer_group_pubkey e' <> []).

#[export] Instance relay_of_preorder : PreOrder relay_of.
Proof.
  split; [intros e; unfold relay_of; repeat split; auto; lia|].
  intros a b c (H1 & H2 & H3 & H4) (H1' & H2' & H3' & H4'). unfold relay_of.
  rewrite H1', H1. repeat split; auto; lia.
Qed.

Lemma merge_entry_relay peer e : relay_of e (merge_entry peer e).
Proof. unfold relay_of, merge_entry. simpl. split; [done|]. split; [lia|]. split; by case_decide. Qed.

Lemma merge_peer_lookup table peer a e :
  table !! a = Some e -> exists e', merge_peer config table peer !! a = Some e' /\ relay_of e e'.
Proof.
  intros He. assert (exists e', table !! a = Some e' /\ relay_of e e') as Hsame by (exists e; by split).
  unfold merge_peer. destruct (_ || _)%bool; [done|].
  destruct (hex_decode _) as [key|]; [|done]. destruct (length key =? 20)%nat; [|done].
  destruct (decide (key = a)) as [->|Hne].
  - rewrite He, lookup_insert_eq. eauto using merge_entry_relay.
  - destruct (table !! key); rewrite lookup_insert_ne by done; done.
Qed.

Lemma merge_peer_new table peer a e' :
  table !! a = None -> merge_peer config table peer !! a = Some e' -> last_seen e' = 0.
Proof.
  intros He. unfold merge_peer. destruct (_ || _)%bool; [congruence|].
  destruct (hex_decode _) as [key|]; [|congruence]. destruct (length key =? 20)%nat; [|congruence].
  destruct (decide (key = a)) as [->|Hne].
  - rewrite He, lookup_insert_eq. by intros [= <-].
  - destruct (table !! key); rewrite lookup_insert_ne by done; congruence.
Qed.

Lemma merge_all_lookup received table a :
  (forall e, table !! a = Some e ->
     exists e', foldl (merge_peer config) table received !! a = Some e' /\ relay_of e e') /\
  (table !! a = None -> forall e', foldl (merge_peer config) table received !! a = Some e' ->
     last_seen e' = 0).
Proof.
  revert table. induction received as [|peer received IH]; intros table; simpl.
  { split; [|congruence]. intros e He. exists e. by split. }
  destruct (IH (merge_peer config table peer)) as [H1 H2]. split.
  - intros e He. destruct (merge_peer_lookup table peer a e He) as (e1 & He1 & Hr).
    destruct (H1 e1 He1) as (e2 & He2 & Hr2). exists e2. split; [done|]. by etrans.
  - intros Hn e' He'. destruct (merge_peer config table peer !! a) as [e1|] eqn:E1; [|eauto].
    destruct (H1 e1 eq_refl) as (e2 & He2 & Hr2 & _). simplify_eq. rewrite Hr2.
    by eapply merge_peer_new.
Qed.

End Proofs.

(** C31: what a mesh relays never keeps a dead node alive.  After a successful push to
    [target], an address that was known keeps its entry, with the epoch known for it not
    lowered and a known public key or group key not erased, and its last contact moved
    only if the entry was the target's own, then to now; an address learned by relay alone
    starts as never seen. *)
Theorem relay_does_not_refresh_liveness {T : ThresholdScheme} {X : Externals T} config now target
    received table a :
  (forall e, table !! a = Some e ->
     exists e', apply_push config now target received table !! a = Some e' /\
       last_seen e' = (if decide (grpc_url e = target) then now else last_seen e) /\
       peer_epoch e <= peer_epoch e' /\ (pubkey e <> [] -> pubkey e' <> []) /\
       (peer_group_pubkey e <> [] -> peer_group_pubkey e' <> [])) /\
  (table !! a = None -> forall e', apply_push config now target received table !! a = Some e' ->
     last_seen e' = 0).
Proof.
  destruct (merge_all_lookup config received (mark_alive now target table) a) as [H1 H2].
  unfold apply_push, mark_alive in *. rewrite lookup_fmap in *. split.
  - intros e He. rewrite He in H1. destruct (H1 _ eq_refl) as (e' & He' & H3 & H4 & H5 & H6).
    exists e'. split; [done|]. case_decide; simpl in *; auto.
  - intros Hn. rewrite Hn in H2. by apply H2.
Qed.
