(* ===== verification/Membership.v ===== *)
(** Committee membership ([src/src/init.rs]): the participant set assembled from the
    on-chain list and the gossip table, the candidate dealers, and the quorum rules of
    epoch-changing sessions. *)
From S2P Require Import Base Threshold Prelude Prog State Externals Models Crypto Chain Metrics.
From Stdlib Require Import ZArith Lia.
From stdpp Require Import base list gmap strings pretty sets.
Local Open Scope Z_scope.

(** [dkg::SessionPeer]. *)
Record SessionPeer := mkSessionPeer {
  sp_id : Z;
  sp_grpc_url : string;
  sp_pubkey : bytes;
  sp_epoch : Z
}.

Record Membership := mkMembership {
  m_own_id : Z;
  m_peers : list SessionPeer;
  m_threshold : Z;
  m_total : Z;
  all_discovered : bool
}.

Definition live_dealers (m : Membership) : list SessionPeer :=
  List.filter (fun p => 0 <? sp_epoch p) (m_peers m).

Definition leading_dealers (m : Membership) : list SessionPeer :=
  let dealers := live_dealers m in
  let leading := max_or_0 (map sp_epoch dealers) in
  List.filter (fun p => sp_epoch p =? leading) dealers.

Definition peer_of (id : Z) (info : PeerInfo) : SessionPeer :=
  mkSessionPeer id (grpc_url info) (pubkey info) (peer_epoch info).

(** A discovered member: its key is known. *)
Definition discovered (info : PeerInfo) : bool := negb (bool_decide (pubkey info = [])).

(** The loop over the list from position [i]: the live, discovered others, and whether
    nobody is missing. *)
Fixpoint scan_members (table : gmap Address PeerInfo) (now own_id i : Z) (l : list Address) :
    list SessionPeer * bool :=
  match l with
  | [] => ([], true)
  | addr :: l =>
      let id := i + 1 in
      let '(peers, all) := scan_members table now own_id (i + 1) l in
      if id =? own_id then (peers, all)
      else
        match table !! addr with
        | Some info => if discovered info && is_live info now then (peer_of id info :: peers, all)
                       else (peers, false)
        | None => (peers, false)
        end
  end.

(** An epoch-changing session must involve more than half of the committee. *)
Definition majority (total : Z) : Z := total / 2 + 1.

Section Assemble.
Context {T : ThresholdScheme} {X : Externals T}.
Context (config : Config) (signing_key : NodeKey).

Definition node_list : kms (result (list Address) string) :=
  let! r := get_signer_addresses (rpc_url (chain config)) (contract_address (chain config))
                                 (tapp_app_id (tapp config)) in
  Ret (map_err (fun e => "nodeList lookup failed: " +:+ KmsError_to_string e) r).

Definition is_self (a : Address) : bool := bool_decide (a = eth_address signing_key).

(** The assembly from a list, the clock and the table. *)
Definition membership_of (l : list Address) (now : Z) (table : gmap Address PeerInfo) (own_pos : nat) :
    Membership :=
  let own_id := Z.of_nat own_pos + 1 in
  let '(peers, all) := scan_members table now own_id 0 l in
  mkMembership own_id peers (threshold (cluster config)) (total_nodes (cluster config)) all.

Definition assemble_participants : kms (result (option Membership) string) :=
  let!? l := node_list in
  let total := total_nodes (cluster config) in
  if Z.of_nat (length l) <? total then Ret (Ok None)
  else
    match position is_self l with
    | None => Ret (Err "this node's address is not in the on-chain nodeList")
    | Some own_pos =>
        let! w := get in
        let! now := ask Utc_now in
        Ret (Ok (Some (membership_of l now (peer_table w) own_pos)))
    end.

(** Participant ids resolved through the list and the table; self and id 0 are skipped. *)
Fixpoint resolve_ids (l : list Address) (table : gmap Address PeerInfo) (own_id : Z) (ids : list Z) :
    result (list SessionPeer) string :=
  match ids with
  | [] => Ok []
  | id :: ids =>
      if (id =? 0) || (id =? own_id) then resolve_ids l table own_id ids
      else
        match l !! Z.to_nat (id - 1) with
        | None => Err ("participant id " +:+ pretty id +:+ " out of nodeList range")
        | Some addr =>
            match table !! addr with
            | Some info =>
                if discovered info then
                  let? peers := resolve_ids l table own_id ids in Ok (peer_of id info :: peers)
                else Err ("reshare participant " +:+ pretty id +:+ " not discovered via gossip")
            | None => Err ("reshare participant " +:+ pretty id +:+ " not discovered via gossip")
            end
        end
  end.

Definition resolve_peers (ids : list Z) (own_id : Z) : kms (result (list SessionPeer) string) :=
  let!? l := node_list in
  let! w := get in
  Ret (resolve_ids l (peer_table w) own_id ids).

End Assemble.

(** * The scan *)

Definition member_ok (l : list Address) (i : Z) (table : gmap Address PeerInfo) (now own_id : Z)
    (p : SessionPeer) : Prop :=
  exists k a info, l !! k = Some a /\ sp_id p = i + Z.of_nat k + 1 /\ sp_id p <> own_id /\
    table !! a = Some info /\ pubkey info <> [] /\ is_live info now = true /\ p = peer_of (sp_id p) info.

Lemma scan_members_spec table now own_id i l :
  let '(peers, all) := scan_members table now own_id i l in
  Forall (member_ok l i table now own_id) peers /\
  Sorted.StronglySorted Z.lt (map sp_id peers) /\
  (all = true <-> forall k a, l !! k = Some a -> i + Z.of_nat k + 1 <> own_id ->
     exists p, p ∈ peers /\ sp_id p = i + Z.of_nat k + 1).
Proof.
  revert i. induction l as [|addr l IH]; intros i; simpl.
  { split; [constructor|]. split; [constructor|]. split; [|done]. intros _ k a Hk. by rewrite lookup_nil in Hk. }
  specialize (IH (i + 1)). destruct (scan_members table now own_id (i + 1) l) as [peers all].
  destruct IH as (Hok & Hs & Hall).
  assert (Forall (member_ok (addr :: l) i table now own_id) peers) as Hok'.
  { eapply Forall_impl; [exact Hok|]. intros p (k & a & info & H1 & H2 & H3). exists (S k), a, info.
    split; [done|]. split; [lia|done]. }
  assert (Forall (fun z => i + 1 < z) (map sp_id peers)) as Hlt.
  { apply Forall_map. eapply Forall_impl; [exact Hok|]. intros p (k & a & info & _ & H2 & _). simpl. lia. }
  destruct (i + 1 =? own_id) eqn:Eo; [apply Z.eqb_eq in Eo|apply Z.eqb_neq in Eo].
  { split; [done|]. split; [done|]. rewrite Hall. split.
    - intros H [|k] a Hk Hne; simpl in Hk; [lia|]. destruct (H k a Hk) as (p & ? & ?); [lia|].
      exists p. split; [done|lia].
    - intros H k a Hk Hne. destruct (H (S k) a Hk) as (p & ? & ?); [lia|]. exists p. split; [done|lia]. }
  assert (~ exists p, p ∈ peers /\ sp_id p = i + 1) as Hnone.
  { intros (p & Hp & Hid). rewrite Forall_map in Hlt.
    pose proof (proj1 (Forall_forall _ _) Hlt p Hp) as Hp'. simpl in Hp'. lia. }
  assert (forall q : Prop, (forall k a, (addr :: l) !! k = Some a -> i + Z.of_nat k + 1 <> own_id ->
     exists p, p ∈ peers /\ sp_id p = i + Z.of_nat k + 1) -> q) as Hmiss.
  { intros q H. exfalso. apply Hnone. destruct (H 0%nat addr eq_refl) as (p & ? & ?); [lia|].
    exists p. split; [done|lia]. }
  destruct (table !! addr) as [info|] eqn:Et;
    [destruct (discovered info && is_live info now) eqn:Ed|].
  - apply andb_true_iff in Ed as [Ed1 Ed2]. unfold discovered in Ed1.
    apply negb_true_iff, bool_decide_eq_false in Ed1.
    split; [constructor; [exists 0%nat, addr, info; simpl; repeat split; try done; lia|done]|].
    split; [simpl; by constructor|]. rewrite Hall. split.
    + intros H [|k] a Hk Hne; simpl in Hk.
      * exists (peer_of (i + 1) info). split; [set_solver|simpl; lia].
      * destruct (H k a Hk) as (p & ? & ?); [lia|]. exists p. split; [set_solver|lia].
    + intros H k a Hk Hne. destruct (H (S k) a Hk) as (p & [->|Hp]%elem_of_cons & Hid); [lia|simpl in Hid; lia|].
      exists p. split; [done|lia].
  - split; [done|]. split; [done|]. split; [done|]. apply Hmiss.
  - split; [done|]. split; [done|]. split; [done|]. apply Hmiss.
Qed.

Lemma ssorted_lt_NoDup l : Sorted.StronglySorted Z.lt l -> NoDup l.
Proof.
  induction 1 as [|x l _ IH Hx]; constructor; [|done].
  intros Hin. pose proof (proj1 (Forall_forall _ _) Hx x Hin). lia.
Qed.



Lemma List_filter_elem {A} (f : A -> bool) l x : x ∈ List.filter f l <-> x ∈ l /\ f x = true.
Proof. rewrite !list_elem_of_In. apply filter_In. Qed.

(** Reshare dealers sit on one polynomial.  Every dealer holds a share (epoch above
    zero), all dealers have the same epoch, no live holder has a higher one, and every
    live holder at that epoch is a dealer. *)
Theorem leading_dealers_share_one_epoch m :
  exists e, (forall p, p ∈ leading_dealers m <-> p ∈ m_peers m /\ sp_epoch p = e /\ 0 < e) /\
            (forall p, p ∈ m_peers m -> 0 < sp_epoch p -> sp_epoch p <= e).
Proof.
  exists (max_or_0 (map sp_epoch (live_dealers m))). split.
  - intros p. unfold leading_dealers. rewrite List_filter_elem. unfold live_dealers at 1.
    rewrite List_filter_elem, Z.ltb_lt, Z.eqb_eq. split; [intros [[? ?] ?]|intros (? & ? & ?)]; repeat split; try done; lia.
  - intros p Hp He. apply max_or_0_ge, list_elem_of_fmap. exists p. split; [done|].
    apply List_filter_elem. by rewrite Z.ltb_lt.
Qed.

(** Two epoch-changing sessions of one committee overlap.  Any two sets of distinct
    participant ids of a committee of [total], each of majority size, have a member in
    common, so two disjoint subsets can never both advance the epoch. *)
Theorem majority_quorums_intersect total (a b : list Z) :
  0 <= total -> NoDup a -> NoDup b -> (forall i, i ∈ a -> 1 <= i <= total) -> (forall i, i ∈ b -> 1 <= i <= total) ->
  majority total <= Z.of_nat (length a) -> majority total <= Z.of_nat (length b) ->
  exists i, i ∈ a /\ i ∈ b.
Proof.
  intros Ht Ha Hb Hra Hrb Hla Hlb. unfold majority in *.
  destruct (decide (Exists (fun i => i ∈ b) a)) as [H|H].
  { apply Exists_exists in H as (i & ? & ?). eauto. }
  exfalso. assert (length (a ++ b) <= length (seqZ 1 total))%nat as Hle.
  { apply submseteq_length, NoDup_submseteq.
    - apply NoDup_app. split; [done|]. split; [|done]. intros i Hi Hi'. apply H, Exists_exists. eauto.
    - intros i [?%Hra|?%Hrb]%elem_of_app; apply elem_of_seqZ; lia. }
  rewrite length_app, length_seqZ in Hle. pose proof (Z.div_mod total 2). pose proof (Z.mod_pos_bound total 2). lia.
Qed.

Lemma majority_quorums_intersect_witness : exists i, i ∈ [1; 2; 3] /\ i ∈ [3; 4; 5].
Proof.
  apply (majority_quorums_intersect 5).
  - lia.
  - repeat constructor; set_solver.
  - repeat constructor; set_solver.
  - intros i. rewrite !elem_of_cons. intros [->|[->|[->|Hn]]]; [lia..|]. by apply not_elem_of_nil in Hn.
  - intros i. rewrite !elem_of_cons. intros [->|[->|[->|Hn]]]; [lia..|]. by apply not_elem_of_nil in Hn.
  - done.
  - done.
Defined.

(** ** The leading holders, counted twice *)

(** How many of a list of epochs are the highest positive one. *)
Definition leading_count (es : list Z) : Z :=
  let d := List.filter (fun e => 0 <? e) es in
  Z.of_nat (length (List.filter (fun e => e =? max_or_0 d) d)).

Lemma filter_map_comm {A B} (f : A -> B) (p : B -> bool) l :
  List.filter p (map f l) = map f (List.filter (fun x => p (f x)) l).
Proof. induction l as [|x l IH]; [done|]. simpl. destruct (p (f x)); simpl; by rewrite IH. Qed.

Lemma leading_dealers_count m :
  Z.of_nat (length (leading_dealers m)) = leading_count (map sp_epoch (m_peers m)).
Proof.
  unfold leading_count, leading_dealers, live_dealers. rewrite filter_map_comm, filter_map_comm, length_map. done.
Qed.

Lemma filter_Permutation {A} (p : A -> bool) l l' : l ≡ₚ l' -> List.filter p l ≡ₚ List.filter p l'.
Proof.
  induction 1 as [|x l l' _ IH|x y l|l1 l2 l3 _ IH1 _ IH2]; simpl; [done| | |by etrans].
  - destruct (p x); [by constructor|done].
  - destruct (p x), (p y); try done. constructor.
Qed.

Lemma max_or_0_Permutation l l' : l ≡ₚ l' -> max_or_0 l = max_or_0 l'.
Proof. induction 1; simpl; lia. Qed.

Lemma leading_count_Permutation l l' : l ≡ₚ l' -> leading_count l = leading_count l'.
Proof.
  intros H%(filter_Permutation (fun e => 0 <? e)). unfold leading_count. rewrite (max_or_0_Permutation _ _ H).
  f_equal. by apply Permutation_length, filter_Permutation.
Qed.

(** The gauge, for a node without a share. *)
Lemma leading_holders_count config now w :
  shard w = None ->
  leading_holders (view_of config now w) =
  leading_count (map peer_epoch (List.filter (fun p => is_live p now) (table_values (peer_table w)))).
Proof.
  intros Hs. unfold view_of. rewrite Hs. cbn [leading_holders andb]. rewrite app_nil_r.
  set (live := List.filter _ (table_values _)). unfold leading_count, count.
  rewrite filter_map_comm. set (d := List.filter (fun p => 0 <? peer_epoch p) live).
  set (L := max_or_0 (map peer_epoch d)). rewrite filter_map_comm, length_map.
  assert (0 <= L) as HL by apply max_or_0_nonneg.
  destruct (L =? 0) eqn:E; [apply Z.eqb_eq in E|apply Z.eqb_neq in E].
  - destruct (List.filter (fun p => peer_epoch p =? L) d) as [|p r] eqn:Ef; [done|]. exfalso.
    assert (In p (List.filter (fun p => peer_epoch p =? L) d)) as Hp by (rewrite Ef; by left).
    apply filter_In in Hp as [Hp Hl]. apply filter_In in Hp as [_ Hp]. lia.
  - rewrite Z.add_0_l. do 2 f_equal. subst d. clearbody L. clear -HL E.
    induction live as [|p live IH]; [done|]. simpl. destruct (peer_epoch p =? L) eqn:Ep.
    + apply Z.eqb_eq in Ep. rewrite (proj2 (Z.ltb_lt 0 _)) by lia. simpl. rewrite Ep, Z.eqb_refl. by rewrite <-IH.
    + destruct (0 <? peer_epoch p); simpl; [by rewrite Ep|done].
Qed.

(** The entries of a table whose keys are all on the list, in the order of the list. *)
Lemma table_in_list_order (table : gmap Address PeerInfo) (l : list Address) :
  NoDup l -> (forall a, is_Some (table !! a) -> a ∈ l) ->
  table_values table ≡ₚ omap (fun a => table !! a) l.
Proof.
  intros Hnd Hin. unfold table_values.
  assert (map_to_list table ≡ₚ omap (fun a => (fun i => (a, i)) <$> table !! a) l) as ->.
  { apply NoDup_Permutation.
    - apply NoDup_map_to_list.
    - clear Hin. induction Hnd as [|a l Ha Hnd IH]; simpl; [constructor|].
      destruct (table !! a); simpl; [|done]. constructor; [|done].
      intros (b & Hb & Hi)%list_elem_of_omap. destruct (table !! b); simplify_eq/=. done.
    - intros [a i]. rewrite elem_of_map_to_list, list_elem_of_omap. split.
      + intros H. exists a. rewrite H. split; [apply Hin; eauto|done].
      + intros (b & _ & Hb). destruct (table !! b) eqn:E; simplify_eq/=. done. }
  clear. induction l as [|a l IH]; [done|]. simpl. destruct (table !! a); simpl; [by constructor|done].
Qed.

Lemma scan_members_epochs table now own_id i l :
  (forall k a, l !! k = Some a -> i + Z.of_nat k + 1 = own_id -> table !! a = None) ->
  (forall a info, table !! a = Some info -> discovered info = true) ->
  map sp_epoch (scan_members table now own_id i l).1 =
  map peer_epoch (List.filter (fun p => is_live p now) (omap (fun a => table !! a) l)).
Proof.
  intros Hown Hd. revert i Hown. induction l as [|a l IH]; intros i Hown; [done|]. simpl.
  specialize (IH (i + 1)). destruct (scan_members table now own_id (i + 1) l) as [peers all]. simpl in IH.
  assert (map sp_epoch peers =
    map peer_epoch (List.filter (fun p => is_live p now) (omap (fun a => table !! a) l))) as IH'.
  { apply IH. intros k b Hk E. apply (Hown (S k) b Hk). lia. }
  destruct (i + 1 =? own_id) eqn:E.
  - apply Z.eqb_eq in E. rewrite (Hown 0%nat a eq_refl) by lia. done.
  - destruct (table !! a) as [info|] eqn:Et; [|done]. rewrite (Hd a info Et). simpl.
    destruct (is_live info now); simpl; [by rewrite IH'|done].
Qed.

(** Every table entry is another registered node whose key is known. *)
Definition table_registered (self : Address) (l : list Address) (table : gmap Address PeerInfo) : Prop :=
  forall a info, table !! a = Some info -> a ∈ l /\ a <> self /\ discovered info = true.

Lemma leading_dealers_are_the_gauge config signing_key l now own_pos w :
  NoDup l -> position (is_self signing_key) l = Some own_pos -> shard w = None ->
  table_registered (eth_address signing_key) l (peer_table w) ->
  Z.of_nat (length (leading_dealers (membership_of config l now (peer_table w) own_pos))) =
  leading_holders (view_of config now w).
Proof.
  intros Hnd Hpos Hs Hreg. rewrite leading_dealers_count, leading_holders_count by done.
  apply leading_count_Permutation. unfold membership_of.
  pose proof (scan_members_epochs (peer_table w) now (Z.of_nat own_pos + 1) 0 l) as He.
  destruct (scan_members _ _ _ _ _) as [peers all]. simpl in *. rewrite He.
  - apply Permutation_map, filter_Permutation. symmetry. apply table_in_list_order; [done|].
    intros a [info Ha]. by destruct (Hreg a info Ha).
  - intros k a Hk E. apply position_Some in Hpos as (b & Hb & Hself & _).
    assert (k = own_pos) as -> by lia. unfold is_self in Hself. apply bool_decide_eq_true in Hself.
    destruct (peer_table w !! a) as [info|] eqn:Ea; [|done]. destruct (Hreg a info Ea) as (_ & Hne & _). congruence.
  - intros a info Ha. by destruct (Hreg a info Ha) as (_ & _ & ?).
Qed.
