(* ===== verification/Dkg.v ===== *)
(** [src/src/dkg.rs]: the session driver that takes one [gennaro-dkg] participant through
    its five rounds over the push transport, and the receiving end ([grpc.rs]'s
    [DkgRound] handler).  The protocol itself is third-party code, the [Gennaro] class. *)
From S2P Require Import Base Threshold Prelude Prog State Externals Models Crypto Chain Verifier Auth Derive Membership.
From Stdlib Require Import ZArith Lia.
From stdpp Require Import base list gmap strings pretty.
Local Open Scope Z_scope.

(** [gennaro_dkg] over the BLS12-381 G1 group, and the [serde_bare] encodings of its
    messages.  A participant's constructors and rounds draw randomness, passed as the
    first argument. *)
Class Gennaro (T : ThresholdScheme) : Type := {
  Participant : Type;
  Round1BroadcastData : Type;
  Round1P2PData : Type;
  Round2EchoBroadcastData : Type;
  Round3BroadcastData : Type;
  Round4EchoBroadcastData : Type;
  (** [SecretParticipant::new], [SecretParticipant::with_secret], [RefreshParticipant::new]:
      id, threshold, total. *)
  secret_new : bytes -> Z -> Z -> Z -> result Participant string;
  secret_with : bytes -> Z -> Z -> Z -> Scalar -> list Scalar -> nat -> result Participant string;
  refresh_new : bytes -> Z -> Z -> Z -> result Participant string;
  get_id : Participant -> Z;
  round1 : Participant -> result (Participant * Round1BroadcastData * gmap Z Round1P2PData) string;
  round2 : Participant -> gmap Z Round1BroadcastData -> gmap Z Round1P2PData ->
           result (Participant * Round2EchoBroadcastData) string;
  round3 : Participant -> gmap Z Round2EchoBroadcastData ->
           result (Participant * Round3BroadcastData) string;
  round4 : Participant -> gmap Z Round3BroadcastData ->
           result (Participant * Round4EchoBroadcastData) string;
  round5 : Participant -> gmap Z Round4EchoBroadcastData -> result Participant string;
  get_secret_share : Participant -> option Scalar;
  (** [get_public_key], as [to_bytes] gives it. *)
  get_public_key : Participant -> option bytes;
  ser_b1 : Round1BroadcastData -> result bytes string;
  de_b1 : bytes -> result Round1BroadcastData string;
  ser_p1 : Round1P2PData -> result bytes string;
  de_p1 : bytes -> result Round1P2PData string;
  ser_b2 : Round2EchoBroadcastData -> result bytes string;
  de_b2 : bytes -> result Round2EchoBroadcastData string;
  ser_b3 : Round3BroadcastData -> result bytes string;
  de_b3 : bytes -> result Round3BroadcastData string;
  ser_b4 : Round4EchoBroadcastData -> result bytes string;
  de_b4 : bytes -> result Round4EchoBroadcastData string
}.

Definition ser {A} (f : A -> result bytes string) (v : A) : result bytes string :=
  map_err (fun e => "dkg serialize failed: " +:+ e) (f v).
Definition de {A} (f : bytes -> result A string) (b : bytes) : result A string :=
  map_err (fun e => "dkg deserialize failed: " +:+ e) (f b).

(** The messages of one round, by sender. *)
Abbreviation RoundMsgs := (gmap Z (bytes * bytes)).

(** The [for (from, (bcast, p2p)) in &r { map.insert(from, de(..)?) }] loops. *)
Fixpoint de_entries {A} (f : bytes -> result A string) (part : bytes * bytes -> bytes)
    (l : list (Z * (bytes * bytes))) (acc : gmap Z A) : result (gmap Z A) string :=
  match l with
  | [] => Ok acc
  | (from, msg) :: l => let? v := de f (part msg) in de_entries f part l (<[from := v]> acc)
  end.

Definition de_round {A} (f : bytes -> result A string) (part : bytes * bytes -> bytes)
    (msgs : RoundMsgs) (acc : gmap Z A) : result (gmap Z A) string :=
  de_entries f part (map_to_list msgs) acc.

(** The loop of round 1, which decodes the broadcast and the point-to-point data of each
    message in turn. *)
Fixpoint de_entries2 {A B} (f : bytes -> result A string) (g : bytes -> result B string)
    (l : list (Z * (bytes * bytes))) (acc : gmap Z A) (acc' : gmap Z B) : result (gmap Z A * gmap Z B) string :=
  match l with
  | [] => Ok (acc, acc')
  | (from, msg) :: l =>
      let? v := de f (fst msg) in
      let? v' := de g (snd msg) in
      de_entries2 f g l (<[from := v]> acc) (<[from := v']> acc')
  end.

Definition de_round1 {A B} (f : bytes -> result A string) (g : bytes -> result B string)
    (msgs : RoundMsgs) : result (gmap Z A * gmap Z B) string :=
  de_entries2 f g (map_to_list msgs) ∅ ∅.

(** It succeeds exactly when both maps can be decoded, with those maps. *)
Lemma de_entries2_Ok {A B} (f : bytes -> result A string) (g : bytes -> result B string) l acc acc' m m' :
  de_entries2 f g l acc acc' = Ok (m, m') <->
  de_entries f fst l acc = Ok m /\ de_entries g snd l acc' = Ok m'.
Proof.
  revert acc acc'. induction l as [|[from msg] l IH]; intros acc acc'; cbn; [naive_solver|].
  destruct (de f msg.1), (de g msg.2); cbn; [apply IH|naive_solver..].
Qed.

Lemma de_round1_Ok {A B} (f : bytes -> result A string) (g : bytes -> result B string) msgs m m' :
  de_round1 f g msgs = Ok (m, m') <-> de_round f fst msgs ∅ = Ok m /\ de_round g snd msgs ∅ = Ok m'.
Proof. apply de_entries2_Ok. Qed.

(** * The receiving end *)

(** [sessions.entry(id).or_default()]. *)
Definition touch_session (session_id : string) (m : gmap string DkgSession) : gmap string DkgSession :=
  <[session_id := default DkgSession_default (m !! session_id)]> m.

Definition buffer_round (msg : DkgRoundMsg) (p2p : bytes) (m : gmap string DkgSession) :
    gmap string DkgSession :=
  <[dm_session_id msg := record_round (default DkgSession_default (m !! dm_session_id msg))
                           (dm_round msg) (dm_from_index msg) (dm_broadcast msg) p2p]> m.

Section Dkg.
Context {T : ThresholdScheme} {X : Externals T} {G : Gennaro T}.
Context (config : Config) (signing_key : NodeKey).

Definition open_p2p (b : bytes) : result bytes KmsError :=
  match b with [] => Ok [] | _ => ecies_decrypt (private_key signing_key) b end.

(** The [DkgRound] handler. *)
Definition handle_dkg_round (metadata : MetadataMap) (msg : DkgRoundMsg) : kms (result unit Status) :=
  let!? _ := authenticate metadata "DkgRound" config in
  let!? p2p := Ret (map_err (fun _ => internal "p2p decrypt failed") (open_p2p (dm_p2p msg))) in
  modify (upd_dkg_sessions (buffer_round msg p2p));;; Ret (Ok tt).

(** * The driver *)

Definition round_msgs (w : World) (session_id : string) (round : Z) : option RoundMsgs :=
  match dkg_sessions w !! session_id with Some s => rounds s !! round | None => None end.

Definition complete (expected : list Z) (msgs : RoundMsgs) : bool :=
  forallb (fun id => bool_decide (is_Some (msgs !! id))) expected.

(** [timeout_at(deadline, notified).await]: a notification that is there, or comes before
    the timer fires, wins; without one the task sleeps until the deadline. *)
Definition notified_before (session_id : string) (deadline : Z) : kms bool :=
  let! woken := ask (Notified session_id deadline) in
  if woken : bool then Ret true
  else let! t := now in sleep (deadline - t);;; Ret false.

Definition round_timed_out (session_id : string) (round : Z) : string :=
  "DKG session '" +:+ session_id +:+ "' round " +:+ pretty round +:+ " timed out waiting for peers".

(** The result of the model when it stops counting wake-ups; no error of the program
    ([barrier_meets_its_deadline] says when it does not occur). *)
Definition out_of_wakes : string := "more wake-ups than the model follows".

(** The waiting loop, followed for at most [wakes] wake-ups. *)
Fixpoint await_loop (wakes : nat) (session_id : string) (round : Z) (expected : list Z) (deadline : Z) :
    kms (result RoundMsgs string) :=
  let! w := get in
  let wait :=
    (let! woken := notified_before session_id deadline in
     if woken : bool then
       match wakes with
       | S wakes => await_loop wakes session_id round expected deadline
       | O => Ret (Err out_of_wakes)
       end
     else Ret (Err (round_timed_out session_id round))) in
  match round_msgs w session_id round with
  | Some msgs => if complete expected msgs then Ret (Ok msgs) else wait
  | None => wait
  end.

Definition await_round (wakes : nat) (session_id : string) (round : Z) (expected : list Z)
    (timeout : Z) : kms (result RoundMsgs string) :=
  modify (upd_dkg_sessions (touch_session session_id));;;
  let! t := now in
  await_loop wakes session_id round expected (t + timeout).

Definition send_dkg_round (peer_url session_id : string) (round from_index : Z)
    (broadcast p2p sig : bytes) (timestamp : Z) : kms (result unit string) :=
  let! r := ask (Grpc_dkg_round peer_url
                   (mkDkgRoundMsg session_id round from_index broadcast p2p) sig timestamp) in
  Ret (match r : RpcReply unit with
       | ConnectFailed m => Err m
       | RpcError st => Err (message st)
       | RpcOk _ => Ok tt
       end).

(** The sends are concurrent and their failures are only logged. *)
Definition broadcast_round (session_id : string) (round own_id : Z) (broadcast : bytes)
    (p2p_per_peer : gmap Z bytes) (peers : list SessionPeer) : kms (result unit string) :=
  let! ts := ask Utc_now in
  let!? sig := Ret (sign_request (private_key signing_key) "DkgRound" ts) in
  for_each peers (fun peer =>
    send_dkg_round (sp_grpc_url peer) session_id round own_id broadcast
      (default [] (p2p_per_peer !! sp_id peer)) sig ts;;; Ret tt);;;
  Ret (Ok tt).

(** The round-1 share of each peer, encrypted to it. *)
Fixpoint encrypt_p2p (p2p1 : gmap Z Round1P2PData) (peers : list SessionPeer) (acc : gmap Z bytes) :
    kms (result (gmap Z bytes) string) :=
  match peers with
  | [] => Ret (Ok acc)
  | peer :: peers =>
      let!? share := Ret (ok_or (p2p1 !! sp_id peer)
                            ("missing round1 p2p for peer " +:+ pretty (sp_id peer))) in
      let!? b := Ret (ser ser_p1 share) in
      let! enc := ecies_encrypt (sp_pubkey peer) b in
      let!? enc := Ret (map_err (fun e => "round1 p2p ecies for peer " +:+ pretty (sp_id peer) +:+
                                          ": " +:+ KmsError_to_string e) enc) in
      encrypt_p2p p2p1 peers (<[sp_id peer := enc]> acc)
  end.

Definition run_session (wakes : nat) (session_id : string) (participant : Participant)
    (peers : list SessionPeer) (round_timeout : Z) : kms (result (Scalar * bytes) string) :=
  let own_id := get_id participant in
  let expected := map sp_id peers in
  let err (r : string) (e : string) := r +:+ ": " +:+ e in
  let!? (participant, b1, p2p1) := Ret (map_err (err "round1") (round1 participant)) in
  let!? b1_bytes := Ret (ser ser_b1 b1) in
  let!? p2p_enc := encrypt_p2p p2p1 peers ∅ in
  let!? _ := broadcast_round session_id 1 own_id b1_bytes p2p_enc peers in
  let!? r1 := await_round wakes session_id 1 expected round_timeout in
  let!? (bmap1, pmap1) := Ret (de_round1 de_b1 de_p1 r1) in
  let!? (participant, b2) := Ret (map_err (err "round2") (round2 participant bmap1 pmap1)) in
  let!? b2_bytes := Ret (ser ser_b2 b2) in
  let!? _ := broadcast_round session_id 2 own_id b2_bytes ∅ peers in
  let!? r2 := await_round wakes session_id 2 expected round_timeout in
  let!? bmap2 := Ret (de_round de_b2 fst r2 {[own_id := b2]}) in
  let!? (participant, b3) := Ret (map_err (err "round3") (round3 participant bmap2)) in
  let!? b3_bytes := Ret (ser ser_b3 b3) in
  let!? _ := broadcast_round session_id 3 own_id b3_bytes ∅ peers in
  let!? r3 := await_round wakes session_id 3 expected round_timeout in
  let!? bmap3 := Ret (de_round de_b3 fst r3 {[own_id := b3]}) in
  let!? (participant, b4) := Ret (map_err (err "round4") (round4 participant bmap3)) in
  let!? b4_bytes := Ret (ser ser_b4 b4) in
  let!? _ := broadcast_round session_id 4 own_id b4_bytes ∅ peers in
  let!? r4 := await_round wakes session_id 4 expected round_timeout in
  let!? bmap4 := Ret (de_round de_b4 fst r4 {[own_id := b4]}) in
  let!? participant := Ret (map_err (err "round5") (round5 participant bmap4)) in
  let!? share := Ret (ok_or (get_secret_share participant) "no secret share after round5") in
  let!? pk := Ret (ok_or (get_public_key participant) "no public key after round5") in
  modify (upd_dkg_sessions (delete session_id));;;
  Ret (Ok (share, pk)).

End Dkg.

(** * Theorems *)

(** ** The session is the five-round protocol *)

Section Refinement.
Context {T : ThresholdScheme} {X : Externals T} {G : Gennaro T}.

(** The peers' messages of the four rounds that have any. *)
Record Transcript := mkTranscript { tr1 : RoundMsgs; tr2 : RoundMsgs; tr3 : RoundMsgs; tr4 : RoundMsgs }.

(** The protocol as a function of what the peers sent: the broadcasts this participant
    makes, its share and the public key. *)
Definition five_rounds (p : Participant) (tr : Transcript) :
    result (list bytes * Scalar * bytes) string :=
  let own := get_id p in
  let? (p, b1, _) := round1 p in
  let? m1 := ser_b1 b1 in
  let? bs1 := de_round de_b1 fst (tr1 tr) ∅ in
  let? ps1 := de_round de_p1 snd (tr1 tr) ∅ in
  let? (p, b2) := round2 p bs1 ps1 in
  let? m2 := ser_b2 b2 in
  let? bs2 := de_round de_b2 fst (tr2 tr) {[own := b2]} in
  let? (p, b3) := round3 p bs2 in
  let? m3 := ser_b3 b3 in
  let? bs3 := de_round de_b3 fst (tr3 tr) {[own := b3]} in
  let? (p, b4) := round4 p bs3 in
  let? m4 := ser_b4 b4 in
  let? bs4 := de_round de_b4 fst (tr4 tr) {[own := b4]} in
  let? p := round5 p bs4 in
  let? share := ok_or (get_secret_share p) EmptyString in
  let? pk := ok_or (get_public_key p) EmptyString in
  Ok ([m1; m2; m3; m4], share, pk).

(** The same with everything in between: the participant after each round, its broadcasts
    and point-to-point data, and the decoded messages. *)
Record Play := mkPlay {
  y_p1 : Participant; y_b1 : Round1BroadcastData; y_p2p : gmap Z Round1P2PData; y_m1 : bytes;
  y_bs1 : gmap Z Round1BroadcastData; y_ps1 : gmap Z Round1P2PData;
  y_p2 : Participant; y_b2 : Round2EchoBroadcastData; y_m2 : bytes; y_bs2 : gmap Z Round2EchoBroadcastData;
  y_p3 : Participant; y_b3 : Round3BroadcastData; y_m3 : bytes; y_bs3 : gmap Z Round3BroadcastData;
  y_p4 : Participant; y_b4 : Round4EchoBroadcastData; y_m4 : bytes; y_bs4 : gmap Z Round4EchoBroadcastData;
  y_p5 : Participant
}.

Definition plays (p : Participant) (tr : Transcript) (y : Play) (share : Scalar) (pk : bytes) : Prop :=
  let own := get_id p in
  round1 p = Ok (y_p1 y, y_b1 y, y_p2p y) /\ ser_b1 (y_b1 y) = Ok (y_m1 y) /\
  de_round de_b1 fst (tr1 tr) ∅ = Ok (y_bs1 y) /\ de_round de_p1 snd (tr1 tr) ∅ = Ok (y_ps1 y) /\
  round2 (y_p1 y) (y_bs1 y) (y_ps1 y) = Ok (y_p2 y, y_b2 y) /\ ser_b2 (y_b2 y) = Ok (y_m2 y) /\
  de_round de_b2 fst (tr2 tr) {[own := y_b2 y]} = Ok (y_bs2 y) /\
  round3 (y_p2 y) (y_bs2 y) = Ok (y_p3 y, y_b3 y) /\ ser_b3 (y_b3 y) = Ok (y_m3 y) /\
  de_round de_b3 fst (tr3 tr) {[own := y_b3 y]} = Ok (y_bs3 y) /\
  round4 (y_p3 y) (y_bs3 y) = Ok (y_p4 y, y_b4 y) /\ ser_b4 (y_b4 y) = Ok (y_m4 y) /\
  de_round de_b4 fst (tr4 tr) {[own := y_b4 y]} = Ok (y_bs4 y) /\
  round5 (y_p4 y) (y_bs4 y) = Ok (y_p5 y) /\
  get_secret_share (y_p5 y) = Some share /\ get_public_key (y_p5 y) = Some pk.

Lemma plays_five_rounds p tr y share pk :
  plays p tr y share pk -> five_rounds p tr = Ok ([y_m1 y; y_m2 y; y_m3 y; y_m4 y], share, pk).
Proof.
  intros (E1 & S1 & D1 & P1 & E2 & S2 & D2 & E3 & S3 & D3 & E4 & S4 & D4 & E5 & G1 & G2). unfold five_rounds.
  rewrite E1; simpl. rewrite S1; simpl. rewrite D1; simpl. rewrite P1; simpl. rewrite E2; simpl. rewrite S2; simpl.
  rewrite D2; simpl. rewrite E3; simpl. rewrite S3; simpl. rewrite D3; simpl. rewrite E4; simpl. rewrite S4; simpl.
  rewrite D4; simpl. rewrite E5; simpl. by rewrite G1, G2.
Qed.

(** Every peer was sent this broadcast of this round. *)
Definition broadcast_sent (session_id : string) (round own_id : Z) (b : bytes) (peers : list SessionPeer)
    (log : list kms_event) : Prop :=
  forall peer, peer ∈ peers -> exists p2p sig ts a,
    Ev (Grpc_dkg_round (sp_grpc_url peer) (mkDkgRoundMsg session_id round own_id b p2p) sig ts) a ∈ log.

Lemma broadcast_sent_prefix sid round own b peers log log' :
  log `prefix_of` log' -> broadcast_sent sid round own b peers log -> broadcast_sent sid round own b peers log'.
Proof.
  intros Hp H peer Hpeer. destruct (H peer Hpeer) as (p2p & sig & ts & a & Hin).
  exists p2p, sig, ts, a. by eapply elem_of_prefix.
Qed.

(** If the event is a round message, it satisfies [P]. *)
Definition if_sent (P : string -> DkgRoundMsg -> Prop) (ev : kms_event) : Prop :=
  let 'Ev c _ := ev in match c with Grpc_dkg_round url msg _ _ => P url msg | _ => True end.

(** No round message, and a message of this round to one of the peers. *)
Definition not_sent : kms_event -> Prop := if_sent (fun _ _ => False).

Definition round_message (sid : string) (round own : Z) (b : bytes) (p2ps : gmap Z bytes)
    (peers : list SessionPeer) (url : string) (msg : DkgRoundMsg) : Prop :=
  exists peer, peer ∈ peers /\ url = sp_grpc_url peer /\
    msg = mkDkgRoundMsg sid round own b (default [] (p2ps !! sp_id peer)).

Lemma if_sent_mono (P Q : string -> DkgRoundMsg -> Prop) ev :
  (forall url msg, P url msg -> Q url msg) -> if_sent P ev -> if_sent Q ev.
Proof. destruct ev as [[] a]; simpl; auto. Qed.

Lemma not_sent_any P ev : not_sent ev -> if_sent P ev.
Proof. by apply if_sent_mono. Qed.

Context (signing_key : NodeKey) (sid : string).
(** The other tasks, and an invariant they and the driver's own bookkeeping keep. *)
Context (R : World -> World -> Prop) `{!PreOrder R} (I : World -> Prop).
Context (HR : forall w w', R w w' -> I w -> I w').
Context (Htouch : forall w, I w -> I (upd_dkg_sessions (touch_session sid) w)).
Context (Hdrop : forall w, I w -> I (upd_dkg_sessions (delete sid) w)).

(** Carry the invariant over the steps so far. *)
Ltac keep := first [assumption | apply Htouch; keep | apply Hdrop; keep | eapply HR; [eassumption|keep]].

Lemma sends_spec round own b (p2ps : gmap Z bytes) sig ts peers s t log :
  I s ->
  wp R (for_each peers (fun peer =>
      send_dkg_round (sp_grpc_url peer) sid round own b (default [] (p2ps !! sp_id peer)) sig ts;;; Ret tt))
    (fun _ s' _ log' => I s' /\ adds (if_sent (round_message sid round own b p2ps peers)) log log' /\
       broadcast_sent sid round own b peers log') s t log.
Proof.
  revert s t log. induction peers as [|peer peers IH]; intros s t log HI; cbn [for_each].
  { wp_step. split; [keep|]. split; [apply adds_refl|]. intros peer Hpeer. set_solver. }
  unfold send_dkg_round. repeat wp_step. eapply wp_mono; [|apply IH; keep].
  intros _ s1 t1 log1 (HI1 & Hadd & Hs). split; [done|]. split.
  - eapply adds_trans; [apply adds_one|eapply adds_mono; [|exact Hadd]].
    + exists peer. split; [set_solver|done].
    + intros ev. apply if_sent_mono. intros url msg (q & Hq & ?). exists q. split; [set_solver|done].
  - apply adds_prefix in Hadd. intros q [->|Hq]%elem_of_cons; [|by apply Hs]. eexists _, _, _, _.
    eapply elem_of_prefix; [|exact Hadd]. apply elem_of_app. right. by apply list_elem_of_singleton.
Qed.

Lemma broadcast_round_spec round own b p2ps peers s t log :
  I s ->
  wp R (broadcast_round signing_key sid round own b p2ps peers)
    (fun r s' _ log' => I s' /\ adds (if_sent (round_message sid round own b p2ps peers)) log log' /\
       (r = Ok tt -> broadcast_sent sid round own b peers log')) s t log.
Proof.
  intros HI. unfold broadcast_round. do 3 wp_step. destruct (sign_request _ _ _) as [sig|e].
  2: { do 2 wp_step. split; [keep|]. split; [by apply adds_one|done]. }
  do 2 wp_step. eapply wp_mono; [|apply sends_spec; keep].
  intros [] s1 t1 log1 (HI1 & Hadd & Hs). wp_step. split; [keep|].
  split; [eapply adds_trans; [|exact Hadd]; by apply adds_one|done].
Qed.

(** What the barrier of a round lets through. *)
Definition received (round : Z) (expected : list Z) (msgs : RoundMsgs) : Prop :=
  complete expected msgs = true /\ exists w, I w /\ round_msgs w sid round = Some msgs.

Lemma notified_spec deadline s t log :
  I s -> wp R (notified_before sid deadline) (fun _ s' _ log' => I s' /\ adds not_sent log log') s t log.
Proof.
  intros HI. unfold notified_before. do 2 wp_step.
  match goal with |- context [if ?woken then _ else _] => destruct woken end; repeat wp_step; (split; [keep|by apply adds_one]).
Qed.

Lemma await_loop_spec wakes round expected deadline s t log :
  I s ->
  wp R (await_loop wakes sid round expected deadline)
    (fun r s' _ log' => I s' /\ adds not_sent log log' /\
       forall msgs, r = Ok msgs -> received round expected msgs) s t log.
Proof.
  revert s t log. induction wakes as [|wakes IH]; intros s t log HI; cbn [await_loop]; wp_step;
    intros s1 t1 H1 _ s2 t2 H2 _; cbv beta iota; assert (I s1) as HI1 by (by eapply HR);
    assert (I s2) as HI2 by (by eapply HR; [exact H2|]).
  all: destruct (round_msgs s1 sid round) as [msgs|] eqn:Em.
  all: try (destruct (complete expected msgs) eqn:E; [wp_step; split; [keep|]; split; [apply adds_refl|];
            intros ? [= <-]; split; [done|]; by exists s1|]).
  all: wp_step; (eapply wp_mono; [|apply notified_spec; keep]); intros [] s3 t3 log3 [HI3 Hadd3].
  all: try (wp_step; split; [keep|]; split; [done|done]).
  all: eapply wp_mono; [|apply IH; keep];
    intros r s5 t5 log5 (HI5 & Hadd & Hr); (split; [done|]); (split; [by eapply adds_trans|done]).
Qed.

Lemma await_round_spec wakes round expected timeout s t log :
  I s ->
  wp R (await_round wakes sid round expected timeout)
    (fun r s' _ log' => I s' /\ adds not_sent log log' /\
       forall msgs, r = Ok msgs -> received round expected msgs) s t log.
Proof.
  intros HI. unfold await_round. do 4 wp_step. apply await_loop_spec.
  keep.
Qed.

(** The round-1 data for a peer, sealed to its key. *)
Definition sealed_p2p (p2p : gmap Z Round1P2PData) (enc : gmap Z bytes) (peer : SessionPeer) : Prop :=
  exists d b rng ct, p2p !! sp_id peer = Some d /\ ser_p1 d = Ok b /\ ecies_enc rng (sp_pubkey peer) b = Ok ct /\
    enc !! sp_id peer = Some ct.

Lemma encrypt_p2p_spec p2p1 peers acc s t log :
  I s ->
  wp R (encrypt_p2p p2p1 peers acc)
    (fun r s' _ log' => I s' /\ adds not_sent log log' /\ forall enc, r = Ok enc -> NoDup (map sp_id peers) ->
       (forall peer, peer ∈ peers -> sealed_p2p p2p1 enc peer) /\
       (forall i, i ∉ map sp_id peers -> enc !! i = acc !! i)) s t log.
Proof.
  revert acc s t log. induction peers as [|peer peers IH]; intros acc s t log HI; cbn [encrypt_p2p].
  { wp_step. split; [keep|]. split; [apply adds_refl|]. intros enc [= <-] _. split; [set_solver|done]. }
  wp_step.
  destruct (p2p1 !! sp_id peer) as [d|] eqn:Ed; cbn [ok_or]; wp_step; [|wp_step; split; [keep|]; split; [apply adds_refl|done]].
  do 2 wp_step. unfold ser. destruct (ser_p1 d) as [b|] eqn:Eb; cbn [map_err];
    [|wp_step; split; [keep|]; split; [apply adds_refl|done]].
  unfold ecies_encrypt. repeat wp_step. match goal with |- context [ecies_enc ?rng ?k ?b] =>
    destruct (ecies_enc rng k b) as [ct|] eqn:Ec end; cbn [map_err bind_ok bind]; repeat wp_step.
  2: { split; [keep|]. split; [by apply adds_one|done]. }
  eapply wp_mono; [|apply IH; keep]. intros r s1 t1 log1 (HI1 & Hadd & Hr). split; [done|].
  split; [eapply adds_trans; [|exact Hadd]; by apply adds_one|]. intros enc He [Hni Hnd]%NoDup_cons.
  destruct (Hr enc He Hnd) as [Hs Hk]. split.
  - intros q [->|Hq]%elem_of_cons; [|by apply Hs]. exists d, b. eexists _, ct. split; [done|]. split; [done|]. split; [done|].
    rewrite Hk by done. apply lookup_insert_eq.
  - intros i [Hi Hi']%not_elem_of_cons. rewrite Hk by done. by rewrite lookup_insert_ne.
Qed.

(** One broadcast and its barrier. *)
Lemma round_spec {B} wakes round own b p2ps peers timeout
    (f : RoundMsgs -> kms (result B string)) (Q : result B string -> World -> Z -> list kms_event -> Prop) s t log :
  I s -> (forall e s' t' log', Q (Err e) s' t' log') ->
  (forall msgs s' t' log', I s' -> adds (if_sent (round_message sid round own b p2ps peers)) log log' ->
     received round (map sp_id peers) msgs -> broadcast_sent sid round own b peers log' ->
     wp R (f msgs) Q s' t' log') ->
  wp R (let!? _ := broadcast_round signing_key sid round own b p2ps peers in
        let!? msgs := await_round wakes sid round (map sp_id peers) timeout in f msgs) Q s t log.
Proof.
  intros HI HQ Hf. eapply wp_ok_call; [apply _|by apply broadcast_round_spec| |done].
  intros [] s1 t1 log1 HI1 [Hadd Hsent]. eapply wp_ok_call; [apply _|by apply await_round_spec| |done].
  intros msgs s2 t2 log2 HI2 [Hadd2 Hc]. apply Hf; [done| |by apply Hc|].
  - eapply adds_trans; [exact Hadd|]. eapply adds_mono; [|exact Hadd2]. intros ev. apply not_sent_any.
  - eapply broadcast_sent_prefix; [by eapply adds_prefix|by apply Hsent].
Qed.

(** The messages of the session, by round. *)
Definition session_message (own : Z) (y : Play) (enc : gmap Z bytes) (peers : list SessionPeer)
    (url : string) (msg : DkgRoundMsg) : Prop :=
  round_message sid 1 own (y_m1 y) enc peers url msg \/ round_message sid 2 own (y_m2 y) ∅ peers url msg \/
  round_message sid 3 own (y_m3 y) ∅ peers url msg \/ round_message sid 4 own (y_m4 y) ∅ peers url msg.

(** A session that ended with a share: what it received, computed and sent. *)
Definition session_run (p : Participant) (peers : list SessionPeer) (log log' : list kms_event)
    (share : Scalar) (pk : bytes) : Prop :=
  exists tr y enc, plays p tr y share pk /\
    (NoDup (map sp_id peers) -> forall peer, peer ∈ peers -> sealed_p2p (y_p2p y) enc peer) /\
    Forall (fun '(round, msgs) => received round (map sp_id peers) msgs)
      [(1, tr1 tr); (2, tr2 tr); (3, tr3 tr); (4, tr4 tr)] /\
    Forall (fun '(round, m) => broadcast_sent sid round (get_id p) m peers log')
      [(1, y_m1 y); (2, y_m2 y); (3, y_m3 y); (4, y_m4 y)] /\
    adds (if_sent (session_message (get_id p) y enc peers)) log log'.

Lemma run_session_spec wakes p peers timeout s t log :
  I s ->
  wp R (run_session signing_key wakes sid p peers timeout)
    (fun r s' _ log' => forall share pk, r = Ok (share, pk) -> I s' /\ session_run p peers log log' share pk) s t log.
Proof.
  intros HI. unfold run_session.
  eapply wp_ok_pure; [exact HI| |done]. intros [[p1 b1] p2p1] s1 t1 I1 E1%map_err_Ok.
  eapply wp_ok_pure; [exact I1| |done]. intros m1 s2 t2 I2 S1%map_err_Ok.
  eapply wp_ok_call; [apply _|by apply encrypt_p2p_spec| |done]. intros enc s3 t3 log3 I3 [A0 Hseal].
  apply round_spec; [exact I3|done|]. intros r1 s4 t4 log4 I4 A1 C1 B1.
  eapply wp_ok_pure; [exact I4| |done]. intros [bs1 ps1] s6 t6 I6 [D1 P1]%de_round1_Ok.
  eapply wp_ok_pure; [exact I6| |done]. intros [p2 b2] s7 t7 I7 E2%map_err_Ok.
  eapply wp_ok_pure; [exact I7| |done]. intros m2 s8 t8 I8 S2%map_err_Ok.
  apply round_spec; [exact I8|done|]. intros r2 s9 t9 log9 I9 A2 C2 B2.
  eapply wp_ok_pure; [exact I9| |done]. intros bs2 s10 t10 I10 D2.
  eapply wp_ok_pure; [exact I10| |done]. intros [p3 b3] s11 t11 I11 E3%map_err_Ok.
  eapply wp_ok_pure; [exact I11| |done]. intros m3 s12 t12 I12 S3%map_err_Ok.
  apply round_spec; [exact I12|done|]. intros r3 s13 t13 log13 I13 A3 C3 B3.
  eapply wp_ok_pure; [exact I13| |done]. intros bs3 s14 t14 I14 D3.
  eapply wp_ok_pure; [exact I14| |done]. intros [p4 b4] s15 t15 I15 E4%map_err_Ok.
  eapply wp_ok_pure; [exact I15| |done]. intros m4 s16 t16 I16 S4%map_err_Ok.
  apply round_spec; [exact I16|done|]. intros r4 s17 t17 log17 I17 A4 C4 B4.
  eapply wp_ok_pure; [exact I17| |done]. intros bs4 s18 t18 I18 D4.
  eapply wp_ok_pure; [exact I18| |done]. intros p5 s19 t19 I19 E5%map_err_Ok.
  eapply wp_ok_pure; [exact I19| |done]. intros share s20 t20 I20 Hs.
  eapply wp_ok_pure; [exact I20| |done]. intros pk s21 t21 I21 Hk.
  do 3 wp_step. intros ? ? [= <- <-]. split; [keep|].
  exists (mkTranscript r1 r2 r3 r4), (mkPlay p1 b1 p2p1 m1 bs1 ps1 p2 b2 m2 bs2 p3 b3 m3 bs3 p4 b4 m4 bs4 p5), enc.
  assert (get_secret_share p5 = Some share) as Hs' by (destruct (get_secret_share p5); simpl in Hs; congruence).
  assert (get_public_key p5 = Some pk) as Hk' by (destruct (get_public_key p5); simpl in Hk; congruence).
  split; [by repeat split|]. split; [intros Hnd; exact (proj1 (Hseal enc eq_refl Hnd))|]. split; [by repeat (apply List.Forall_cons; [done|])|]. split.
  - apply adds_prefix in A2, A3, A4.
    repeat constructor; [| | |done]; (eapply broadcast_sent_prefix; [|eassumption]); by repeat (etrans; [eassumption|]).
  - eapply adds_trans; [eapply adds_mono; [|exact A0]; intros ev; apply not_sent_any|].
    do 3 (eapply adds_trans; [eapply adds_mono; [|eassumption]; intros ev; apply if_sent_mono; unfold session_message; tauto|]).
    eapply adds_mono; [|exact A4]. intros ev. apply if_sent_mono. unfold session_message. tauto.
Qed.

End Refinement.

Section Outcome.
Context {T : ThresholdScheme} {X : Externals T} {G : Gennaro T}.

(** What a session that ends with a share stands for: the protocol on complete rounds of
    messages, its broadcasts sent to every peer, and nothing else sent. *)
Definition session_outcome (sid : string) (p : Participant) (peers : list SessionPeer) (log log' : list kms_event)
    (share : Scalar) (pk : bytes) : Prop :=
  exists tr m1 m2 m3 m4, five_rounds p tr = Ok ([m1; m2; m3; m4], share, pk) /\
    Forall (fun msgs => complete (map sp_id peers) msgs = true) [tr1 tr; tr2 tr; tr3 tr; tr4 tr] /\
    Forall (fun '(round, m) => broadcast_sent sid round (get_id p) m peers log') [(1, m1); (2, m2); (3, m3); (4, m4)] /\
    adds (if_sent (fun url msg => (exists q, q ∈ peers /\ url = sp_grpc_url q) /\
      (dm_session_id msg, dm_round msg, dm_from_index msg, dm_broadcast msg) ∈
        [(sid, 1, get_id p, m1); (sid, 2, get_id p, m2); (sid, 3, get_id p, m3); (sid, 4, get_id p, m4)])) log log'.

End Outcome.

(** ** A protocol library to run sessions with *)

Module ToyDkg.

(** Every session ends with a fixed share and a fixed public key. *)
#[global] Instance gennaro (value : Scalar (ThresholdScheme := Toy.scheme)) (pk : bytes) : Gennaro Toy.scheme := {|
  Participant := Z;
  Round1BroadcastData := unit; Round1P2PData := unit; Round2EchoBroadcastData := unit;
  Round3BroadcastData := unit; Round4EchoBroadcastData := unit;
  secret_new _ id _ _ := Ok id;
  secret_with _ id _ _ _ _ _ := Ok id;
  refresh_new _ id _ _ := Ok id;
  get_id := id;
  round1 p := Ok (p, tt, {[1 := tt; 2 := tt]});
  round2 p _ _ := Ok (p, tt);
  round3 p _ := Ok (p, tt);
  round4 p _ := Ok (p, tt);
  round5 p _ := Ok p;
  get_secret_share _ := Some value;
  get_public_key _ := Some pk;
  ser_b1 _ := Ok []; de_b1 _ := Ok tt; ser_p1 _ := Ok []; de_p1 _ := Ok tt;
  ser_b2 _ := Ok []; de_b2 _ := Ok tt; ser_b3 _ := Ok []; de_b3 _ := Ok tt;
  ser_b4 _ := Ok []; de_b4 _ := Ok tt
|}.

End ToyDkg.

(** A session runs the five-round protocol and nothing else.  Whatever the other tasks
    and the network do, a session that ends with a share and a public key has the result of
    the five rounds on messages it received: in each round a message from every expected
    participant, this participant's own broadcast included from round two on; and it has
    sent each of its four broadcasts, under its own index, to every peer, and no other round
    message to anybody. *)
Theorem session_runs_the_five_rounds {T : ThresholdScheme} {X : Externals T} {G : Gennaro T} (o : kms_oracle)
    node wakes sid p peers timeout x :
  let '(r, y) := run o (run_session node wakes sid p peers timeout) x in
  forall share pk, r = Ok (share, pk) -> session_outcome sid p peers (x_log x) (x_log y) share pk.
Proof.
  pose proof (run_anything o _ _ x (run_session_spec node sid anything (fun _ => True) ltac:(done) ltac:(done) ltac:(done)
    wakes p peers timeout _ _ _ I)) as H.
  destruct (run o _ x) as [r z]. cbn [fst snd] in H. intros share pk Hr.
  destruct (H share pk Hr) as (_ & tr & y & enc & Hp & _ & Hrec & Hsent & Hadd).
  exists tr, (y_m1 y), (y_m2 y), (y_m3 y), (y_m4 y). split; [by apply plays_five_rounds|]. split; [|split; [done|]].
  - repeat (apply Forall_cons in Hrec as [[? _] Hrec]). by repeat constructor.
  - eapply adds_mono; [|exact Hadd]. intros ev. apply if_sent_mono. intros url msg Hm.
    destruct Hm as [(q & ? & ? & ->)|[(q & ? & ? & ->)|[(q & ? & ? & ->)|(q & ? & ? & ->)]]];
      (split; [by exists q|]); set_solver.
Qed.

(** ** Node 1 in a session with node 2, whose messages have arrived *)

Definition toy_session_peer : SessionPeer := mkSessionPeer 2 "http://n2" (Toy.pubkey Toy.sk2) 3.

Definition toy_session_world : World :=
  let msgs : RoundMsgs := {[2 := ([], [])]} in
  upd_dkg_sessions (fun _ => {["s" := mkDkgSession {[1 := msgs; 2 := msgs; 3 := msgs; 4 := msgs]}]}) Toy.world.

Definition toy_session : kms (result (Scalar * bytes) string) :=
  run_session (G := ToyDkg.gennaro Byte.x09 [Byte.x08]) Toy.node1 1 "s" 1 [toy_session_peer] (secs 60).

Lemma session_runs_the_five_rounds_witness :
  session_outcome (G := ToyDkg.gennaro Byte.x09 [Byte.x08]) "s" 1 [toy_session_peer] []
    (x_log (run Toy.idle toy_session (start toy_session_world 0)).2) Byte.x09 [Byte.x08].
Proof.
  pose proof (session_runs_the_five_rounds (G := ToyDkg.gennaro Byte.x09 [Byte.x08]) Toy.idle Toy.node1 1 "s" 1
    [toy_session_peer] (secs 60) (start toy_session_world 0)) as H.
  change (run_session _ _ _ _ _ _) with toy_session in H.
  assert ((run Toy.idle toy_session (start toy_session_world 0)).1 = Ok (Byte.x09, [Byte.x08])) as E
    by (vm_compute; reflexivity).
  destruct (run Toy.idle toy_session (start toy_session_world 0)) as [r y]. exact (H _ _ E).
Defined.

(** ** What a failed session leaves behind *)

Section Failure.
Context {T : ThresholdScheme} {X : Externals T} {G : Gennaro T}.
Context (signing_key : NodeKey) (sid : string).

Definition same_rounds (w w' : World) : Prop := forall round, round_msgs w' sid round = round_msgs w sid round.

#[global] Instance same_rounds_preorder : PreOrder same_rounds.
Proof. split; [by intros w|]. intros w1 w2 w3 H1 H2 round. by rewrite H2, H1. Qed.

Lemma touch_same_rounds w : same_rounds w (upd_dkg_sessions (touch_session sid) w).
Proof.
  intros round. unfold round_msgs, touch_session. destruct w; cbn. rewrite lookup_insert_eq.
  destruct (_ !! sid) as [d|]; cbn; [done|]. unfold DkgSession_default. cbn. by rewrite lookup_empty.
Qed.

Lemma encrypt_same p2p peers acc : guar same_rounds (encrypt_p2p p2p peers acc).
Proof. revert acc. induction peers as [|q peers IH]; intros acc; cbn [encrypt_p2p]; [done|]. unfold ecies_encrypt. repeat (guar_step || apply IH). Qed.

Lemma broadcast_same round own b p2ps peers : guar same_rounds (broadcast_round signing_key sid round own b p2ps peers).
Proof. unfold broadcast_round, send_dkg_round. repeat guar_step. Qed.

Lemma await_same wakes round expected timeout : guar same_rounds (await_round wakes sid round expected timeout).
Proof.
  unfold await_round. guar_step; [guar_step; apply touch_same_rounds|]. guar_step. guar_step; [guar_step|]. guar_step.
  match goal with |- context [await_loop _ _ _ _ ?d] => generalize d end. clear. intros d.
  induction wakes as [|n IH]; cbn [await_loop]; unfold notified_before; repeat (guar_step || apply IH); done.
Qed.

(** A part of the session that leaves the buffers alone. *)
Lemma wp_same {A B} (p : kms (result A string)) (f : A -> kms (result B string)) Q w s t log :
  guar same_rounds p -> same_rounds w s ->
  (forall a s' t' log', same_rounds w s' -> wp same_rounds (f a) Q s' t' log') ->
  (forall e s' t' log', same_rounds w s' -> Q (Err e) s' t' log') ->
  wp same_rounds (bind_ok p f) Q s t log.
Proof.
  intros Hg Hw Hf He. apply wp_bind_ok; [apply _|]. eapply wp_mono; [|by apply wp_guar; [apply _|]].
  intros [a|e] s' t' log' Hs; [apply Hf; by etrans|]. wp_step. apply He. etrans; [exact Hw|by etrans].
Qed.

Lemma session_failure wakes p peers timeout s t log :
  wp same_rounds (run_session signing_key wakes sid p peers timeout)
    (fun r s' _ _ => forall e, r = Err e -> same_rounds s s') s t log.
Proof.
  unfold run_session. assert (same_rounds s s) as Hs by done. revert Hs. generalize s at 1 3 as w. intros w Hs.
  repeat (eapply (wp_same _ _ _ w);
    [first [exact I|apply encrypt_same|apply broadcast_same|apply await_same]|exact Hs| |by intros];
    clear Hs; intros ? ? ? ? Hs; repeat case_match).
  do 3 wp_step. done.
Qed.

(** A complete round passes the barrier at once. *)
Lemma complete_passes wakes round expected msgs timeout s t log :
  round_msgs s sid round = Some msgs -> complete expected msgs = true ->
  wp same_rounds (await_round wakes sid round expected timeout) (fun r _ _ log' => r = Ok msgs /\ log' = log) s t log.
Proof.
  intros Hm Hc. unfold await_round. do 4 wp_step.
  destruct wakes; cbn [await_loop]; wp_step; intros s1 t1 Hs1 _ s2 t2 Hs2 _; cbv beta iota;
    (assert (round_msgs s1 sid round = Some msgs) as -> by
      (repeat (rewrite (touch_same_rounds _ round) || match goal with H : same_rounds ?a ?b |- _ = Some _ => rewrite (H round); clear H end); done));
    rewrite Hc; by wp_step.
Qed.

End Failure.

(** ** A session that can succeed does *)

Section Completion.
Context {T : ThresholdScheme} {X : Externals T} {G : Gennaro T}.
Context (signing_key : NodeKey) (sid : string).

(** The messages of the transcript are all there. *)
Definition delivered (peers : list SessionPeer) (tr : Transcript) (w : World) : Prop :=
  Forall (fun '(round, msgs) => round_msgs w sid round = Some msgs /\ complete (map sp_id peers) msgs = true)
    [(1, tr1 tr); (2, tr2 tr); (3, tr3 tr); (4, tr4 tr)].

(** Round-1 data for the peer exists and can be sealed to its key. *)
Definition sealable (p2p : gmap Z Round1P2PData) (peer : SessionPeer) : Prop :=
  exists d b, p2p !! sp_id peer = Some d /\ ser_p1 d = Ok b /\ forall rng, exists ct, ecies_enc rng (sp_pubkey peer) b = Ok ct.

(** A call that returns a known value, and one that is known to succeed. *)
Lemma wp_succeeds {A B} (P : A -> Prop) (p : kms (result A string)) (f : A -> kms (result B string)) Q w s t log :
  same_rounds sid w s -> guar (same_rounds sid) p ->
  wp (same_rounds sid) p (fun r _ _ _ => exists a, r = Ok a /\ P a) s t log ->
  (forall a s' t' log', P a -> same_rounds sid w s' -> wp (same_rounds sid) (f a) Q s' t' log') ->
  wp (same_rounds sid) (bind_ok p f) Q s t log.
Proof.
  intros Hw Hg Hp Hf. apply wp_bind_ok; [apply _|]. eapply wp_mono; [|apply wp_conj; [exact Hp|by apply wp_guar; [apply _|]]].
  intros r s' t' log' [(a & -> & HP) Hs]. apply Hf; [done|by etrans].
Qed.

Lemma wp_pure_succeeds {A B} (r : result A string) (f : A -> kms (result B string)) a Q s t log :
  r = Ok a -> wp (same_rounds sid) (f a) Q s t log -> wp (same_rounds sid) (bind_ok (Ret r) f) Q s t log.
Proof. by intros ->. Qed.

Lemma encrypt_succeeds p2p peers acc s t log :
  Forall (sealable p2p) peers ->
  wp (same_rounds sid) (encrypt_p2p p2p peers acc) (fun r _ _ _ => exists enc, r = Ok enc /\ True) s t log.
Proof.
  revert acc s t log. induction peers as [|peer peers IH]; intros acc s t log H; cbn [encrypt_p2p]; [wp_step; by eexists|].
  apply Forall_cons in H as [(d & b & Hd & Hb & Hc) H]. rewrite Hd. cbn [ok_or bind_ok bind]. unfold ser. rewrite Hb. cbn [map_err bind_ok bind].
  unfold ecies_encrypt. repeat wp_step. match goal with |- context [ecies_enc ?rng ?k ?b] => destruct (Hc rng) as [ct ->] end.
  cbn [map_err bind_ok bind]. repeat wp_step. by apply IH.
Qed.

Lemma broadcast_succeeds round own b p2ps peers s t log :
  (forall ts, is_ok (sign_request (private_key signing_key) "DkgRound" ts) = true) ->
  wp (same_rounds sid) (broadcast_round signing_key sid round own b p2ps peers) (fun r _ _ _ => exists u, r = Ok u /\ True) s t log.
Proof.
  intros Hs. unfold broadcast_round. do 3 wp_step. match goal with |- context [sign_request ?k ?m ?ts] => specialize (Hs ts);
    destruct (sign_request k m ts); [|done] end. do 2 wp_step. eapply wp_mono; [|apply wp_progress; apply _].
  intros [] ? ? ? _. wp_step. by eexists.
Qed.

(** One broadcast and its barrier. *)
Lemma round_succeeds {B} wakes round own b p2ps peers timeout msgs (f : RoundMsgs -> kms (result B string)) Q w s t log :
  (forall ts, is_ok (sign_request (private_key signing_key) "DkgRound" ts) = true) ->
  same_rounds sid w s -> round_msgs w sid round = Some msgs /\ complete (map sp_id peers) msgs = true ->
  (forall s' t' log', same_rounds sid w s' -> wp (same_rounds sid) (f msgs) Q s' t' log') ->
  wp (same_rounds sid) (let!? _ := broadcast_round signing_key sid round own b p2ps peers in
        let!? msgs := await_round wakes sid round (map sp_id peers) timeout in f msgs) Q s t log.
Proof.
  intros Hsig Hw [Hm Hc] Hf. eapply wp_succeeds; [exact Hw|apply broadcast_same|by apply broadcast_succeeds|].
  intros _ s1 t1 log1 _ H1. eapply (wp_succeeds (fun a => a = msgs)); [exact H1|apply await_same| |by intros ? ? ? ? ->; apply Hf].
  eapply wp_mono; [|apply complete_passes; [by rewrite H1|exact Hc]]. intros r ? ? ? [-> _]. by eexists.
Qed.

Lemma session_succeeds wakes p peers timeout tr y share pk s t log :
  plays p tr y share pk -> Forall (sealable (y_p2p y)) peers -> delivered peers tr s ->
  (forall ts, is_ok (sign_request (private_key signing_key) "DkgRound" ts) = true) ->
  wp (same_rounds sid) (run_session signing_key wakes sid p peers timeout) (fun r _ _ _ => r = Ok (share, pk)) s t log.
Proof.
  intros (E1 & S1 & D1 & P1 & E2 & S2 & D2 & E3 & S3 & D3 & E4 & S4 & D4 & E5 & G1 & G2) Hseal Hdel Hsig.
  unfold delivered in Hdel. repeat (apply Forall_cons in Hdel as [? Hdel]). unfold run_session.
  assert (same_rounds sid s s) as Hs by done.
  eapply wp_pure_succeeds; [by rewrite E1|]. cbv beta iota. unfold ser. eapply wp_pure_succeeds; [by rewrite S1|].
  eapply wp_succeeds; [exact Hs|apply encrypt_same|by apply encrypt_succeeds|]. clear Hs. intros enc s1 t1 log1 _ Hs.
  eapply round_succeeds; [done|exact Hs|done|]. clear Hs. intros s2 t2 log2 Hs.
  eapply wp_pure_succeeds; [apply de_round1_Ok; split; [exact D1|exact P1]|]. cbv beta iota. eapply wp_pure_succeeds; [by rewrite E2|].
  eapply wp_pure_succeeds; [by rewrite S2|]. eapply round_succeeds; [done|exact Hs|done|]. clear Hs. intros s3 t3 log3 Hs.
  eapply wp_pure_succeeds; [exact D2|]. eapply wp_pure_succeeds; [by rewrite E3|]. eapply wp_pure_succeeds; [by rewrite S3|].
  eapply round_succeeds; [done|exact Hs|done|]. clear Hs. intros s4 t4 log4 Hs.
  eapply wp_pure_succeeds; [exact D3|]. eapply wp_pure_succeeds; [by rewrite E4|]. eapply wp_pure_succeeds; [by rewrite S4|].
  eapply round_succeeds; [done|exact Hs|done|]. clear Hs. intros s5 t5 log5 Hs.
  eapply wp_pure_succeeds; [exact D4|]. eapply wp_pure_succeeds; [by rewrite E5|].
  eapply wp_pure_succeeds; [by rewrite G1|]. eapply wp_pure_succeeds; [by rewrite G2|]. do 2 wp_step. by wp_step.
Qed.

End Completion.

(** A session whose messages have arrived completes.  If the protocol succeeds on the
    messages in the session's buffers, a message from every peer in each round, and this
    participant's round-1 data can be sealed to the peers' keys and its requests signed, then
    the session ends with that run's share and public key, however late its other steps are
    and even if not one of its own messages is delivered. *)
Theorem delivered_session_completes {T : ThresholdScheme} {X : Externals T} {G : Gennaro T} (o : kms_oracle)
    node wakes sid p peers timeout tr y share pk x :
  plays p tr y share pk -> Forall (sealable (y_p2p y)) peers -> delivered sid peers tr (x_st x) ->
  (forall ts, is_ok (sign_request (private_key node) "DkgRound" ts) = true) -> relies o (same_rounds sid) ->
  (run o (run_session node wakes sid p peers timeout) x).1 = Ok (share, pk).
Proof.
  intros Hp Hseal Hdel Hsig Ho.
  exact (wp_sound _ o _ _ x Ho (session_succeeds node sid wakes p peers timeout tr y share pk _ _ (x_log x) Hp Hseal Hdel Hsig)).
Qed.

Lemma toy_signs ts : is_ok (sign_request (private_key Toy.node1) "DkgRound" ts) = true.
Proof.
  unfold sign_request, sign_bytes. pose proof (Toy.keccak_ok (request_msg "DkgRound" ts)) as Hk. revert Hk.
  generalize (request_msg "DkgRound" ts). intros m Hk. unfold k256_sign, k256_pubkey, keccak256, Toy.externals in *.
  rewrite Hk. reflexivity.
Qed.

Definition toy_play : Play (G := ToyDkg.gennaro Byte.x09 [Byte.x08]) :=
  mkPlay (G := ToyDkg.gennaro Byte.x09 [Byte.x08]) 1 tt {[1 := tt; 2 := tt]} [] {[2 := tt]} {[2 := tt]}
    1 tt [] {[1 := tt; 2 := tt]} 1 tt [] {[1 := tt; 2 := tt]} 1 tt [] {[1 := tt; 2 := tt]} 1.

Definition toy_transcript : Transcript :=
  let msgs : RoundMsgs := {[2 := ([], [])]} in mkTranscript msgs msgs msgs msgs.

Lemma delivered_session_completes_witness :
  (run Toy.idle toy_session (start toy_session_world 0)).1 = Ok (Byte.x09, [Byte.x08]).
Proof.
  pose proof (delivered_session_completes (G := ToyDkg.gennaro Byte.x09 [Byte.x08]) Toy.idle Toy.node1 1 "s" 1 [toy_session_peer]
    (secs 60) toy_transcript toy_play Byte.x09 [Byte.x08] (start toy_session_world 0)) as H.
  change (run_session _ _ _ _ _ _) with toy_session in H.
  assert (plays (G := ToyDkg.gennaro Byte.x09 [Byte.x08]) 1 toy_transcript toy_play Byte.x09 [Byte.x08]) as H1
    by (repeat split; vm_compute; reflexivity).
  assert (delivered "s" [toy_session_peer] toy_transcript toy_session_world) as H2
    by (repeat (apply List.Forall_cons; [split; vm_compute; reflexivity|]); apply List.Forall_nil).
  refine (H H1 _ H2 toy_signs (fun n w round => eq_refl)).
  apply List.Forall_cons; [|apply List.Forall_nil]. exists tt, []. split; [vm_compute; reflexivity|].
  split; [vm_compute; reflexivity|]. intros rng. eexists. vm_compute. reflexivity.
Defined.

(** C36: a failed session leaves its messages behind, and they pass for the next attempt's.
    The session's buffers are removed only when the session succeeds.  When an attempt ends
    in an error, every message buffered for it is still there (the other tasks leaving the
    session alone), and in the next session under the same id, which for genesis is a fixed
    one, a round those messages complete passes its barrier at once, with the old messages
    and without waiting for the new ones. *)
Theorem failed_session_leaves_its_messages {T : ThresholdScheme} {X : Externals T} {G : Gennaro T} (o : kms_oracle)
    node wakes sid p peers timeout x e :
  relies o (same_rounds sid) ->
  let '(r, y) := run o (run_session node wakes sid p peers timeout) x in
  r = Err e ->
  same_rounds sid (x_st x) (x_st y) /\
  forall (o' : kms_oracle) wakes' round expected msgs timeout',
    relies o' (same_rounds sid) -> round_msgs (x_st x) sid round = Some msgs -> complete expected msgs = true ->
    let '(r', z) := run o' (await_round wakes' sid round expected timeout') y in r' = Ok msgs /\ x_log z = x_log y.
Proof.
  intros Ho. pose proof (wp_sound _ o _ _ x Ho (session_failure node sid wakes p peers timeout _ _ (x_log x))) as H.
  destruct (run o _ x) as [r y]. cbn [fst snd] in H. intros Hr. specialize (H e Hr). split; [done|].
  intros o' wakes' round expected msgs timeout' Ho' Hm Hc. rewrite <-(H round) in Hm.
  pose proof (wp_sound _ o' _ _ y Ho' (complete_passes sid wakes' round expected msgs timeout' _ _ (x_log y) Hm Hc)) as Hp.
  by destruct (run o' _ y).
Qed.

(** Node 2's first message has arrived; the second never does. *)
Definition toy_half_world : World :=
  upd_dkg_sessions (fun _ => {["s" := mkDkgSession {[1 := {[2 := ([], [])]}]}]}) Toy.world.

Lemma failed_session_leaves_its_messages_witness :
  let y := (run Toy.idle toy_session (start toy_half_world 0)).2 in
  (run Toy.idle (await_round 1 "s" 1 [2] (secs 60)) y).1 = Ok {[2 := ([], [])]}.
Proof.
  pose proof (failed_session_leaves_its_messages (G := ToyDkg.gennaro Byte.x09 [Byte.x08]) Toy.idle Toy.node1 1 "s" 1
    [toy_session_peer] (secs 60) (start toy_half_world 0) "DKG session 's' round 2 timed out waiting for peers") as H.
  change (run_session _ _ _ _ _ _) with toy_session in H.
  assert ((run Toy.idle toy_session (start toy_half_world 0)).1 = Err "DKG session 's' round 2 timed out waiting for peers") as E
    by (vm_compute; reflexivity).
  destruct (run Toy.idle toy_session (start toy_half_world 0)) as [r y]. cbv zeta. cbn [snd fst] in *.
  destruct (H (fun n w round => eq_refl) E) as [_ H'].
  specialize (H' Toy.idle 1%nat 1 [2] {[2 := ([], [])]} (secs 60) (fun n w round => eq_refl)).
  destruct (run Toy.idle _ y) as [r' z]. apply H'; vm_compute; reflexivity.
Defined.

(** ** The barrier of a round *)

(** The messages a look at the buffers lets through. *)
Definition satisfied (sid : string) (round : Z) (expected : list Z) (w : World) : option RoundMsgs :=
  match round_msgs w sid round with
  | Some msgs => if complete expected msgs then Some msgs else None
  | None => None
  end.

(** The clock before the [n]-th step after [x], while nothing sleeps. *)
Definition clock (o : kms_oracle) (x : exec World Call ans) (n : nat) : Z := x_now (Nat.iter n (tick o) x).

(** What tokio promises a waiting task from [x] on: a step takes between a nanosecond and
    [delta]; once the deadline has passed the timer wins against later notifications; and a
    wait only times out if no message of the session came in while it lasted, since the
    handler of such a message notifies. *)
Record waiting (o : kms_oracle) (x : exec World Call ans) (sid : string) (deadline delta : Z) : Prop := {
  steps_take_time n : 1 <= Z.of_N (o_delay o n) <= delta;
  timer_fires n : deadline <= clock o x n -> o_ans o (x_n x + n) (Notified sid deadline) = false;
  arrivals_notify n k w : o_ans o n (Notified sid deadline) = false -> (n <= k <= n + 2)%nat -> same_rounds sid w (o_env o k w)
}.

Section Barrier.
Context (o : kms_oracle) (sid : string) (round : Z) (expected : list Z) (deadline delta : Z).

Lemma iter_tick_n x n : x_n (Nat.iter n (tick o) x) = (x_n x + n)%nat.
Proof. induction n as [|n IH]; [cbn; lia|]. change (S (x_n (Nat.iter n (tick o) x)) = (x_n x + S n)%nat). rewrite IH. lia. Qed.

Lemma clock_S x n : clock o x (S n) = clock o x n + Z.of_N (o_delay o (x_n x + n)).
Proof. unfold clock. rewrite <-iter_tick_n. reflexivity. Qed.

(** Asking at [y], and waiting for the timer after that. *)
Definition asked (y : exec World Call ans) : exec World Call ans :=
  Exec (x_st (tick o y)) (S (x_n y)) (x_now (tick o y))
    (x_log y ++ [Ev (Notified sid deadline) (o_ans o (x_n y) (Notified sid deadline))]).

Definition timed_out (y : exec World Call ans) : exec World Call ans :=
  let z := tick o (asked y) in
  Exec (x_st (tick o z)) (S (x_n z)) (x_now (tick o z) + Z.max 0 (deadline - x_now z)) (x_log z).

(** One turn of the loop. *)
Lemma await_turn wakes x :
  run o (await_loop wakes sid round expected deadline) x =
  let y := tick o x in
  match satisfied sid round expected (x_st y) with
  | Some msgs => (Ok msgs, y)
  | None =>
      if o_ans o (x_n y) (Notified sid deadline) : bool then
        match wakes with
        | S wakes => run o (await_loop wakes sid round expected deadline) (asked y)
        | O => (Err out_of_wakes, asked y)
        end
      else (Err (round_timed_out sid round), timed_out y)
  end.
Proof.
  unfold satisfied, timed_out, asked. destruct wakes as [|wakes]; cbn [await_loop get bind run];
    unfold notified_before; cbn [ask bind run now sleep]; unfold id;
    (destruct (round_msgs _ sid round) as [msgs|]; [destruct (complete expected msgs); [done|]|]);
    cbn [bind run]; destruct (o_ans o _ (Notified sid deadline)); done.
Qed.

Lemma satisfied_same w w' : same_rounds sid w w' -> satisfied sid round expected w' = satisfied sid round expected w.
Proof. intros H. unfold satisfied. by rewrite H. Qed.

(** What the loop ends in. *)
Definition barrier_result (r : result RoundMsgs string) (y : exec World Call ans) : Prop :=
  x_now y <= deadline + 5 * delta /\
  match satisfied sid round expected (x_st y) with
  | Some msgs => r = Ok msgs
  | None => r = Err (round_timed_out sid round) /\ deadline <= x_now y
  end.

Lemma timed_out_result x0 y :
  waiting o x0 sid deadline delta -> o_ans o (x_n y) (Notified sid deadline) = false ->
  satisfied sid round expected (x_st y) = None -> x_now y <= deadline + 2 * delta ->
  barrier_result (Err (round_timed_out sid round)) (timed_out y).
Proof.
  intros Hw Ha Hs Hle. pose proof (steps_take_time _ _ _ _ _ Hw) as Hd.
  assert (forall k w, (x_n y <= k <= x_n y + 2)%nat -> same_rounds sid w (o_env o k w)) as Hn
    by (intros k w; by apply (arrivals_notify _ _ _ _ _ Hw)).
  pose proof (Hd (x_n y)). pose proof (Hd (S (x_n y))). pose proof (Hd (S (S (x_n y)))).
  split; [cbn; lia|]. cbn [timed_out asked tick x_st x_n].
  rewrite (satisfied_same _ _ (Hn (S (S (x_n y))) _ ltac:(lia))), (satisfied_same _ _ (Hn (S (x_n y)) _ ltac:(lia))),
    (satisfied_same _ _ (Hn (x_n y) _ ltac:(lia))), Hs. split; [done|cbn; lia].
Qed.

(** The loop, entered [n] steps after [x0]. *)
Lemma await_loop_ends x0 wakes x n :
  waiting o x0 sid deadline delta -> x_n x = (x_n x0 + n)%nat -> x_now x = clock o x0 n ->
  x_now x <= deadline + delta -> deadline - x_now x <= Z.of_nat wakes ->
  barrier_result (run o (await_loop wakes sid round expected deadline) x).1
    (run o (await_loop wakes sid round expected deadline) x).2.
Proof.
  intros Hw. revert x n. induction wakes as [|wakes IH]; intros x n Hn Ht Hle Hfuel; rewrite await_turn; cbv zeta;
    set (y := tick o x); pose proof (steps_take_time _ _ _ _ _ Hw) as Hd;
    assert (x_n y = (x_n x0 + S n)%nat) as Hyn by (unfold y; cbn [tick x_n]; lia);
    assert (x_now y = clock o x0 (S n)) as Hyt by (rewrite clock_S, <-Hn, <-Ht; reflexivity);
    (assert (x_now x + 1 <= x_now y <= x_now x + delta) as Hy by (specialize (Hd (x_n x)); unfold y; cbn [tick x_now]; lia));
    (destruct (satisfied sid round expected (x_st y)) as [msgs|] eqn:Es;
      [split; [cbn [snd]; lia|cbn [fst snd]; by rewrite Es]|]).
  all: destruct (o_ans o (x_n y) (Notified sid deadline)) eqn:Ea.
  1, 3: assert (x_now y < deadline) as Hlt by
    (destruct (Z_lt_le_dec (x_now y) deadline) as [|Hge]; [done|]; rewrite Hyt in Hge;
     apply (timer_fires _ _ _ _ _ Hw) in Hge; rewrite <-Hyn in Hge; congruence).
  { lia. }
  2, 3: eapply timed_out_result; [done..|lia].
  specialize (Hd (x_n y)).
  assert (x_now (asked y) = x_now y + Z.of_N (o_delay o (x_n y))) as Ez by reflexivity.
  apply (IH (asked y) (S (S n))); [change (x_n (asked y)) with (S (x_n y)); lia| |lia..].
  rewrite clock_S, <-Hyn, <-Hyt. exact Ez.
Qed.

End Barrier.


(** Two wake-ups without the missing message, then the deadline, 20 ns after the start. *)
Definition toy_notified : kms_oracle :=
  {| o_ans := fun n c => match c return ans c with
       | Notified _ _ => (n <? 6)%nat
       | c => Toy.no_answer c
       end;
     o_env := fun _ w => w; o_delay := fun _ => 1%N |}.

Lemma toy_waiting : waiting toy_notified (tick toy_notified (tick toy_notified (start toy_session_world 0))) "s" 22 1.
Proof.
  split; [cbn; lia| |by intros].
  intros n Hn. change ((2 + n <? 6)%nat = false). apply Nat.ltb_ge.
  assert (clock toy_notified (tick toy_notified (tick toy_notified (start toy_session_world 0))) n = 2 + Z.of_nat n) as E.
  { clear Hn. induction n as [|n IH]; [reflexivity|]. rewrite clock_S, IH. cbn [o_delay toy_notified]. lia. }
  lia.
Qed.

