(* ===== verification/Lifecycle.v ===== *)
(** [src/src/init.rs]: how a node comes to hold a share and keeps it current.  Boot-time
    reload of the sealed share, probing the seeds, distributed genesis, reshare recovery,
    the dealer side of a reshare, proactive refresh, the formation loop with its disaster
    gate, and the fall-behind watchdog; with the handlers of [grpc.rs] that serve them. *)
From S2P Require Import Base Threshold Prelude Prog State Externals Models Crypto Chain Verifier Auth Derive Seal Metrics Membership Dkg.
From Stdlib Require Import ZArith Lia.
From stdpp Require Import base list gmap strings pretty sorting.
Local Open Scope Z_scope.

Definition DKG_ROUND_TIMEOUT : Z := secs 60.
Definition GENESIS_EPOCH : Z := 1.
Definition SUBSET_SETTLE : Z := secs 60.

Inductive JoinResult : Set :=
| Joined
| NoSeedReachable
| SeedReachableDeclined.

Inductive SeedError : Type :=
| Unreachable (e : string)
| Declined (e : string).

(** [opt.filter(|v| !v.trim().is_empty())]. *)
Definition nonblank (o : option string) : option string :=
  match o with
  | Some v => if decide (trim v = EmptyString) then None else Some v
  | None => None
  end.

(** The two reads of [AppState::known_epoch]. *)
Definition read_known_epoch : kms Z :=
  let! w1 := get in
  let! w2 := get in
  Ret (Z.max (own_epoch w1) (max_or_0 (map peer_epoch (table_values (peer_table w2))))).

(** [enumerate().map(|(i, s)| (i + 1, share_to_bytes(s)))]. *)
Fixpoint number_from (i : Z) (l : list bytes) : list (Z * bytes) :=
  match l with [] => [] | b :: l => (i, b) :: number_from (i + 1) l end.

Section Lifecycle.
Context {T : ThresholdScheme} {X : Externals T} {G : Gennaro T}.
Context (config : Config) (signing_key : NodeKey).
(** How many wake-ups a round's barrier can see before its deadline. *)
Context (wakes : nat).

Abbreviation thr := (threshold (cluster config)).
Abbreviation total := (total_nodes (cluster config)).
Abbreviation app := (tapp_app_id (tapp config)).

(** * The legacy dealer *)

Definition init_start_node : kms (result unit string) :=
  let!? shares := split_master (Z.to_nat thr) (Z.to_nat total) in
  let shards := number_from 1 (map share_to_bytes shares) in
  match shards with
  | [] => Ret (Err "split produced no shards")
  | (own_index, own_bytes) :: _ =>
      modify (set_shard (Some (mkShardState own_index own_bytes GENESIS_EPOCH)));;;
      modify (set_pending_shards (Some shards));;;
      Ret (Ok tt)
  end.

(** [try_assign_init_shard]: the pending shard at the caller's list position. *)
Definition try_assign_init_shard (caller_pubkey : bytes) :
    kms (result (option EncryptedShard) Status) :=
  let! w := get in
  match pending_shards w with
  | None => Ret (Ok None)
  | Some shards =>
      let caller_addr := eth_address_from_pubkey caller_pubkey in
      let! r := get_signer_addresses (rpc_url (chain config)) (contract_address (chain config)) app in
      let!? l := Ret (map_err (fun _ => internal "membership lookup failed") r) in
      let!? pos := Ret (ok_or (position (fun a => bool_decide (a = caller_addr)) l)
                              (permission_denied "caller not in on-chain nodeList")) in
      let!? sh := Ret (ok_or (shards !! pos) (internal "no shard available")) in
      let! enc := ecies_encrypt caller_pubkey sh.2 in
      let!? ciphertext := Ret (map_err (fun _ => internal "encryption failed") enc) in
      let msg := shard_signing_msg "RequestShard" caller_addr sh.1 ciphertext in
      let!? signature := Ret (map_err (fun _ => internal "response signing failed")
                                      (sign_bytes (private_key signing_key) msg)) in
      Ret (Ok (Some (mkEncryptedShard ciphertext sh.1 signature)))
  end.

(** The [RequestShard] handler: the error tells the caller whether a cluster exists. *)
Definition handle_request_shard (metadata : MetadataMap) : kms (result EncryptedShard Status) :=
  let!? ctx := authenticate metadata "RequestShard" config in
  let!? assigned := try_assign_init_shard (caller_pubkey ctx) in
  match assigned with
  | Some shard => Ret (Ok shard)
  | None =>
      let! w := get in
      if is_initialized w then
        Ret (Err (failed_precondition
          "cluster is active but shard recovery is not yet available (deferred to reshare)"))
      else Ret (Err (unavailable "node not initialized"))
  end.

(** [recover_shard_for_caller]: deferred. *)
Definition recover_shard_for_caller (caller_pubkey : bytes) : result EncryptedShard Status :=
  Err (mkStatus Unimplemented "shard recovery is deferred to S3 (proactive resharing); only initial shard assignment is supported in this build").

(** * Probing the seeds *)

Definition classify_status (peer_url : string) (st : Status) : SeedError :=
  let msg := "RequestShard on " +:+ peer_url +:+ ": " +:+ message st in
  match code st with
  | Unavailable => Unreachable msg
  | _ => Declined msg
  end.

Definition request_shard_from_peer (peer_url : string) (sig : bytes) (timestamp : Z) :
    kms (result ShardState SeedError) :=
  let! r := ask (Grpc_request_shard peer_url sig timestamp) in
  match r : RpcReply EncryptedShard with
  | ConnectFailed m => Ret (Err (Unreachable ("cannot connect to " +:+ peer_url +:+ ": " +:+ m)))
  | RpcError st => Ret (Err (classify_status peer_url st))
  | RpcOk resp =>
      let signing_msg := shard_signing_msg "RequestShard" (eth_address signing_key)
                                           (es_shard_index resp) (es_ciphertext resp) in
      let! v := verify_cluster_response signing_msg (es_signature resp) config in
      let!? _ := Ret (map_err (fun e => Declined ("shard response verification failed: " +:+ e)) v) in
      let!? shard_bytes := Ret (map_err (fun e => Declined ("ECIES decrypt failed: " +:+ KmsError_to_string e))
                                  (ecies_decrypt (private_key signing_key) (es_ciphertext resp))) in
      Ret (Ok (mkShardState (es_shard_index resp) shard_bytes GENESIS_EPOCH))
  end.

Fixpoint join_seeds (sig : bytes) (timestamp : Z) (seeds : list string) (any_reachable : bool) :
    kms JoinResult :=
  match seeds with
  | [] => Ret (if any_reachable then SeedReachableDeclined else NoSeedReachable)
  | seed_url :: seeds =>
      let! r := request_shard_from_peer seed_url sig timestamp in
      match r with
      | Ok shard => modify (set_shard (Some shard));;; Ret Joined
      | Err (Unreachable _) => join_seeds sig timestamp seeds any_reachable
      | Err (Declined _) => join_seeds sig timestamp seeds true
      end
  end.

Definition join_cluster : kms (result JoinResult string) :=
  match seeds (cluster config) with
  | [] => Ret (Ok NoSeedReachable)
  | seeds =>
      let! timestamp := ask Utc_now in
      let!? sig := Ret (sign_request (private_key signing_key) "RequestShard" timestamp) in
      let! r := join_seeds sig timestamp seeds false in
      Ret (Ok r)
  end.

(** * Persistence *)

Definition sealed_share_blob : kms (option string) :=
  let! env := ask (Env_var "KMS_SEALED_SHARE") in
  Ret (nonblank (match nonblank env with
                 | Some v => Some v
                 | None => cfg_sealed_share (cluster config)
                 end)).

Definition sealed_share_path : kms (option string) :=
  let! env := ask (Env_var "KMS_SEALED_SHARE_PATH") in
  Ret (option_map trim
    (nonblank (match nonblank env with
               | Some v => Some v
               | None => cfg_sealed_share_path (cluster config)
               end))).

(** Seal and expose the share, persisting it when a path is configured. *)
Definition seal_and_persist (shard : ShardState) (group_pubkey : bytes) : kms unit :=
  match pubkey_from_private (private_key signing_key) with
  | Err _ => inc sealed_persist_fail
  | Ok pk =>
      let! r := seal_b64 pk (SealedShareV1_new (shard_index shard) (shard_epoch shard) group_pubkey
                                               (shard_bytes shard)) in
      match r with
      | Err _ => inc sealed_persist_fail
      | Ok b64 =>
          modify (set_sealed_share (Some b64));;;
          let! path := sealed_share_path in
          match path with
          | None => Ret tt
          | Some path =>
              let! r := write_blob_file path b64 in
              match r with Ok _ => Ret tt | Err _ => inc sealed_persist_fail end
          end
      end
  end.

Definition store_share (shard : ShardState) (group_pubkey : bytes) : kms unit :=
  seal_and_persist shard group_pubkey;;;
  let! path := sealed_share_path in
  let! _ := check_master_baseline path group_pubkey in
  note_share_acquired;;;
  modify (set_group_pubkey (Some group_pubkey));;;
  modify (set_shard (Some shard)).

(** Up to six looks at the peer table, three seconds apart. *)
Fixpoint wait_for_peers (n : nat) : kms unit :=
  match n with
  | O => Ret tt
  | S n =>
      let! w := get in
      if decide (peer_table w = ∅) then sleep (secs 3);;; wait_for_peers n else Ret tt
  end.

(** The blob to reload: the explicit one, else the persisted file. *)
Definition reload_source : kms (option string) :=
  let! blob := sealed_share_blob in
  match blob with
  | Some v => Ret (Some v)
  | None =>
      let! path := sealed_share_path in
      match path with
      | None => Ret None
      | Some p =>
          let! r := read_blob_file p in
          match r with Ok v => Ret v | Err _ => inc sealed_persist_fail;;; Ret None end
      end
  end.

(** Adopt the blob if this identity unseals it and it is not behind the cluster. *)
Definition adopt_sealed (b64 : string) : kms bool :=
  match unseal_b64 b64 (private_key signing_key) with
  | Ok (Some rec) =>
      wait_for_peers 6;;;
      let! cluster_epoch := read_known_epoch in
      if rec_epoch rec <? cluster_epoch then inc sealed_stale_discarded;;; Ret false
      else
        modify (set_sealed_share (Some (trim b64)));;;
        let! path := sealed_share_path in
        let! _ := check_master_baseline path (master_id rec) in
        note_share_acquired;;;
        modify (set_group_pubkey (Some (master_id rec)));;;
        modify (set_shard (Some (mkShardState (rec_shard_index rec) (rec_share rec) (rec_epoch rec))));;;
        Ret true
  | Ok None | Err _ => inc sealed_identity_mismatch;;; Ret false
  end.

Definition try_reload_sealed : kms bool :=
  let! source := reload_source in
  match source with None => Ret false | Some b64 => adopt_sealed b64 end.

(** * Sessions *)

(** [NonZeroUsize::new] of the two parameters. *)
Definition check_params (t n : Z) : result unit string :=
  if t =? 0 then Err "threshold must be > 0"
  else if n =? 0 then Err "total_nodes must be > 0" else Ok tt.

Definition run_genesis (own_id : Z) (peers : list SessionPeer) (t n : Z) : kms (result unit string) :=
  let!? _ := Ret (check_params t n) in
  let! rng := ask Os_rng in
  let!? participant := Ret (map_err (fun e => "genesis participant init: " +:+ e)
                                    (secret_new rng own_id t n)) in
  let session_id := "genesis:" +:+ app in
  let!? (share, pk) := run_session signing_key wakes session_id participant peers DKG_ROUND_TIMEOUT in
  let sk_share := gennaro_share_to_blsful (Z.to_nat own_id) share in
  store_share (mkShardState own_id (share_to_bytes sk_share) GENESIS_EPOCH) pk;;;
  Ret (Ok tt).

Definition send_start_reshare (peer_url session_id : string) (recovering_id : Z)
    (dealer_ids : list Z) (epoch : Z) (sig : bytes) (timestamp : Z) : kms (result unit string) :=
  let! r := ask (Grpc_start_reshare peer_url
                   (mkReshareRequest session_id recovering_id dealer_ids epoch) sig timestamp) in
  Ret (match r : RpcReply unit with
       | ConnectFailed m => Err m
       | RpcError st => Err (message st)
       | RpcOk _ => Ok tt
       end).

(** The two gates of a recovery. *)
Definition recovery_gates (dealers t n : Z) : result unit string :=
  if dealers <? t then
    Err ("cannot recover yet: " +:+ pretty dealers +:+ " live share-holders discovered, need >= threshold " +:+ pretty t)
  else if dealers + 1 <? majority n then
    Err ("cannot recover yet: " +:+ pretty (dealers + 1) +:+ " participants, need a majority (" +:+
         pretty (majority n) +:+ ") of " +:+ pretty n +:+ " to avoid split-brain")
  else Ok tt.

(** The guard both sides run before adopting a session's result. *)
Definition master_preserved (known : option bytes) (pk : bytes) : bool :=
  match known with Some g => bool_decide (g = pk) | None => true end.

Definition run_reshare_recovery (m : Membership) : kms (result unit string) :=
  let own_id := m_own_id m in
  let dealers := leading_dealers m in
  let!? _ := Ret (recovery_gates (Z.of_nat (length dealers)) (m_threshold m) (m_total m)) in
  let! known := read_known_epoch in
  let new_epoch := wrap_u64 (known + 1) in
  let! nonce := ask Utc_now in
  let session_id := "reshare:" +:+ app +:+ ":" +:+ pretty new_epoch +:+ ":" +:+ pretty (nonce : Z) in
  let dealer_ids := merge_sort Z.le (map sp_id dealers) in
  let! ts := ask Utc_now in
  let!? sig := Ret (sign_request (private_key signing_key) "StartReshare" ts) in
  for_each dealers (fun peer =>
    send_start_reshare (sp_grpc_url peer) session_id own_id dealer_ids new_epoch sig ts;;; Ret tt);;;
  let!? _ := Ret (check_params (m_threshold m) (m_total m)) in
  let! rng := ask Os_rng in
  let!? participant := Ret (map_err (fun e => "reshare (recovering) participant init: " +:+ e)
                                    (refresh_new rng own_id (m_threshold m) (m_total m))) in
  let!? (share, pk) := run_session signing_key wakes session_id participant dealers DKG_ROUND_TIMEOUT in
  let sk_share := gennaro_share_to_blsful (Z.to_nat own_id) share in
  let! w := get in
  if negb (master_preserved (group_pubkey w) pk) then
    Ret (Err "reshare recovery changed the group public key — aborting to avoid corruption")
  else
    store_share (mkShardState own_id (share_to_bytes sk_share) new_epoch) pk;;;
    Ret (Ok tt).

Definition run_reshare_dealer (session_id : string) (recovering_id : Z) (dealer_ids : list Z)
    (new_epoch : Z) : kms (result unit string) :=
  let!? l := node_list config in
  let!? own_pos := Ret (ok_or (position (is_self signing_key) l)
                              "reshare dealer: this node is not in the nodeList") in
  let own_id := Z.of_nat own_pos + 1 in
  let!? own_index := Ret (ok_or (position (fun id => id =? own_id) dealer_ids)
                            ("reshare dealer: own id " +:+ pretty own_id +:+ " not in dealer set")) in
  let! w := get in
  let cur_epoch := own_epoch w in
  if new_epoch <=? cur_epoch then
    Ret (Err ("reshare dealer: target epoch " +:+ pretty new_epoch +:+ " not ahead of current " +:+
              pretty cur_epoch))
  else
    let! w := get in
    let!? own_shard := Ret (ok_or (shard w) "reshare dealer: no local share") in
    let!? own_share := Ret (share_from_bytes (shard_bytes own_shard)) in
    let own_scalar := blsful_share_scalar own_share in
    let participant_ids := if recovering_id =? 0 then dealer_ids else dealer_ids ++ [recovering_id] in
    let!? peers := resolve_peers config participant_ids own_id in
    let dealer_scalars := map (fun id => scalar_from (Z.to_nat id)) dealer_ids in
    let!? _ := Ret (check_params thr total) in
    let! rng := ask Os_rng in
    let!? participant := Ret (map_err (fun e => "reshare dealer participant init: " +:+ e)
                           (secret_with rng own_id thr total own_scalar dealer_scalars own_index)) in
    let!? (new_share, new_pk) :=
      run_session signing_key wakes session_id participant peers DKG_ROUND_TIMEOUT in
    let! w := get in
    if negb (master_preserved (group_pubkey w) new_pk) then
      Ret (Err "reshare changed the group public key — aborting share update to avoid corruption")
    else
      let sk_share := gennaro_share_to_blsful (Z.to_nat own_id) new_share in
      store_share (mkShardState own_id (share_to_bytes sk_share) new_epoch) new_pk;;;
      Ret (Ok tt).

(** The [StartReshare] handler: acknowledges, and runs the dealer as a task of its own
    (the second component). *)
Definition handle_start_reshare (metadata : MetadataMap) (req : ReshareRequest) :
    kms (result unit Status * option (kms unit)) :=
  let! r := authenticate metadata "StartReshare" config in
  match r with
  | Err e => Ret (Err e, None)
  | Ok _ =>
      let! w := get in
      if negb (is_initialized w) then Ret (Err (failed_precondition "no local share to reshare"), None)
      else
        let dealer : kms unit :=
          let! r := run_reshare_dealer (rr_session_id req) (rr_recovering_id req)
                                       (rr_dealer_ids req) (rr_epoch req) in
          record_outcome dealer_ok dealer_fail r in
        Ret (Ok tt, Some dealer)
  end.

Definition trigger_refresh : kms (result unit string) :=
  let! w := get in
  if negb (is_initialized w) then Ret (Err "cannot refresh: this node has no share")
  else
    let!? om := assemble_participants config signing_key in
    let!? m := Ret (ok_or om "refresh: nodeList not yet at configured size") in
    if negb (all_discovered m) then
      Ret (Err ("refresh requires all " +:+ pretty (m_total m) +:+
                " members healthy; some are not discovered — wait or resize"))
    else
      let own_id := m_own_id m in
      let! w := get in
      let own_epoch := own_epoch w in
      match List.filter (fun p => negb (sp_epoch p =? own_epoch)) (m_peers m) with
      | _ :: _ as mixed =>
          Ret (Err ("refresh requires a single epoch across the committee (own epoch " +:+
                    pretty own_epoch +:+ "), but: " +:+
                    String.concat ", " (map (fun p => "id" +:+ pretty (sp_id p) +:+ "@epoch" +:+ pretty (sp_epoch p)) mixed) +:+
                    " — stragglers re-sync automatically; retry shortly"))
      | [] =>
          let dealer_ids := merge_sort Z.le (map sp_id (m_peers m) ++ [own_id]) in
          let! known := read_known_epoch in
          let new_epoch := wrap_u64 (known + 1) in
          let! nonce := ask Utc_now in
          let session_id := "refresh:" +:+ app +:+ ":" +:+ pretty new_epoch +:+ ":" +:+ pretty (nonce : Z) in
          let! ts := ask Utc_now in
          let!? sig := Ret (sign_request (private_key signing_key) "StartReshare" ts) in
          for_each (m_peers m) (fun peer =>
            send_start_reshare (sp_grpc_url peer) session_id 0 dealer_ids new_epoch sig ts;;; Ret tt);;;
          run_reshare_dealer session_id 0 dealer_ids new_epoch
      end.

(** * Formation *)

(** One turn of the loop, from and to [subset_wait_since]. *)
Definition formation_turn (since : option Z) : kms (option Z) :=
  let retry (r : result unit string) (since : option Z) : kms (option Z) :=
    match r with Ok _ => Ret since | Err _ => sleep (secs 10);;; Ret since end in
  let! r := assemble_participants config signing_key in
  match r with
  | Ok None => sleep (secs 5);;; Ret since
  | Err _ => inc membership_fail;;; sleep (secs 5);;; Ret since
  | Ok (Some m) =>
      let! j := join_cluster in
      match j with
      | Err e => retry (Err ("cluster probe failed: " +:+ e)) since
      | Ok Joined => retry (Ok tt) since
      | Ok NoSeedReachable =>
          if negb (all_discovered m) then sleep (secs 5);;; Ret since
          else
            let! r := run_genesis (m_own_id m) (m_peers m) (m_threshold m) (m_total m) in
            record_outcome genesis_ok genesis_fail r;;;
            retry r since
      | Ok SeedReachableDeclined =>
          let recover (since : option Z) : kms (option Z) :=
            let! r := run_reshare_recovery m in
            record_outcome recovery_ok recovery_fail r;;;
            retry r since in
          if negb (all_discovered m) then
            let! t := now in
            let since' := default t since in
            let! t := now in
            if elapsed t since' <? SUBSET_SETTLE then sleep (secs 5);;; Ret (Some since')
            else recover (Some since')
          else recover None
      end
  end.

(** The loop, for at most [turns] turns; [true] once the node holds a share. *)
Fixpoint form_loop (turns : nat) (since : option Z) : kms bool :=
  let! w := get in
  if is_initialized w then Ret true
  else match turns with
       | O => Ret false
       | S turns => let! since := formation_turn since in form_loop turns since
       end.

(** One check of the watchdog, from and to [behind_checks]. *)
Definition watchdog_turn (behind_checks : Z) : kms Z :=
  let stagger := Z_of_byte (default Byte.x00 (eth_address signing_key !! 19%nat)) mod 23 in
  sleep (secs (45 + stagger));;;
  let! w := get in
  match shard w with
  | None => Ret behind_checks
  | Some s =>
      let! cluster_epoch := read_known_epoch in
      if cluster_epoch <=? shard_epoch s then Ret 0
      else if behind_checks + 1 <? 2 then Ret (behind_checks + 1)
      else
        inc fall_behind;;;
        let! r := assemble_participants config signing_key in
        match r with
        | Ok (Some m) =>
            let! r := run_reshare_recovery m in
            record_outcome recovery_ok recovery_fail r;;; Ret 0
        | Ok None => Ret 0
        | Err _ => inc membership_fail;;; Ret 0
        end
  end.

Fixpoint fall_behind_watchdog (turns : nat) (behind_checks : Z) : kms unit :=
  match turns with
  | O => Ret tt
  | S turns => let! b := watchdog_turn behind_checks in fall_behind_watchdog turns b
  end.

Definition form_cluster (turns : nat) : kms unit :=
  let! w := get in
  (if is_initialized w then Ret false else try_reload_sealed);;;
  let! formed := form_loop turns None in
  if formed : bool then fall_behind_watchdog turns 0 else Ret tt.

End Lifecycle.

(** * What each part leaves alone *)

(** The share, the group key and the peer table stay; caches, counters, session buffers,
    the sealed copy and the disk may change. *)
Definition keeps (w w' : World) : Prop :=
  group_pubkey w' = group_pubkey w /\ shard w' = shard w /\ peer_table w' = peer_table w.

Lemma core_keeps w w' : core w' = core w -> keeps w w'.
Proof. unfold core, keeps. intros [=]. done. Qed.

Lemma keeps_updates :
  (forall w, keeps w w) /\ (forall u w, keeps w (upd_metrics u w)) /\
  (forall u w, keeps w (upd_dkg_sessions u w)) /\ (forall u w, keeps w (upd_fs u w)) /\
  (forall v w, keeps w (set_sealed_share v w)).
Proof. repeat split; by destruct w. Qed.

Section Frames.
Context {T : ThresholdScheme} {X : Externals T} {G : Gennaro T}.
Context (config : Config) (signing_key : NodeKey) (wakes : nat).

Ltac keeps_solve :=
  destruct keeps_updates as (Hr & Hm & Hd & Hf & Hs); repeat guar_step; auto.

Lemma chain_keeps rpc ca app : guar keeps (get_signer_addresses rpc ca app).
Proof. eapply guar_mono; [|apply get_signer_addresses_frame]. intros w w' [H _]. by apply core_keeps. Qed.

Lemma node_list_keeps : guar keeps (node_list config).
Proof. unfold node_list. guar_step; [apply chain_keeps|]. keeps_solve. Qed.

Lemma assemble_keeps : guar keeps (assemble_participants config signing_key).
Proof. unfold assemble_participants. guar_step; [apply node_list_keeps|]. keeps_solve. Qed.

Lemma resolve_keeps ids own_id : guar keeps (resolve_peers config ids own_id).
Proof. unfold resolve_peers. guar_step; [apply node_list_keeps|]. keeps_solve. Qed.

Lemma known_epoch_keeps : guar keeps read_known_epoch.
Proof. unfold read_known_epoch. keeps_solve. Qed.

Lemma write_blob_keeps path b64 : guar keeps (write_blob_file path b64).
Proof. unfold write_blob_file, fs_write, fs_rename. keeps_solve. Qed.

Lemma sealed_path_keeps : guar keeps (sealed_share_path config).
Proof. unfold sealed_share_path. keeps_solve. Qed.

Lemma baseline_keeps p m : guar keeps (check_master_baseline p m).
Proof.
  unfold check_master_baseline, read_blob_file, store_metric.
  destruct keeps_updates as (Hr & Hm & Hd & Hf & Hs). repeat (guar_step || apply write_blob_keeps); auto.
Qed.

Lemma note_share_keeps : guar keeps note_share_acquired.
Proof. unfold note_share_acquired, store_metric. keeps_solve. Qed.

Lemma seal_persist_keeps sh gpk : guar keeps (seal_and_persist config signing_key sh gpk).
Proof.
  unfold seal_and_persist, seal_b64, seal_to_bytes, ecies_encrypt, inc.
  destruct keeps_updates as (Hr & Hm & Hd & Hf & Hs).
  repeat (guar_step || apply write_blob_keeps || apply sealed_path_keeps); auto.
Qed.

Lemma await_keeps sid r exp t : guar keeps (await_round wakes sid r exp t).
Proof.
  destruct keeps_updates as (Hr & Hm & Hd & Hf & Hs). unfold await_round.
  repeat guar_step; auto. generalize (a0 + t) as deadline. intros d.
  induction wakes as [|n IH]; cbn [await_loop]; unfold notified_before; repeat (apply IH || guar_step); auto.
Qed.

Lemma broadcast_keeps sid r own b m peers : guar keeps (broadcast_round signing_key sid r own b m peers).
Proof. unfold broadcast_round, send_dkg_round. keeps_solve. Qed.

Lemma encrypt_keeps p2p peers acc : guar keeps (encrypt_p2p p2p peers acc).
Proof.
  revert acc. induction peers as [|p peers IH]; intros acc; cbn [encrypt_p2p]; [done|].
  unfold ecies_encrypt. repeat (apply IH || guar_step).
Qed.

Lemma session_keeps sid p peers t : guar keeps (run_session signing_key wakes sid p peers t).
Proof.
  destruct keeps_updates as (Hr & Hm & Hd & Hf & Hs). unfold run_session.
  repeat (guar_step || apply encrypt_keeps || apply broadcast_keeps || apply await_keeps); auto.
Qed.

Lemma sends_keep peers sid rid ids e sig ts :
  guar keeps (for_each peers (fun peer =>
    send_start_reshare (sp_grpc_url peer) sid rid ids e sig ts;;; Ret tt)).
Proof. unfold send_start_reshare. keeps_solve. Qed.

End Frames.

#[export] Hint Resolve chain_keeps node_list_keeps assemble_keeps resolve_keeps known_epoch_keeps
  sealed_path_keeps baseline_keeps note_share_keeps seal_persist_keeps session_keeps sends_keep : kms.

(** * The master survives every session *)

Definition master_is (gpk : bytes) (w : World) : Prop := group_pubkey w = Some gpk.

Section Master.
Context {T : ThresholdScheme} {X : Externals T} {G : Gennaro T}.
Context (config : Config) (signing_key : NodeKey) (wakes : nat) (gpk : bytes).

Abbreviation safe p Q := (safe (master_is gpk) (fun _ _ => True) p Q).

Lemma keeps_safe {A} (p : kms A) : guar keeps p -> safe p (fun _ => True).
Proof.
  intros Hg. apply safe_guar; [|done]. eapply guar_mono; [|exact Hg].
  intros w w' [H _]. unfold master_is. by rewrite H.
Qed.

Lemma metric_safe f : safe (inc f) (fun _ => True).
Proof. apply keeps_safe. unfold inc. guar_step. by destruct s. Qed.

(** Step over a part that keeps the master; its result is arbitrary. *)
Tactic Notation "over" constr(lem) "as" simple_intropattern(x) :=
  eapply safe_mono; [apply keeps_safe; eauto using lem with kms|]; intros x _; cbv beta iota.

Lemma store_share_safe sh : safe (store_share config signing_key sh gpk) (fun _ => True).
Proof.
  unfold store_share. safe_seq. over seal_persist_keeps as ?. safe_seq. over sealed_path_keeps as ?.
  safe_seq. over @baseline_keeps as ?. safe_seq. over note_share_keeps as ?.
  safe_seq. safe_seq; [by destruct s|]. repeat safe_seq; [|done]. unfold master_is. by destruct s0.
Qed.

Lemma recovery_safe m : safe (run_reshare_recovery config signing_key wakes m) (fun _ => True).
Proof.
  unfold run_reshare_recovery. repeat safe_seq. destruct (recovery_gates _ _ _); [|done].
  safe_seq. over known_epoch_keeps as ?. repeat safe_seq. destruct (sign_request _ _ _); [|done].
  safe_seq. over @sends_keep as ?. repeat safe_seq. destruct (check_params _ _); [|done]. repeat safe_seq.
  destruct (map_err _ _); [|done]. safe_seq. over @session_keeps as [[share pk]|]; [|done].
  safe_seq. intros w Hw. split; [done|]. safe_seq.
  destruct (master_preserved _ _) eqn:E; cbn [negb]; [|done]. unfold id, master_is in *. rewrite Hw in E.
  simpl in E. apply bool_decide_eq_true in E as <-. safe_seq.
  eapply safe_mono; [apply store_share_safe|]. done.
Qed.

Lemma dealer_safe sid rid ids e :
  safe (run_reshare_dealer config signing_key wakes sid rid ids e) (fun _ => True).
Proof.
  unfold run_reshare_dealer. safe_seq. over @node_list_keeps as [l|]; [|done]. repeat safe_seq.
  destruct (ok_or (position _ l) _) as [pos|]; [|done]. repeat safe_seq.
  destruct (ok_or (position _ ids) _) as [own_index|]; [|done]. repeat safe_seq.
  destruct (e <=? _); [done|]. repeat safe_seq. destruct (ok_or _ _) as [sh|]; [|done]. repeat safe_seq.
  destruct (share_from_bytes _); [|done]. safe_seq. over @resolve_keeps as [peers|]; [|done].
  repeat safe_seq. destruct (check_params _ _); [|done]. repeat safe_seq. destruct (map_err _ _); [|done].
  safe_seq. over @session_keeps as [[share pk]|]; [|done].
  safe_seq. intros w Hw. split; [done|]. safe_seq.
  destruct (master_preserved _ _) eqn:E; cbn [negb]; [|done]. unfold id, master_is in *. rewrite Hw in E.
  simpl in E. apply bool_decide_eq_true in E as <-. safe_seq.
  eapply safe_mono; [apply store_share_safe|]. done.
Qed.

Lemma refresh_safe : safe (trigger_refresh config signing_key wakes) (fun _ => True).
Proof.
  unfold trigger_refresh. repeat safe_seq. destruct (is_initialized _); cbn [negb]; [|done].
  safe_seq. over @assemble_keeps as [om|]; [|done]. repeat safe_seq. destruct (ok_or om _) as [m|]; [|done].
  destruct (all_discovered m); cbn [negb]; [|done]. repeat safe_seq.
  destruct (List.filter _ (m_peers m)); [|done]. safe_seq. over known_epoch_keeps as ?. repeat safe_seq.
  destruct (sign_request _ _ _); [|done]. safe_seq. over @sends_keep as ?. apply dealer_safe.
Qed.

Lemma watchdog_safe b : safe (watchdog_turn config signing_key wakes b) (fun _ => True).
Proof.
  unfold watchdog_turn. repeat safe_seq. destruct (shard _) as [sh|]; [|done]. safe_seq.
  over known_epoch_keeps as ?. destruct (_ <=? _); [done|]. destruct (_ <? _); [done|].
  safe_seq. eapply safe_mono; [apply metric_safe|]. intros _ _. safe_seq.
  over @assemble_keeps as [[m|]|]; [|done|].
  - safe_seq. eapply safe_mono; [apply recovery_safe|]. intros r _. unfold record_outcome. safe_seq.
    eapply safe_mono; [apply metric_safe|]. done.
  - safe_seq. eapply safe_mono; [apply metric_safe|]. done.
Qed.

End Master.

(** Once the master is known, no session changes it.  However the tasks of the
    process interleave, whatever the peers deliver and whatever the protocol library
    computes, a reshare recovery, a dealer's part in someone's reshare, a proactive
    refresh and a watchdog catch-up all leave the node's group public key at the value it
    had: a session that reconstructs a different one is discarded. *)
Theorem sessions_preserve_the_master {T : ThresholdScheme} {X : Externals T} {G : Gennaro T}
    (o : kms_oracle) config signing_key wakes gpk x :
  relies o (fun w w' => master_is gpk w -> master_is gpk w') -> master_is gpk (x_st x) ->
  (forall m, master_is gpk (x_st (run o (run_reshare_recovery config signing_key wakes m) x).2)) /\
  (forall sid rid ids e,
     master_is gpk (x_st (run o (run_reshare_dealer config signing_key wakes sid rid ids e) x).2)) /\
  master_is gpk (x_st (run o (trigger_refresh config signing_key wakes) x).2) /\
  (forall b, master_is gpk (x_st (run o (watchdog_turn config signing_key wakes b) x).2)).
Proof.
  intros Ho Hi.
  assert (forall A (p : kms A), safe (master_is gpk) (fun _ _ => True) p (fun _ => True) ->
    master_is gpk (x_st (run o p x).2)) as Hs.
  { intros A p Hp. apply (safe_sound _ _ o p _ x Ho Hi Hp). apply Forall_forall. by intros []. }
  split; [intros; apply Hs, recovery_safe|]. split; [intros; apply Hs, dealer_safe|].
  split; [apply Hs, refresh_safe|intros; apply Hs, watchdog_safe].
Qed.

(** A session in which the protocol ends on another master, [[8]]: node 1 as the only
    dealer of a reshare it was told to join. *)
Lemma sessions_preserve_the_master_witness :
  group_pubkey (x_st (run Toy.idle (run_reshare_dealer (G := ToyDkg.gennaro Byte.x09 [Byte.x08]) Toy.config
    Toy.node1 1 "reshare:kms:4:1000" 1 [1] 4) (start Toy.world 5)).2) = Some [Byte.x07].
Proof.
  destruct (sessions_preserve_the_master (G := ToyDkg.gennaro Byte.x09 [Byte.x08]) Toy.idle Toy.config Toy.node1 1
    Toy.group (start Toy.world 5) (Toy.alone_relies _ _) eq_refl) as (_ & H & _).
  exact (H "reshare:kms:4:1000" 1 [1] 4).
Defined.

(** * Restart *)

(** The blob [b] in a file is what this identity reloads the share from. *)
Definition seals {T : ThresholdScheme} {X : Externals T} (sk : bytes) (sh : ShardState) (gpk : bytes) (b : string) : Prop :=
  trim b = b /\ b <> EmptyString /\
  unseal_b64 b sk = Ok (Some (SealedShareV1_new (shard_index sh) (shard_epoch sh) gpk (shard_bytes sh))).

(** The share is persisted in the file [path] and nowhere else: no environment variables, no
    blob in the configuration, and the baseline is another file. *)
Record persists_in (o : kms_oracle) (config : Config) (path : string) : Prop := {
  no_variables n v : o_ans o n (Env_var v) = None;
  no_blob : cfg_sealed_share (cluster config) = None;
  path_configured : cfg_sealed_share_path (cluster config) = Some path;
  path_trimmed : trim path = path /\ path <> EmptyString;
  path_not_baseline : path <> with_file_name path BASELINE_FILE /\ path <> with_file_name path BASELINE_FILE +:+ ".tmp"
}.

(** What the other tasks of a process without a share do: they gossip and serve, but only
    [form_cluster] adopts a share, and only [store_share] writes the file; no entry ever
    leaves the peer table. *)
Definition bystander (path : string) (w w' : World) : Prop :=
  shard w' = shard w /\ group_pubkey w' = group_pubkey w /\ fs w' !! path = fs w !! path /\
  (peer_table w <> ∅ -> peer_table w' <> ∅).

#[export] Instance bystander_preorder path : PreOrder (bystander path).
Proof.
  split; [by intros w|]. unfold bystander. intros a b c (-> & -> & -> & ?) (-> & -> & -> & ?). naive_solver.
Qed.

(** The states the other tasks can bring about by themselves. *)
Definition others (o : kms_oracle) : World -> World -> Prop := rtc (fun w w' => exists n, w' = o_env o n w).

Lemma others_relies o : relies o (others o).
Proof. intros n w. apply rtc_once. by exists n. Qed.

Lemma others_bystander o path w w' : relies o (bystander path) -> others o w w' -> bystander path w w'.
Proof. intros Ho. induction 1 as [|w1 w2 w3 [n ->] _ IH]; [done|]. etrans; [apply (Ho n)|exact IH]. Qed.

Section Restart.
Context {T : ThresholdScheme} {X : Externals T}.
Context (config : Config) (signing_key : NodeKey) (path : string).

Lemma sealed_path_run o x : persists_in o config path ->
  exists log, run o (sealed_share_path config) x = (Some path, Exec (o_env o (x_n x) (x_st x)) (S (x_n x)) (x_now (tick o x)) log).
Proof.
  intros Hp. unfold sealed_share_path. cbn [bind ask run]. rewrite (no_variables _ _ _ Hp). cbn [nonblank].
  rewrite (path_configured _ _ _ Hp). destruct (path_trimmed _ _ _ Hp) as [Ht Hne]. unfold nonblank.
  rewrite decide_False by (by rewrite Ht). cbn [option_map]. rewrite Ht. by eexists.
Qed.

Lemma baseline_keeps_file m :
  path <> with_file_name path BASELINE_FILE -> path <> with_file_name path BASELINE_FILE +:+ ".tmp" ->
  guar (keeps_file path) (check_master_baseline (Some path) m).
Proof.
  intros H1 H2. assert (forall u w, keeps_file path w (upd_metrics u w)) as Hm by (by intros u []).
  unfold check_master_baseline, read_blob_file, store_metric. cbn [baseline_path option_map].
  repeat (guar_step || by apply write_blob_keeps_file); auto; done.
Qed.

(** Sealing and persisting on a disk that works leaves the blob in the file. *)
Lemma persist_run o sh gpk pk x payload :
  ecies_roundtrip X -> bare_roundtrip X -> b64_roundtrip X -> ecies_total X ->
  k256_pubkey (private_key signing_key) = Ok pk ->
  bare_record_ser (SealedShareV1_new (shard_index sh) (shard_epoch sh) gpk (shard_bytes sh)) = Ok payload ->
  persists_in o config path -> disk_works o -> relies o (leaves_file path) ->
  exists b, seals (private_key signing_key) sh gpk b /\
    fs (x_st (run o (seal_and_persist config signing_key sh gpk) x).2) !! path = Some b.
Proof.
  intros Hec Hb H64 Htot Hpk Hser Hp Hd Ho. unfold seal_and_persist, pubkey_from_private. rewrite Hpk. cbn [map_err].
  unfold seal_b64, seal_to_bytes. rewrite Hser. cbn [map_err bind_ok bind]. unfold ecies_encrypt. cbn [bind_ok bind ask run].
  match goal with |- context [ecies_enc ?r ?k ?m] => destruct (Htot r (private_key signing_key) k m Hpk) as [ct Ect] end.
  rewrite Ect. cbn [map_err bind_ok bind run modify]. set (b := b64url_encode _).
  assert (seals (private_key signing_key) sh gpk b) as Hs.
  { destruct (H64 (MAGIC ++ [ENVELOPE_VERSION] ++ ct)) as (_ & Htr & Hne). split; [exact Htr|].
    split; [by apply Hne|]. by eapply unseal_b64_sealed. }
  exists b. split; [exact Hs|].
  match goal with |- context [run o (bind (sealed_share_path config) ?k) ?z] =>
    rewrite (run_bind o (sealed_share_path config) k z); destruct (sealed_path_run o z Hp) as [log ->] end.
  rewrite run_bind. match goal with |- context [run o (write_blob_file path b) ?z] =>
    pose proof (write_blob_file_run o path b z Ho) as Hrun; pose proof (write_blob_file_succeeds o path b z Hd) as Hok;
    destruct (run o (write_blob_file path b) z) as [r y] end.
  cbn [fst] in Hok. subst r. by apply Hrun.
Qed.

Lemma store_share_persists o sh gpk pk x payload :
  ecies_roundtrip X -> bare_roundtrip X -> b64_roundtrip X -> ecies_total X ->
  k256_pubkey (private_key signing_key) = Ok pk ->
  bare_record_ser (SealedShareV1_new (shard_index sh) (shard_epoch sh) gpk (shard_bytes sh)) = Ok payload ->
  persists_in o config path -> disk_works o -> relies o (leaves_file path) ->
  exists b, seals (private_key signing_key) sh gpk b /\
    fs (x_st (run o (store_share config signing_key sh gpk) x).2) !! path = Some b.
Proof.
  intros Hec Hb H64 Htot Hpk Hser Hp Hd Ho.
  destruct (persist_run o sh gpk pk x payload Hec Hb H64 Htot Hpk Hser Hp Hd Ho) as (b & Hs & Hf). exists b. split; [done|].
  unfold store_share. rewrite run_bind. destruct (run o (seal_and_persist _ _ _ _) x) as [u y]. cbn [snd] in Hf.
  rewrite run_bind. destruct (sealed_path_run o y Hp) as [log ->].
  assert (relies o (keeps_file path)) as Hk by (intros n w; apply Ho).
  destruct (path_not_baseline _ _ _ Hp) as [Hn1 Hn2]. rewrite <-Hf.
  match goal with |- fs (x_st (run o ?p ?z).2) !! path = _ =>
    transitivity (fs (x_st z) !! path); [|apply Ho];
    apply (wp_sound (keeps_file path) o p (fun _ s' _ _ => keeps_file path (x_st z) s') z Hk), wp_guar; [apply _|] end.
  guar_step; [by apply baseline_keeps_file|]. unfold note_share_acquired, store_metric.
  repeat guar_step; try done; match goal with w : World |- _ => by destruct w end.
Qed.

(** The wait ends with a peer in the table, or after its six naps. *)
Lemma wait_for_peers_spec R `{!PreOrder R} n s t log :
  (forall w w', R w w' -> bystander path w w') ->
  wp R (wait_for_peers n) (fun _ s' t' _ => R s s' /\ (peer_table s' <> ∅ \/ t + Z.of_nat n * secs 3 <= t')) s t log.
Proof.
  intros HR. revert s t log. induction n as [|n IH]; intros s t log; cbn [wait_for_peers].
  { wp_step. split; [done|]. right. cbn. lia. }
  wp_step. intros s1 t1 H1 Ht1 s2 t2 H2 Ht2. cbv beta iota. unfold id in H2. case_decide as Hd.
  - wp_step. intros s3 t3 H3 Ht3 Hsl s4 t4 H4 Ht4. eapply wp_mono; [|apply IH]. intros _ s5 t5 log5 [H5 Hc].
    split; [by repeat (etrans; [eassumption|])|]. destruct Hc as [?|Hc]; [by left|right]. lia.
  - wp_step. match goal with H : R s2 ?s3 |- _ => split; [by repeat (etrans; [eassumption|])|left] end.
    eapply HR; [eassumption|]. by eapply HR.
Qed.

(** The decision on a blob that unseals to [rec]: it is taken on the state [w] the other tasks
    have led to, once a peer is known or the wait is over. *)
Definition reload_decided (o : kms_oracle) (rec : SealedShareV1) (s : World) (t : Z) (r : bool) (s' : World) (t' : Z) : Prop :=
  exists w td, others o s w /\ (peer_table w <> ∅ \/ t + secs 18 <= td) /\ td <= t' /\
    if rec_epoch rec <? known_epoch w
    then r = false /\ shard s' = shard s /\ group_pubkey s' = group_pubkey s
    else r = true /\ group_pubkey s' = Some (master_id rec) /\
         shard s' = Some (mkShardState (rec_shard_index rec) (rec_share rec) (rec_epoch rec)).

(** What the rest of an adoption leaves alone before it writes the share. *)
Lemma adopt_sealed_spec o b64 rec s t log :
  relies o (bystander path) -> unseal_b64 b64 (private_key signing_key) = Ok (Some rec) ->
  wp (others o) (adopt_sealed config signing_key b64) (fun r s' t' _ => reload_decided o rec s t r s' t') s t log.
Proof.
  intros Ho Hun. pose proof (others_bystander o path) as Hby.
  assert (forall w w', others o w w' -> shard w' = shard w /\ group_pubkey w' = group_pubkey w) as Hk
    by (intros w w' H; destruct (Hby w w' Ho H) as (? & ? & _); done).
  assert (forall u w, shard (upd_metrics u w) = shard w /\ group_pubkey (upd_metrics u w) = group_pubkey w) as Hm by (by intros u []).
  unfold adopt_sealed, read_known_epoch. rewrite Hun. wp_step.
  eapply wp_mono; [|apply (wait_for_peers_spec (others o)); intros; by apply Hby].
  intros _ s1 t1 log1 [H1 Hc]. do 2 wp_step. intros s0 t0 Hr0 Ht0 s2' t2' Hr2' Ht2'. wp_step.
  intros s2 t2 Hr2 Ht2 s3 t3 Hr3 Ht3. wp_step. unfold id in *.
  assert (others o s0 s2) as H02 by (by etrans). assert (others o s1 s2) as H12 by (by etrans).
  assert (others o s s2) as Hs2 by (by etrans).
  assert (own_epoch s0 = own_epoch s2) as -> by (unfold own_epoch; by rewrite (proj1 (Hk _ _ H02))).
  fold (known_epoch s2).
  assert (peer_table s2 <> ∅ \/ t + secs 18 <= t2) as Hc2.
  { destruct Hc as [Hc|Hc]; [left; destruct (Hby s1 s2 Ho H12) as (_ & _ & _ & Hne); by apply Hne|right].
    change (secs 18) with (Z.of_nat 6 * secs 3). lia. }
  destruct (rec_epoch rec <? known_epoch s2) eqn:E.
  - unfold inc. repeat wp_step. exists s2, t2. rewrite E. repeat (split; [done || lia|]).
    repeat match goal with H : others o _ _ |- _ => apply Hk in H; destruct H end. rewrite !(proj1 (Hm _ _)), !(proj2 (Hm _ _)) in *.
    split; congruence.
  - wp_step. eapply wp_mono; [|apply wp_progress; apply _].
    intros _ s4 t4 log4 [Ht4 _]. wp_step. eapply wp_mono; [|apply wp_progress; apply _].
    intros p s5 t5 log5 [Ht5 _]. wp_step. eapply wp_mono; [|apply wp_progress; apply _].
    intros v s6 t6 log6 [Ht6 _]. wp_step. eapply wp_mono; [|apply wp_progress; apply _].
    intros _ s7 t7 log7 [Ht7 _]. repeat wp_step. exists s2, t2. rewrite E.
    split; [done|]. split; [done|]. split; [lia|]. split; [done|].
    assert (forall v w, shard (set_group_pubkey v w) = shard w /\ group_pubkey (set_group_pubkey v w) = v) as Hg by (by intros ? []).
    assert (forall v w, shard (set_shard v w) = v /\ group_pubkey (set_shard v w) = group_pubkey w) as Hsh by (by intros ? []).
    repeat match goal with H : others o _ _ |- _ => apply Hk in H; destruct H end.
    rewrite ?(proj1 (Hg _ _)), ?(proj2 (Hg _ _)), ?(proj1 (Hsh _ _)), ?(proj2 (Hsh _ _)) in *. split; congruence.
Qed.

Lemma reload_source_run o b x :
  persists_in o config path -> (forall n p, o_ans o n (Fs_read p) = None) -> relies o (bystander path) ->
  trim b = b -> b <> EmptyString -> fs (x_st x) !! path = Some b ->
  exists z, run o (reload_source config) x = (Some b, z) /\ others o (x_st x) (x_st z) /\ x_now x <= x_now z.
Proof.
  intros Hp Hread Ho Htb Hbne Hfile. unfold reload_source, sealed_share_blob. cbn [bind ask run].
  rewrite (no_variables _ _ _ Hp). cbn [nonblank]. rewrite (no_blob _ _ _ Hp). cbn [nonblank bind run].
  rewrite run_bind. match goal with |- context [run o (sealed_share_path config) ?z] =>
    destruct (sealed_path_run o z Hp) as [log ->] end.
  unfold read_blob_file. cbn [bind ask get run tick x_st x_n x_now]. rewrite Hread. cbn [bind get run tick x_st x_n x_now]. unfold id.
  set (s1 := o_env o _ _). assert (others o (x_st x) s1) as H1.
  { do 3 (eapply rtc_r; [|by eexists]). eapply rtc_r; [reflexivity|by eexists]. }
  destruct (others_bystander o path _ _ Ho H1) as (_ & _ & Hf & _). rewrite Hf, Hfile.
  rewrite decide_False by congruence. cbn [bind run]. rewrite Htb. eexists. split; [done|]. split; [exact H1|].
  cbn. lia.
Qed.

Lemma reload_run o b rec x :
  persists_in o config path -> (forall n p, o_ans o n (Fs_read p) = None) -> relies o (bystander path) ->
  trim b = b -> b <> EmptyString -> unseal_b64 b (private_key signing_key) = Ok (Some rec) ->
  fs (x_st x) !! path = Some b ->
  let '(r, y) := run o (try_reload_sealed config signing_key) x in
  reload_decided o rec (x_st x) (x_now x) r (x_st y) (x_now y).
Proof.
  intros Hp Hread Ho Htb Hbne Hun Hfile. unfold try_reload_sealed. rewrite run_bind.
  destruct (reload_source_run o b x Hp Hread Ho Htb Hbne Hfile) as (z & -> & Hz & Hzt).
  pose proof (wp_sound _ o _ _ z (others_relies o) (adopt_sealed_spec o b rec (x_st z) (x_now z) (x_log z) Ho Hun)) as H.
  destruct (run o _ z) as [r y]. cbn [fst snd] in H. destruct H as (w & td & Hw & Hc & Htd & Hd).
  destruct (others_bystander o path _ _ Ho Hz) as (Hzs & Hzg & _ & _). exists w, td. split; [by etrans|].
  split; [destruct Hc; [by left|right; lia]|]. split; [done|].
  destruct (rec_epoch rec <? _); [|done]. by rewrite <-Hzs, <-Hzg.
Qed.

End Restart.

(** C16: a restart reloads the share.  Let a node store a share (from any session) on a disk
    that works, no other task writing to its file.  A new process of the same identity on
    that disk, its other tasks gossiping and serving meanwhile, comes to a decision once a
    peer is known or after 18 seconds: if the peers then known report a later epoch it adopts
    nothing and goes on to rejoin, and otherwise it adopts exactly the share and the group
    key that were stored.  The epoch alone decides; the peers' group key, which the comment
    of [seal.rs] wants compared as well, is the subject of
    [reload_ignores_the_cluster_master]. *)
Theorem restart_reloads_the_share {T : ThresholdScheme} {X : Externals T} (o o' : kms_oracle)
    config signing_key pk sh gpk payload path x x' :
  ecies_roundtrip X -> bare_roundtrip X -> b64_roundtrip X -> ecies_total X ->
  k256_pubkey (private_key signing_key) = Ok pk ->
  bare_record_ser (SealedShareV1_new (shard_index sh) (shard_epoch sh) gpk (shard_bytes sh)) = Ok payload ->
  persists_in o config path -> disk_works o -> relies o (leaves_file path) ->
  persists_in o' config path -> (forall n p, o_ans o' n (Fs_read p) = None) -> relies o' (bystander path) ->
  fs (x_st x') !! path = fs (x_st (run o (store_share config signing_key sh gpk) x).2) !! path ->
  let '(r, y) := run o' (try_reload_sealed config signing_key) x' in
  exists w td, others o' (x_st x') w /\ (peer_table w <> ∅ \/ x_now x' + secs 18 <= td) /\ td <= x_now y /\
    if shard_epoch sh <? known_epoch w
    then r = false /\ shard (x_st y) = shard (x_st x') /\ group_pubkey (x_st y) = group_pubkey (x_st x')
    else r = true /\ shard (x_st y) = Some sh /\ group_pubkey (x_st y) = Some gpk.
Proof.
  intros Hec Hb H64 Htot Hpk Hser Hp Hd Ho Hp' Hread Ho' Hdisk.
  destruct (store_share_persists config signing_key path o sh gpk pk x payload) as (b & (Htb & Hbne & Hun) & Hf); [done..|].
  rewrite Hf in Hdisk. pose proof (reload_run config signing_key path o' b _ x' Hp' Hread Ho' Htb Hbne Hun Hdisk) as H.
  destruct (run o' _ x') as [r y]. destruct H as (w & td & Hw & Hc & Htd & Hr). exists w, td.
  split; [done|]. split; [done|]. split; [done|]. cbn in Hr. destruct (shard_epoch sh <? _); [done|].
  destruct Hr as (-> & -> & ->). by destruct sh.
Qed.

(** Node 1 stores its share; a new process on that disk, in which gossip learns of node 2, at
    the same epoch, while it waits. *)
Definition toy_stored : World :=
  x_st (run Toy.idle (store_share Toy.config Toy.node1 Toy.share1 Toy.group) (start Toy.world 5)).2.

Definition toy_gossip : kms_oracle :=
  {| o_ans := fun _ => Toy.no_answer;
     o_env := fun n w => if (n =? 5)%nat then upd_peer_table (fun m => if decide (m = ∅) then peer_table Toy.world else m) w else w;
     o_delay := fun _ => 1%N |}.

Lemma toy_persists o : (forall n v, o_ans o n (Env_var v) = None) -> persists_in o Toy.config "/data/share".
Proof. intros H. by split; [exact H|..]. Qed.

Lemma toy_gossip_bystander : relies toy_gossip (bystander "/data/share").
Proof.
  intros n w. cbn. destruct (n =? 5)%nat; [|done]. split; [by destruct w|]. split; [by destruct w|]. split; [by destruct w|].
  intros Hne. destruct w; cbn in *. by rewrite decide_False.
Qed.

Lemma restart_reloads_the_share_witness :
  exists y, run toy_gossip (try_reload_sealed Toy.config Toy.node1) (start (AppState_new 0 (fs toy_stored)) 9) = (true, y) /\
    shard (x_st y) = Some Toy.share1.
Proof.
  destruct (bare_record_ser (SealedShareV1_new (shard_index Toy.share1) (shard_epoch Toy.share1) Toy.group (shard_bytes Toy.share1)))
    as [payload|] eqn:Hser; [|vm_compute in Hser; discriminate Hser].
  pose proof (restart_reloads_the_share Toy.idle toy_gossip Toy.config Toy.node1 (Toy.pubkey Toy.sk1) Toy.share1
    Toy.group payload "/data/share" (start Toy.world 5) (start (AppState_new 0 (fs toy_stored)) 9)
    Toy.ecies_ok Toy.bare_ok Toy.b64_ok Toy.ecies_total_ok eq_refl Hser (toy_persists Toy.idle (fun _ _ => eq_refl))
    (conj (fun _ _ _ => eq_refl) (fun _ _ _ => eq_refl)) (fun _ _ => conj eq_refl eq_refl)
    (toy_persists toy_gossip (fun _ _ => eq_refl)) (fun _ _ => eq_refl) toy_gossip_bystander eq_refl) as H.
  assert ((run toy_gossip (try_reload_sealed Toy.config Toy.node1) (start (AppState_new 0 (fs toy_stored)) 9)).1 = true) as Hr
    by (vm_compute; reflexivity).
  destruct (run toy_gossip _ _) as [r y]. cbn in Hr. subst r. exists y. split; [done|].
  destruct H as (w & td & _ & _ & _ & H). destruct (_ <? _); [by destruct H as [? _]|exact (proj1 (proj2 H))].
Defined.

(** C32: a reload does not compare masters.  The comment of [seal.rs] asks that a sealed share
    be discarded when its master is not the cluster's (a re-genesis happened while the node
    was down).  The code compares epochs only: with peers known that all report another group
    key, at epochs not past the record's, the new process adopts the old share all the same
    and takes the old group key for the cluster's, which none of its peers has. *)
Theorem reload_ignores_the_cluster_master {T : ThresholdScheme} {X : Externals T} (o : kms_oracle)
    config signing_key path b rec x :
  persists_in o config path -> (forall n p, o_ans o n (Fs_read p) = None) -> quiet o ->
  trim b = b -> unseal_b64 b (private_key signing_key) = Ok (Some rec) -> fs (x_st x) !! path = Some b ->
  shard (x_st x) = None -> 0 <= rec_epoch rec -> peer_table (x_st x) <> ∅ ->
  (forall a p, peer_table (x_st x) !! a = Some p -> peer_group_pubkey p <> master_id rec /\ peer_epoch p <= rec_epoch rec) ->
  let '(r, y) := run o (try_reload_sealed config signing_key) x in
  r = true /\ shard (x_st y) = Some (mkShardState (rec_shard_index rec) (rec_share rec) (rec_epoch rec)) /\
  exists gpk, group_pubkey (x_st y) = Some gpk /\
    forall a p, peer_table (x_st x) !! a = Some p -> peer_group_pubkey p <> gpk.
Proof.
  intros Hp Hread Hq Htb Hun Hf Hs He Hne Hpeers.
  assert (b <> EmptyString) as Hbne by (intros ->; unfold unseal_b64 in Hun; by rewrite decide_True in Hun).
  assert (forall w w', others o w w' -> w' = w) as Hsame by (induction 1 as [|w1 w2 w3 [n ->] _ IH]; [done|]; by rewrite IH, Hq).
  assert (relies o (bystander path)) as Ho by (intros n w; by rewrite Hq).
  pose proof (reload_run config signing_key path o b rec x Hp Hread Ho Htb Hbne Hun Hf) as H.
  destruct (run o _ x) as [r y]. destruct H as (w & td & ->%Hsame & _ & _ & H).
  assert (known_epoch (x_st x) <= rec_epoch rec) as Hle.
  { unfold known_epoch, own_epoch. rewrite Hs. apply Z.max_lub; [done|].
    destruct (max_or_0_in (map peer_epoch (table_values (peer_table (x_st x))))) as [->|Hin]; [done|].
    apply list_elem_of_fmap in Hin as (p & -> & Hin). apply list_elem_of_fmap in Hin as ([a p'] & -> & Hin%elem_of_map_to_list).
    apply (Hpeers a p' Hin). }
  rewrite (proj2 (Z.ltb_ge _ _) Hle) in H. destruct H as (-> & Hg & Hsh). split; [done|]. split; [done|].
  exists (master_id rec). split; [done|]. intros a p Hap. apply (Hpeers a p Hap).
Qed.

(** Node 2 has been through a new genesis, under another master, while node 1 was down. *)
Definition toy_new_peers : gmap Address PeerInfo :=
  {[eth_address Toy.node2 := mkPeerInfo "http://n2" 1000 (Toy.pubkey Toy.sk2) 1 [Byte.x08]]}.

Definition toy_regenesis : World := upd_peer_table (fun _ => toy_new_peers) (AppState_new 0 (fs toy_stored)).

Lemma toy_new_peers_report a p : toy_new_peers !! a = Some p -> peer_group_pubkey p = [Byte.x08] /\ peer_epoch p = 1.
Proof. unfold toy_new_peers. intros [_ H]%lookup_singleton_Some. rewrite <-H. split; reflexivity. Qed.

Definition toy_sealed : string := default EmptyString (fs toy_stored !! "/data/share").

Lemma reload_ignores_the_cluster_master_witness :
  let y := (run Toy.idle (try_reload_sealed Toy.config Toy.node1) (start toy_regenesis 9)).2 in
  exists gpk, group_pubkey (x_st y) = Some gpk /\ gpk <> [Byte.x08].
Proof.
  assert (exists rec, unseal_b64 toy_sealed Toy.sk1 = Ok (Some rec) /\ rec_epoch rec = 3 /\ master_id rec = Toy.group)
    as (rec & Hun & He & Hm) by (eexists; split; [vm_compute; reflexivity|split; reflexivity]).
  pose proof (reload_ignores_the_cluster_master Toy.idle Toy.config Toy.node1 "/data/share" toy_sealed rec (start toy_regenesis 9)
    (toy_persists Toy.idle (fun _ _ => eq_refl)) (fun _ _ => eq_refl) (Toy.alone_quiet _) ltac:(vm_compute; reflexivity)
    Hun ltac:(vm_compute; reflexivity) eq_refl ltac:(lia)) as H.
  destruct (run Toy.idle _ _) as [r y]. cbv zeta. cbn [snd]. destruct H as (_ & _ & gpk & Hg & Hn).
  - change (toy_new_peers <> ∅). apply map_non_empty_singleton.
  - intros a p Hap. destruct (toy_new_peers_report a p Hap) as [-> ->]. rewrite Hm, He. split; [by vm_compute|lia].
  - exists gpk. split; [exact Hg|]. intros ->. eapply (Hn (eth_address Toy.node2));
      [change (peer_table _) with toy_new_peers; apply lookup_singleton_eq|reflexivity].
Defined.

(** * The disaster gate *)

(** A reply that is no evidence of a cluster: no connection, or [Unavailable]. *)
Definition no_evidence (r : RpcReply EncryptedShard) : bool :=
  match r with
  | ConnectFailed _ => true
  | RpcError st => bool_decide (code st = Unavailable)
  | RpcOk _ => false
  end.

(** The seed [seed] shows a cluster. *)
Definition seed_answers (seed : string) (c : Call) : ans c -> Prop :=
  match c with
  | Grpc_request_shard url _ _ => fun a => url = seed -> no_evidence a = false
  | _ => fun _ => True
  end.

(** Not a message of a DKG session at all; and not one of the session [sid]. *)
Definition no_session_call (c : Call) : Prop := match c with Grpc_dkg_round _ _ _ _ => False | _ => True end.
Definition not_in_session (sid : string) (c : Call) : Prop :=
  match c with Grpc_dkg_round _ msg _ _ => dm_session_id msg <> sid | _ => True end.

Section Gate.
Context {T : ThresholdScheme} {X : Externals T} {G : Gennaro T}.
Context (config : Config) (signing_key : NodeKey) (wakes : nat) (OK : forall c, ans c -> Prop).

Abbreviation calm p := (emits no_session_call OK p (fun _ => True)).

Lemma calm_get_signer_addresses rpc ca app : calm (get_signer_addresses rpc ca app).
Proof. unfold get_signer_addresses, Chain.fresh_list, fetch_node_list, provider_for, inc. repeat emits_step; done. Qed.

Lemma calm_get_signer_addresses_for rpc ca app a : calm (get_signer_addresses_for rpc ca app a).
Proof.
  unfold get_signer_addresses_for, refresh_on_miss, answers_miss, fetch_node_list, provider_for, inc.
  repeat (emits_step || apply calm_get_signer_addresses); done.
Qed.

Lemma calm_require_verified app a wait : calm (require_verified app a wait).
Proof.
  unfold require_verified, Verifier_require_verified, cached_decision, wait_for_scan, has_stale_positive,
    lag_body, fetch, inc. repeat emits_step; try done.
  intros w. destruct (settle _ _ _ _ _) as [[]]. done.
Qed.

Lemma calm_verify_response msg sig : calm (verify_cluster_response msg sig config).
Proof.
  unfold verify_cluster_response.
  repeat (emits_step || apply calm_get_signer_addresses_for || apply calm_require_verified).
Qed.

Lemma calm_assemble : calm (assemble_participants config signing_key).
Proof.
  unfold assemble_participants, node_list.
  repeat (emits_step || apply calm_get_signer_addresses); done.
Qed.

Lemma calm_request_shard url sig ts : calm (request_shard_from_peer config signing_key url sig ts).
Proof.
  unfold request_shard_from_peer. repeat (emits_step || apply calm_verify_response). done.
Qed.

Lemma calm_store_share sh pk : calm (store_share config signing_key sh pk).
Proof.
  unfold store_share, seal_and_persist, seal_b64, seal_to_bytes, ecies_encrypt, sealed_share_path,
    check_master_baseline, read_blob_file, write_blob_file, fs_write, fs_rename, note_share_acquired,
    store_metric, inc.
  repeat emits_step; done.
Qed.

(** A session talks only about itself. *)
Lemma session_calls sid sid' p peers t :
  sid <> sid' -> emits (not_in_session sid') OK (run_session signing_key wakes sid p peers t) (fun _ => True).
Proof.
  intros Hne.
  assert (forall r own b m ps, emits (not_in_session sid') OK (broadcast_round signing_key sid r own b m ps)
    (fun _ => True)) as Hb.
  { intros. unfold broadcast_round, send_dkg_round. repeat emits_step; done. }
  assert (forall r exp t, emits (not_in_session sid') OK (await_round wakes sid r exp t) (fun _ => True)) as Ha.
  { intros r exp t'. unfold await_round. repeat emits_step.
    match goal with |- emits _ _ (await_loop _ _ _ _ ?d) _ => generalize d end. intros d.
    induction wakes as [|n IH]; cbn [await_loop]; unfold notified_before; repeat (emits_step || apply IH); done. }
  assert (forall p2p ps acc, emits (not_in_session sid') OK (encrypt_p2p p2p ps acc) (fun _ => True)) as He.
  { intros p2p ps. induction ps as [|q ps IH]; intros acc; cbn [encrypt_p2p]; [done|].
    unfold ecies_encrypt. repeat (emits_step || apply IH); done. }
  unfold run_session. repeat (emits_step || apply Hb || apply Ha || apply He).
Qed.

Lemma calm_session {A} sid (p : kms A) : calm p -> emits (not_in_session sid) OK p (fun _ => True).
Proof. intros Hp. eapply emits_mono; [exact Hp| |done]. by intros []. Qed.

Lemma recovery_calls m sid :
  (forall s, sid <> "reshare:" +:+ s) ->
  emits (not_in_session sid) OK (run_reshare_recovery config signing_key wakes m) (fun _ => True).
Proof.
  intros Hsid. unfold run_reshare_recovery, read_known_epoch, send_start_reshare.
  repeat (emits_step || (apply session_calls; intros Heq; by eapply Hsid) ||
          apply calm_session, calm_store_share); done.
Qed.

End Gate.

Section GateTheorem.
Context {T : ThresholdScheme} {X : Externals T} {G : Gennaro T}.
Context (config : Config) (signing_key : NodeKey) (wakes : nat) (seed : string).

Abbreviation OK := (seed_answers seed).

(** An answer with evidence is never classified as unreachable. *)
Lemma request_shard_evidence url sig ts :
  emits no_session_call OK (request_shard_from_peer config signing_key url sig ts)
    (fun r => url = seed -> match r with Err (Unreachable _) => False | _ => True end).
Proof.
  unfold request_shard_from_peer. apply emits_bind. split; [done|]. intros r Hr. simpl in Hr.
  destruct r as [m|st|resp].
  - intros Hu. by specialize (Hr Hu).
  - intros Hu. specialize (Hr Hu). simpl in Hr. apply bool_decide_eq_false in Hr.
    unfold classify_status. by destruct (code st).
  - apply emits_bind. eapply emits_mono; [apply calm_verify_response|done|]. intros v _.
    unfold bind_ok. cbn [bind]. destruct v as [v|e]; cbn [map_err bind]; [|done].
    by destruct (ecies_decrypt _ _).
Qed.

Lemma join_seeds_evidence sig ts l any :
  any = true \/ seed ∈ l ->
  emits no_session_call OK (join_seeds config signing_key sig ts l any) (fun r => r <> NoSeedReachable).
Proof.
  revert any. induction l as [|url l IH]; intros any Hany; cbn [join_seeds].
  { destruct Hany as [->|H]; [done|set_solver]. }
  apply emits_bind. eapply emits_mono; [apply request_shard_evidence|done|].
  intros [sh|[e|e]] Hr; [by intros s|apply IH|apply IH; by left].
  destruct Hany as [?|[->|?]%elem_of_cons]; [by left|by destruct (Hr eq_refl)|by right].
Qed.

Lemma formation_turn_gate since :
  seed ∈ seeds (cluster config) ->
  emits (not_in_session ("genesis:" +:+ tapp_app_id (tapp config))) OK
        (formation_turn config signing_key wakes since) (fun _ => True).
Proof.
  intros Hseed. unfold formation_turn. apply emits_bind_any; [apply calm_session, calm_assemble|].
  intros [[m|]|e]; [|by repeat emits_step|unfold inc; by repeat emits_step].
  assert (emits no_session_call OK (join_cluster config signing_key)
    (fun r => r <> Ok NoSeedReachable)) as Hjoin.
  { unfold join_cluster. destruct (seeds (cluster config)) as [|u l] eqn:Es; [set_solver|].
    split; [done|]. intros ts _. cbn [bind]. destruct (sign_request _ _ _) as [sig|e]; cbn [bind bind_ok]; [|done].
    apply emits_bind. eapply emits_mono; [apply join_seeds_evidence; by right|done|].
    intros r Hr. simpl. congruence. }
  apply emits_bind. eapply emits_mono; [exact Hjoin|by intros []|]. intros [[]|e] Hr; [done|done| |].
  - unfold record_outcome, inc.
    repeat (emits_step || (apply recovery_calls; by intros s)).
  - by repeat emits_step.
Qed.

End GateTheorem.

(** C12: the disaster gate.  While any configured seed gives evidence of a cluster (any
    answer but a failed connection or [Unavailable]), a turn of the formation loop sends
    no message of the genesis session: a node that lost its share can never mint a second
    master next to a live one. *)
Theorem established_cluster_never_sees_genesis {T : ThresholdScheme} {X : Externals T} {G : Gennaro T}
    (o : kms_oracle) config signing_key wakes seed since x evs :
  seed ∈ seeds (cluster config) ->
  x_log (run o (formation_turn config signing_key wakes since) x).2 = x_log x ++ evs ->
  Forall (ev_ok (seed_answers seed)) evs ->
  forall url msg sig ts a, Ev (Grpc_dkg_round url msg sig ts) a ∈ evs ->
    dm_session_id msg <> "genesis:" +:+ tapp_app_id (tapp config).
Proof.
  intros Hseed Hlog Hok url msg sig ts a Hin.
  destruct (emits_sound _ _ o _ _ x evs (formation_turn_gate config signing_key wakes seed since Hseed) Hlog Hok)
    as [Hg _].
  exact (proj1 (Forall_forall _ _) Hg _ Hin).
Qed.

(** The seed of node 1 refuses it, which is evidence enough. *)
Definition seed_refuses (c : Call) : ans c :=
  match c with
  | Grpc_request_shard _ _ _ => RpcError (mkStatus FailedPrecondition "already formed")
  | c => Toy.no_answer c
  end.

Lemma seed_refuses_ok n c : seed_answers "http://n2" c (o_ans (Toy.alone seed_refuses) n c).
Proof. destruct c; try exact I. intros _. reflexivity. Qed.

Lemma established_cluster_never_sees_genesis_witness :
  Forall (fun ev => match ev with
                    | Ev (Grpc_dkg_round _ msg _ _) _ => dm_session_id msg <> "genesis:kms"
                    | _ => True
                    end)
    (x_log (run (Toy.alone seed_refuses) (formation_turn (G := ToyDkg.gennaro Byte.x09 [Byte.x08]) Toy.config
       Toy.node1 1 None) (start Toy.world 5)).2).
Proof.
  pose proof (fun evs => established_cluster_never_sees_genesis (G := ToyDkg.gennaro Byte.x09 [Byte.x08])
    (Toy.alone seed_refuses) Toy.config Toy.node1 1 "http://n2" None (start Toy.world 5) evs) as H.
  pose proof (start_log_ok (seed_answers "http://n2") (Toy.alone seed_refuses)
    (formation_turn (G := ToyDkg.gennaro Byte.x09 [Byte.x08]) Toy.config Toy.node1 1 None) Toy.world 5
    seed_refuses_ok) as Hok.
  destruct (run _ _ _) as [r y]. cbn [snd] in *. specialize (H (x_log y) ltac:(left) eq_refl Hok).
  apply Forall_forall. intros [[] a] Hin; try exact I. exact (H _ _ _ _ _ Hin).
Defined.

(** * The alerting line *)

(** C26: the gauges tell exactly whether a node without a share can recover.  When the peer
    table holds registered nodes whose keys are known, the dealers a recovery would count
    are as many as [kms_leading_holders] says, and both gates of the recovery pass exactly
    when [kms_leading_holders] is at least [kms_recovery_threshold]: below that line the
    cluster has lost the ability to heal, whatever it still derives. *)
Theorem alert_line_is_the_recovery_gate config signing_key l now own_pos w :
  NoDup l -> position (is_self signing_key) l = Some own_pos -> shard w = None ->
  table_registered (eth_address signing_key) l (peer_table w) -> 0 <= total_nodes (cluster config) ->
  let m := membership_of config l now (peer_table w) own_pos in
  let v := view_of config now w in
  Z.of_nat (length (leading_dealers m)) = leading_holders v /\
  (recovery_gates (Z.of_nat (length (leading_dealers m))) (m_threshold m) (m_total m) = Ok tt <->
   recovery_threshold v <= leading_holders v).
Proof.
  intros Hnd Hpos Hs Hreg Ht m v. pose proof (leading_dealers_are_the_gauge config signing_key l now own_pos w
    Hnd Hpos Hs Hreg) as E. split; [exact E|]. subst m v. rewrite <-E. clear E.
  assert (recovery_threshold (view_of config now w) =
          Z.max (threshold (cluster config)) (total_nodes (cluster config) / 2)) as ->.
  { unfold view_of. by rewrite Hs. }
  unfold membership_of. destruct (scan_members _ _ _ _ _) as [peers all]. cbn [m_threshold m_total].
  unfold recovery_gates, majority. destruct (_ <? threshold _) eqn:E1; [split; [done|lia]|].
  destruct (_ + 1 <? _) eqn:E2; [split; [done|lia]|]. split; [lia|done].
Qed.

(** Node 1 without its share: one leading holder, and the line is at two. *)
Lemma alert_line_is_the_recovery_gate_witness :
  let w := set_shard None Toy.world in
  leading_holders (view_of Toy.config 1000 w) = 1 /\
  is_ok (recovery_gates 1 (threshold (cluster Toy.config)) (total_nodes (cluster Toy.config))) = false.
Proof.
  destruct (alert_line_is_the_recovery_gate Toy.config Toy.node1 Toy.members 1000 0 (set_shard None Toy.world)) as [H1 H2].
  - repeat constructor; vm_compute; set_solver.
  - vm_compute. reflexivity.
  - reflexivity.
  - intros a info Ha. change (peer_table _) with ({[Toy.addr_of Toy.sk2 := Toy.peer2]} : gmap Address PeerInfo) in Ha.
    apply lookup_singleton_Some in Ha as [<- <-].
    split; [vm_compute; right; left|]. split; [vm_compute; discriminate|vm_compute; reflexivity].
  - vm_compute. discriminate.
  - split; [rewrite <-H1; vm_compute; reflexivity|].
    destruct (recovery_gates 1 _ _) as [[]|e] eqn:E; [|reflexivity]. vm_compute in E. discriminate E.
Defined.
