(* ===== verification/Epoch.v ===== *)
(** The epoch of a node's share under resharing: a dealer or refresh session on its own only
    moves it forward, and two overlapping sessions can move it back. *)
From S2P Require Import Base Threshold Prelude Prog State Externals Models Crypto Seal Metrics Chain Membership Dkg Lifecycle.
From Stdlib Require Import ZArith Lia.
From Stdlib.Strings Require Import Byte.
From stdpp Require Import base list gmap strings relations.
Local Open Scope Z_scope.

(** ** A schedule, executed

    [step_task o P i] lets task [i] take its next step, answered by [o]; a task that waits
    for a held mutex, or is done, stays where it is. *)

Section Schedule.
Context {S C : Type} {ans : C -> Type} {A : Type} (o : forall c, ans c).

Definition step_task (P : pool S C ans A) (i : nat) : pool S C ans A :=
  let '(Pool s t h ps) := P in
  match ps !! i with
  | Some (Ask c k) => Pool s t h (<[i := k (o c)]> ps)
  | Some (Atom u k) => Pool (u s) t h (<[i := k s]> ps)
  | Some (Now k) => Pool s t h (<[i := k t]> ps)
  | Some (Sleep d k) => Pool s (t + Z.max 0 d) h (<[i := k]> ps)
  | Some (Lock l k) => if decide (l ∈ h) then P else Pool s t ({[l]} ∪ h) (<[i := k]> ps)
  | Some (Unlock l k) => Pool s t (h ∖ {[l]}) (<[i := k]> ps)
  | _ => P
  end.

Definition schedule (P : pool S C ans A) (turns : list nat) : pool S C ans A := foldl step_task P turns.

Lemma step_task_steps P i : rtc pool_step P (step_task P i).
Proof.
  destruct P as [s t h ps]. unfold step_task. destruct (ps !! i) as [[a|c k|u k|k|d k|l k|l k]|] eqn:E; try done.
  - apply rtc_once. by apply step_ask with (k := k).
  - apply rtc_once. by apply step_atom.
  - apply rtc_once. by apply step_now.
  - eapply rtc_l; [by eapply step_sleep|]. apply rtc_once, step_time. lia.
  - case_decide; [done|]. apply rtc_once. by apply step_lock.
  - apply rtc_once. by apply step_unlock.
Qed.

Lemma schedule_steps P turns : rtc pool_step P (schedule P turns).
Proof.
  revert P. induction turns as [|i turns IH]; intros P; [done|].
  cbn. etrans; [apply step_task_steps|apply IH].
Qed.

End Schedule.

(** ** One session at a time *)

(** Other tasks leave the share alone; peers, caches, counters, buffers and disk are theirs. *)
Definition same_share (w w' : World) : Prop := shard w' = shard w.

#[export] Instance same_share_preorder : PreOrder same_share.
Proof. split; [done|]. intros x y z H1 H2. unfold same_share in *. congruence. Qed.

(** A session that ends well stores a share of a later epoch; one that fails stores none. *)
Definition advanced (w : World) (e : Z) {A E} (r : result A E) (w' : World) : Prop :=
  match r with
  | Ok _ => own_epoch w < e /\ exists sh, shard w' = Some sh /\ shard_epoch sh = e
  | Err _ => shard w' = shard w
  end.

Section Forward.
Context {T : ThresholdScheme} {X : Externals T} {G : Gennaro T}.
Context (config : Config) (signing_key : NodeKey) (wakes : nat).

Lemma keeps_same {A} (p : kms A) s t log :
  guar keeps p -> wp same_share p (fun _ s' _ _ => same_share s s') s t log.
Proof. intros Hg. apply wp_guar; [apply _|]. eapply guar_mono; [|exact Hg]. by intros w w' (_ & H & _). Qed.

(** Step over a part that leaves the share alone. *)
Tactic Notation "over" constr(lem) "as" simple_intropattern(x) :=
  eapply wp_mono; [|apply keeps_same; eauto using lem with kms];
  intros x ? ? ? ?; cbv beta iota in *.

Lemma store_share_wp sh gpk s t log :
  wp same_share (store_share config signing_key sh gpk) (fun _ s' _ _ => shard s' = Some sh) s t log.
Proof.
  unfold store_share. wp_step. over @seal_persist_keeps as ?. wp_step. over @sealed_path_keeps as path.
  wp_step. over @baseline_keeps as ?. wp_step. over @note_share_keeps as ?. wp_step. wp_step.
  wp_step. unfold same_share in *. match goal with H : shard ?z = shard (set_shard _ ?w) |- _ => by destruct w end.
Qed.

Lemma own_epoch_same w w' : same_share w w' -> own_epoch w' = own_epoch w.
Proof. unfold same_share, own_epoch. by intros ->. Qed.

Lemma advanced_same w1 w2 e {A E} (r : result A E) w' :
  same_share w1 w2 -> advanced w2 e r w' -> advanced w1 e r w'.
Proof. intros H. unfold advanced. rewrite (own_epoch_same w1 w2 H). destruct r; [done|]. by intros ->. Qed.

(** Compose the interference of the steps so far. *)
Ltac at_share := first [assumption | etrans; [eassumption|at_share]].

(** A session that gives up before storing anything. *)
Lemma fails {A} e msg w s t log :
  same_share w s ->
  wp same_share (Ret (Err msg) : kms (result A string)) (fun r s' _ _ => advanced w e r s') s t log.
Proof. intros H. wp_step. simpl. unfold same_share in *. congruence. Qed.

Lemma dealer_forward sid rid ids e s t log :
  wp same_share (run_reshare_dealer config signing_key wakes sid rid ids e)
    (fun r s' _ _ => advanced s e r s') s t log.
Proof.
  unfold run_reshare_dealer. wp_step. over @node_list_keeps as [l|]; [|by apply fails].
  do 2 wp_step. destruct (ok_or (position _ l) _) as [pos|]; [|apply fails; at_share].
  do 2 wp_step. destruct (ok_or (position _ ids) _) as [own_index|]; [|apply fails; at_share].
  do 2 wp_step. destruct (e <=? _) eqn:He; [apply fails; at_share|]. apply Z.leb_gt in He.
  match type of He with own_epoch ?w < _ => rewrite (own_epoch_same s w) in He by at_share end.
  do 2 wp_step. do 2 wp_step. destruct (ok_or _ _) as [sh|]; [|apply fails; at_share].
  do 2 wp_step. destruct (share_from_bytes _) as [share|]; [|apply fails; at_share].
  wp_step. over @resolve_keeps as [peers|]; [|apply fails; at_share].
  do 2 wp_step. destruct (check_params _ _); [|apply fails; at_share].
  do 2 wp_step. do 2 wp_step. destruct (map_err _ _) as [participant|]; [|apply fails; at_share].
  wp_step. over @session_keeps as [[new_share pk]|]; [|apply fails; at_share].
  do 2 wp_step. destruct (negb _); [apply fails; at_share|]. wp_step.
  eapply wp_mono; [|apply store_share_wp]. intros [] w tw lw Hw. wp_step.
  split; [done|]. eexists. split; [unfold same_share in *; by etrans|done].
Qed.

(** The epoch a refresh aims at passes the same check. *)
Lemma refresh_forward s t log :
  wp same_share (trigger_refresh config signing_key wakes) (fun r s' _ _ => exists e, advanced s e r s') s t log.
Proof.
  assert (forall A msg w t log, same_share s w -> wp same_share (Ret (Err msg) : kms (result A string))
    (fun r s' _ _ => exists e, advanced s e r s') w t log) as Hf.
  { intros. eapply wp_mono; [|by apply (fails 0)]. intros ???? Ha. by exists 0. }
  unfold trigger_refresh. do 2 wp_step. destruct (negb _); [apply Hf; at_share|].
  wp_step. over @assemble_keeps as [om|]; [|apply Hf; at_share].
  do 2 wp_step. destruct (ok_or _ _) as [m|]; [|apply Hf; at_share]. destruct (negb _); [apply Hf; at_share|].
  do 2 wp_step. destruct (List.filter _ _); [|apply Hf; at_share].
  wp_step. over @known_epoch_keeps as known. do 4 wp_step. do 2 wp_step.
  destruct (sign_request _ _ _) as [sig|]; [|apply Hf; at_share]. wp_step. over @sends_keep as ?.
  eapply wp_mono; [|apply dealer_forward]. intros r w tw lw Hw. eexists.
  eapply advanced_same; [|exact Hw]. at_share.
Qed.

End Forward.

(** C21: a reshare moves the node's epoch forward or does nothing.  While no other task
    replaces the node's share, whatever else they and the outside do, a dealer session
    that ends well leaves a share of exactly the requested epoch, which is later than the
    one it started from, and a refresh that ends well one of a later epoch; a session that
    fails at any point, the check of the group public key included, leaves the share as it
    was. *)
Theorem reshare_moves_the_epoch_forward {T : ThresholdScheme} {X : Externals T} {G : Gennaro T}
    config key wakes (o : kms_oracle) x :
  relies o same_share ->
  (forall sid rid ids e,
     let '(r, y) := run o (run_reshare_dealer config key wakes sid rid ids e) x in
     advanced (x_st x) e r (x_st y)) /\
  (let '(r, y) := run o (trigger_refresh config key wakes) x in
   exists e, advanced (x_st x) e r (x_st y)).
Proof.
  intros Ho. split.
  - intros sid rid ids e.
    pose proof (wp_sound _ o _ _ x Ho (dealer_forward config key wakes sid rid ids e _ (x_now x) (x_log x))) as H.
    by destruct (run o _ x).
  - pose proof (wp_sound _ o _ _ x Ho (refresh_forward config key wakes _ (x_now x) (x_log x))) as H.
    by destruct (run o _ x).
Qed.

(** ** Node 1 dealing in two sessions *)

(** A session between the two nodes, whose protocol run ends with the cluster's master. *)
Definition toy_dealer (sid : string) (e : Z) : kms (result unit string) :=
  run_reshare_dealer (G := ToyDkg.gennaro Byte.x09 Toy.group) Toy.config Toy.node1 1 sid 0 [1; 2] e.

(** Everything node 2 sends in a session. *)
Definition delivered : DkgSession :=
  foldl (fun s round => record_round s round 2 [] []) DkgSession_default [1; 2; 3; 4].

Definition dealing : World :=
  upd_dkg_sessions (fun _ => {["reshare:kms:4" := delivered; "reshare:kms:5" := delivered]}) Toy.world.

Definition both : pool World Call ans (result unit string) :=
  Pool dealing 1000 ∅ [toy_dealer "reshare:kms:4" 4; toy_dealer "reshare:kms:5" 5].

Lemma reshare_moves_the_epoch_forward_witness :
  advanced Toy.world 4 (A := unit) (E := string) (Ok tt) (x_st (run Toy.idle (toy_dealer "reshare:kms:4" 4) (start dealing 0)).2).
Proof.
  destruct (reshare_moves_the_epoch_forward (G := ToyDkg.gennaro Byte.x09 Toy.group) Toy.config Toy.node1 1 Toy.idle
    (start dealing 0) ltac:(intros n w; reflexivity)) as [H _].
  specialize (H "reshare:kms:4" 0 [1; 2] 4). change (run_reshare_dealer _ _ _ _ _ _ _) with (toy_dealer "reshare:kms:4" 4) in H.
  assert ((run Toy.idle (toy_dealer "reshare:kms:4" 4) (start dealing 0)).1 = Ok tt) as E by (vm_compute; reflexivity).
  destruct (run Toy.idle _ _) as [r y]. rewrite <-E. exact H.
Defined.

(** C35: the dealer's epoch check does not hold across the session it guards.  Two orders to
    reshare, to epochs 4 and 5, both pass the check of a node at epoch 3; in a schedule where
    the second session stores first, the first one then overwrites the newer share, both
    report success, and the node ends at epoch 4 having been at epoch 5. *)
Theorem overlapping_dealers_regress : exists S1 S2,
  rtc pool_step both S1 /\ rtc pool_step S1 S2 /\
  own_epoch (p_st _ S1) = 5 /\ own_epoch (p_st _ S2) = 4 /\
  p_tasks _ S2 = [Ret (Ok tt); Ret (Ok tt)].
Proof.
  exists (schedule Toy.no_answer both (replicate 40 0%nat ++ replicate 60 1%nat)).
  exists (schedule Toy.no_answer (schedule Toy.no_answer both (replicate 40 0%nat ++ replicate 60 1%nat))
    (replicate 20 0%nat)).
  split; [apply schedule_steps|]. split; [apply schedule_steps|]. vm_compute. auto.
Qed.
