(* ===== verification/Server.v ===== *)
(** The HTTP surface of [src/src/server.rs]: [POST /app-key], which issues an application
    key to a signer of that application, [POST /refresh], which an application's owner
    uses to reshare the committee, and the read-only endpoints. *)
From S2P Require Import Base Threshold Prelude Prog State Externals Models Crypto Seal Metrics Exposition Chain Verifier Auth Derive Membership Dkg Lifecycle.
From Stdlib Require Import ZArith Lia.
From stdpp Require Import base list gmap strings pretty sorting.
Local Open Scope Z_scope.

Record RefreshRequest := mkRefreshRequest {
  refresh_timestamp : Z;
  refresh_signature : string
}.

(** The counter one outcome of [/app-key] bumps. *)
Definition app_key_counter {A} (r : result A KmsError) : Metric :=
  match r with
  | Ok _ => appkey_ok
  | Err (InvalidTimestamp _) | Err (InvalidSignature _) | Err (AppNotFound _) => appkey_unauthorized
  | Err (BadRequest _) => appkey_bad_request
  | Err (NotAttested _) => appkey_unauthorized
  | Err (ConfigError _) => appkey_not_ready
  | Err _ => appkey_error
  end.

Definition timestamp_error (timestamp now : Z) : KmsError :=
  InvalidTimestamp ("timestamp " +:+ pretty timestamp +:+ " is too far from now (" +:+
                    pretty now +:+ ")").

(** An entry of [GET /peers]. *)
Record PeerReport := mkPeerReport {
  pr_eth_addr : string;
  pr_grpc_url : string;
  pr_epoch : Z;
  pr_live : bool;
  pr_last_seen : Z;
  pr_group_pubkey : option string
}.

(** The [self] object of [GET /peers]. *)
Record SelfReport := mkSelfReport {
  sr_eth_addr : string;
  sr_grpc_url : string;
  sr_epoch : Z;
  sr_has_share : bool;
  sr_own_id : Z;
  sr_group_pubkey : option string
}.

Record PeersReport := mkPeersReport {
  ps_cluster_epoch : Z;
  ps_self : SelfReport;
  ps_peers : list PeerReport;
  ps_threshold : Z;
  ps_total_nodes : Z;
  ps_recovery_threshold : Z;
  ps_leading_holders : Z;
  ps_live_share_holders : Z;
  ps_group_pubkey_mismatch : Z
}.

Section Server.
Context {T : ThresholdScheme} {X : Externals T}.
Context (config : Config) (signing_key : NodeKey).

(** The signer of an EIP-191 [personal_sign] signature; [v] is 0/1 or 27/28. *)
Definition recover_eip191_address (message signature_hex : string) : result Address KmsError :=
  let hash := keccak256 (eip191_msg message) in
  let? sig_bytes := ok_or (hex_decode (trim_0x signature_hex))
                          (InvalidSignature "invalid signature hex") in
  if negb (length sig_bytes =? 65)%nat then
    Err (InvalidSignature ("signature must be 65 bytes (r||s||v), got " +:+ pretty (length sig_bytes)))
  else
    let? sig := map_err (fun _ => InvalidSignature "cannot parse r||s")
                        (k256_sig_parse (take 64 sig_bytes)) in
    let v := Z_of_byte (default Byte.x00 (sig_bytes !! 64%nat)) in
    let? rid := (if (v =? 0) || (v =? 1) then Ok v
                 else if (v =? 27) || (v =? 28) then Ok (v - 27)
                 else Err (InvalidSignature ("invalid v byte: " +:+ pretty v))) in
    let? pubkey := map_err (fun _ => InvalidSignature "cannot recover signer")
                           (k256_recover hash sig rid) in
    Ok (eth_address_from_pubkey pubkey).

(** * [POST /app-key] *)

(** Steps 1 to 2b: freshness, signature, registration, attestation. *)
Definition app_key_authorize (app_id : string) (timestamp : Z) (signature : string) :
    kms (result unit KmsError) :=
  let! now := ask Utc_now in
  if too_far now timestamp (timestamp_tolerance_secs (server config)) then
    Ret (Err (timestamp_error timestamp now))
  else
    let message := "GetSecretResource:" +:+ pretty timestamp in
    let!? recovered_addr := Ret (recover_eip191_address message signature) in
    let!? signer_addresses := get_signer_addresses_for (rpc_url (chain config))
                                (contract_address (chain config)) app_id recovered_addr in
    if decide (signer_addresses = []) then Ret (Err (AppNotFound app_id))
    else if decide (recovered_addr ∈ signer_addresses) then
      let! gate := require_verified app_id recovered_addr SCAN_LAG_WAIT in
      Ret (map_err NotAttested gate)
    else Ret (Err (InvalidSignature ("recovered address " +:+ fmt_addr recovered_addr +:+
                     " not in on-chain signer list for app " +:+ app_id))).

(** Steps 3 and 4: derive and encrypt to the caller. *)
Definition app_key_issue (req : AppKeyRequest) : kms (result (string * DeriveTrace) KmsError) :=
  let!? material := Ret (ok_or (hex_decode (trim_0x (req_material req)))
                               (BadRequest "invalid material hex")) in
  let!? kt := collect_and_dprf config signing_key (req_app_id req) material in
  let '(app_key, trace) := kt in
  let!? pubkey_bytes := Ret (ok_or (hex_decode (trim_0x (req_pubkey req)))
                                   (BadRequest "invalid pubkey hex")) in
  let! enc := ecies_encrypt pubkey_bytes app_key in
  let!? ciphertext := Ret (map_err (fun e => BadRequest ("cannot encrypt to caller pubkey: " +:+
                                                         KmsError_to_string e)) enc) in
  Ret (Ok (hex_encode ciphertext, trace)).

Definition app_key_inner (req : AppKeyRequest) : kms (result (string * DeriveTrace) KmsError) :=
  let!? _ := app_key_authorize (req_app_id req) (req_timestamp req) (req_signature req) in
  app_key_issue req.

Definition handle_app_key (req : AppKeyRequest) : kms (result string KmsError) :=
  let! r := app_key_inner req in
  inc (app_key_counter r);;;
  Ret (let? rt := r in Ok rt.1).

(** * The read-only endpoints *)

Definition handle_health : kms (Z * string) := Ret (200, "ok").

Definition handle_ready : kms (Z * string) :=
  let! w := get in
  let has_share := is_initialized w in
  let! w := get in
  let has_gpk := match group_pubkey w with Some _ => true | None => false end in
  Ret (if has_share && has_gpk then (200, "ready")
       else if has_share then (503, "no group public key")
       else (503, "no share")).

(** The status, the [content-type] and the body. *)
Definition handle_metrics (version : string) : kms (Z * string * string) :=
  let! text := render config version in
  Ret (200, "text/plain; version=0.0.4; charset=utf-8", text).

Definition handle_sealed_share : kms (Z * string) :=
  let! w := get in
  Ret (match sealed_share w with
       | Some b64 => (200, b64)
       | None => (404, "no sealed share yet")
       end).

Definition peer_report (now : Z) (entry : Address * PeerInfo) : PeerReport :=
  let '(addr, p) := entry in
  mkPeerReport ("0x" +:+ hex_encode addr) (grpc_url p) (peer_epoch p) (is_live p now) (last_seen p)
    (if decide (peer_group_pubkey p = []) then None else Some (hex_encode (peer_group_pubkey p))).

Definition handle_peers : kms PeersReport :=
  let! now := ask Utc_now in
  let! v := cluster_view config in
  let own_gpk := option_map hex_encode (cv_group_pubkey v) in
  let! w := get in
  let peers := map (peer_report now) (map_to_list (peer_table w)) in
  Ret (mkPeersReport (cluster_epoch v)
         (mkSelfReport ("0x" +:+ hex_encode (eth_address signing_key)) (self_url (cluster config))
            (cv_own_epoch v) (has_share v) (own_id v) own_gpk)
         peers (cv_threshold v) (cv_total_nodes v) (recovery_threshold v) (leading_holders v)
         (live_share_holders v) (group_pubkey_mismatch v)).

(** * [POST /refresh] *)

Context {G : Gennaro T} (wakes : nat).

Definition handle_refresh (req : RefreshRequest) : kms (result (Z * string) KmsError) :=
  let! now := ask Utc_now in
  if too_far now (refresh_timestamp req) (timestamp_tolerance_secs (server config)) then
    Ret (Err (timestamp_error (refresh_timestamp req) now))
  else
    let message := "Refresh:" +:+ pretty (refresh_timestamp req) in
    let!? recovered := Ret (recover_eip191_address message (refresh_signature req)) in
    let!? owner := get_app_owner (rpc_url (chain config)) (contract_address (chain config))
                                 (tapp_app_id (tapp config)) in
    if negb (bool_decide (recovered = owner)) then
      Ret (Err (InvalidSignature ("recovered address " +:+ fmt_addr recovered +:+
                  " is not the on-chain owner " +:+ fmt_addr owner +:+ " of app " +:+
                  tapp_app_id (tapp config))))
    else
      let! outcome := trigger_refresh config signing_key wakes in
      record_outcome refresh_ok refresh_fail outcome;;;
      Ret (Ok (match outcome with
               | Ok _ => (200, "refresh complete")
               | Err e => (500, "refresh failed: " +:+ e)
               end)).

End Server.

(** * Theorems *)

(** The refusals that decide whether the caller may have a key at all. *)
Definition unauthorized (e : KmsError) : bool :=
  match e with
  | InvalidTimestamp _ | InvalidSignature _ | AppNotFound _ | NotAttested _ => true
  | _ => false
  end.

Section AppKey.
Context {T : ThresholdScheme} {X : Externals T}.
Context (config : Config) (signing_key : NodeKey).

Lemma authorize_frame app_id ts sig :
  guar (fun w w' => core w' = core w) (app_key_authorize config app_id ts sig).
Proof.
  unfold app_key_authorize. repeat guar_step; try done.
  - eapply guar_mono; [|apply get_signer_addresses_for_frame]. by intros ? ? [? _].
  - eapply guar_mono; [|apply require_verified_frame]. by intros ? ? [? _].
Qed.

Section Issued.
Context (cfg : VerifierConfig) (P : string -> list Address -> Prop) (V : Key -> Prop) (C : Z -> Prop).
Context (Sh : ShardState -> Prop) (GR : EncryptedPartial -> Prop) (gpk : bytes).

Definition app_key_sources (c : Call) (a : ans c) : Prop :=
  derive_sources config P V GR c a /\ clock_reads C c a.

Abbreviation inv := (derive_inv config cfg P V Sh gpk).

(** The holder of [signature] over this timestamp is a registered, attested signer of
    [app_id], and the timestamp was fresh. *)
Definition entitled (app_id : string) (timestamp : Z) (signature : string) : Prop :=
  exists addr t, recover_eip191_address ("GetSecretResource:" +:+ pretty timestamp) signature = Ok addr /\
    C t /\ too_far t timestamp (timestamp_tolerance_secs (server config)) = false /\
    admitted_to P V app_id addr.

Lemma authorize_admitted app_id ts sig :
  safe (admission_inv config cfg P V) (sources_ok config P V C) (app_key_authorize config app_id ts sig)
    (fun r => r = Ok tt -> entitled app_id ts sig).
Proof.
  unfold app_key_authorize. safe_step. intros t (_ & _ & Ht). safe_step. simpl in Ht.
  destruct (too_far _ _ _) eqn:Ef; [by safe_step|].
  do 2 safe_step.
  destruct (recover_eip191_address _ _) as [addr|e] eqn:Ea; [|done]. safe_step.
  eapply safe_mono; [apply signers_safe|].
  intros [l|e] Hl; [|done]. case_decide; [by safe_step|]. case_decide as Hin; [|by safe_step]. safe_step.
  eapply safe_mono; [apply gate_safe|].
  intros [[]|e] Hv; safe_step; cbn [map_err]; [|done]. intros _. exists addr, t.
  unfold admitted_to. eauto 10.
Qed.

Lemma authorize_safe app_id ts sig :
  safe inv app_key_sources (app_key_authorize config app_id ts sig)
    (fun r => r = Ok tt -> entitled app_id ts sig).
Proof.
  eapply safe_equiv; [|eapply (safe_frame _ _ (fun w =>
    (forall s, shard w = Some s -> Sh s) /\ (forall g, group_pubkey w = Some g -> g = gpk)));
    [|eapply safe_ok_mono; [|apply authorize_admitted]]].
  - intros w. unfold derive_inv. naive_solver.
  - eapply guar_mono; [|apply authorize_frame]. by intros s s' [-> ->]%core_fields.
  - intros c a [[(H1 & H2 & _) _] H3]. done.
Qed.

(** What a response of [/app-key] stands for: the key of the request's own (application,
    material), from a quorum of one epoch, encrypted to the key the request names. *)
Definition issued (req : AppKeyRequest) (encrypted_secret : string) (tr : DeriveTrace) : Prop :=
  exists material pk rng ct srvs ps s,
    hex_decode (trim_0x (req_material req)) = Some material /\
    hex_decode (trim_0x (req_pubkey req)) = Some pk /\
    Forall2 (served config signing_key P V Sh GR (dprf_message (req_app_id req) material)
                    (trace_epoch tr)) srvs ps /\
    NoDup srvs /\ threshold (cluster config) <= Z.of_nat (length srvs) /\
    dprf_sigma ps = Ok s /\
    dprf_verify s gpk (dprf_message (req_app_id req) material) = Ok tt /\
    ecies_enc rng pk (sigma_to_app_key s) = Ok ct /\ encrypted_secret = hex_encode ct.

Lemma issue_safe req :
  safe inv app_key_sources (app_key_issue config signing_key req)
    (fun r => forall enc tr, r = Ok (enc, tr) -> issued req enc tr).
Proof.
  unfold app_key_issue. do 2 safe_seq. destruct (hex_decode _) as [material|] eqn:Em; cbn [ok_or]; [|done].
  safe_seq. eapply safe_mono.
  { eapply safe_ok_mono; [|apply (collect_and_dprf_safe config signing_key cfg P V Sh GR gpk)].
    by intros c a [? _]. }
  intros [[key tr]|e] Hq; [|done]. destruct (Hq _ _ eq_refl) as (srvs & ps & s & HF & Hn & _ & Ht & Hs & Hv & ->).
  do 2 safe_seq. destruct (hex_decode (trim_0x (req_pubkey req))) as [pk|] eqn:Epk; cbn [ok_or]; [|done].
  unfold ecies_encrypt. repeat safe_seq.
  match goal with |- context [ecies_enc ?rng pk _] => destruct (ecies_enc rng pk _) as [ct|e] eqn:Ee end;
    cbn [map_err]; [|done]. safe_seq.
  intros enc tr' [= <- <-]. unfold issued. eauto 20.
Qed.

Lemma app_key_safe req :
  safe inv app_key_sources (app_key_inner config signing_key req)
    (fun r => forall enc tr, r = Ok (enc, tr) ->
       entitled (req_app_id req) (req_timestamp req) (req_signature req) /\ issued req enc tr).
Proof.
  unfold app_key_inner. safe_seq. eapply safe_mono; [apply authorize_safe|].
  intros [[]|e] Ha; [|done]. eapply safe_mono; [apply issue_safe|]. naive_solver.
Qed.

End Issued.

(** The second half never refuses for an authorisation reason. *)
Lemma collect_errors app material :
  safe (fun _ => True) (fun _ _ => True) (collect_and_dprf config signing_key app material)
    (fun r => forall e, r = Err e -> unauthorized e = false).
Proof.
  unfold collect_and_dprf. repeat safe_seq.
  destruct (shard _) as [own|]; cbn [ok_or]; [|naive_solver]. repeat safe_seq.
  destruct (share_from_bytes _) as [share|]; cbn [map_err]; [|naive_solver]. repeat safe_seq.
  destruct (dprf_partial share _) as [p|]; cbn [map_err]; [|naive_solver]. repeat safe_seq.
  destruct (sign_request _ _ _) as [sig|]; cbn [map_err]; [|naive_solver]. repeat safe_seq.
  eapply safe_mono; [by apply safe_any|]. intros c _. destruct (ready c) as [ep|].
  - repeat safe_seq. unfold finish. destruct (dprf_sigma _) as [sg|]; simpl; [|naive_solver].
    destruct (group_pubkey _) as [g|]; simpl; [|naive_solver].
    destruct (dprf_verify _ _ _) as [[]|]; simpl; naive_solver.
  - unfold inc. repeat safe_seq; [done|]. unfold short_error. naive_solver.
Qed.

Lemma issue_errors req :
  safe (fun _ => True) (fun _ _ => True) (app_key_issue config signing_key req)
    (fun r => forall e, r = Err e -> unauthorized e = false).
Proof.
  unfold app_key_issue. do 2 safe_seq. destruct (hex_decode _); cbn [ok_or]; [|naive_solver].
  safe_seq. eapply safe_mono; [apply collect_errors|]. intros [[key tr]|e] He; [|naive_solver].
  do 2 safe_seq. destruct (hex_decode _); cbn [ok_or]; [|naive_solver].
  unfold ecies_encrypt. repeat safe_seq. destruct (map_err _ (map_err _ _)) eqn:E; [safe_seq; naive_solver|].
  intros e' [= <-]. by destruct (ecies_enc _ _ _); simplify_eq/=.
Qed.

Lemma app_key_refused o req x e :
  unauthorized e = true ->
  ((run o (app_key_inner config signing_key req) x).1 = Err e <->
   (run o (app_key_authorize config (req_app_id req) (req_timestamp req) (req_signature req)) x).1 = Err e).
Proof.
  intros He. unfold app_key_inner, bind_ok. rewrite run_bind.
  destruct (run o (app_key_authorize _ _ _ _) x) as [[[]|e'] y]; simpl; [|naive_solver]. split; [|done].
  intros Hr. destruct (safe_sound _ _ o _ _ y (fun _ _ _ => I) I (issue_errors req)) as [Hs _].
  - apply Forall_forall. by intros [].
  - apply Hs in Hr. congruence.
Qed.

End AppKey.

(** C2: an application key is issued only to a registered, attested signer.  If
    [/app-key] answers with a secret, the request's signature over its timestamp recovers
    to an address that is on a list the registry answered for the requested application
    and that scan vouched for under it, the timestamp was fresh by a reading of the clock,
    and the secret is the key of exactly the requested application and material, derived
    from a threshold of distinct indices of one epoch and verified under the group public
    key, encrypted to the public key the request names. *)
Theorem app_key_only_for_attested_signers {T : ThresholdScheme} {X : Externals T} (o : kms_oracle)
    config signing_key cfg P V C Sh GR gpk req x :
  relies o (fun w w' => derive_inv config cfg P V Sh gpk w -> derive_inv config cfg P V Sh gpk w') ->
  derive_inv config cfg P V Sh gpk (x_st x) ->
  let '(r, y) := run o (app_key_inner config signing_key req) x in
  Forall (ev_ok (app_key_sources config P V C GR)) (x_log y) ->
  forall enc tr, r = Ok (enc, tr) ->
    entitled config P V C (req_app_id req) (req_timestamp req) (req_signature req) /\
    issued config signing_key P V Sh GR gpk req enc tr.
Proof.
  intros Ho Hi. pose proof (safe_sound _ _ o _ _ x Ho Hi
    (app_key_safe config signing_key cfg P V C Sh GR gpk req)) as H.
  destruct (run _ _ _) as [r y]. intros Hl. by apply H.
Qed.

(** C33: the authorisation covers only the application, the timestamp and the signature.
    In the same run of the outside world, a request is refused as unauthorised exactly
    when the request that swaps in any other public key and any other material is: whoever
    sees a signed request can have the keys of that application encrypted to themselves
    while the timestamp is fresh. *)
Theorem app_key_signature_binds_no_recipient {T : ThresholdScheme} {X : Externals T} (o : kms_oracle)
    config signing_key req pubkey' material' x :
  let req' := mkAppKeyRequest (req_app_id req) (req_timestamp req) pubkey' (req_signature req) material' in
  forall e, unauthorized e = true ->
    ((run o (app_key_inner config signing_key req) x).1 = Err e <->
     (run o (app_key_inner config signing_key req') x).1 = Err e).
Proof. intros req' e He. by rewrite !app_key_refused. Qed.

(** * One key per request *)

Section Agree.
Context {T : ThresholdScheme} {X : Externals T}.

(** A response is the verified key of its request, encrypted. *)
Lemma issue_verified config signing_key gpk req :
  safe (group_key_is gpk) (fun _ _ => True) (app_key_inner config signing_key req)
    (fun r => forall enc tr, r = Ok (enc, tr) ->
       exists material pk rng ct s, hex_decode (trim_0x (req_material req)) = Some material /\
         hex_decode (trim_0x (req_pubkey req)) = Some pk /\
         dprf_verify s gpk (dprf_message (req_app_id req) material) = Ok tt /\
         ecies_enc rng pk (sigma_to_app_key s) = Ok ct /\ enc = hex_encode ct).
Proof.
  unfold app_key_inner. safe_seq. eapply safe_mono; [apply safe_guar with (Q := fun _ => True); [|done]|].
  { assert (forall A (p : kms A), guar (fun w w' => core w' = core w) p ->
      guar (fun w w' => group_key_is gpk w -> group_key_is gpk w') p) as Hg.
    { intros A p Hp. eapply guar_mono; [|exact Hp]. intros w w' [_ Hc]%core_fields.
      unfold group_key_is. by rewrite Hc. }
    apply Hg, authorize_frame. }
  intros [[]|e] _; [|done]. unfold app_key_issue. do 2 safe_seq.
  destruct (hex_decode _) as [material|] eqn:Em; cbn [ok_or]; [|done].
  safe_seq. eapply safe_mono; [apply collect_and_dprf_verified|].
  intros [[key tr]|e] Hq; [|done]. destruct (Hq _ _ eq_refl) as (s & Hv & ->).
  do 2 safe_seq. destruct (hex_decode (trim_0x (req_pubkey req))) as [pk|] eqn:Epk; cbn [ok_or]; [|done].
  unfold ecies_encrypt. repeat safe_seq.
  match goal with |- context [ecies_enc ?rng pk _] => destruct (ecies_enc rng pk _) as [ct|e] eqn:Ee end;
    cbn [map_err]; [|done]. safe_seq. intros enc tr' [= <- <-]. eauto 20.
Qed.

End Agree.

(** C4: two clients that ask any two nodes of the cluster for the same application and
    material, each with a key pair of its own, and decrypt what they get, hold the same
    32-byte key, whatever committee, epoch, peers and failures each coordinator had. *)
Theorem clients_obtain_the_same_key {T : ThresholdScheme} {X : Externals T} {t : nat}
    {L : ThresholdLaws T t} (o o' : kms_oracle) config config' node node' gpk req req' sk sk' pk pk' x x' :
  hex_roundtrip X -> ecies_roundtrip X ->
  relies o (fun w w' => group_key_is gpk w -> group_key_is gpk w') -> group_key_is gpk (x_st x) ->
  relies o' (fun w w' => group_key_is gpk w -> group_key_is gpk w') -> group_key_is gpk (x_st x') ->
  req_app_id req = req_app_id req' ->
  hex_decode (trim_0x (req_material req)) = hex_decode (trim_0x (req_material req')) ->
  k256_pubkey sk = Ok pk -> req_pubkey req = hex_encode pk ->
  k256_pubkey sk' = Ok pk' -> req_pubkey req' = hex_encode pk' ->
  forall enc tr enc' tr',
  (run o (app_key_inner config node req) x).1 = Ok (enc, tr) ->
  (run o' (app_key_inner config' node' req') x').1 = Ok (enc', tr') ->
  exists ct ct' key, hex_decode enc = Some ct /\ hex_decode enc' = Some ct' /\
    ecies_decrypt sk ct = Ok key /\ ecies_decrypt sk' ct' = Ok key.
Proof.
  intros Hhex Hec Ho Hi Ho' Hi' Happ Hmat Hsk Hpk Hsk' Hpk' enc tr enc' tr' Hr Hr'.
  assert (forall b, hex_decode (trim_0x (hex_encode b)) = Some b) as Hd.
  { intros b. destruct (Hhex b) as [Hb Hl]. by rewrite (lower_hex_trim _ Hl). }
  assert (forall o config node req sk pk x enc tr,
    relies o (fun w w' => group_key_is gpk w -> group_key_is gpk w') -> group_key_is gpk (x_st x) ->
    k256_pubkey sk = Ok pk -> req_pubkey req = hex_encode pk ->
    (run o (app_key_inner config node req) x).1 = Ok (enc, tr) ->
    exists material s ct, hex_decode (trim_0x (req_material req)) = Some material /\
      dprf_verify s gpk (dprf_message (req_app_id req) material) = Ok tt /\
      hex_decode enc = Some ct /\ ecies_decrypt sk ct = Ok (sigma_to_app_key s)) as Hone.
  { clear -Hhex Hec Hd. intros o config node req sk pk x enc tr Ho Hi Hsk Hpk Hr.
    destruct (safe_sound _ _ o _ _ x Ho Hi (issue_verified config node gpk req)) as [Hs _].
    { apply Forall_forall. by intros []. }
    destruct (Hs _ _ Hr) as (material & pk0 & rng & ct & s & Hm & Hpk0 & Hv & He & ->).
    rewrite Hpk, Hd in Hpk0. injection Hpk0 as <-. exists material, s, ct.
    unfold ecies_decrypt. rewrite (Hec rng sk pk _ ct Hsk He). by destruct (Hhex ct). }
  destruct (Hone o config node req sk pk x enc tr) as (mat & s & ct & Hm & Hv & Hc & Hdec); [done..|].
  destruct (Hone o' config' node' req' sk' pk' x' enc' tr') as (mat' & s' & ct' & Hm' & Hv' & Hc' & Hdec'); [done..|].
  assert (mat' = mat) as -> by congruence. rewrite <-Happ in Hv'.
  assert (s = s') as <- by (by eapply dprf_verify_unique).
  exists ct, ct', (sigma_to_app_key s). done.
Qed.

(** * [/refresh] is the owner's *)

Section Refresh.
Context {T : ThresholdScheme} {X : Externals T} (config : Config) (a : Address).

(** The registry contract never answers that [a] owns the cluster's application. *)
Definition not_owner (c : Call) : ans c -> Prop :=
  match c with
  | Eth_get_app_owner url contract app => fun r =>
      url = rpc_url (chain config) -> address_parse (contract_address (chain config)) = Some contract ->
      app = tapp_app_id (tapp config) -> r <> Ok a
  | _ => fun _ => True
  end.

(** Neither the request that starts a reshare nor a message of a session. *)
Definition no_reshare_call (c : Call) : Prop :=
  match c with Grpc_start_reshare _ _ _ _ | Grpc_dkg_round _ _ _ _ => False | _ => True end.

Lemma owner_lookup :
  emits no_reshare_call not_owner
    (get_app_owner (rpc_url (chain config)) (contract_address (chain config)) (tapp_app_id (tapp config)))
    (fun r => r <> Ok a).
Proof.
  unfold get_app_owner, bind_ok. apply emits_bind.
  eapply emits_mono with (Q := fun _ => True); [unfold provider_for; repeat emits_step|done|].
  intros [[]|e] _; [|done]. unfold parse_contract. destruct (address_parse _) as [c|] eqn:E; [|done].
  split; [done|]. intros [own|m] Hown; [|done]. simpl in *. intros [= ->]. by apply Hown.
Qed.

Lemma refresh_gated {G : Gennaro T} node wakes req :
  (forall b, recover_eip191_address ("Refresh:" +:+ pretty (refresh_timestamp req))
               (refresh_signature req) = Ok b -> b = a) ->
  emits no_reshare_call not_owner (handle_refresh config node wakes req) (fun r => is_ok r = false).
Proof.
  intros Ha. unfold handle_refresh. apply emits_bind. split; [done|]. intros t _. cbn [emits].
  destruct (too_far _ _ _); [done|]. apply emits_bind.
  destruct (recover_eip191_address _ _) as [b|e]; [|done]. rewrite (Ha b eq_refl). apply emits_bind.
  eapply emits_mono; [apply owner_lookup|done|]. intros [own|e] Hown; [|done].
  rewrite bool_decide_false by congruence. done.
Qed.

End Refresh.

(** C25: only the owner of the application can force a reshare over HTTP.  If the registry
    never answers that the address the request's signature recovers to owns the cluster's
    application (in particular when the signature recovers to nothing), [/refresh] answers
    with an error and sends no request to start a reshare and no session message. *)
Theorem refresh_needs_the_owner {T : ThresholdScheme} {X : Externals T} {G : Gennaro T}
    (o : kms_oracle) config node wakes req a x :
  (forall b, recover_eip191_address ("Refresh:" +:+ pretty (refresh_timestamp req))
               (refresh_signature req) = Ok b -> b = a) ->
  (forall n c, not_owner config a c (o_ans o n c)) ->
  let '(r, y) := run o (handle_refresh config node wakes req) x in
  exists evs, x_log y = x_log x ++ evs /\
    Forall (fun '(Ev c _) => no_reshare_call c) evs /\ is_ok r = false.
Proof.
  intros Ha Ho. destruct (run_log_ok (not_owner config a) o (handle_refresh config node wakes req) x Ho)
    as (evs & Hlog & Hok).
  pose proof (emits_sound _ _ o _ _ x evs (refresh_gated config a node wakes req Ha)) as H.
  destruct (run o _ x) as [r y]. simpl in *. exists evs. naive_solver.
Qed.

(** ** A request to the two-node cluster *)

Definition toy_wallet_sig (sk : bytes) (m : string) : string :=
  match sign_bytes sk (eip191_msg m) with Ok s => hex_encode s | Err _ => EmptyString end.

Definition toy_request : AppKeyRequest :=
  mkAppKeyRequest "kms" 1000 (hex_encode (Toy.pubkey Toy.sk2)) (toy_wallet_sig Toy.sk2 "GetSecretResource:1000") "".

Definition toy_app_key : kms (result (string * DeriveTrace) KmsError) :=
  app_key_inner Toy.config Toy.node1 toy_request.

Lemma toy_app_key_ok : is_ok (run toy_net toy_app_key (start Toy.world 5)).1 = true.
Proof. vm_compute. reflexivity. Qed.

Lemma toy_app_key_sources n c :
  app_key_sources Toy.config toy_lists toy_vouched_for toy_clock toy_replies c (o_ans toy_net n c).
Proof. split; [apply toy_derive_sources|]. destruct c; try exact I. reflexivity. Qed.

Lemma app_key_only_for_attested_signers_witness :
  exists enc tr, (run toy_net toy_app_key (start Toy.world 5)).1 = Ok (enc, tr) /\
    entitled Toy.config toy_lists toy_vouched_for toy_clock "kms" 1000 (req_signature toy_request).
Proof.
  pose proof (app_key_only_for_attested_signers toy_net Toy.config Toy.node1 Toy.scan toy_lists toy_vouched_for
    toy_clock toy_shares toy_replies Toy.group toy_request (start Toy.world 5) (Toy.alone_relies _ _)
    toy_derive_inv) as H.
  pose proof (start_log_ok (app_key_sources Toy.config toy_lists toy_vouched_for toy_clock toy_replies) toy_net
    toy_app_key Toy.world 5 toy_app_key_sources) as Hl.
  pose proof toy_app_key_ok as Hok. change (app_key_inner _ _ _) with toy_app_key in H.
  destruct (run toy_net toy_app_key _) as [[[enc tr]|e] y]; [|discriminate Hok].
  exists enc, tr. split; [reflexivity|]. exact (proj1 (H Hl enc tr eq_refl)).
Defined.

(** Node 1's key instead of node 2's, other material, the same signature: still not
    refused as unattested. *)
Lemma app_key_signature_binds_no_recipient_witness :
  (run toy_net (app_key_inner Toy.config Toy.node1
     (mkAppKeyRequest "kms" 1000 (hex_encode (Toy.pubkey Toy.sk1)) (req_signature toy_request) "00"))
     (start Toy.world 5)).1 <> Err (NotAttested "no").
Proof.
  intros H. apply (app_key_signature_binds_no_recipient toy_net Toy.config Toy.node1 toy_request
    (hex_encode (Toy.pubkey Toy.sk1)) "00" (start Toy.world 5) (NotAttested "no") eq_refl) in H.
  pose proof toy_app_key_ok as Hok. unfold toy_app_key in Hok. rewrite H in Hok. discriminate Hok.
Defined.

Lemma clients_obtain_the_same_key_witness :
  exists enc tr enc' tr' ct ct' key,
    (run toy_net toy_app_key (start Toy.world 5)).1 = Ok (enc, tr) /\ hex_decode enc = Some ct /\
    (run toy_net toy_app_key (start Toy.world 50)).1 = Ok (enc', tr') /\ hex_decode enc' = Some ct' /\
    ecies_decrypt Toy.sk2 ct = Ok key /\ ecies_decrypt Toy.sk2 ct' = Ok key.
Proof.
  assert (group_key_is Toy.group Toy.world) as Hg by (intros g; cbn [group_pubkey Toy.world]; congruence).
  pose proof (clients_obtain_the_same_key (L := Toy.laws 1) toy_net toy_net Toy.config Toy.config Toy.node1 Toy.node1
    Toy.group toy_request toy_request Toy.sk2 Toy.sk2 (Toy.pubkey Toy.sk2) (Toy.pubkey Toy.sk2)
    (start Toy.world 5) (start Toy.world 50) Toy.hex_ok Toy.ecies_ok (Toy.alone_relies _ _) Hg
    (Toy.alone_relies _ _) Hg eq_refl eq_refl eq_refl eq_refl eq_refl eq_refl) as H.
  change (app_key_inner _ _ _) with toy_app_key in H. pose proof toy_app_key_ok as Hok.
  assert (is_ok (run toy_net toy_app_key (start Toy.world 50)).1 = true) as Hok' by (vm_compute; reflexivity).
  destruct (run toy_net toy_app_key (start Toy.world 5)) as [[[enc tr]|e] y]; [|discriminate Hok].
  destruct (run toy_net toy_app_key (start Toy.world 50)) as [[[enc' tr']|e] y']; [|discriminate Hok'].
  destruct (H enc tr enc' tr' eq_refl eq_refl) as (ct & ct' & key & Hc & Hc' & Hd & Hd').
  exists enc, tr, enc', tr', ct, ct', key. exact (conj eq_refl (conj Hc (conj eq_refl (conj Hc' (conj Hd Hd'))))).
Defined.

(** The registry names somebody else as the owner. *)
Definition other_owner (c : Call) : ans c :=
  match c with Eth_get_app_owner _ _ _ => Ok [] | c => Toy.no_answer c end.

Lemma other_owner_ok n c : not_owner Toy.config (Toy.addr_of Toy.sk2) c (o_ans (Toy.alone other_owner) n c).
Proof. destruct c; try exact I. intros _ _ _. discriminate. Qed.

Lemma toy_refresh_signer b :
  recover_eip191_address ("Refresh:" +:+ pretty 1000) (toy_wallet_sig Toy.sk2 "Refresh:1000") = Ok b ->
  b = Toy.addr_of Toy.sk2.
Proof. intros Hb. vm_compute in Hb. injection Hb as <-. vm_compute. reflexivity. Qed.

Lemma refresh_needs_the_owner_witness :
  is_ok (run (Toy.alone other_owner) (handle_refresh (G := ToyDkg.gennaro Byte.x09 [Byte.x08]) Toy.config Toy.node1 1
    (mkRefreshRequest 1000 (toy_wallet_sig Toy.sk2 "Refresh:1000"))) (start Toy.world 5)).1 = false.
Proof.
  pose proof (refresh_needs_the_owner (G := ToyDkg.gennaro Byte.x09 [Byte.x08]) (Toy.alone other_owner) Toy.config
    Toy.node1 1 (mkRefreshRequest 1000 (toy_wallet_sig Toy.sk2 "Refresh:1000")) (Toy.addr_of Toy.sk2)
    (start Toy.world 5) toy_refresh_signer
    other_owner_ok) as H.
  destruct (run _ _ _) as [r y]. destruct H as (evs & _ & _ & H). exact H.
Defined.
