(* ===== verification/Client.v ===== *)
(** The example client ([src/examples/dprf_client.rs]) and its conversation with a node:
    the request it signs and posts, what it makes of the reply, and the end-to-end theorem
    that composes it with [POST /app-key]. *)
From S2P Require Import Base Threshold Prelude Prog State Externals Models Crypto Seal Metrics Chain Verifier Auth Derive Server.
From Stdlib Require Import Ascii ZArith Lia.
From stdpp Require Import base list gmap strings pretty.
Local Open Scope Z_scope.

Inductive ClientError : Type :=
| Usage
| PrivkeyHex
| PrivkeyLength
| PrivkeyInvalid (m : string)
| SignFailed (m : string)
| SendFailed (m : string)
| HttpStatus (status : Z) (body : string)
| BadJson (m : string)
| NoSecret (body : string)
| CiphertextHex
| DecryptFailed (m : string).

Section Client.
Context {T : ThresholdScheme} {X : Externals T}.
(** [serde_json::from_str] and the field [encrypted_secret] as a string. *)
Context (secret_of_json : string -> result (option string) string).

(** [status.is_success()]. *)
Definition is_success (status : Z) : bool := (200 <=? status) && (status <? 300).

(** The signed request. *)
Definition client_request (app_id material_hex : string) (sk pk : bytes) (ts : Z) :
    result AppKeyRequest ClientError :=
  let message := "GetSecretResource:" +:+ pretty ts in
  let? rv := map_err SignFailed (k256_sign sk (keccak256 (eip191_msg message))) in
  Ok (mkAppKeyRequest app_id ts (hex_encode pk) (hex_encode (rv.1 ++ [byte_of_Z rv.2])) material_hex).

(** What is printed on a reply. *)
Definition client_open (sk : bytes) (reply : HttpReply) : result string ClientError :=
  match reply with
  | HttpError m => Err (SendFailed m)
  | HttpResponse status text =>
      if negb (is_success status) then Err (HttpStatus status text)
      else
        let? v := map_err BadJson (secret_of_json text) in
        let? ct_hex := ok_or v (NoSecret text) in
        let? ct := ok_or (hex_decode (trim_0x ct_hex)) CiphertextHex in
        let? app_key := map_err DecryptFailed (ecies_dec sk ct) in
        Ok (hex_encode app_key)
  end.

(** [main]: the line printed, or the error. *)
Definition client_main : kms (result string ClientError) :=
  let! args := ask Cli_args in
  match args : list string with
  | [_; node_url; app_id; material; privkey] =>
      let url := trim_end_slash node_url +:+ "/app-key" in
      let material_hex := trim_0x material in
      let!? priv := Ret (ok_or (hex_decode (trim_0x privkey)) PrivkeyHex) in
      let!? sk := Ret (ok_or (to_array 32 priv) PrivkeyLength) in
      let!? pk := Ret (map_err PrivkeyInvalid (k256_pubkey sk)) in
      let! ts := ask Utc_now in
      let!? body := Ret (client_request app_id material_hex sk pk ts) in
      let! reply := ask (Http_post_app_key url body) in
      Ret (client_open sk reply)
  | _ => Ret (Err Usage)
  end.

(** What the node's HTTP layer sends for the outcome of the handler; [json] is the
    serialisation of the response body. *)
Definition http_reply (json : string -> string) (r : result string KmsError) : HttpReply :=
  match r with
  | Ok enc => HttpResponse 200 (json enc)
  | Err e => HttpResponse (into_response e).1 (into_response e).2
  end.

End Client.

(** * Theorems *)

Section EndToEnd.
Context {T : ThresholdScheme} {X : Externals T}.

(** A wallet signature recovers to its signer. *)
Lemma recover_own_eip191 sk pk m rs v :
  hex_roundtrip X -> ecdsa_recover X -> k256_pubkey sk = Ok pk ->
  k256_sign sk (keccak256 (eip191_msg m)) = Ok (rs, v) -> v < 2 ->
  recover_eip191_address m (hex_encode (rs ++ [byte_of_Z v])) = Ok (eth_address_from_pubkey pk).
Proof.
  intros Hhex Hec Hpk Hs Hv. destruct (Hec sk pk _ rs v Hpk Hs) as (Hlen & Hr & Hp & Hrec).
  unfold recover_eip191_address. destruct (Hhex (rs ++ [byte_of_Z v])) as [Hd Hl].
  rewrite (lower_hex_trim _ Hl), Hd. cbn [ok_or result_bind]. rewrite length_app, Hlen. cbn [length Nat.add Nat.eqb negb].
  rewrite take_app_length' by done. rewrite Hp. cbn [map_err result_bind].
  rewrite lookup_app_r, Hlen by lia. cbn [Nat.sub lookup default]. simpl.
  rewrite Z_of_byte_small by lia.
  assert (v = 0 \/ v = 1) as [-> | ->] by lia; simpl; by rewrite Hrec.
Qed.

(** An honest caller passes when the clock finds its timestamp fresh, the list is warm and
    the gate is open to it. *)
Lemma authorize_honest config app ts sig a e s t log :
  recover_eip191_address ("GetSecretResource:" +:+ pretty ts) sig = Ok a ->
  node_list_cache s !! cache_key (rpc_url (chain config)) (contract_address (chain config)) app = Some e ->
  a ∈ addrs e ->
  wp eq (app_key_authorize config app ts sig)
    (fun r _ t' log' => forall evs, log' = log ++ evs ->
       (forall z, Ev Utc_now z ∈ evs -> too_far z ts (timestamp_tolerance_secs (server config)) = false) ->
       elapsed t' (fetched_at e) < NODE_LIST_TTL -> gate_open app a s t' -> r = Ok tt) s t log.
Proof.
  intros Hrec He Ha. unfold app_key_authorize. do 2 wp_step.
  match goal with |- context [too_far ?z _ _] => destruct (too_far z _ _) eqn:Ef end.
  { wp_step. intros evs Hl Hz. apply app_inv_head in Hl as <-. rewrite Hz in Ef; [done|set_solver]. }
  wp_step. rewrite Hrec. apply wp_ret. intros ? t2 <- Ht2. wp_step.
  eapply wp_mono; [|by apply (get_signer_addresses_for_warm _ _ _ e)]. intros r s1 t3 log3 [Ht3 Hw].
  assert (elapsed t3 (fetched_at e) < NODE_LIST_TTL \/ NODE_LIST_TTL <= elapsed t3 (fetched_at e))
    as [Hlt|Hge] by lia.
  2: { destruct r; (eapply wp_mono; [|apply wp_progress; apply _]);
       intros ? ? ? ? [? _] ? ? ? ?; unfold elapsed in *; lia. }
  destruct (Hw Hlt) as (-> & -> & ->).
  rewrite decide_False by (by intros Hn; rewrite Hn in Ha; apply not_elem_of_nil in Ha).
  rewrite decide_True by done. wp_step.
  eapply wp_mono; [|apply wp_conj; [apply gate_open_spec|apply wp_progress; apply _]].
  intros r s2 t4 log4 [Hgate [Ht4 _]]. wp_step. intros evs _ _ _ Hopen.
  destruct Hgate as [-> _]; [eapply gate_open_anti; [|exact Hopen]; lia|done].
Qed.

(** Once authorised, the reply is the derived key encrypted to the caller. *)
Lemma issue_derived o config node req sk pk material key tr z :
  ecies_total X -> hex_decode (trim_0x (req_material req)) = Some material ->
  k256_pubkey sk = Ok pk -> hex_decode (trim_0x (req_pubkey req)) = Some pk ->
  (run o (collect_and_dprf config node (req_app_id req) material) z).1 = Ok (key, tr) ->
  exists rng ct, ecies_enc rng pk key = Ok ct /\
    (run o (app_key_issue config node req) z).1 = Ok (hex_encode ct, tr).
Proof.
  intros Htot Hm Hpk Hreq Hd. unfold app_key_issue. rewrite Hm. unfold bind_ok. rewrite run_bind.
  cbn [ok_or run]. rewrite run_bind.
  destruct (run o (collect_and_dprf _ _ _ _) z) as [r z']. cbn [fst] in Hd. subst r.
  rewrite Hreq. cbn [ok_or run bind]. rewrite run_bind. unfold ecies_encrypt. rewrite run_bind. cbn [ask run].
  match goal with |- context [ecies_enc ?rng pk key] => destruct (Htot rng sk pk key Hpk) as [ct Hct];
    exists rng, ct; rewrite Hct end. done.
Qed.

End EndToEnd.

Lemma trim_0x_idem s : trim_0x (trim_0x s) = trim_0x s.
Proof.
  assert (forall n s, (String.length s <= n)%nat -> trim_0x (trim_0x s) = trim_0x s) as H.
  { clear. intros n. induction n as [|n IH]; intros s Hn; [destruct s; [done|simpl in Hn; lia]|].
    destruct s as [|a [|b s]]; [done|by destruct a as [[] [] [] [] [] [] [] []]|].
    destruct (decide (a = "0"%char)) as [->|Ha]; [destruct (decide (b = "x"%char)) as [->|Hb]|].
    - simpl. apply IH. simpl in Hn. lia.
    - destruct b as [[] [] [] [] [] [] [] []]; done.
    - destruct a as [[] [] [] [] [] [] [] []]; done. }
  by eapply H.
Qed.

(** Every request of the client reaches the handler of the node in state [x]. *)
Definition talks_to {T : ThresholdScheme} {X : Externals T} (json : string -> string) (oc os : kms_oracle)
    (config : Config) (node : NodeKey) (x : exec World Call ans) : Prop :=
  forall n url body, o_ans oc n (Http_post_app_key url body) =
                     http_reply json (run os (handle_app_key config node body) x).1.

(** C10: the honest client of a ready node gets the application's key.  The client's request,
    signed with a key whose address is on the warm list of the application and to which the
    gate is open, is accepted by the node when its clock is within the tolerance of the
    client's; and if the node's committee derives a key for the requested application and
    material, the line the client prints is that key. *)
Theorem honest_client_obtains_the_key {T : ThresholdScheme} {X : Externals T} (oc os : kms_oracle)
    json secret_of_json config node prog node_url app mat_arg key_arg material sk pk rs v (ts : Z) e x xc :
  hex_roundtrip X -> ecdsa_recover X -> ecies_roundtrip X -> ecies_total X ->
  (forall enc, secret_of_json (json enc) = Ok (Some enc)) ->
  quiet os -> talks_to json oc os config node x ->
  (forall n, o_ans oc n Cli_args = [prog; node_url; app; mat_arg; key_arg]) ->
  (forall n, o_ans oc n Utc_now = ts) ->
  hex_decode (trim_0x key_arg) = Some sk -> length sk = 32%nat -> k256_pubkey sk = Ok pk ->
  k256_sign sk (keccak256 (eip191_msg ("GetSecretResource:" +:+ pretty ts))) = Ok (rs, v) -> v < 2 ->
  hex_decode (trim_0x mat_arg) = Some material ->
  (forall n, too_far (o_ans os n Utc_now) ts (timestamp_tolerance_secs (server config)) = false) ->
  node_list_cache (x_st x) !! cache_key (rpc_url (chain config)) (contract_address (chain config)) app = Some e ->
  eth_address_from_pubkey pk ∈ addrs e ->
  let '(auth, z) := run os (app_key_authorize config app ts (hex_encode (rs ++ [byte_of_Z v]))) x in
  elapsed (x_now z) (fetched_at e) < NODE_LIST_TTL ->
  gate_open app (eth_address_from_pubkey pk) (x_st x) (x_now z) ->
  auth = Ok tt /\
  forall key tr, (run os (collect_and_dprf config node app material) z).1 = Ok (key, tr) ->
    (run oc (client_main secret_of_json) xc).1 = Ok (hex_encode key).
Proof.
  intros Hhex Hec Hcr Htot Hjson Hq Htalk Hargs Hts Hsk Hlen Hpk Hs Hv Hmat Hclock He Ha.
  set (sig := hex_encode (rs ++ [byte_of_Z v])).
  pose proof (recover_own_eip191 sk pk _ rs v Hhex Hec Hpk Hs Hv) as Hrec. fold sig in Hrec.
  pose proof (run_quiet os _ _ x Hq (authorize_honest config app ts sig _ e _ (x_now x) (x_log x) Hrec He Ha)) as H.
  destruct (run_log_ok (clock_reads (fun z => too_far z ts (timestamp_tolerance_secs (server config)) = false))
    os (app_key_authorize config app ts sig) x) as (evs & Hlog & Hevs).
  { intros n []; simpl; auto. }
  destruct (run os (app_key_authorize config app ts sig) x) as [auth z] eqn:Eauth. intros Hlt Hopen.
  cbn [fst snd] in H. assert (auth = Ok tt) as ->.
  { apply (H evs Hlog); [|done..]. intros c Hc. exact (proj1 (Forall_forall _ _) Hevs _ Hc). }
  split; [done|]. intros key tr Hd.
  set (req := mkAppKeyRequest app ts (hex_encode pk) sig (trim_0x mat_arg)).
  destruct (Hhex pk) as [Hpd Hpl]. destruct (issue_derived os config node req sk pk material key tr z) as (rng & ct & Hct & Hi);
    [done|simpl; by rewrite trim_0x_idem|done|simpl; by rewrite (lower_hex_trim _ Hpl)|done|].
  assert ((run os (handle_app_key config node req) x).1 = Ok (hex_encode ct)) as Hh.
  { unfold handle_app_key, app_key_inner, bind_ok. rewrite !run_bind. cbn [req_app_id req_timestamp req_signature req].
    rewrite Eauth. destruct (run os (app_key_issue config node req) z) as [r z']. cbn [fst] in Hi. by subst r. }
  unfold client_main. rewrite run_bind. cbn [ask run]. rewrite Hargs. rewrite Hsk. cbn [ok_or bind_ok bind run].
  unfold to_array. rewrite Hlen. cbn [Nat.eqb ok_or bind_ok bind run]. rewrite Hpk. cbn [map_err bind_ok bind run ask].
  rewrite Hts. unfold client_request. rewrite Hs. cbn [map_err result_bind bind_ok bind run ask].
  rewrite Htalk. change (mkAppKeyRequest _ _ _ _ _) with req. rewrite Hh.
  unfold http_reply, client_open. simpl. rewrite Hjson. simpl. destruct (Hhex ct) as [Hcd Hcl].
  rewrite (lower_hex_trim _ Hcl), Hcd. simpl. by rewrite (Hcr rng sk pk key ct Hpk Hct).
Qed.

(** ** Node 2's operator asks node 1 *)

Definition toy_args : list string :=
  ["dprf_client"; "http://n1/"; "kms"; EmptyString; "0x" +:+ Toy.hex Toy.sk2].

Definition toy_client : kms_oracle :=
  {| o_ans := fun _ c => match c return ans c with
       | Cli_args => toy_args
       | Http_post_app_key _ body =>
           http_reply id (run toy_net (handle_app_key Toy.config Toy.node1 body) (start Toy.world 5)).1
       | c => Toy.no_answer c
       end;
     o_env := fun _ w => w; o_delay := fun _ => 1%N |}.

Definition toy_client_sig : bytes :=
  match k256_sign Toy.sk2 (keccak256 (eip191_msg ("GetSecretResource:" +:+ pretty 1000))) with
  | Ok rv => rv.1
  | Err _ => []
  end.

Definition toy_authorize : kms (result unit KmsError) :=
  app_key_authorize Toy.config "kms" 1000 (hex_encode (toy_client_sig ++ [byte_of_Z 0])).

Lemma toy_authorize_time : x_now (run toy_net toy_authorize (start Toy.world 5)).2 < 100.
Proof. vm_compute. reflexivity. Qed.

Lemma toy_gate_open t : t < 100 -> gate_open "kms" (Toy.addr_of Toy.sk2) Toy.world t.
Proof.
  intros Ht. exists Toy.attested. split; [reflexivity|].
  unfold fresh_positive, elapsed, POSITIVE_REFRESH, MAX_VERDICT_STALENESS, secs.
  cbn [verified at_ confirmed_at Toy.attested andb]. apply andb_true_iff. rewrite !Z.ltb_lt. lia.
Qed.

Lemma honest_client_obtains_the_key_witness :
  exists key, (run toy_client (client_main (fun s => Ok (Some s))) (start Toy.world 0)).1 = Ok (hex_encode key).
Proof.
  pose proof (honest_client_obtains_the_key toy_client toy_net id (fun s => Ok (Some s)) Toy.config Toy.node1
    "dprf_client" "http://n1/" "kms" EmptyString ("0x" +:+ Toy.hex Toy.sk2) [] Toy.sk2 (Toy.pubkey Toy.sk2)
    toy_client_sig 0 1000 Toy.registered (start Toy.world 5) (start Toy.world 0)
    Toy.hex_ok Toy.ecdsa_ok Toy.ecies_ok Toy.ecies_total_ok (fun _ => eq_refl) (Toy.alone_quiet _)
    (fun _ _ _ => eq_refl) (fun _ => eq_refl) (fun _ => eq_refl)) as H.
  change (app_key_authorize _ _ _ _) with toy_authorize in H.
  pose proof toy_authorize_time as Ht.
  assert (is_ok (run toy_net (collect_and_dprf Toy.config Toy.node1 "kms" [])
    (run toy_net toy_authorize (start Toy.world 5)).2).1 = true) as Hd by (vm_compute; reflexivity).
  destruct (run toy_net toy_authorize (start Toy.world 5)) as [auth z]. cbn [fst snd] in *.
  destruct (run toy_net (collect_and_dprf Toy.config Toy.node1 "kms" []) z) as [[[key tr]|err] y] eqn:E;
    [|discriminate Hd].
  exists key. refine (proj2 (H _ _ _ _ _ _ _ _ _ _ _) key tr eq_refl).
  - vm_compute. reflexivity.
  - reflexivity.
  - reflexivity.
  - vm_compute. reflexivity.
  - lia.
  - reflexivity.
  - intros n. vm_compute. reflexivity.
  - vm_compute. reflexivity.
  - vm_compute. right. left.
  - unfold elapsed, NODE_LIST_TTL, secs. cbn [fetched_at Toy.registered]. lia.
  - exact (toy_gate_open _ Ht).
Defined.
