(* ===== verification/Cluster.v ===== *)
(** Several nodes at once: a coordinator whose partial requests are answered by the
    [GetDprfPartial] handlers of the other members ([src/src/grpc.rs], both ends of the call),
    each in its own state, and the client in front of it.  The theorem composes
    authentication, the response of a member, its verification, the collection and the
    combination into the derivation of the whole cluster. *)
From S2P Require Import Base Threshold Prelude Prog State Externals Models Crypto Chain Verifier Auth Derive.
From Stdlib Require Import ZArith Lia.
From Stdlib.Strings Require Import Byte.
From stdpp Require Import base list gmap strings pretty.
Local Open Scope Z_scope.

(** A member: where it is reached, who it is, the share it holds, and the state and oracle in
    which its handler runs when the request arrives. *)
Record Member := mkMember {
  mb_url : string;
  mb_key : NodeKey;
  mb_pubkey : bytes;
  mb_shard : ShardState;
  mb_config : Config;
  mb_oracle : kms_oracle;
  mb_exec : exec World Call ans
}.

(** How the transport delivers a handler's outcome. *)
Definition reply {A} (r : result A Status) : RpcReply A :=
  match r with Ok a => RpcOk a | Err st => RpcError st end.

Definition refused {A} (r : RpcReply A) : Prop := forall a, r <> RpcOk a.

(** The caller is on a list that is still warm at [t], and the gate is open to it. *)
Definition trusts (config : Config) (w : World) (t : Z) (a : Address) : Prop := exists e,
  node_list_cache w !! cache_key (rpc_url (chain config)) (contract_address (chain config))
    (tapp_app_id (tapp config)) = Some e /\
  a ∈ addrs e /\ elapsed t (fetched_at e) < NODE_LIST_TTL /\
  gate_open (tapp_app_id (tapp config)) a w t.

(** What trust depends on, and the share. *)
Definition steady (w w' : World) : Prop :=
  core w' = core w /\ node_list_cache w' = node_list_cache w /\ verdict_cache w' = verdict_cache w.

Lemma trusts_steady config w w' t t' a :
  steady w w' -> t' <= t -> trusts config w t a -> trusts config w' t' a.
Proof.
  intros (Hc & Hn & Hv) Ht (e & He & Ha & Htl & Hg). exists e. rewrite Hn. split; [done|]. split; [done|].
  split; [unfold elapsed in *; lia|]. apply (gate_open_anti _ _ _ t' t Ht) in Hg. unfold gate_open in *.
  rewrite Hv. assert (the_verifier w' = the_verifier w) as -> by (unfold core in Hc; by simplify_eq). done.
Qed.

#[export] Instance steady_preorder : PreOrder steady.
Proof. split; [done|]. intros x y z (? & ? & ?) (? & ? & ?). unfold steady. repeat split; congruence. Qed.

#[export] Instance outside_verifier_preorder : PreOrder outside_verifier.
Proof. split; [done|]. intros x y z [] []. unfold outside_verifier. split; congruence. Qed.

Section Cluster.
Context {T : ThresholdScheme} {X : Externals T} {thr : nat} {L : ThresholdLaws T thr}.

(** The identity signs everything it is asked to, with an unreduced x-coordinate. *)
Definition signer (k : NodeKey) (pk : bytes) : Prop :=
  k256_pubkey (private_key k) = Ok pk /\ eth_address k = eth_address_from_pubkey pk /\
  forall m, exists rs v, k256_sign (private_key k) (keccak256 m) = Ok (rs, v) /\ v < 2.

(** The share of an epoch's dealing under the node's own index. *)
Definition holds (D : Z -> Dealing) (w : World) (sh : ShardState) : Prop :=
  shard w = Some sh /\ 0 <= shard_index sh /\ valid_id (Z.to_nat (shard_index sh)) /\
  share_from_bytes (shard_bytes sh) =
    Ok (gennaro_share_to_blsful (Z.to_nat (shard_index sh))
          (dealt (D (shard_epoch sh)) (Z.to_nat (shard_index sh)))).

Definition answer (m : Member) (app : string) (material sig : bytes) (ts : Z) :
    result EncryptedPartial Status * exec World Call ans :=
  run (mb_oracle m)
    (handle_get_dprf_partial (mb_config m) (mb_key m) (request_metadata sig ts) app material) (mb_exec m).

(** The member is up: it holds a share, its clock agrees with the request's timestamp, and
    it still trusts the caller when it has answered. *)
Definition serving (D : Z -> Dealing) (caller : Address) (app : string) (material sig : bytes) (ts : Z)
    (m : Member) : Prop :=
  quiet (mb_oracle m) /\
  (forall n, too_far (o_ans (mb_oracle m) n Utc_now) ts (timestamp_tolerance_secs (server (mb_config m))) = false) /\
  signer (mb_key m) (mb_pubkey m) /\ holds D (x_st (mb_exec m)) (mb_shard m) /\
  trusts (mb_config m) (x_st (mb_exec m)) (x_now (answer m app material sig ts).2) caller.

Context (Hhex : hex_roundtrip X) (Hecdsa : ecdsa_recover X) (Hecies : ecies_roundtrip X)
        (Htotal : ecies_total X) (Hpart : partial_roundtrip X).

Lemma run_time {A} (o : kms_oracle) (p : kms A) x : x_now x <= x_now (run o p x).2.
Proof.
  apply (run_anything o p (fun _ _ t' _ => x_now x <= t') x).
  eapply wp_mono; [|apply wp_progress; apply _]. by intros ? ? ? ? [? _].
Qed.

(** ** A member's answer *)

Lemma authenticate_frame metadata method config :
  guar (fun w w' => core w' = core w) (authenticate metadata method config).
Proof.
  unfold authenticate, verify_on_chain. repeat guar_step.
  - eapply guar_mono; [|apply get_signer_addresses_for_frame]. by intros ? ? [? _].
  - eapply guar_mono; [|apply require_verified_frame]. by intros ? ? [? _].
Qed.

Lemma run_core {A} (o : kms_oracle) (p : kms A) x :
  quiet o -> guar (fun w w' => core w' = core w) p -> core (x_st (run o p x).2) = core (x_st x).
Proof.
  intros Hq Hg. pose proof (run_guar _ o p x Hq Hg) as H. clear -H.
  induction H as [|w1 w2 w3 H12 _ IH]; congruence.
Qed.

Lemma holder_signs D w sh msg : holds D w sh ->
  exists share p, share_from_bytes (shard_bytes sh) = Ok share /\ dprf_partial share msg = Ok p /\
    honest_partial D msg (shard_epoch sh) (shard_index sh) p.
Proof.
  intros (_ & Hi & Hv & Hsh). eexists.
  destruct (sign_total (D (shard_epoch sh)) (Z.to_nat (shard_index sh)) msg Hv) as [p Hp].
  exists p. split; [exact Hsh|]. unfold honest_partial, dprf_partial, gennaro_share_to_blsful. by rewrite Hp.
Qed.

Lemma respond_total o key pk ctx caller app material sh share p x :
  signer key pk -> k256_pubkey (private_key caller) = Ok (caller_pubkey ctx) ->
  share_from_bytes (shard_bytes sh) = Ok share -> dprf_partial share (dprf_message app material) = Ok p ->
  exists resp, (run o (respond_partial key ctx app material sh) x).1 = Ok resp.
Proof.
  intros (Hpk & _ & Hsig) Hc Hsh Hp. unfold respond_partial. rewrite Hsh. cbn [map_err bind_ok bind]. rewrite Hp.
  cbn [map_err bind_ok bind]. unfold ecies_encrypt. cbn [bind ask run].
  match goal with |- context [ecies_enc ?r ?k ?m] => destruct (Htotal r _ k m Hc) as [ct ->] end.
  cbn [map_err bind_ok bind]. unfold sign_bytes. rewrite Hpk. cbn [map_err result_bind].
  match goal with |- context [keccak256 ?m] => destruct (Hsig m) as (rs & v & -> & _) end.
  by eexists.
Qed.

(** A member that is up answers its caller with an honest partial the caller can open,
    signed by the member. *)
Lemma member_answers D ck cpk app material sig ts m :
  signer ck cpk -> sign_request (private_key ck) "GetDprfPartial" ts = Ok sig -> in_i64 ts ->
  serving D (eth_address ck) app material sig ts m ->
  let sh := mb_shard m in
  exists resp p, (answer m app material sig ts).1 = Ok resp /\
    honest_partial D (dprf_message app material) (shard_epoch sh) (shard_index sh) p /\
    open_partial (private_key ck) resp = Ok (shard_index sh, partial_to_bytes p, shard_epoch sh) /\
    partial_from_bytes (partial_to_bytes p) = Ok p /\
    recover_signer_address (dprf_partial_signing_msg (eth_address ck) (ep_shard_index resp)
      (ep_epoch resp) (ep_ciphertext resp)) (ep_signature resp) = Ok (eth_address_from_pubkey (mb_pubkey m)).
Proof.
  intros (Hcpk & Hca & Hcs) Hsig Hts (Hq & Hclock & Hm & Hh & (e & He & Ha & Htl & Hg)) sh.
  set (pk := mb_pubkey m) in *.
  destruct (Hcs (request_msg "GetDprfPartial" ts)) as (rs & v & Hs & Hv). rewrite Hca in Ha, Hg.
  destruct (honest_caller_is_authenticated (mb_oracle m) (mb_config m) "GetDprfPartial" (private_key ck) cpk rs v ts e
    (mb_exec m)) as (sig' & Hsig' & Hauth); [done..|]. rewrite Hsig in Hsig'. injection Hsig' as <-.
  pose proof (run_core (mb_oracle m) _ (mb_exec m) Hq (authenticate_frame (request_metadata sig ts) "GetDprfPartial"
    (mb_config m))) as Hcore.
  revert Htl Hg. unfold answer, handle_get_dprf_partial, bind_ok. rewrite !run_bind.
  destruct (run _ (authenticate _ _ _) _) as [r y]. cbn [snd] in Hcore. intros Htl Hg.
  match type of Htl with elapsed (x_now (run ?o ?p ?y).2) _ < _ => pose proof (run_time o p y) as Ht end.
  destruct Hauth as [-> _]; [unfold elapsed in *; lia|by eapply gate_open_anti|]. clear Htl Hg Ht.
  rewrite run_bind. cbn [get run tick with_st x_st]. rewrite run_bind, Hq.
  assert (shard (x_st y) = Some sh) as -> by (unfold sh; destruct Hh as [<- _]; by apply core_fields). cbn [ok_or run].
  destruct (holder_signs D _ sh (dprf_message app material) Hh) as (share & p & Hsh & Hp & Hhp).
  match goal with |- context [run ?o (respond_partial ?k ?c _ _ _) ?z] =>
    destruct (respond_total o k pk c ck app material sh share p z Hm Hcpk Hsh Hp) as [resp Hresp];
    destruct (run o (respond_partial k c app material sh) z) as [r z'] eqn:Er end.
  cbn [fst] in Hresp. subst r. exists resp, p. split; [done|]. split; [done|]. destruct Hm as (Hmpk & _ & Hms).
  refine (response_opens _ _ ck (mkAuthContext cpk _) pk app material sh share p _ resp z' Hecies Hecdsa Hpart Hcpk
    (eq_sym Hca) Hmpk _
    Hsh Hp Er).
  intros msg rs' v' Hs'. destruct (Hms msg) as (rs1 & v1 & E & Hv1). rewrite E in Hs'. by simplify_eq.
Qed.

(** ** The coordinator *)

Context (config : Config) (key : NodeKey).

Lemma response_trusted msg sig a s t log :
  recover_signer_address msg sig = Ok a ->
  wp eq (verify_cluster_response msg sig config)
    (fun r s' t' _ => trusts config s t' a -> r = Ok tt /\ steady s s') s t log.
Proof.
  intros Hrec. destruct (node_list_cache s !! cache_key (rpc_url (chain config)) (contract_address (chain config))
    (tapp_app_id (tapp config))) as [e|] eqn:He.
  2: { eapply wp_mono; [|apply wp_progress; apply _]. intros ? ? ? ? _ (e & He' & _). congruence. }
  destruct (decide (a ∈ addrs e)) as [Ha|Ha].
  2: { eapply wp_mono; [|apply wp_progress; apply _]. intros ? ? ? ? _ (e' & He' & Ha' & _). by simplify_eq. }
  unfold verify_cluster_response. rewrite Hrec. do 2 wp_step.
  wp_step. eapply wp_mono; [|by apply (get_signer_addresses_for_warm _ _ _ e)]. intros r s1 t1 log1 [Ht1 Hw].
  assert (elapsed t1 (fetched_at e) < NODE_LIST_TTL \/ NODE_LIST_TTL <= elapsed t1 (fetched_at e)) as [Hlt|Hge] by lia.
  2: { eapply wp_mono; [|apply wp_progress; apply _]. intros ? ? ? ? [Ht _] (e' & He' & _ & Hlt & _).
       simplify_eq. unfold elapsed in *. lia. }
  destruct (Hw Hlt) as (-> & -> & ->). do 2 wp_step. cbn [map_err]. rewrite decide_True by done. wp_step.
  eapply wp_mono; [|apply wp_conj; [apply gate_open_spec|apply wp_conj;
    [apply (wp_guar_eq outside_verifier); apply require_verified_frame|apply wp_progress; apply _]]].
  intros r s2 t2 log2 (Hg & [Hc Hn] & Ht2 & _). wp_step. intros (e' & _ & _ & _ & Hopen).
  destruct Hg as (-> & _ & Hv); [by eapply gate_open_anti; [|exact Hopen]|]. done.
Qed.

Context (D : Z -> Dealing) (oc : kms_oracle) (members : list Member).
Context (app : string) (material sig : bytes) (ts : Z).

(** The members are reached at their urls, everybody else is down or refuses. *)
Definition network : Prop :=
  NoDup (map mb_url members) /\
  (forall n m, m ∈ members -> o_ans oc n (Grpc_get_dprf_partial (mb_url m) app material sig ts) =
                              reply (answer m app material sig ts).1) /\
  (forall n url, (forall m, m ∈ members -> mb_url m <> url) ->
                 refused (o_ans oc n (Grpc_get_dprf_partial url app material sig ts))).

Definition trusts_all (w : World) (t : Z) : Prop :=
  forall m, m ∈ members -> trusts config w t (eth_address_from_pubkey (mb_pubkey m)).

(** What the coordinator hears from a url. *)
Inductive heard : string -> result (Z * bytes * Z) string -> Prop :=
| heard_partial m p :
    m ∈ members -> partial_from_bytes (partial_to_bytes p) = Ok p ->
    honest_partial D (dprf_message app material) (shard_epoch (mb_shard m)) (shard_index (mb_shard m)) p ->
    heard (mb_url m) (Ok (shard_index (mb_shard m), partial_to_bytes p, shard_epoch (mb_shard m)))
| heard_nothing url e : (forall m, m ∈ members -> mb_url m <> url) -> heard url (Err e).

Context (cpk : bytes) (Hkey : signer key cpk) (Hts : in_i64 ts) (Hquiet : quiet oc) (Hnet : network).
Context (Hsig : sign_request (private_key key) "GetDprfPartial" ts = Ok sig).
Context (Hup : forall m, m ∈ members -> serving D (eth_address key) app material sig ts m).

Lemma trusts_all_steady w w' t t' : steady w w' -> t' <= t -> trusts_all w t -> trusts_all w' t'.
Proof. intros Hs Ht H m Hm. by eapply trusts_steady, H. Qed.

Lemma call_heard url x1 :
  let '(r, y1) := run oc (get_dprf_partial config key url app material sig ts) x1 in
  trusts_all (x_st x1) (x_now y1) -> heard url r /\ steady (x_st x1) (x_st y1).
Proof.
  destruct Hnet as (_ & Hin & Hout). unfold get_dprf_partial. rewrite run_bind. cbn [ask run].
  destruct (decide (url ∈ map mb_url members)) as [(m & -> & Hm)%list_elem_of_fmap|Hno].
  - rewrite (Hin _ m Hm).
    destruct (member_answers D key cpk app material sig ts m Hkey Hsig Hts (Hup m Hm))
      as (resp & p & -> & Hp & Hopen & Hback & Hrec). cbn [reply]. unfold accept_partial. rewrite run_bind.
    match goal with |- context [run oc (verify_cluster_response ?a ?b config) ?z] =>
      pose proof (run_quiet oc _ _ z Hquiet (response_trusted a b _ _ (x_now z) (x_log z) Hrec)) as Hv;
      destruct (run oc (verify_cluster_response a b config) z) as [r y] end.
    cbn [fst snd] in Hv. cbn [x_st tick] in Hv. rewrite Hquiet in Hv.
    unfold bind_ok. cbn [bind run]. destruct r as [[]|e]; cbn [map_err run]; intros Hall.
    + destruct (Hv (Hall m Hm)) as [_ Hst]. rewrite Hopen. split; [by constructor|done].
    + by destruct (Hv (Hall m Hm)) as [? _].
  - assert (forall m, m ∈ members -> mb_url m <> url) as Hne.
    { intros m Hm <-. apply Hno, list_elem_of_fmap. by exists m. }
    specialize (Hout (x_n x1) url Hne).
    destruct (o_ans oc (x_n x1) _) as [msg|st|resp]; [| |by destruct (Hout resp)]; cbn [run tick x_st];
      rewrite Hquiet; (split; [by constructor|done]).
Qed.

Lemma heard_partials urls rs i b e :
  Forall2 heard urls rs -> Ok (i, b, e) ∈ rs -> exists p, partial_from_bytes b = Ok p /\
    honest_partial D (dprf_message app material) e i p.
Proof.
  intros HF (j & Hj)%list_elem_of_lookup. destruct (Forall2_lookup_r _ _ _ _ _ HF Hj) as (url & _ & Hh).
  inversion Hh; subst. eauto.
Qed.

(** A member among the urls has been heard. *)
Lemma heard_member urls rs m :
  Forall2 heard urls rs -> m ∈ members -> mb_url m ∈ urls ->
  answered rs (shard_epoch (mb_shard m)) (shard_index (mb_shard m)).
Proof.
  intros HF Hm (j & Hj)%list_elem_of_lookup. destruct (Forall2_lookup_l _ _ _ _ _ HF Hj) as (r & Hr & Hh).
  inversion Hh as [m' p Hm' Hb Hp Hu|url' e Hne Hu]; subst; [|by destruct (Hne m Hm)].
  assert (m' = m) as ->.
  { destruct Hnet as [Hnd _]. apply list_elem_of_lookup in Hm as [k1 H1], Hm' as [k2 H2].
    assert (k2 = k1) as ->; [|congruence].
    eapply NoDup_lookup; [exact Hnd| |]; rewrite list_lookup_fmap; [by rewrite H2|by rewrite H1, Hu]. }
  eexists. by eapply list_elem_of_lookup_2.
Qed.

(** The collection hears everybody it awaits and leaves the state steady. *)
Lemma loop_heard t urls c x1 :
  let '(c', y1) := run oc (collect_loop t (fun url => get_dprf_partial config key url app material sig ts) urls c) x1 in
  trusts_all (x_st x1) (x_now y1) ->
  steady (x_st x1) (x_st y1) /\ exists rs, Forall2 heard (take (length rs) urls) rs /\
    c' = collect_all t rs c /\ (ready c' = None -> length rs = length urls).
Proof.
  revert c x1. induction urls as [|url urls IH]; intros c x1; cbn [collect_loop].
  { destruct (ready c) eqn:E; (split; [done|]); exists []; simpl; rewrite E; (split; [constructor|done]). }
  destruct (ready c) eqn:E.
  { split; [done|]. exists []. simpl. rewrite E. split; [constructor|]. split; congruence. }
  rewrite run_bind. pose proof (call_heard url x1) as Hc. destruct (run oc (get_dprf_partial _ _ _ _ _ _ _) x1) as [r x2].
  destruct (collect_one t c r) as [c1 m] eqn:E1.
  match goal with |- context [run oc ?p x2] => assert (exists x3, steady (x_st x2) (x_st x3) /\ x_now x2 <= x_now x3 /\
    run oc p x2 = run oc (collect_loop t (fun url => get_dprf_partial config key url app material sig ts) urls c1) x3)
    as (x3 & Hs3 & Ht3 & ->) end.
  { destruct m as [f|]; [|by exists x2]. rewrite run_bind. pose proof (run_time oc (inc f) x2) as Ht.
    destruct (run oc (inc f) x2) as [u x3] eqn:E3. exists x3. split; [|done].
    unfold inc in E3. cbn [modify run tick with_st x_st] in E3. rewrite Hquiet in E3. injection E3 as _ <-. cbn [x_st].
    by destruct (x_st x2). }
  specialize (IH c1 x3). pose proof (run_time oc (collect_loop t (fun url => get_dprf_partial config key url app material sig ts)
    urls c1) x3) as Ht4. destruct (run oc (collect_loop _ _ _ _) x3) as [c' y1]. cbn [snd] in Ht4. intros Hall.
  destruct Hc as [Hr Hs2]; [by eapply trusts_all_steady; [| |exact Hall]; [done|lia]|].
  destruct IH as (Hs4 & rs & HF & -> & Hlen).
  { eapply trusts_all_steady; [|done|exact Hall]. by etrans. }
  split; [by do 2 (etrans; [eassumption|])|]. exists (r :: rs). simpl. rewrite E, E1. split; [by constructor|].
  split; [done|]. intros Hn. by rewrite Hlen.
Qed.

(** The indices of [ids] are this node's own and members', all at epoch [e]. *)
Definition quorum (own : ShardState) (e : Z) (ids : list Z) : Prop :=
  NoDup ids /\ (thr <= length ids)%nat /\
  forall i, i ∈ ids -> (e = shard_epoch own /\ i = shard_index own) \/
    exists m, m ∈ members /\ shard_epoch (mb_shard m) = e /\ shard_index (mb_shard m) = i.

(** The partials of a quorum that was heard complete, combine and verify. *)
Lemma quorum_finishes PK gpk own p e ids urls rs :
  (forall e, group_key (D e) = PK) -> public_key_try gpk = Ok PK ->
  honest_partial D (dprf_message app material) (shard_epoch own) (shard_index own) p ->
  quorum own e ids -> (forall m, m ∈ members -> mb_url m ∈ urls) ->
  Forall2 heard (take (length rs) urls) rs ->
  let c := collect_all (Z.of_nat thr) rs (collect_own (Z.of_nat thr) own p) in
  (ready c = None -> length rs = length urls) ->
  exists e' s tr, ready c = Some e' /\
    finish own c e' (dprf_message app material) (Some gpk) = Ok (sigma_to_app_key s, tr) /\
    sig_verify s PK (dprf_message app material) = Ok tt.
Proof.
  intros HPK Hgpk Hp (Hnd & Hlen & Hids) Hurls HF c Hall.
  assert (exists e', ready c = Some e') as [e' He'].
  { destruct (ready c) as [e'|] eqn:Er; [by exists e'|]. specialize (Hall eq_refl).
    destruct (collect_all_ready (Z.of_nat thr) rs own p e ids) as [e' He']; [|done|lia| |].
    - intros i b e0 Hin. destruct (heard_partials _ _ _ _ _ HF Hin) as (q & Hq & _). by exists q.
    - intros i Hi. destruct (Hids i Hi) as [?|(m & Hm & <- & <-)]; [by left|right].
      eapply heard_member; [exact HF|done|]. rewrite Hall, firstn_all. by apply Hurls.
    - fold c in He'. congruence. }
  destruct (honest_finish D PK gpk (dprf_message app material) own c e') as (s & tr & Hf & Hv); [done..| |done|].
  { apply collect_all_inv; [|by apply collect_own_inv]. intros i b e0 q Hin Hq.
    destruct (heard_partials _ _ _ _ _ HF Hin) as (q' & Hq' & Hh). rewrite Hq in Hq'. by injection Hq' as <-. }
  by exists e', s, tr.
Qed.

Lemma get_quiet x : exists y, run oc get x = (x_st x, y) /\ x_st y = x_st x.
Proof. eexists. cbn [get run tick with_st x_st]. rewrite Hquiet. by split. Qed.

Lemma ask_quiet c x : exists y, run oc (ask c) x = (o_ans oc (x_n x) c, y) /\ x_st y = x_st x.
Proof. eexists. cbn [ask run]. split; [done|]. apply Hquiet. Qed.

Lemma derives PK gpk own e ids x :
  (forall e, group_key (D e) = PK) -> public_key_try gpk = Ok PK ->
  threshold (cluster config) = Z.of_nat thr -> (forall n, o_ans oc n Utc_now = ts) ->
  holds D (x_st x) own -> group_pubkey (x_st x) = Some gpk ->
  (forall m, m ∈ members -> mb_url m ∈ peer_urls (x_st x)) -> quorum own e ids ->
  let '(r, y) := run oc (collect_and_dprf config key app material) x in
  trusts_all (x_st x) (x_now y) ->
  exists s tr, r = Ok (sigma_to_app_key s, tr) /\ sig_verify s PK (dprf_message app material) = Ok tt.
Proof.
  intros HPK Hgpk Hthr Hclock Hown Hg Hurls Hq.
  destruct (holder_signs D _ own (dprf_message app material) Hown) as (share & p & Hsh & Hp & Hhp).
  destruct Hown as [Hown _]. unfold collect_and_dprf. rewrite run_bind. destruct (get_quiet x) as (x0 & -> & S0).
  rewrite Hown. cbn [ok_or bind_ok bind]. rewrite Hsh. cbn [map_err bind_ok bind]. rewrite Hp. cbn [map_err bind_ok bind].
  rewrite run_bind. destruct (ask_quiet Utc_now x0) as (x1 & -> & S1). rewrite Hclock, Hsig. cbn [map_err bind_ok bind].
  rewrite run_bind. destruct (get_quiet x1) as (x2 & -> & S2). rewrite run_bind.
  destruct (ask_quiet (Completion_order (peer_urls (x_st x1))) x2) as (x3 & -> & S3).
  destruct (o_ans oc _ _) as [urls Hperm]. cbn [proj1_sig] in *. rewrite run_bind, Hthr.
  pose proof (loop_heard (Z.of_nat thr) urls (collect_own (Z.of_nat thr) own p) x3) as Hloop.
  destruct (run oc (collect_loop _ _ _ _) x3) as [c x4]. rewrite S3, S2, S1, S0 in Hloop.
  match goal with |- context [run oc ?k x4] => pose proof (run_time oc k x4) as Ht;
    destruct (run oc k x4) as [r y] eqn:Er end. cbn [snd] in Ht. intros Hall.
  destruct Hloop as ((Hcore & _) & rs & HF & -> & Hlen); [by eapply trusts_all_steady; [|done|exact Hall]|].
  destruct (quorum_finishes PK gpk own p e ids urls rs) as (e' & s & tr & He' & Hf & Hv); [done..| |done|done|].
  { intros m Hm. rewrite Hperm, S1, S0. by apply Hurls. }
  rewrite He', run_bind in Er. destruct (get_quiet x4) as (x5 & E5 & _). rewrite E5 in Er. cbn [run] in Er.
  apply core_fields in Hcore as [_ Hgk]. rewrite Hgk, Hg, Hf in Er. injection Er as <- _. by exists s, tr.
Qed.

End Cluster.

(** C5: an honest cluster derives the key.  The coordinator runs [collect_and_dprf], and each
    of its requests is answered by running the handler of the member at that url in the
    member's own state, the other urls being down.  If the coordinator and the members hold
    shares of dealings of one master and, at some epoch, at least a threshold of distinct
    indices are among them; if the clocks agree up to the tolerance; and if coordinator and
    members still trust each other when they are done (registered on a warm list, gate
    open), then the derivation succeeds, in whatever order the answers arrive and whatever
    epochs the remaining members are at, with the key of the one signature of the request
    that verifies under the group public key. *)
Theorem honest_cluster_derives {T : ThresholdScheme} {X : Externals T} {thr : nat} {L : ThresholdLaws T thr}
    (oc : kms_oracle) config key cpk D PK gpk members app material sig (ts : Z) own e ids x :
  hex_roundtrip X -> ecdsa_recover X -> ecies_roundtrip X -> ecies_total X -> partial_roundtrip X ->
  quiet oc -> (forall n, o_ans oc n Utc_now = ts) -> in_i64 ts ->
  signer key cpk -> sign_request (private_key key) "GetDprfPartial" ts = Ok sig ->
  threshold (cluster config) = Z.of_nat thr ->
  (forall e, group_key (D e) = PK) -> public_key_try gpk = Ok PK -> group_pubkey (x_st x) = Some gpk ->
  holds D (x_st x) own -> quorum (thr := thr) members own e ids ->
  (forall m, m ∈ members -> mb_url m ∈ peer_urls (x_st x)) ->
  (forall m, m ∈ members -> serving D (eth_address key) app material sig ts m) ->
  network oc members app material sig ts ->
  let '(r, y) := run oc (collect_and_dprf config key app material) x in
  trusts_all config members (x_st x) (x_now y) ->
  exists s tr, r = Ok (sigma_to_app_key s, tr) /\ sig_verify s PK (dprf_message app material) = Ok tt.
Proof.
  intros Hhex Hec Hes Htot Hpart Hq Hclock Hts Hkey Hsig Hthr HPK Hgpk Hg Hown Hquorum Hurls Hup Hnet.
  by eapply (derives Hhex Hec Hes Htot Hpart config key D oc members app material sig ts cpk).
Qed.

(** ** Node 1 coordinating, node 2 answering *)

Definition world2 : World := set_shard (Some Toy.share2) Toy.world.

Definition member2 : Member :=
  mkMember "http://n2" Toy.node2 (Toy.pubkey Toy.sk2) Toy.share2 Toy.config Toy.idle (start world2 0).

Definition toy_net (c : Call) : ans c :=
  match c with
  | Grpc_get_dprf_partial url app material sig ts =>
      if decide (url = "http://n2") then reply (answer member2 app material sig ts).1 else ConnectFailed "down"
  | c => Toy.no_answer c
  end.

Definition toy_request : bytes :=
  match sign_request Toy.sk1 "GetDprfPartial" 1000 with Ok s => s | Err _ => [] end.

Definition toy_cluster : kms (result (bytes * DeriveTrace) KmsError) :=
  collect_and_dprf Toy.config Toy.node1 "shop" [Byte.x05].

Lemma toy_signer sk : length sk = 32%nat ->
  signer {| private_key := sk; eth_address := Toy.addr_of sk |} (Toy.pubkey sk).
Proof.
  intros Hl. split; [unfold k256_pubkey, Toy.externals, Toy.pubkey_of; cbn [private_key]; by rewrite Hl|].
  split; [done|]. intros m. exists (sk ++ Toy.hash m), 0. split; [|lia].
  pose proof (Toy.keccak_ok m) as Hk. unfold k256_sign, keccak256, Toy.externals in *. cbn [private_key]. by rewrite Hl, Hk.
Qed.

Lemma toy_holds w sh : shard w = Some sh ->
  (sh = Toy.share1 \/ sh = Toy.share2) -> holds (L := Toy.laws 1) (fun _ => Byte.x07) w sh.
Proof. intros Hw [-> | ->]; (split; [done|]; split; [vm_compute; discriminate|]; split; [exact I|reflexivity]). Qed.

Lemma toy_trusts w t a :
  node_list_cache w = node_list_cache Toy.world -> verdict_cache w = verdict_cache Toy.world ->
  a = Toy.addr_of Toy.sk1 \/ a = Toy.addr_of Toy.sk2 -> t < secs 1 -> trusts Toy.config w t a.
Proof.
  intros Hn Hv Ha Ht. exists Toy.registered. rewrite Hn. split; [vm_compute; reflexivity|].
  split; [destruct Ha as [-> | ->]; [left|right; left]|].
  unfold elapsed, NODE_LIST_TTL, gate_open, fresh_positive, POSITIVE_REFRESH, MAX_VERDICT_STALENESS, secs in *.
  cbn [fetched_at Toy.registered]. split; [lia|]. destruct (the_verifier w) as [[c|]|]; [|exact I..].
  exists Toy.attested. rewrite Hv. split; [destruct Ha as [-> | ->]; vm_compute; reflexivity|].
  cbn [verified at_ confirmed_at Toy.attested andb]. apply andb_true_iff. rewrite !Z.ltb_lt. unfold elapsed. lia.
Qed.

Lemma toy_network : network (Toy.alone toy_net) [member2] "shop" [Byte.x05] toy_request 1000.
Proof.
  split; [apply NoDup_singleton|]. split.
  - intros n m ->%list_elem_of_singleton. reflexivity.
  - intros n url Hne a. cbn [o_ans Toy.alone toy_net]. rewrite decide_False; [discriminate|].
    intros ->. exact (Hne member2 (list_elem_of_here _ _) eq_refl).
Qed.

Lemma toy_quorum : quorum (thr := 2) [member2] Toy.share1 3 [1; 2].
Proof.
  split; [apply (bool_decide_unpack _); vm_compute; exact I|]. split; [vm_compute; lia|].
  intros i [->|[->|[]%not_elem_of_nil]%elem_of_cons]%elem_of_cons; [by left|right].
  exists member2. split; [left|]. by split.
Qed.

Lemma toy_serving :
  serving (L := Toy.laws 1) (fun _ => Byte.x07) (eth_address Toy.node1) "shop" [Byte.x05] toy_request 1000 member2.
Proof.
  split; [apply Toy.alone_quiet|]. split; [intros n; vm_compute; reflexivity|].
  split; [exact (toy_signer Toy.sk2 eq_refl)|]. split; [exact (toy_holds world2 Toy.share2 eq_refl (or_intror eq_refl))|].
  apply (toy_trusts world2 _ _ eq_refl eq_refl (or_introl eq_refl)). vm_compute. reflexivity.
Qed.

Lemma honest_cluster_derives_witness :
  exists s tr, (run (Toy.alone toy_net) toy_cluster (start Toy.world 0)).1 = Ok (sigma_to_app_key s, tr) /\
    sig_verify s Byte.x07 (dprf_message "shop" [Byte.x05]) = Ok tt.
Proof.
  pose proof (honest_cluster_derives (L := Toy.laws 1) (Toy.alone toy_net) Toy.config Toy.node1 (Toy.pubkey Toy.sk1)
    (fun _ => Byte.x07) Byte.x07 Toy.group [member2] "shop" [Byte.x05] toy_request 1000 Toy.share1 3 [1; 2]
    (start Toy.world 0) Toy.hex_ok Toy.ecdsa_ok Toy.ecies_ok Toy.ecies_total_ok Toy.partial_ok (Toy.alone_quiet _)
    (fun _ => eq_refl)) as H.
  change (collect_and_dprf _ _ _ _) with toy_cluster in H.
  assert (x_now (run (Toy.alone toy_net) toy_cluster (start Toy.world 0)).2 < secs 1) as Ht by (vm_compute; reflexivity).
  destruct (run (Toy.alone toy_net) toy_cluster (start Toy.world 0)) as [r y]. cbn [fst]. cbn [snd] in Ht. apply H.
  - split; vm_compute; [discriminate|reflexivity].
  - exact (toy_signer Toy.sk1 eq_refl).
  - vm_compute. reflexivity.
  - reflexivity.
  - intros _. reflexivity.
  - reflexivity.
  - reflexivity.
  - exact (toy_holds Toy.world Toy.share1 eq_refl (or_introl eq_refl)).
  - exact toy_quorum.
  - intros m ->%list_elem_of_singleton. vm_compute. left.
  - intros m ->%list_elem_of_singleton. exact toy_serving.
  - exact toy_network.
  - intros m ->%list_elem_of_singleton. exact (toy_trusts Toy.world _ _ eq_refl eq_refl (or_intror eq_refl) Ht).
Defined.
