(* ===== verification/Ceremony.v ===== *)
(** A key-generation ceremony of a whole committee: several nodes run the session driver
    ([src/src/dkg.rs]) at the same time, each against its own interference, and the network
    hands their round messages to each other's [DkgRound] handlers.  The reference is
    [drive] of the DKG bridge tests ([src/src/crypto.rs]), which takes all participants
    through the rounds in one process; the theorems show that the distributed drivers
    implement it, and that genesis ([src/src/init.rs]) leaves the committee with what a
    derivation needs. *)
From S2P Require Import Base Threshold Prelude Prog State Externals Models Crypto Seal Metrics Chain Verifier Auth Derive Membership Dkg Lifecycle Epoch Cluster.
From Stdlib Require Import ZArith Lia.
From Stdlib.Strings Require Import Byte.
From stdpp Require Import base list gmap strings pretty relations.
Local Open Scope Z_scope.

(** ** Maps and lists *)

Fixpoint map_result {A B E} (f : A -> result B E) (l : list A) : result (list B) E :=
  match l with
  | [] => Ok []
  | x :: l => let? y := f x in let? ys := map_result f l in Ok (y :: ys)
  end.

Lemma map_result_map {A B C E} (f : A -> result B E) (g : C -> A) (h : C -> B) l :
  (forall c, c ∈ l -> f (g c) = Ok (h c)) -> map_result f (map g l) = Ok (map h l).
Proof.
  induction l as [|c l IH]; intros H; simpl; [done|]. rewrite (H c) by left. simpl.
  rewrite IH; [done|]. intros c' Hc. apply H. by right.
Qed.

(** Choosing a value for every element of a list. *)
Lemma list_choice {A B} (P : A -> B -> Prop) (l : list A) :
  (forall x, x ∈ l -> exists y, P x y) -> exists k, map fst k = l /\ forall z, z ∈ k -> P z.1 z.2.
Proof.
  induction l as [|x l IH]; intros H; [exists []; split; [done|set_solver]|].
  destruct (H x) as [y Hy]; [left|]. destruct IH as (k & <- & Hk); [intros x' Hx; apply H; by right|].
  exists ((x, y) :: k). split; [done|]. intros z [->|Hz]%elem_of_cons; [done|by apply Hk].
Qed.

(** Elements of a list are known by a duplicate-free key. *)
Lemma NoDup_map_inj {A B} (f : A -> B) (l : list A) : NoDup (map f l) ->
  forall x y, x ∈ l -> y ∈ l -> f x = f y -> x = y.
Proof.
  induction l as [|a l IH]; cbn; [set_solver|]. intros [Hn Hnd]%NoDup_cons x y Hx Hy E.
  apply elem_of_cons in Hx as [->|Hx], Hy as [->|Hy]; [done| | |by apply IH];
    destruct Hn; apply list_elem_of_fmap; eauto.
Qed.

(** Decoding a round of messages, entry by entry. *)
Lemma de_round_lookup {A} (f : bytes -> result A string) part (msgs : RoundMsgs) acc bs k :
  de_round f part msgs acc = Ok bs ->
  match msgs !! k with
  | Some m => exists v, f (part m) = Ok v /\ bs !! k = Some v
  | None => bs !! k = acc !! k
  end.
Proof.
  unfold de_round. assert (forall l acc bs, NoDup l.*1 -> de_entries f part l acc = Ok bs ->
    (forall m, (k, m) ∈ l -> exists v, f (part m) = Ok v /\ bs !! k = Some v) /\
    (k ∉ l.*1 -> bs !! k = acc !! k)) as H.
  { clear. induction l as [|[i m] l IH]; intros acc bs Hnd; cbn [de_entries].
    { intros [= <-]. split; [set_solver|done]. }
    apply NoDup_cons in Hnd as [Hni Hnd]. unfold de. destruct (f (part m)) as [v|] eqn:Ef; [|done].
    cbn [map_err result_bind]. intros [H1 H2]%IH; [|done]. split.
    - intros m' [[= -> ->]|Hm]%elem_of_cons; [|by apply H1]. exists v. split; [done|]. rewrite H2 by done. apply lookup_insert_eq.
    - cbn. intros [Hk Hk']%not_elem_of_cons. rewrite H2 by done. by apply lookup_insert_ne. }
  intros [H1 H2]%H; [|apply NoDup_fst_map_to_list]. destruct (msgs !! k) as [m|] eqn:E.
  - apply H1. by apply elem_of_map_to_list.
  - apply H2. intros ([k' m] & -> & Hm)%list_elem_of_fmap. apply elem_of_map_to_list in Hm. simpl in E. congruence.
Qed.

(** Fallible pairing where nothing fails. *)
Lemma map_result_omap {A B C E} (k : A -> B) (g : A -> option C) (m : E) l :
  (forall e, e ∈ l -> is_Some (g e)) ->
  map_result (fun e => let? d := ok_or (g e) m in Ok (k e, d)) l = Ok (omap (fun e => pair (k e) <$> g e) l) /\
  (omap (fun e => pair (k e) <$> g e) l).*1 = map k l.
Proof.
  induction l as [|e l IH]; intros H; [done|]. destruct (H e) as [d Hd]; [left|].
  destruct IH as [IH1 IH2]; [intros; apply H; by right|]. cbn [map_result map]. unfold omap. cbn [list_omap]. rewrite Hd.
  cbn [ok_or result_bind fmap option_fmap option_map]. rewrite IH1. cbn [result_bind fmap list_fmap]. split; [done|]. by f_equal.
Qed.

(** Traversing a list together with the positions. *)
Fixpoint map_result_from {A B E} (f : nat -> A -> result B E) (i : nat) (l : list A) : result (list B) E :=
  match l with
  | [] => Ok []
  | x :: l => let? y := f i x in let? ys := map_result_from f (S i) l in Ok (y :: ys)
  end.

Lemma map_result_from_map {A B C E} (f : nat -> A -> result B E) (g : C -> A) (h : C -> B) n l :
  (forall i c, l !! i = Some c -> f (n + i)%nat (g c) = Ok (h c)) -> map_result_from f n (map g l) = Ok (map h l).
Proof.
  revert n. induction l as [|c l IH]; intros n H; cbn [map map_result_from]; [done|].
  specialize (H 0%nat c eq_refl) as H0. rewrite Nat.add_0_r in H0. rewrite H0. cbn [result_bind].
  rewrite IH; [done|]. intros i c' Hc. rewrite Nat.add_succ_comm. by apply (H (S i)).
Qed.

Lemma map_result_length {A B E} (f : A -> result B E) l l' : map_result f l = Ok l' -> length l' = length l.
Proof.
  revert l'. induction l as [|x l IH]; intros l'; cbn [map_result]; [by intros [= <-]|].
  destruct (f x); cbn [result_bind]; [|done]. destruct (map_result f l); cbn [result_bind]; [|done].
  intros [= <-]. cbn. by rewrite (IH _ eq_refl).
Qed.

Lemma map_result_from_length {A B E} (f : nat -> A -> result B E) i l l' : map_result_from f i l = Ok l' -> length l' = length l.
Proof.
  revert i l'. induction l as [|x l IH]; intros i l'; cbn [map_result_from]; [by intros [= <-]|].
  destruct (f i x); cbn [result_bind]; [|done]. destruct (map_result_from f (S i) l) eqn:Er; cbn [result_bind]; [|done].
  intros [= <-]. cbn. by rewrite (IH _ _ Er).
Qed.

(** ** The protocol in one process *)

Section Drive.
Context {T : ThresholdScheme} {X : Externals T} {G : Gennaro T}.

(** A map filled by successive inserts. *)
Definition inserts {A} (l : list (Z * A)) : gmap Z A := list_to_map (reverse l).

Lemma inserts_NoDup {A} (l : list (Z * A)) : NoDup l.*1 -> inserts l = list_to_map l.
Proof. intros H. symmetry. apply list_to_map_proper; [done|]. by rewrite reverse_Permutation. Qed.

(** [drive]: all participants take each round together.  An [unwrap] of an error and a
    missing key panic. *)
Definition drive (ps : list Participant) : result (list Participant) string :=
  let? r1 := map_result (fun p => let? r := round1 p in Ok (get_id p, r)) ps in
  let? r2 := map_result_from (fun i e =>
      let '(my, (p, _, _)) := e in
      let others := delete i r1 in
      let bd := inserts (map (fun e => (e.1, e.2.1.2)) others) in
      let? pd := map_result (fun e => let? d := ok_or (e.2.2 !! my) "no entry found for key" in Ok (e.1, d)) others in
      let? r := round2 p bd (inserts pd) in Ok (my, r)) 0 r1 in
  let b2 := inserts (map (fun e => (e.1, e.2.2)) r2) in
  let? r3 := map_result (fun e => let? r := round3 e.2.1 b2 in Ok (e.1, r)) r2 in
  let b3 := inserts (map (fun e => (e.1, e.2.2)) r3) in
  let? r4 := map_result (fun e => let? r := round4 e.2.1 b3 in Ok (e.1, r)) r3 in
  let b4 := inserts (map (fun e => (e.1, e.2.2)) r4) in
  map_result (fun e => round5 e.2.1 b4) r4.

Lemma drive_length ps ps' : drive ps = Ok ps' -> length ps' = length ps.
Proof.
  unfold drive. intros H.
  repeat match type of H with (let? s := ?m in _) = _ => destruct m eqn:?; cbn [result_bind] in H; [|done] end.
  repeat match goal with
    | E : map_result _ _ = Ok _ |- _ => apply map_result_length in E
    | E : map_result_from _ _ _ = Ok _ |- _ => apply map_result_from_length in E
    end. congruence.
Qed.

(** [serde_bare] reads back what it wrote. *)
Definition gennaro_serde : Prop :=
  (forall v b, ser_b1 v = Ok b -> de_b1 b = Ok v) /\ (forall v b, ser_p1 v = Ok b -> de_p1 b = Ok v) /\
  (forall v b, ser_b2 v = Ok b -> de_b2 b = Ok v) /\ (forall v b, ser_b3 v = Ok b -> de_b3 b = Ok v) /\
  (forall v b, ser_b4 v = Ok b -> de_b4 b = Ok v).

End Drive.

(** ** The drivers *)

Section Drivers.
Context {T : ThresholdScheme} {X : Externals T} {G : Gennaro T}.
Context (sid : string).

(** A party: its index, identity and address, the peers it was given, and the questions it
    asks while it takes part. *)
Record Party := mkParty {
  pt_id : Z;
  pt_key : NodeKey;
  pt_pub : bytes;
  pt_url : string;
  pt_peers : list SessionPeer;
  pt_log : list kms_event
}.

Context (parties : list Party).

Definition describes (peer : SessionPeer) (q : Party) : Prop :=
  sp_id peer = pt_id q /\ sp_grpc_url peer = pt_url q /\ sp_pubkey peer = pt_pub q.

(** Everybody's peers are all the others, as they are. *)
Definition committee_agreed : Prop :=
  NoDup (map pt_id parties) /\ NoDup (map pt_url parties) /\
  forall p, p ∈ parties ->
    k256_pubkey (private_key (pt_key p)) = Ok (pt_pub p) /\
    NoDup (map sp_id (pt_peers p)) /\
    (forall peer, peer ∈ pt_peers p -> exists q, q ∈ parties /\ describes peer q) /\
    (forall q, q ∈ parties -> pt_id q <> pt_id p -> exists peer, peer ∈ pt_peers p /\ describes peer q).

(** A round message as party [q] got it: sent by another party to [q]'s address, under the
    sender's own index, its point-to-point part opened with [q]'s key. *)
Definition sent_to (q : Party) (round i : Z) (b p2p : bytes) : Prop :=
  exists p ct sig ts a, p ∈ parties /\ pt_id p = i /\ i <> pt_id q /\
    Ev (Grpc_dkg_round (pt_url q) (mkDkgRoundMsg sid round i b ct) sig ts) a ∈ pt_log p /\
    open_p2p (pt_key q) ct = Ok p2p.

(** The session's buffers hold only such messages. *)
Definition authentic (q : Party) (w : World) : Prop :=
  forall round msgs i b p2p, round_msgs w sid round = Some msgs -> msgs !! i = Some (b, p2p) ->
    sent_to q round i b p2p.

Lemma round_msgs_touch w round msgs :
  round_msgs (upd_dkg_sessions (touch_session sid) w) sid round = Some msgs -> round_msgs w sid round = Some msgs.
Proof.
  unfold round_msgs, touch_session. destruct w; cbn. rewrite lookup_insert_eq.
  destruct (_ !! sid) as [d|]; cbn; [done|]. unfold DkgSession_default. cbn. by rewrite lookup_empty.
Qed.

Lemma authentic_touch q w : authentic q w -> authentic q (upd_dkg_sessions (touch_session sid) w).
Proof. intros H round msgs i b p2p Hm. apply H. by apply round_msgs_touch. Qed.

Lemma authentic_drop q w : authentic q w -> authentic q (upd_dkg_sessions (delete sid) w).
Proof.
  intros H round msgs i b p2p. unfold round_msgs. destruct w; cbn. by rewrite lookup_delete_eq.
Qed.

(** The handler keeps the buffers authentic when the message it is given was sent. *)
Lemma handler_authentic config md q msg :
  (dm_session_id msg = sid -> forall p2p, open_p2p (pt_key q) (dm_p2p msg) = Ok p2p ->
     sent_to q (dm_round msg) (dm_from_index msg) (dm_broadcast msg) p2p) ->
  guar (fun w w' => authentic q w -> authentic q w') (handle_dkg_round config (pt_key q) md msg).
Proof.
  intros Hsent. assert (forall w w', core w' = core w -> authentic q w -> authentic q w') as Hcore.
  { intros w w' Hc. unfold authentic, round_msgs. assert (dkg_sessions w' = dkg_sessions w) as ->; [|done].
    unfold core in Hc. by simplify_eq. }
  unfold handle_dkg_round. guar_step; [eapply guar_mono; [exact Hcore|apply authenticate_frame]|].
  intros ctx. cbn [bind_ok bind]. destruct (open_p2p (pt_key q) (dm_p2p msg)) as [p2p|] eqn:Eo; cbn [map_err bind_ok bind]; [|done].
  guar_step; [|by guar_step]. guar_step. intros H round msgs i b p2p' Hm Hi. unfold round_msgs, buffer_round in Hm.
  destruct s as [a0 a1 a2 sessions a4 a5 a6 a7 a8 a9 a10 a11 a12]. cbn in Hm.
  unfold authentic, round_msgs in H. cbn in H. destruct (decide (dm_session_id msg = sid)) as [Es|Hne].
  2: { rewrite lookup_insert_ne in Hm by done. exact (H _ _ _ _ _ Hm Hi). }
  rewrite Es, lookup_insert_eq in Hm. cbn in Hm. set (d := default DkgSession_default (sessions !! sid)) in Hm.
  assert (forall round msgs i b p2p, rounds d !! round = Some msgs -> msgs !! i = Some (b, p2p) ->
    sent_to q round i b p2p) as Hd.
  { subst d. intros r ms j c x. destruct (sessions !! sid); cbn; [apply H|]. by rewrite lookup_empty. }
  apply lookup_insert_Some in Hm as [[<- <-]|[_ Hm]]; [|exact (Hd _ _ _ _ _ Hm Hi)].
  apply lookup_insert_Some in Hi as [[<- [= <- <-]]|[_ Hi]]; [by apply Hsent|].
  destruct (rounds d !! dm_round msg) as [ms|] eqn:Em; [exact (Hd _ ms _ _ _ Em Hi)|].
  cbn in Hi. by rewrite lookup_empty in Hi.
Qed.

(** A party's session that ended with a share: what it received, computed and sent. *)
Record Run := mkRun {
  rn_part : Participant; rn_tr : Transcript; rn_play : Play; rn_enc : gmap Z bytes; rn_share : Scalar; rn_pk : bytes
}.

Definition took_part (q : Party) (n : Run) : Prop :=
  get_id (rn_part n) = pt_id q /\ plays (rn_part n) (rn_tr n) (rn_play n) (rn_share n) (rn_pk n) /\
  (forall peer, peer ∈ pt_peers q -> sealed_p2p (y_p2p (rn_play n)) (rn_enc n) peer) /\
  Forall (fun '(round, msgs) => received sid (authentic q) round (map sp_id (pt_peers q)) msgs)
    [(1, tr1 (rn_tr n)); (2, tr2 (rn_tr n)); (3, tr3 (rn_tr n)); (4, tr4 (rn_tr n))] /\
  Forall (if_sent (session_message sid (pt_id q) (rn_play n) (rn_enc n) (pt_peers q))) (pt_log q).

Context (Hagree : committee_agreed).
Context (runs : list (Party * Run)) (Hruns : map fst runs = parties) (Htook : forall z, z ∈ runs -> took_part z.1 z.2).

Lemma run_party z : z ∈ runs -> z.1 ∈ parties.
Proof. intros Hz. rewrite <-Hruns. by apply list_elem_of_fmap_2. Qed.

Lemma party_run p : p ∈ parties -> exists z, z ∈ runs /\ z.1 = p.
Proof. rewrite <-Hruns. intros (z & -> & Hz)%list_elem_of_fmap. by exists z. Qed.

Lemma run_ids_NoDup : NoDup (map (fun z => pt_id z.1) runs).
Proof. destruct Hagree as [Hnd _]. by rewrite <-Hruns, map_map in Hnd. Qed.

(** Parties, and their runs, are known by their index and by their address. *)
Lemma by_id z z' : z ∈ runs -> z' ∈ runs -> pt_id z.1 = pt_id z'.1 -> z = z'.
Proof. intros Hz Hz' E. exact (NoDup_map_inj _ _ run_ids_NoDup _ _ Hz Hz' E). Qed.

Lemma by_url p q : p ∈ parties -> q ∈ parties -> pt_url p = pt_url q -> p = q.
Proof. destruct Hagree as (_ & Hnd & _). intros Hp Hq E. exact (NoDup_map_inj _ _ Hnd _ _ Hp Hq E). Qed.

(** What a party sends in a round. *)
Definition sends_in (n : Run) (round : Z) : bytes :=
  let y := rn_play n in
  if decide (round = 1) then y_m1 y else if decide (round = 2) then y_m2 y else if decide (round = 3) then y_m3 y else y_m4 y.

Lemma session_message_inv own n peers url round i b ct :
  session_message sid own (rn_play n) (rn_enc n) peers url (mkDkgRoundMsg sid round i b ct) ->
  i = own /\ b = sends_in n round /\ (1 <= round <= 4) /\ exists peer, peer ∈ peers /\ url = sp_grpc_url peer /\
    (round = 1 -> ct = default [] (rn_enc n !! sp_id peer)).
Proof.
  intros [(peer & ? & ? & [= -> -> -> ->])|[(peer & ? & ? & [= -> -> -> ->])|[(peer & ? & ? & [= -> -> -> ->])|(peer & ? & ? & [= -> -> -> ->])]]];
    (split; [done|]); (split; [done|]); (split; [lia|]); exists peer; done.
Qed.

Context (Hec : ecies_roundtrip X) (Hne : ecies_nonempty X).

(** A message in the buffer is what its sender computed, and its point-to-point part is what
    the sender computed for this party. *)
Lemma got z round i b p2p : z ∈ runs -> sent_to z.1 round i b p2p ->
  exists z', z' ∈ runs /\ pt_id z'.1 = i /\ i <> pt_id z.1 /\ b = sends_in z'.2 round /\
    (round = 1 -> exists d, y_p2p (rn_play z'.2) !! pt_id z.1 = Some d /\ ser_p1 d = Ok p2p).
Proof.
  intros Hz (p & ct & sig & ts & a & Hp & Hi & Hni & Hin & Ho).
  destruct (party_run p Hp) as (z' & Hz' & <-). destruct (Htook z' Hz') as (_ & _ & Hseal & _ & Hlog).
  rewrite Forall_forall in Hlog. apply Hlog in Hin. apply session_message_inv in Hin as (-> & -> & _ & peer & Hpeer & Hurl & Hct).
  exists z'. split; [done|]. split; [done|]. split; [done|]. split; [done|]. intros H1.
  rewrite (Hct H1) in Ho. destruct Hagree as (_ & _ & Hall).
  destruct (Hall z'.1 Hp) as (_ & _ & Hdesc & _). destruct (Hdesc peer Hpeer) as (q & Hq & Hqi & Hqu & Hqp).
  assert (q = z.1) as ->. { apply by_url; [done|by apply run_party|congruence]. }
  destruct (Hseal peer Hpeer) as (d & m & rng & c & Hd & Hm & He & Hc). rewrite Hc in Ho. cbn in Ho.
  exists d. rewrite <-Hqi. split; [done|]. rewrite Hm. rewrite Hqp in He.
  destruct (Hall z.1 (run_party z Hz)) as (Hk & _).
  unfold open_p2p in Ho. pose proof (Hne _ _ _ _ He). destruct c as [|c0 c]; [done|].
  unfold ecies_decrypt in Ho. rewrite (Hec _ _ _ _ _ Hk He) in Ho. cbn in Ho. congruence.
Qed.

(** In every round a party gets one message from every other party and none else. *)
Lemma round_entries z round msgs : z ∈ runs ->
  received sid (authentic z.1) round (map sp_id (pt_peers z.1)) msgs ->
  (forall i b p2p, msgs !! i = Some (b, p2p) -> sent_to z.1 round i b p2p) /\
  (forall z', z' ∈ runs -> pt_id z'.1 <> pt_id z.1 -> is_Some (msgs !! pt_id z'.1)).
Proof.
  intros Hz [Hc (w & Hw & Hm)]. split; [intros i b p2p; by apply (Hw round)|]. intros z' Hz' Hn.
  destruct Hagree as (_ & _ & Hall). destruct (Hall z.1 (run_party z Hz)) as (_ & _ & _ & Hex).
  destruct (Hex z'.1 (run_party z' Hz') Hn) as (peer & Hpeer & Hid & _). unfold complete in Hc.
  rewrite forallb_forall in Hc. rewrite <-Hid. eapply bool_decide_eq_true_1, Hc, list_elem_of_In. by apply list_elem_of_fmap_2.
Qed.

(** The map of a value of every run. *)
Definition from_all {A} (f : Run -> A) : gmap Z A := list_to_map (map (fun z => (pt_id z.1, f z.2)) runs).

Lemma from_all_Some {A} (f : Run -> A) z : z ∈ runs -> from_all f !! pt_id z.1 = Some (f z.2).
Proof.
  intros Hz. apply elem_of_list_to_map_1; [|by apply (list_elem_of_fmap_2 (fun z => (pt_id z.1, f z.2)))].
  rewrite <-list_fmap_compose. exact run_ids_NoDup.
Qed.

Lemma from_all_None {A} (f : Run -> A) i : from_all f !! i = None <-> ~ exists z, z ∈ runs /\ pt_id z.1 = i.
Proof.
  unfold from_all. rewrite <-not_elem_of_list_to_map, <-list_fmap_compose. split; intros H Hn; apply H.
  - destruct Hn as (z & Hz & <-). by apply (list_elem_of_fmap_2 (fun z => pt_id z.1)).
  - apply list_elem_of_fmap in Hn as (z & -> & Hz). by exists z.
Qed.

(** A map that has every party's value, at the other parties and at none else. *)
Lemma from_all_eq {A} (f : Run -> A) (m : gmap Z A) :
  (forall z, z ∈ runs -> m !! pt_id z.1 = Some (f z.2)) ->
  (forall i, (~ exists z, z ∈ runs /\ pt_id z.1 = i) -> m !! i = None) -> m = from_all f.
Proof.
  intros H1 H2. apply map_eq. intros i. destruct (from_all f !! i) as [a|] eqn:E.
  - apply elem_of_list_to_map_2, list_elem_of_fmap in E as (z & [= -> ->] & Hz). by apply H1.
  - by apply H2, (from_all_None f).
Qed.

(** The decoded messages of a round are the other parties' values, next to what the
    accumulator held. *)
Lemma decoded {A} (ser : A -> result bytes string) (de : bytes -> result A string) (val : Run -> option A)
    (part : bytes * bytes -> bytes) z round msgs (acc bs : gmap Z A) :
  (forall v b, ser v = Ok b -> de b = Ok v) -> z ∈ runs ->
  received sid (authentic z.1) round (map sp_id (pt_peers z.1)) msgs ->
  de_round de part msgs acc = Ok bs ->
  (forall z' b p2p, z' ∈ runs -> sent_to z.1 round (pt_id z'.1) b p2p ->
     exists v, val z'.2 = Some v /\ ser v = Ok (part (b, p2p))) ->
  (forall z', z' ∈ runs -> pt_id z'.1 <> pt_id z.1 -> bs !! pt_id z'.1 = val z'.2) /\
  bs !! pt_id z.1 = acc !! pt_id z.1 /\
  (forall i, (~ exists z, z ∈ runs /\ pt_id z.1 = i) -> bs !! i = acc !! i).
Proof.
  intros Hrt Hz Hrec Hde Hval. destruct (round_entries z round msgs Hz Hrec) as [He Hs].
  assert (forall i, match msgs !! i with
    | Some _ => exists z', z' ∈ runs /\ pt_id z'.1 = i /\ i <> pt_id z.1 /\ bs !! i = val z'.2
    | None => bs !! i = acc !! i end) as Hl.
  { intros i. pose proof (de_round_lookup _ _ _ _ _ i Hde) as Hl. destruct (msgs !! i) as [[b p2p]|] eqn:Em; [|done].
    pose proof (He _ _ _ Em) as Hst. destruct (got _ _ _ _ _ Hz Hst) as (z' & Hz' & <- & Hn & _).
    exists z'. split; [done|]. split; [done|]. split; [done|]. destruct Hl as (v & Hv & ->).
    destruct (Hval z' _ _ Hz' Hst) as (v' & -> & Hv'). apply Hrt in Hv'. congruence. }
  split; [|split].
  - intros z' Hz' Hn. specialize (Hl (pt_id z'.1)). destruct (Hs z' Hz' Hn) as [m Em]. rewrite Em in Hl.
    destruct Hl as (z'' & Hz'' & Hid & _ & ->). by rewrite (by_id _ _ Hz'' Hz' Hid).
  - specialize (Hl (pt_id z.1)). destruct (msgs !! _); [|done]. by destruct Hl as (_ & _ & _ & [] & _).
  - intros i Hi. specialize (Hl i). destruct (msgs !! i); [|done]. destruct Hl as (z' & Hz' & <- & _). destruct Hi. by exists z'.
Qed.

(** ... with this party's own value in the accumulator: everybody's. *)
Lemma decoded_all {A} (ser : A -> result bytes string) (de : bytes -> result A string) (val : Run -> A) z round msgs bs :
  (forall v b, ser v = Ok b -> de b = Ok v) -> z ∈ runs ->
  received sid (authentic z.1) round (map sp_id (pt_peers z.1)) msgs ->
  (forall z', z' ∈ runs -> ser (val z'.2) = Ok (sends_in z'.2 round)) ->
  de_round de fst msgs {[pt_id z.1 := val z.2]} = Ok bs -> bs = from_all val.
Proof.
  intros Hrt Hz Hrec Hval Hde.
  destruct (decoded ser de (fun n => Some (val n)) fst z round msgs _ bs Hrt Hz Hrec Hde) as (H1 & H2 & H3).
  { intros z' b p2p Hz' Hst. eexists. split; [done|]. destruct (got _ _ _ _ _ Hz Hst) as (z'' & Hz'' & Hid & _ & -> & _).
    rewrite (by_id _ _ Hz'' Hz' Hid). by apply Hval. }
  apply from_all_eq.
  - intros z' Hz'. destruct (decide (pt_id z'.1 = pt_id z.1)) as [E|Hn]; [|by apply H1].
    rewrite (by_id _ _ Hz' Hz E), H2. apply lookup_singleton_eq.
  - intros i Hi. rewrite H3 by done. apply lookup_singleton_ne. intros <-. destruct Hi. by exists z.
Qed.

Context (Hserde : gennaro_serde).

Lemma run_received z : z ∈ runs ->
  Forall (fun '(round, msgs) => received sid (authentic z.1) round (map sp_id (pt_peers z.1)) msgs)
    [(1, tr1 (rn_tr z.2)); (2, tr2 (rn_tr z.2)); (3, tr3 (rn_tr z.2)); (4, tr4 (rn_tr z.2))].
Proof. intros Hz. by destruct (Htook z Hz) as (_ & _ & _ & ? & _). Qed.

Lemma run_serialised z : z ∈ runs -> let y := rn_play z.2 in
  ser_b1 (y_b1 y) = Ok (sends_in z.2 1) /\ ser_b2 (y_b2 y) = Ok (sends_in z.2 2) /\
  ser_b3 (y_b3 y) = Ok (sends_in z.2 3) /\ ser_b4 (y_b4 y) = Ok (sends_in z.2 4).
Proof. intros Hz. destruct (Htook z Hz) as (_ & Hp & _). unfold plays in Hp. cbn in Hp |- *. tauto. Qed.

(** The round-1 data a party works on: the others' broadcasts, and what they made for it. *)
Lemma round1_inputs z : z ∈ runs ->
  y_bs1 (rn_play z.2) = delete (pt_id z.1) (from_all (fun n => y_b1 (rn_play n))) /\
  (forall z', z' ∈ runs -> pt_id z'.1 <> pt_id z.1 ->
     is_Some (y_p2p (rn_play z'.2) !! pt_id z.1) /\ y_ps1 (rn_play z.2) !! pt_id z'.1 = y_p2p (rn_play z'.2) !! pt_id z.1) /\
  (forall i, (~ exists z', z' ∈ runs /\ pt_id z'.1 <> pt_id z.1 /\ pt_id z'.1 = i) -> y_ps1 (rn_play z.2) !! i = None).
Proof.
  intros Hz. pose proof (run_received z Hz) as Hrec. apply Forall_cons in Hrec as [Hrec _].
  destruct (Htook z Hz) as (_ & (_ & _ & Hb & Hp & _) & _). destruct Hserde as (Hb1 & Hp1 & _).
  destruct (decoded ser_b1 de_b1 (fun n => Some (y_b1 (rn_play n))) fst z 1 _ _ _ Hb1 Hz Hrec Hb) as (B1 & B2 & B3).
  { intros z' b p2p Hz' Hst. eexists. split; [done|]. destruct (got _ _ _ _ _ Hz Hst) as (z'' & Hz'' & Hid & _ & -> & _).
    rewrite (by_id _ _ Hz'' Hz' Hid). by apply run_serialised. }
  destruct (decoded ser_p1 de_p1 (fun n => y_p2p (rn_play n) !! pt_id z.1) snd z 1 _ _ _ Hp1 Hz Hrec Hp) as (P1 & P2 & P3).
  { intros z' b p2p Hz' Hst. destruct (got _ _ _ _ _ Hz Hst) as (z'' & Hz'' & Hid & _ & _ & Hd).
    destruct (Hd eq_refl) as (d & Hd1 & Hd2). exists d. by rewrite <-(by_id _ _ Hz'' Hz' Hid). }
  assert (forall {A} (i : Z), (∅ : gmap Z A) !! i = None) as He by (intros; apply lookup_empty).
  rewrite He in B2. rewrite He in P2. setoid_rewrite He in B3. setoid_rewrite He in P3.
  split; [|split].
  - apply map_eq; intros i. destruct (decide (i = pt_id z.1)) as [->|Hi]; [by rewrite lookup_delete_eq|rewrite lookup_delete_ne by done].
    destruct (from_all _ !! i) eqn:E; [|by apply from_all_None, B3 in E].
    apply elem_of_list_to_map_2, list_elem_of_fmap in E as (z' & [= -> ->] & Hz'). by apply B1.
  - intros z' Hz' Hn. split; [|by apply P1]. destruct (round_entries z 1 _ Hz Hrec) as [He1 He2].
    destruct (He2 z' Hz' Hn) as [[b p2p] Hm]. destruct (got _ _ _ _ _ Hz (He1 _ _ _ Hm)) as (z'' & Hz'' & Hid & _ & _ & Hd).
    destruct (Hd eq_refl) as (d & Hd1 & _). rewrite <-(by_id _ _ Hz'' Hz' Hid). by exists d.
  - intros i Hi. destruct (decide (i = pt_id z.1)) as [->|Hi']; [done|]. apply P3. intros (z' & Hz' & <-). apply Hi. by exists z'.
Qed.

(** From round two on everybody works on everybody's broadcasts. *)
Lemma later_inputs z : z ∈ runs ->
  y_bs2 (rn_play z.2) = from_all (fun n => y_b2 (rn_play n)) /\
  y_bs3 (rn_play z.2) = from_all (fun n => y_b3 (rn_play n)) /\
  y_bs4 (rn_play z.2) = from_all (fun n => y_b4 (rn_play n)).
Proof.
  intros Hz. pose proof (run_received z Hz) as Hrec. repeat (apply Forall_cons in Hrec as [? Hrec]).
  destruct (Htook z Hz) as (Hid & Hp & _). unfold plays in Hp. rewrite Hid in Hp.
  destruct Hserde as (_ & _ & ? & ? & ?). destruct Hp as (_ & _ & _ & _ & _ & _ & D2 & _ & _ & D3 & _ & _ & D4 & _).
  split; [|split]; [eapply (decoded_all ser_b2), D2|eapply (decoded_all ser_b3), D3|eapply (decoded_all ser_b4), D4]; try eassumption;
    intros z' Hz'; by apply run_serialised.
Qed.

(** Successive inserts of everybody's values, and of the others'. *)
Lemma inserts_runs {A} (f : Run -> A) : inserts (map (fun z => (pt_id z.1, f z.2)) runs) = from_all f.
Proof. apply inserts_NoDup. rewrite <-list_fmap_compose. exact run_ids_NoDup. Qed.

Lemma others_NoDup i z : runs !! i = Some z ->
  NoDup (map (fun z => pt_id z.1) (delete i runs)) /\ pt_id z.1 ∉ map (fun z => pt_id z.1) (delete i runs).
Proof.
  intros Hi. pose proof run_ids_NoDup as Hnd. pose proof (delete_Permutation _ _ _ Hi) as Hp.
  rewrite (Permutation_map (fun z => pt_id z.1) Hp) in Hnd. cbn in Hnd. apply NoDup_cons in Hnd. tauto.
Qed.

Lemma others_elem i z z' : runs !! i = Some z -> z' ∈ delete i runs <-> z' ∈ runs /\ pt_id z'.1 <> pt_id z.1.
Proof.
  intros Hi. pose proof (delete_Permutation _ _ _ Hi) as Hp. destruct (others_NoDup i z Hi) as [_ Hni]. split.
  - intros Hz'. split; [apply (elem_of_Permutation_proper z' _ _ Hp); by right|]. intros E. apply Hni. rewrite <-E. by apply (list_elem_of_fmap_2 (fun z => pt_id z.1)).
  - intros [Hz' Hn]. by apply (elem_of_Permutation_proper z' _ _ Hp), elem_of_cons in Hz' as [->|Hz'].
Qed.

Lemma inserts_others {A} i z (f : Run -> A) : runs !! i = Some z ->
  inserts (map (fun z => (pt_id z.1, f z.2)) (delete i runs)) = delete (pt_id z.1) (from_all f).
Proof.
  intros Hi. destruct (others_NoDup i z Hi) as [Hnd Hni].
  rewrite inserts_NoDup by (rewrite <-list_fmap_compose; exact Hnd).
  unfold from_all. rewrite (list_to_map_proper (map _ runs) (map (fun z => (pt_id z.1, f z.2)) (z :: delete i runs))).
  - cbn. rewrite delete_insert_id; [done|]. apply not_elem_of_list_to_map. by rewrite <-list_fmap_compose.
  - rewrite <-list_fmap_compose. exact run_ids_NoDup.
  - apply Permutation_map. by apply delete_Permutation.
Qed.

(** What the others made for a party. *)
Lemma addressed_others i z : runs !! i = Some z ->
  exists pd, map_result (fun e : Z * (Participant * Round1BroadcastData * gmap Z Round1P2PData) =>
      let? d := ok_or (e.2.2 !! pt_id z.1) "no entry found for key" in Ok (e.1, d))
    (map (fun z => (pt_id z.1, (y_p1 (rn_play z.2), y_b1 (rn_play z.2), y_p2p (rn_play z.2)))) (delete i runs)) = Ok pd /\
  inserts pd = y_ps1 (rn_play z.2).
Proof.
  intros Hi. assert (z ∈ runs) as Hz by (by eapply list_elem_of_lookup_2).
  destruct (round1_inputs z Hz) as (_ & H1 & H2). destruct (others_NoDup i z Hi) as [Hnd _].
  edestruct (map_result_omap (A := Z * (Participant * Round1BroadcastData * gmap Z Round1P2PData)) fst
    (fun e => e.2.2 !! pt_id z.1) "no entry found for key") as [-> Hk].
  { intros e (z' & -> & Hz')%list_elem_of_fmap. apply (others_elem _ _ _ Hi) in Hz' as [Hz' Hn]. cbn. by apply H1. }
  eexists. split; [done|]. rewrite map_map in Hk. cbn in Hk.
  rewrite inserts_NoDup by (rewrite Hk; exact Hnd). apply map_eq. intros j.
  destruct (list_to_map _ !! j) as [d|] eqn:E.
  - apply elem_of_list_to_map_2, list_elem_of_omap in E as (e & He & Hd).
    apply list_elem_of_fmap in He as (z' & -> & Hz'). cbn in Hd. apply fmap_Some in Hd as (d' & Hd & [= -> ->]).
    apply (others_elem _ _ _ Hi) in Hz' as [Hz' Hn]. by rewrite (proj2 (H1 z' Hz' Hn)).
  - symmetry. apply H2. intros (z' & Hz' & Hn & <-). destruct (H1 z' Hz' Hn) as [[d Hd] _].
    apply not_elem_of_list_to_map in E. apply E. rewrite Hk. apply (list_elem_of_fmap_2 (fun z => pt_id z.1)). by apply (others_elem _ _ _ Hi).
Qed.

(** The parties' sessions are the protocol driven in one process. *)
Lemma runs_drive : drive (map (fun z => rn_part z.2) runs) = Ok (map (fun z => y_p5 (rn_play z.2)) runs).
Proof.
  unfold drive.
  assert (forall z, z ∈ runs -> get_id (rn_part z.2) = pt_id z.1 /\ plays (rn_part z.2) (rn_tr z.2) (rn_play z.2) (rn_share z.2) (rn_pk z.2)) as Hp
    by (intros z Hz; destruct (Htook z Hz) as (? & ? & _); done). unfold plays in Hp.
  rewrite (map_result_map _ _ (fun z => (pt_id z.1, (y_p1 (rn_play z.2), y_b1 (rn_play z.2), y_p2p (rn_play z.2)))))
    by (intros z Hz; cbn; by destruct (Hp z Hz) as (-> & -> & _)).
  cbn [result_bind].
  rewrite (map_result_from_map _ _ (fun z => (pt_id z.1, (y_p2 (rn_play z.2), y_b2 (rn_play z.2))))).
  2: { intros i z Hi. rewrite Nat.add_0_l, <-list_fmap_delete. destruct (addressed_others i z Hi) as (pd & Epd & Hpd).
    assert (z ∈ runs) as Hz by (by eapply list_elem_of_lookup_2). cbn beta iota zeta.
    change (fmap ?f ?l) with (map f l). rewrite Epd. cbn [result_bind]. rewrite map_map. cbn [fst snd].
    rewrite (inserts_others i z (fun n => y_b1 (rn_play n)) Hi), Hpd. destruct (round1_inputs z Hz) as [<- _].
    by destruct (Hp z Hz) as (_ & _ & _ & _ & _ & -> & _). }
  cbn [result_bind]. rewrite (map_map _ (fun e => (e.1, e.2.2))). cbn [fst snd]. rewrite (inserts_runs (fun n => y_b2 (rn_play n))).
  rewrite (map_result_map _ _ (fun z => (pt_id z.1, (y_p3 (rn_play z.2), y_b3 (rn_play z.2)))))
    by (intros z Hz; cbn; destruct (later_inputs z Hz) as (<- & _); by destruct (Hp z Hz) as (_ & _ & _ & _ & _ & _ & _ & _ & -> & _)).
  cbn [result_bind]. rewrite (map_map _ (fun e => (e.1, e.2.2))). cbn [fst snd]. rewrite (inserts_runs (fun n => y_b3 (rn_play n))).
  rewrite (map_result_map _ _ (fun z => (pt_id z.1, (y_p4 (rn_play z.2), y_b4 (rn_play z.2)))))
    by (intros z Hz; cbn; destruct (later_inputs z Hz) as (_ & <- & _);
        by destruct (Hp z Hz) as (_ & _ & _ & _ & _ & _ & _ & _ & _ & _ & _ & -> & _)).
  cbn [result_bind]. rewrite (map_map _ (fun e => (e.1, e.2.2))). cbn [fst snd]. rewrite (inserts_runs (fun n => y_b4 (rn_play n))).
  apply map_result_map. intros z Hz; cbn; destruct (later_inputs z Hz) as (_ & _ & <-).
  by destruct (Hp z Hz) as (_ & _ & _ & _ & _ & _ & _ & _ & _ & _ & _ & _ & _ & _ & -> & _).
Qed.

Lemma run_results z : z ∈ runs ->
  get_secret_share (y_p5 (rn_play z.2)) = Some (rn_share z.2) /\ get_public_key (y_p5 (rn_play z.2)) = Some (rn_pk z.2).
Proof. intros Hz. destruct (Htook z Hz) as (_ & Hp & _). unfold plays in Hp. tauto. Qed.

End Drivers.


Section Sessions.
Context {T : ThresholdScheme} {X : Externals T} {G : Gennaro T}.
Context (sid : string) (parties : list Party).

(** The other tasks of the party's node put only authentic messages in the buffers. *)
Definition delivers (q : Party) (w w' : World) : Prop := authentic sid parties q w -> authentic sid parties q w'.

#[global] Instance delivers_preorder q : PreOrder (delivers q).
Proof. split; [intros w; exact id|]. intros w1 w2 w3 H1 H2 H. exact (H2 (H1 H)). Qed.

(** The party runs the session and ends it with this result. *)
Definition drives (q : Party) (part : Participant) (timeout : Z) (res : Scalar * bytes) : Prop :=
  exists (o : kms_oracle) wakes x, relies o (delivers q) /\ authentic sid parties q (x_st x) /\
    let '(r, y) := run o (run_session (pt_key q) wakes sid part (pt_peers q) timeout) x in
    r = Ok res /\ x_log y = x_log x ++ pt_log q.

(** A session under interference that delivers authentic messages only. *)
Lemma session_spec R `{!PreOrder R} q wakes part timeout s t log :
  (forall w w', R w w' -> delivers q w w') -> authentic sid parties q s ->
  wp R (run_session (pt_key q) wakes sid part (pt_peers q) timeout)
    (fun r _ _ log' => forall share pk, r = Ok (share, pk) ->
       session_run sid (authentic sid parties q) part (pt_peers q) log log' share pk) s t log.
Proof.
  intros HR Hs. eapply wp_mono; [|apply (run_session_spec (pt_key q) sid R (authentic sid parties q)); [|apply authentic_touch|apply authentic_drop|done]].
  - intros r s' t' log' H share pk Hr. by apply H.
  - intros w w' Hw. by apply HR.
Qed.

Lemma session_took_part q part log share pk :
  NoDup (map sp_id (pt_peers q)) -> get_id part = pt_id q ->
  session_run sid (authentic sid parties q) part (pt_peers q) log (log ++ pt_log q) share pk ->
  exists n, took_part sid parties q n /\ rn_part n = part /\ rn_share n = share /\ rn_pk n = pk.
Proof.
  intros Hnd Hid (tr & y & enc & Hp & Hseal & Hrec & _ & evs & Hevs & HF). apply app_inv_head in Hevs as <-.
  exists (mkRun part tr y enc share pk). split; [|done]. rewrite Hid in HF. repeat split; [done|apply Hp..| |done|done].
  by apply Hseal.
Qed.

Lemma session_run_extend I part peers log log1 log2 log' share pk :
  adds not_sent log log1 -> session_run sid I part peers log1 log2 share pk -> adds not_sent log2 log' ->
  session_run sid I part peers log log' share pk.
Proof.
  intros A1 (tr & y & enc & Hp & Hs & Hrec & Hb & A2) A3. exists tr, y, enc. split; [done|]. split; [done|]. split; [done|]. split.
  - eapply Forall_impl; [exact Hb|]. intros [r m] H. eapply broadcast_sent_prefix; [by eapply adds_prefix|done].
  - eapply adds_trans; [|eapply adds_trans; [exact A2|]]; (eapply adds_mono; [|eassumption]; intros ev; apply not_sent_any).
Qed.

(** If every party took part, their runs are the protocol driven in one process. *)
Lemma all_took_part (P : Party -> Run -> Prop) :
  committee_agreed parties -> ecies_roundtrip X -> ecies_nonempty X -> gennaro_serde ->
  (forall q, q ∈ parties -> exists n, took_part sid parties q n /\ P q n) ->
  exists runs, map fst runs = parties /\ (forall z, z ∈ runs -> P z.1 z.2) /\
    drive (map (fun z => rn_part z.2) runs) = Ok (map (fun z => y_p5 (rn_play z.2)) runs) /\
    forall z, z ∈ runs -> get_id (rn_part z.2) = pt_id z.1 /\
      get_secret_share (y_p5 (rn_play z.2)) = Some (rn_share z.2) /\ get_public_key (y_p5 (rn_play z.2)) = Some (rn_pk z.2).
Proof.
  intros Hag Hec Hne Hs H. destruct (list_choice _ parties H) as (runs & Hr & Hall). exists runs. split; [done|].
  split; [by intros z Hz; apply Hall|]. assert (forall z, z ∈ runs -> took_part sid parties z.1 z.2) as Ht by (by intros z Hz; apply Hall).
  split; [by apply (runs_drive sid parties)|]. intros z Hz. split; [by destruct (Ht z Hz)|].
  eapply (run_results sid parties runs); eauto.
Qed.

End Sessions.

(** C19: a committee's sessions are the protocol driven in one process.  Each party runs the
    session driver on its own node, with its own clock and interference; the buffers of a node
    hold only messages some other party sent it in this ceremony.  If all the sessions end
    with a share, then [drive], in which one process takes all the participants through each
    round together and hands them each other's data, succeeds on the same participants and
    leaves them with the same shares and public keys: over the network every broadcast
    reached every party as it was sent, every round-1 secret was opened by the party it was
    for, and nobody mixed up senders, rounds or recipients. *)
Theorem sessions_refine_drive {T : ThresholdScheme} {X : Externals T} {G : Gennaro T} sid parties timeout
    (part : Party -> Participant) (res : Party -> Scalar * bytes) :
  committee_agreed parties -> ecies_roundtrip X -> ecies_nonempty X -> gennaro_serde ->
  (forall q, q ∈ parties -> get_id (part q) = pt_id q /\ drives sid parties q (part q) timeout (res q)) ->
  exists ps, drive (map part parties) = Ok ps /\
    map (fun p => (get_secret_share p, get_public_key p)) ps = map (fun q => (Some (res q).1, Some (res q).2)) parties.
Proof.
  intros Hag Hec Hne Hs H.
  destruct (all_took_part sid parties (fun q n => rn_part n = part q /\ (rn_share n, rn_pk n) = res q) Hag Hec Hne Hs)
    as (runs & <- & HP & Hl & Hres).
  - intros q Hq. destruct (H q Hq) as (Hid & o & wakes & x & Ho & Ha & Hrun).
    pose proof (wp_sound _ o _ _ x Ho (session_spec sid parties (delivers sid parties q) q wakes (part q) timeout _ _ (x_log x)
      ltac:(done) Ha)) as Hw.
    destruct (run o _ x) as [r y], (res q) as [share pk]. cbn [fst snd] in Hw. destruct Hrun as [-> Hlog]. rewrite Hlog in Hw.
    destruct Hag as (_ & _ & Hall). destruct (Hall q Hq) as (_ & Hnd & _).
    destruct (session_took_part _ _ _ _ _ _ _ Hnd Hid (Hw _ _ eq_refl)) as (n & Hn & <- & <- & <-). by exists n.
  - eexists. split.
    + rewrite map_map. rewrite <-(map_ext_in (fun z => rn_part z.2)); [exact Hl|].
      intros z Hz%list_elem_of_In. by destruct (HP z Hz) as [<- _].
    + rewrite !map_map. apply map_ext_in. intros z Hz%list_elem_of_In. destruct (HP z Hz) as [_ <-].
      by destruct (Hres z Hz) as (_ & -> & ->).
Qed.

(** ** Genesis *)

Section Genesis.
Context {T : ThresholdScheme} {X : Externals T} {G : Gennaro T} {thr : nat} {L : ThresholdLaws T thr}.

(** A participant that ended with its share of the dealing and its public key. *)
Definition deals_to (d : Dealing) (gpk : bytes) (p p' : Participant) : Prop :=
  forall s pk, get_secret_share p' = Some s -> get_public_key p' = Some pk -> s = dealt d (Z.to_nat (get_id p)) /\ pk = gpk.

(** A node that holds its share of the dealing for the epoch and knows its group key. *)
Definition member_after (d : Dealing) (gpk : bytes) (e : Z) (q : Party) (w : World) : Prop :=
  group_pubkey w = Some gpk /\ exists sh, shard_index sh = pt_id q /\ shard_epoch sh = e /\ holds (fun _ => d) w sh.

(** What a node stores after a session. *)
Definition adopted (e : Z) (q : Party) (share : Scalar) (pk : bytes) (w : World) : Prop :=
  shard w = Some (mkShardState (pt_id q) (share_to_bytes (gennaro_share_to_blsful (Z.to_nat (pt_id q)) share)) e) /\
  group_pubkey w = Some pk.

(** A committee whose members all adopted the results of one session, each with a participant
    of its role, if such participants driven together end with one dealing. *)
Lemma committee_adopts sid parties e (role : Party -> Participant -> Prop) (K : Dealing -> Prop) (fin : Party -> World) :
  committee_agreed parties -> ecies_roundtrip X -> ecies_nonempty X -> gennaro_serde -> share_roundtrip X ->
  (forall q, q ∈ parties -> 0 <= pt_id q /\ valid_id (Z.to_nat (pt_id q)) /\ exists part share pk log,
     role q part /\ get_id part = pt_id q /\
     session_run sid (authentic sid parties q) part (pt_peers q) log (log ++ pt_log q) share pk /\ adopted e q share pk (fin q)) ->
  (forall ps ps', map get_id ps = map pt_id parties ->
     (forall p, p ∈ ps -> exists q, q ∈ parties /\ get_id p = pt_id q /\ role q p) -> drive ps = Ok ps' ->
     exists d gpk, K d /\ public_key_try gpk = Ok (group_key d) /\ Forall2 (deals_to d gpk) ps ps') ->
  exists d gpk, K d /\ public_key_try gpk = Ok (group_key d) /\ forall q, q ∈ parties -> member_after d gpk e q (fin q).
Proof.
  intros Hag Hec Hne Hs Hshare H Hlaw.
  destruct (all_took_part sid parties (fun q r => role q (rn_part r) /\ adopted e q (rn_share r) (rn_pk r) (fin q)) Hag Hec Hne Hs)
    as (runs & Hr & HP & Hl & Hres).
  - intros q Hq. destruct (H q Hq) as (_ & _ & part & share & pk & log & Hrole & Hid & Hsess & Ha).
    destruct Hag as (_ & _ & Hall). destruct (Hall q Hq) as (_ & Hnd & _).
    destruct (session_took_part _ _ _ _ _ _ _ Hnd Hid Hsess) as (r & Hr & <- & <- & <-). by exists r.
  - assert (map get_id (map (fun z => rn_part z.2) runs) = map pt_id parties) as Hmap.
    { rewrite <-Hr, !map_map. apply map_ext_in. intros z Hz%list_elem_of_In. by apply Hres. }
    edestruct Hlaw as (d & gpk & HK & Hgpk & Hd); [exact Hmap| |exact Hl|].
    { intros p (z & -> & Hz)%list_elem_of_fmap. exists z.1. split; [rewrite <-Hr; by apply list_elem_of_fmap_2|].
      split; [by apply Hres|by apply HP]. }
    exists d, gpk. split; [done|]. split; [done|]. intros q Hq. rewrite <-Hr in Hq. apply list_elem_of_fmap in Hq as (z & -> & Hz).
    destruct (HP z Hz) as (_ & Hsh & Hpk). destruct (Hres z Hz) as (Hid & Hs1 & Hs2).
    assert (rn_share z.2 = dealt d (Z.to_nat (pt_id z.1)) /\ rn_pk z.2 = gpk) as [Hsc Hk].
    { apply list_elem_of_lookup in Hz as [i Hi]. rewrite <-Hid.
      assert (forall A (f : Party * Run -> A), map f runs !! i = Some (f z)) as Hm by (intros A f; by apply list_lookup_fmap_Some_2).
      exact (Forall2_lookup_lr _ _ _ i _ _ Hd (Hm _ _) (Hm _ _) _ _ Hs1 Hs2). }
    rewrite Hk in Hpk. split; [done|]. eexists. split; [|split; [|split; [exact Hsh|]]]; [done|done|]. cbn.
    destruct (H z.1) as (H0 & Hv & _); [rewrite <-Hr; by apply list_elem_of_fmap_2|]. split; [done|]. split; [done|].
    rewrite Hsc. unfold share_from_bytes, share_to_bytes. by rewrite Hshare.
Qed.

(** [SecretParticipant::new] makes the participant with the identifier it is given. *)
Definition gennaro_ids : Prop := forall rng i t n p, secret_new rng i t n = Ok p -> get_id p = i.

(** What the distributed key generation promises: fresh participants that have gone through
    all the rounds together hold shares of one dealing and its public key. *)
Definition gennaro_honest : Prop := forall n ps ps',
  NoDup (map get_id ps) -> Z.of_nat (length ps) = n ->
  (forall p, p ∈ ps -> exists rng, secret_new rng (get_id p) (Z.of_nat thr) n = Ok p) ->
  drive ps = Ok ps' ->
  exists d gpk, public_key_try gpk = Ok (group_key d) /\
    Forall2 (deals_to d gpk) ps ps'.

(** A share and a group key, once held, are kept. *)
Definition retains (w w' : World) : Prop :=
  (forall sh, shard w = Some sh -> shard w' = Some sh) /\
  (forall pk, group_pubkey w = Some pk -> group_pubkey w' = Some pk).

#[global] Instance retains_preorder : PreOrder retains.
Proof. split; [by intros w|]. intros w1 w2 w3 [A1 B1] [A2 B2]. split; auto. Qed.

Lemma wp_true (R : World -> World -> Prop) {A} (p : kms A) s t log : wp R p (fun _ _ _ _ => True) s t log.
Proof. revert s t log. induction p; simpl; auto. Qed.

Lemma store_share_stores config key sh gpk s t log :
  wp retains (store_share config key sh gpk)
    (fun _ s' _ log' => adds not_sent log log' /\ shard s' = Some sh /\ group_pubkey s' = Some gpk) s t log.
Proof.
  apply wp_conj.
  - eapply wp_mono; [|apply wp_emits, calm_store_share]. intros u s' t' log' H. eapply adds_mono; [|exact H]. by intros [[] a].
  - unfold store_share. do 4 (apply wp_bind; [apply _|]; eapply wp_mono; [|apply wp_true]; intros ? s0 t0 log0 _; clear s t log; rename s0 into s, t0 into t, log0 into log).
    do 3 wp_step.
    assert (forall v w, shard (set_shard v w) = v) as E1 by (by intros ? []).
    assert (forall v w, group_pubkey (set_shard v w) = group_pubkey w) as E2 by (by intros ? []).
    assert (forall v w, group_pubkey (set_group_pubkey v w) = v) as E3 by (by intros ? []).
    unfold retains in *. destruct_and!. split; eauto. match goal with
      H : forall pk, group_pubkey (set_shard _ _) = _ -> _ |- _ => apply H; rewrite E2 end. eauto.
Qed.

Context (app : string) (parties : list Party).

Abbreviation sid := ("genesis:" +:+ app).

(** The other tasks of a node during genesis. *)
Definition genesis_rely (q : Party) (w w' : World) : Prop := delivers sid parties q w w' /\ retains w w'.

#[global] Instance genesis_rely_preorder q : PreOrder (genesis_rely q).
Proof. split; [by intros w|]. intros w1 w2 w3 [A1 B1] [A2 B2]. split; by etrans. Qed.

(** The party's run of genesis succeeded and left its node in [y]. *)
Definition completes (q : Party) (n : Z) (y : exec World Call ans) : Prop :=
  exists (o : kms_oracle) config wakes x, tapp_app_id (tapp config) = app /\
    relies o (genesis_rely q) /\ authentic sid parties q (x_st x) /\
    run o (run_genesis config (pt_key q) wakes (pt_id q) (pt_peers q) (Z.of_nat thr) n) x = (Ok tt, y) /\
    x_log y = x_log x ++ pt_log q.

(** What a node holds after genesis, and the session it comes from. *)
Definition after_genesis (q : Party) (n : Z) (w : World) (log log' : list kms_event) : Prop :=
  exists rng part share pk, secret_new rng (pt_id q) (Z.of_nat thr) n = Ok part /\
    session_run sid (authentic sid parties q) part (pt_peers q) log log' share pk /\
    adopted GENESIS_EPOCH q share pk w.

Lemma genesis_spec config q wakes n s t log :
  tapp_app_id (tapp config) = app -> authentic sid parties q s ->
  wp (genesis_rely q) (run_genesis config (pt_key q) wakes (pt_id q) (pt_peers q) (Z.of_nat thr) n)
    (fun r s' _ log' => r = Ok tt -> after_genesis q n s' log log') s t log.
Proof.
  intros Happ Ha. unfold run_genesis. rewrite Happ.
  eapply (wp_ok_pure _ (authentic sid parties q)); [exact Ha| |done]. intros _ s1 t1 A1 _. wp_step.
  assert (forall w w', genesis_rely q w w' -> authentic sid parties q w -> authentic sid parties q w') as HR by (by intros w w' [H _]).
  wp_step. eapply (wp_ok_pure _ (authentic sid parties q)); [eauto| |done]. intros part s2 t2 A2 Hp%map_err_Ok.
  eapply wp_ok_call with (I := fun _ => True); [apply _| | |done].
  { eapply wp_mono; [|apply (session_spec sid parties); [apply _|by intros w w' [? _]|exact A2]].
    intros ? ? ? ? Hr. split; [done|exact Hr]. }
  intros [share pk] s3 t3 log3 _ Hsess. wp_step. eapply wp_mono; [|eapply wp_rely_mono; [|apply store_share_stores]].
  2: { by intros w w' [_ ?]. }
  intros [] s4 t4 log4 (A4 & Hsh & Hpk). wp_step. intros _. match goal with H : genesis_rely _ s4 _ |- _ => destruct H as [_ [R1 R2]] end.
  eexists _, part, share, pk. split; [exact Hp|]. split; [|split; [by apply R1|by apply R2]].
  eapply session_run_extend; [|by apply Hsess|done]. by apply adds_one.
Qed.

(** The committee's runs of genesis are one key generation. *)
Lemma genesis_deals n (fin : Party -> exec World Call ans) :
  committee_agreed parties -> ecies_roundtrip X -> ecies_nonempty X -> gennaro_serde -> share_roundtrip X ->
  gennaro_ids -> gennaro_honest -> Z.of_nat (length parties) = n ->
  (forall q, q ∈ parties -> 0 <= pt_id q /\ valid_id (Z.to_nat (pt_id q)) /\ completes q n (fin q)) ->
  exists d gpk, public_key_try gpk = Ok (group_key d) /\
    forall q, q ∈ parties -> member_after d gpk GENESIS_EPOCH q (x_st (fin q)).
Proof.
  intros Hag Hec Hne Hs Hshare Hids Hon Hn H.
  destruct (committee_adopts sid parties GENESIS_EPOCH (fun q p => exists rng, secret_new rng (pt_id q) (Z.of_nat thr) n = Ok p)
    (fun _ => True) (fun q => x_st (fin q)) Hag Hec Hne Hs Hshare) as (d & gpk & _ & Hg & Hall); [| |by exists d, gpk].
  - intros q Hq. destruct (H q Hq) as (H0 & Hv & o & config & wakes & x & Happ & Ho & Ha & Hrun & Hlog). split; [done|]. split; [done|].
    pose proof (wp_sound _ o _ _ x Ho (genesis_spec config q wakes n _ _ (x_log x) Happ Ha)) as Hw.
    rewrite Hrun in Hw. cbn [fst snd] in Hw. rewrite Hlog in Hw. destruct (Hw eq_refl) as (rng & part & share & pk & Hp & Hsess & Had).
    exists part, share, pk, (x_log x). split; [by exists rng|]. split; [by eapply Hids|]. by split.
  - intros ps ps' Hmap Hps Hd. destruct (Hon n ps ps') as (d & gpk & Hg & HF); [| | |done|by exists d, gpk].
    + rewrite Hmap. by destruct Hag.
    + rewrite <-Hn, <-(length_map get_id), Hmap. by rewrite length_map.
    + intros p Hp. destruct (Hps p Hp) as (q & _ & -> & Hr). done.
Qed.

End Genesis.

(** C6: genesis establishes the committee.  If every member of a committee completes genesis
    for the application, each on its own node with the others' messages as they were sent,
    then there is one dealing of the configured threshold such that every node holds its own
    share of it, under its own index and the genesis epoch, and has recorded the one group
    public key of that dealing: what a derivation needs of the cluster. *)
Theorem genesis_establishes_the_committee {T : ThresholdScheme} {X : Externals T} {G : Gennaro T} {thr : nat}
    {L : ThresholdLaws T thr} app parties n (fin : Party -> exec World Call ans) :
  committee_agreed parties -> ecies_roundtrip X -> ecies_nonempty X -> gennaro_serde -> share_roundtrip X ->
  gennaro_ids -> gennaro_honest (thr := thr) -> Z.of_nat (length parties) = n ->
  (forall q, q ∈ parties -> 0 <= pt_id q /\ valid_id (Z.to_nat (pt_id q)) /\ completes (thr := thr) app parties q n (fin q)) ->
  exists d gpk, public_key_try gpk = Ok (group_key d) /\
    forall q, q ∈ parties -> member_after d gpk GENESIS_EPOCH q (x_st (fin q)).
Proof. apply genesis_deals. Qed.

(** ** Two nodes *)

Abbreviation toy_dkg := (ToyDkg.gennaro Byte.x07 [Byte.x07]).

Definition toy_parties (e : Z) (log1 log2 : list kms_event) : list Party :=
  [mkParty 1 Toy.node1 (Toy.pubkey Toy.sk1) "http://n1" [mkSessionPeer 2 "http://n2" (Toy.pubkey Toy.sk2) e] log1;
   mkParty 2 Toy.node2 (Toy.pubkey Toy.sk2) "http://n2" [mkSessionPeer 1 "http://n1" (Toy.pubkey Toy.sk1) e] log2].

Lemma toy_agreed e log1 log2 : committee_agreed (toy_parties e log1 log2).
Proof.
  split; [apply (bool_decide_unpack _); vm_compute; exact I|]. split; [apply (bool_decide_unpack _); vm_compute; exact I|].
  intros p [->|[->|[]%not_elem_of_nil]%elem_of_cons]%elem_of_cons;
    (split; [vm_compute; reflexivity|]; split; [apply NoDup_singleton|]; split).
  - intros peer ->%list_elem_of_singleton. eexists. split; [right; left|]. by repeat split.
  - intros q [->|[->|[]%not_elem_of_nil]%elem_of_cons]%elem_of_cons Hq; [by destruct Hq|]. eexists. split; [left|]. by repeat split.
  - intros peer ->%list_elem_of_singleton. eexists. split; [left|]. by repeat split.
  - intros q [->|[->|[]%not_elem_of_nil]%elem_of_cons]%elem_of_cons Hq; [|by destruct Hq]. eexists. split; [left|]. by repeat split.
Qed.

(** The four messages of the other node have arrived. *)
Definition toy_buffers (sid : string) (i : Z) : World :=
  let msgs : RoundMsgs := {[i := ([], [])]} in
  upd_dkg_sessions (fun _ => {[sid := mkDkgSession {[1 := msgs; 2 := msgs; 3 := msgs; 4 := msgs]}]})
    (set_shard None (set_group_pubkey None Toy.world)).

Definition toy_sent (sid : string) (i : Z) (url : string) (key : NodeKey) (log : list kms_event) : Prop :=
  Forall (fun round => exists ct sig ts a, Ev (Grpc_dkg_round url (mkDkgRoundMsg sid round i [] ct) sig ts) a ∈ log /\
    open_p2p key ct = Ok []) [1; 2; 3; 4].

Lemma toy_authentic sid parties p q : p ∈ parties -> pt_id p <> pt_id q ->
  toy_sent sid (pt_id p) (pt_url q) (pt_key q) (pt_log p) -> authentic sid parties q (toy_buffers sid (pt_id p)).
Proof.
  intros Hp Hne Hs round msgs i b p2p Hm Hi. unfold toy_sent in Hs. rewrite Forall_forall in Hs.
  assert (round ∈ [1; 2; 3; 4] /\ msgs = {[pt_id p := ([], [])]}) as [Hr ->].
  { unfold round_msgs, toy_buffers in Hm. cbn in Hm. rewrite lookup_singleton_eq in Hm. cbn in Hm.
    repeat (apply lookup_insert_Some in Hm as [[<- <-]|[_ Hm]]; [split; [set_solver|done]|]).
    apply lookup_singleton_Some in Hm as [<- <-]. split; [set_solver|done]. }
  apply lookup_singleton_Some in Hi as [<- [= <- <-]]. destruct (Hs round Hr) as (ct & sig & ts & a & Hin & Ho).
  exists p, ct, sig, ts, a. split; [done|]. split; [done|]. split; [congruence|]. by split.
Qed.

Lemma toy_serde : gennaro_serde (G := toy_dkg).
Proof. repeat split; by intros [] b. Qed.

Lemma toy_dkg_honest : gennaro_honest (G := toy_dkg) (L := Toy.laws 1).
Proof.
  intros n ps ps' _ _ _ Hl. exists Byte.x07, [Byte.x07]. split; [done|]. apply Forall2_same_length_lookup_2.
  - symmetry. by apply drive_length.
  - intros i p p' _ _ s pk [= <-] [= <-]. done.
Qed.

(** Node [i]'s session, and its genesis, with the messages of node [j]. *)
Definition toy_run (key : NodeKey) (i j : Z) (peer : SessionPeer) :
    result (Scalar * bytes) string * exec World Call ans :=
  run Toy.idle (run_session (G := toy_dkg) key 1 "s" i [peer] (secs 60)) (start (toy_buffers "s" j) 0).

Definition toy_genesis (key : NodeKey) (i j : Z) (peer : SessionPeer) : result unit string * exec World Call ans :=
  run Toy.idle (run_genesis (G := toy_dkg) Toy.config key 1 i [peer] 2 2) (start (toy_buffers "genesis:kms" j) 0).

Abbreviation toy_peer1 := (mkSessionPeer 1 "http://n1" (Toy.pubkey Toy.sk1) 0).
Abbreviation toy_peer2 := (mkSessionPeer 2 "http://n2" (Toy.pubkey Toy.sk2) 0).

(** The messages are in the log where the runs put them. *)
Lemma toy_sent_at sid i url key log n1 n2 n3 n4 :
  Forall (fun '(round, k) => exists ct sig ts a,
    log !! k = Some (Ev (Grpc_dkg_round url (mkDkgRoundMsg sid round i [] ct) sig ts) a) /\ open_p2p key ct = Ok [])
    [(1, n1); (2, n2); (3, n3); (4, n4)] -> toy_sent sid i url key log.
Proof.
  intros H. unfold toy_sent. repeat (apply Forall_cons in H as [Hk H]; apply List.Forall_cons;
    [destruct Hk as (ct & sig & ts & a & Hk & Ho); exists ct, sig, ts, a; split; [by eapply list_elem_of_lookup_2|exact Ho]|clear Hk]).
  apply List.Forall_nil.
Qed.

Ltac find_messages :=
  repeat (apply List.Forall_cons; [eexists _, _, _, _; split; [vm_compute; reflexivity|vm_compute; reflexivity]|]);
  apply List.Forall_nil.

Lemma toy_runs_sent :
  toy_sent "s" 1 "http://n2" Toy.node2 (x_log (toy_run Toy.node1 1 2 toy_peer2).2) /\
  toy_sent "s" 2 "http://n1" Toy.node1 (x_log (toy_run Toy.node2 2 1 toy_peer1).2).
Proof. split; apply (toy_sent_at _ _ _ _ _ 2 4 6 8); find_messages. Qed.

Lemma toy_genesis_sent :
  toy_sent "genesis:kms" 1 "http://n2" Toy.node2 (x_log (toy_genesis Toy.node1 1 2 toy_peer2).2) /\
  toy_sent "genesis:kms" 2 "http://n1" Toy.node1 (x_log (toy_genesis Toy.node2 2 1 toy_peer1).2).
Proof. split; apply (toy_sent_at _ _ _ _ _ 3 5 7 9); find_messages. Qed.

(** Either node's buffers are authentic when the other's log has the messages. *)
Lemma toy_buffers_authentic sid e log1 log2 q :
  toy_sent sid 1 "http://n2" Toy.node2 log1 -> toy_sent sid 2 "http://n1" Toy.node1 log2 ->
  q ∈ toy_parties e log1 log2 -> authentic sid (toy_parties e log1 log2) q (toy_buffers sid (3 - pt_id q)).
Proof.
  intros H1 H2. unfold toy_parties at 1. intros [->|[->|[]%not_elem_of_nil]%elem_of_cons]%elem_of_cons.
  - eapply (toy_authentic sid _ (mkParty 2 _ _ _ _ log2)); [right; left|done|exact H2].
  - eapply (toy_authentic sid _ (mkParty 1 _ _ _ _ log1)); [left|done|exact H1].
Qed.

Definition toy_committee : list Party :=
  toy_parties 0 (x_log (toy_run Toy.node1 1 2 toy_peer2).2) (x_log (toy_run Toy.node2 2 1 toy_peer1).2).

Lemma toy_drives q : q ∈ toy_committee ->
  drives (G := toy_dkg) "s" toy_committee q (pt_id q) (secs 60) (Byte.x07, [Byte.x07]).
Proof.
  intros Hq. exists Toy.idle, 1%nat, (start (toy_buffers "s" (3 - pt_id q)) 0). split; [by intros n w H|].
  split; [destruct toy_runs_sent; by apply toy_buffers_authentic|]. unfold toy_committee, toy_parties in Hq.
  apply elem_of_cons in Hq as [->|[->|[]%not_elem_of_nil]%elem_of_cons]; cbn [pt_key pt_id pt_peers pt_log].
  - change (run _ _ _) with (toy_run Toy.node1 1 2 toy_peer2).
    assert ((toy_run Toy.node1 1 2 toy_peer2).1 = Ok (Byte.x07, [Byte.x07])) as E by (vm_compute; reflexivity).
    destruct (toy_run Toy.node1 1 2 toy_peer2) as [r y]. by split.
  - change (run _ _ _) with (toy_run Toy.node2 2 1 toy_peer1).
    assert ((toy_run Toy.node2 2 1 toy_peer1).1 = Ok (Byte.x07, [Byte.x07])) as E by (vm_compute; reflexivity).
    destruct (toy_run Toy.node2 2 1 toy_peer1) as [r y]. by split.
Qed.

Lemma sessions_refine_drive_witness :
  exists ps, drive (G := toy_dkg) (map pt_id toy_committee) = Ok ps /\
    map (fun p => (get_secret_share (Gennaro := toy_dkg) p, get_public_key (Gennaro := toy_dkg) p)) ps =
    map (fun q => (Some Byte.x07, Some [Byte.x07])) toy_committee.
Proof.
  apply (sessions_refine_drive (G := toy_dkg) "s" toy_committee (secs 60) pt_id (fun _ => (Byte.x07, [Byte.x07])));
    [apply toy_agreed|exact Toy.ecies_ok|exact Toy.ecies_nonempty_ok|exact toy_serde|].
  intros q Hq. split; [reflexivity|]. exact (toy_drives q Hq).
Defined.

Definition toy_founders : list Party :=
  toy_parties 0 (x_log (toy_genesis Toy.node1 1 2 toy_peer2).2) (x_log (toy_genesis Toy.node2 2 1 toy_peer1).2).

Definition toy_founded (q : Party) : exec World Call ans :=
  if pt_id q =? 1 then (toy_genesis Toy.node1 1 2 toy_peer2).2 else (toy_genesis Toy.node2 2 1 toy_peer1).2.

Lemma toy_completes q : q ∈ toy_founders ->
  completes (G := toy_dkg) (thr := 2) "kms" toy_founders q 2 (toy_founded q).
Proof.
  intros Hq. exists Toy.idle, Toy.config, 1%nat, (start (toy_buffers "genesis:kms" (3 - pt_id q)) 0). split; [done|].
  split; [by intros n w; split; [intros H|]|]. split; [destruct toy_genesis_sent; by apply toy_buffers_authentic|].
  unfold toy_founders, toy_parties in Hq.
  apply elem_of_cons in Hq as [->|[->|[]%not_elem_of_nil]%elem_of_cons]; cbn [pt_key pt_id pt_peers pt_log].
  - change (run _ _ _) with (toy_genesis Toy.node1 1 2 toy_peer2).
    change (toy_founded _) with (toy_genesis Toy.node1 1 2 toy_peer2).2.
    assert ((toy_genesis Toy.node1 1 2 toy_peer2).1 = Ok tt) as E by (vm_compute; reflexivity).
    destruct (toy_genesis Toy.node1 1 2 toy_peer2) as [r y]. cbn in E. by subst r.
  - change (run _ _ _) with (toy_genesis Toy.node2 2 1 toy_peer1).
    change (toy_founded _) with (toy_genesis Toy.node2 2 1 toy_peer1).2.
    assert ((toy_genesis Toy.node2 2 1 toy_peer1).1 = Ok tt) as E by (vm_compute; reflexivity).
    destruct (toy_genesis Toy.node2 2 1 toy_peer1) as [r y]. cbn in E. by subst r.
Qed.

Lemma genesis_establishes_the_committee_witness :
  exists d gpk, public_key_try gpk = Ok (group_key (ThresholdLaws := Toy.laws 1) d) /\
    forall q, q ∈ toy_founders -> member_after (L := Toy.laws 1) d gpk GENESIS_EPOCH q (x_st (toy_founded q)).
Proof.
  apply (genesis_establishes_the_committee (G := toy_dkg) (L := Toy.laws 1) "kms" toy_founders 2 toy_founded);
    [apply toy_agreed|exact Toy.ecies_ok|exact Toy.ecies_nonempty_ok|exact toy_serde|exact Toy.share_ok| |exact toy_dkg_honest|reflexivity|].
  - intros rng i t n p H. injection H as H. exact (eq_sym H).
  - intros q Hq. split; [|split; [exact I|exact (toy_completes q Hq)]].
    unfold toy_founders, toy_parties in Hq.
    apply elem_of_cons in Hq as [->|[->|[]%not_elem_of_nil]%elem_of_cons]; vm_compute; discriminate.
Defined.
