(* ===== verification/Reshare.v ===== *)
(** Recovery of a member without a share ([src/src/init.rs]): the member starts a reshare at
    the holders of the leading epoch, they deal their shares anew, and everybody adopts the
    result.  The runs of all the nodes are composed as in [Ceremony]; the theorem shows that
    the committee ends with a new dealing of the same master. *)
From S2P Require Import Base Threshold Prelude Prog State Externals Models Crypto Chain Auth Derive Membership Dkg Lifecycle Epoch Cluster Ceremony.
From Stdlib Require Import ZArith Lia.
From Stdlib.Strings Require Import Byte.
From stdpp Require Import base list gmap strings pretty relations sorting.
Local Open Scope Z_scope.

(** Carry an invariant over the interference so far. *)
Ltac carry HI := first [assumption | eapply HI; [eassumption|carry HI]].

(** ** What the protocol library promises *)

Section Laws.
Context {T : ThresholdScheme} {X : Externals T} {G : Gennaro T} {thr : nat} {L : ThresholdLaws T thr}.

(** The field of a share built from its parts. *)
Definition default_share_value : Prop := forall i v, share_value (default_share i v) = v.

(** The constructors make the participant with the identifier they are given. *)
Definition reshare_ids : Prop :=
  (forall rng i t n s ids k p, secret_with rng i t n s ids k = Ok p -> get_id p = i) /\
  (forall rng i t n p, refresh_new rng i t n = Ok p -> get_id p = i).

(** A participant that deals its share of [d] among the dealers [ids], and one that enters
    with nothing. *)
Definition enters (d : Dealing) (n : Z) (ids : list Z) (p : Participant) : Prop :=
  (exists rng k, ids !! k = Some (get_id p) /\
     secret_with rng (get_id p) (Z.of_nat thr) n (dealt d (Z.to_nat (get_id p)))
       (map (fun id => scalar_from (Z.to_nat id)) ids) k = Ok p) \/
  (get_id p ∉ ids /\ exists rng, refresh_new rng (get_id p) (Z.of_nat thr) n = Ok p).

(** Enough holders of [d] that deal together, with any members that hold nothing, end with a
    new dealing under the same group key. *)
Definition gennaro_reshare (d : Dealing) : Prop := forall n ids ps ps',
  NoDup ids -> (thr <= length ids)%nat -> NoDup (map get_id ps) -> (forall i, i ∈ ids -> i ∈ map get_id ps) ->
  (forall p, p ∈ ps -> enters d n ids p) -> drive ps = Ok ps' ->
  exists d' gpk, group_key d' = group_key d /\ public_key_try gpk = Ok (group_key d') /\ Forall2 (deals_to d' gpk) ps ps'.

End Laws.

(** ** The runs of the members *)

Section Members.
Context {T : ThresholdScheme} {X : Externals T} {G : Gennaro T} {thr : nat} {L : ThresholdLaws T thr}.
Context (n : Z) (nodes : list Address) (req : ReshareRequest) (parties : list Party) (d : Dealing) (gpk : bytes).

Abbreviation sid := (rr_session_id req).

(** The node list the registry has for the node's application. *)
Definition registered (config : Config) (app : string) (l : list Address) : Prop :=
  app = tapp_app_id (tapp config) -> l = nodes.

Definition registry_ok (config : Config) (c : Call) : ans c -> Prop :=
  registry_says (rpc_url (chain config)) (contract_address (chain config)) (registered config) c.

Definition participants : list Z :=
  if rr_recovering_id req =? 0 then rr_dealer_ids req else rr_dealer_ids req ++ [rr_recovering_id req].

(** A dealer's node: authentic buffers, the registered list, and the other participants known
    as they are. *)
Definition prepared (config : Config) (q : Party) (w : World) : Prop :=
  authentic sid parties q w /\
  vouched (rpc_url (chain config)) (contract_address (chain config)) (registered config) w /\
  resolve_ids nodes (peer_table w) (pt_id q) participants = Ok (pt_peers q).

(** The other tasks of a dealer's node, and of the recovering one. *)
Definition dealer_rely (config : Config) (q : Party) (w w' : World) : Prop :=
  (prepared config q w -> prepared config q w') /\ retains w w'.
Definition recovery_rely (q : Party) (w w' : World) : Prop := delivers sid parties q w w' /\ retains w w'.

#[global] Instance dealer_rely_preorder config q : PreOrder (dealer_rely config q).
Proof. split; [by intros w|]. intros w1 w2 w3 [A1 B1] [A2 B2]. split; [auto|by etrans]. Qed.
#[global] Instance recovery_rely_preorder q : PreOrder (recovery_rely q).
Proof. split; [by intros w|]. intros w1 w2 w3 [A1 B1] [A2 B2]. split; by etrans. Qed.

(** The request every [StartReshare] of the log carries. *)
Definition starts (c : Call) : ans c -> Prop :=
  match c with Grpc_start_reshare _ r _ _ => fun _ => r = req | _ => fun _ => True end.

(** A holder of its share of [d] was told to deal, and did. *)
Definition deals (q : Party) (y : exec World Call ans) : Prop :=
  exists (o : kms_oracle) config wakes x e pos,
    threshold (cluster config) = Z.of_nat thr /\ total_nodes (cluster config) = n /\
    position (is_self (pt_key q)) nodes = Some pos /\ pt_id q = Z.of_nat pos + 1 /\
    relies o (dealer_rely config q) /\ prepared config q (x_st x) /\ member_after d gpk e q (x_st x) /\ x_log x = [] /\
    run o (run_reshare_dealer config (pt_key q) wakes sid (rr_recovering_id req) (rr_dealer_ids req) (rr_epoch req)) x = (Ok tt, y) /\
    x_log y = pt_log q /\ Forall (ev_ok (registry_ok config)) (x_log y).

(** The member without a share ran its recovery, asking for [req]. *)
Definition recovers (q : Party) (y : exec World Call ans) : Prop :=
  exists (o : kms_oracle) config wakes x now table pos,
    let m := membership_of config nodes now table pos in
    threshold (cluster config) = Z.of_nat thr /\ total_nodes (cluster config) = n /\
    position (is_self (pt_key q)) nodes = Some pos /\ pt_id q = Z.of_nat pos + 1 /\ leading_dealers m = pt_peers q /\
    relies o (recovery_rely q) /\ authentic sid parties q (x_st x) /\ x_log x = [] /\
    run o (run_reshare_recovery config (pt_key q) wakes m) x = (Ok tt, y) /\
    x_log y = pt_log q /\ Forall (ev_ok starts) (x_log y).

(** *** A dealer *)

(** The dealer's invariant until it stores its new share. *)
Definition dealing (config : Config) (q : Party) (sh : ShardState) (w : World) : Prop :=
  prepared config q w /\ shard w = Some sh /\ group_pubkey w = Some gpk.

Lemma dealing_stable config q sh w w' : dealer_rely config q w w' -> dealing config q sh w -> dealing config q sh w'.
Proof. intros [Hp [Hs Hg]] (A & B & C). split; auto. Qed.

Lemma dealing_sessions config q sh u w :
  (authentic sid parties q w -> authentic sid parties q (upd_dkg_sessions u w)) ->
  dealing config q sh w -> dealing config q sh (upd_dkg_sessions u w).
Proof. intros Hu ((A & B & C) & D & E). split; [split; [by apply Hu|]|]; by destruct w. Qed.

Lemma dealing_core q sh w w' :
  outside_chain w w' -> authentic sid parties q w /\ resolve_ids nodes (peer_table w) (pt_id q) participants = Ok (pt_peers q) /\
    shard w = Some sh /\ group_pubkey w = Some gpk ->
  authentic sid parties q w' /\ resolve_ids nodes (peer_table w') (pt_id q) participants = Ok (pt_peers q) /\
    shard w' = Some sh /\ group_pubkey w' = Some gpk.
Proof.
  intros [Hc _]. unfold core in Hc. unfold authentic, round_msgs. injection Hc as Hs _ Hp Hd Hg _ _ _ _. by rewrite Hs, Hp, Hd, Hg.
Qed.

(** Reading the node list gives the registered one and leaves the dealer prepared. *)
Lemma dealing_list config q sh :
  safe (dealing config q sh) (registry_ok config) (node_list config) (fun r => forall l, r = Ok l -> l = nodes).
Proof.
  unfold node_list. apply safe_bind. eapply safe_mono.
  - eapply safe_equiv; [|apply (safe_frame _ _ _ _ _ (guar_mono _ _ _ (dealing_core q sh) (get_signer_addresses_frame _ _ _))
      (get_signer_addresses_vouched _ _ _ _))]. intros w. unfold dealing, prepared. tauto.
  - intros [l|] Hl; cbn; [|done]. intros l' [= <-]. by apply (Hl l).
Qed.

Lemma dealing_peers config q sh :
  safe (dealing config q sh) (registry_ok config) (resolve_peers config participants (pt_id q))
    (fun r => forall peers, r = Ok peers -> peers = pt_peers q).
Proof.
  unfold resolve_peers. safe_seq. eapply safe_mono; [apply dealing_list|]. intros [l|] Hl; [|done]. rewrite (Hl l eq_refl).
  safe_seq. intros w Hw. split; [done|]. apply safe_ret. destruct Hw as ((_ & _ & ->) & _). by intros peers [= <-].
Qed.

Lemma calm_resolve config ids own : emits no_session_call (fun _ _ => True) (resolve_peers config ids own) (fun _ => True).
Proof. unfold resolve_peers, node_list. repeat (emits_step || apply calm_get_signer_addresses). Qed.

Lemma calm_list config : emits no_session_call (fun _ _ => True) (node_list config) (fun _ => True).
Proof. unfold node_list. apply emits_bind_any; [apply calm_get_signer_addresses|done]. Qed.

(** A call of the dealer's before its session. *)
Lemma dealing_call {A B} (OK : forall c, ans c -> Prop) config q sh (p : kms (result A string)) (f : A -> kms (result B string)) (V : A -> Prop)
    (Q : result B string -> World -> Z -> list kms_event -> Prop) s t log0 log :
  (forall c a, OK c a -> registry_ok config c a) -> emits no_session_call (fun _ _ => True) p (fun _ => True) ->
  safe (dealing config q sh) (registry_ok config) p (fun r => forall a, r = Ok a -> V a) ->
  dealing config q sh s -> adds not_sent log0 log ->
  (forall a s' t' log', dealing config q sh s' -> V a -> adds not_sent log0 log' ->
     wp (dealer_rely config q) (f a) (fun r s t log => Forall (ev_ok OK) log -> Q r s t log) s' t' log') ->
  (forall e s' t' log', Q (Err e) s' t' log') ->
  wp (dealer_rely config q) (bind_ok p f) (fun r s t log => Forall (ev_ok OK) log -> Q r s t log) s t log.
Proof.
  intros HOK Hc Hs%(safe_ok_mono _ _ OK _ _ HOK) Hd Ha Hf HQ. apply wp_bind_ok; [apply _|]. eapply wp_mono.
  2: { apply wp_conj; [apply (wp_emits _ no_session_call _ _ _ _ Hc)|].
       exact (wp_safe (dealer_rely config q) _ _ _ _ _ t log (dealing_stable config q sh) Hd Hs). }
  intros r s' t' log' [Hadd Hok]. cbv beta in Hok. destruct r as [a|e]; [|by intros s2 t2 _ _ _].
  apply wp_assume. intros [Hd' Hv]%Hok. apply Hf; [done|by apply Hv|].
  eapply adds_trans; [exact Ha|]. eapply adds_mono; [|exact Hadd]. by intros [[] b].
Qed.

(** What a dealer leaves behind, and the session it comes from. *)
Definition dealt_anew (q : Party) (w : World) (log log' : list kms_event) : Prop :=
  exists rng k part share, rr_dealer_ids req !! k = Some (pt_id q) /\
    secret_with rng (pt_id q) (Z.of_nat thr) n (dealt d (Z.to_nat (pt_id q)))
      (map (fun id => scalar_from (Z.to_nat id)) (rr_dealer_ids req)) k = Ok part /\
    session_run sid (authentic sid parties q) part (pt_peers q) log log' share gpk /\
    adopted (rr_epoch req) q share gpk w.

Lemma session_run_weaken (I J : World -> Prop) part peers log log' share pk :
  (forall w, I w -> J w) -> session_run sid I part peers log log' share pk -> session_run sid J part peers log log' share pk.
Proof.
  intros HIJ (tr & y & enc & Hp & Hs & Hr & H). exists tr, y, enc. split; [done|]. split; [done|]. split; [|done].
  eapply Forall_impl; [exact Hr|]. intros [r m] [Hc (w & Hw & Hm)]. split; [done|]. exists w. auto.
Qed.

Lemma ok_or_Ok {A E} (o : option A) (e : E) a : ok_or o e = Ok a -> o = Some a.
Proof. destruct o; cbn; congruence. Qed.

(** A session whose result the node adopts, if it is of the master the node has on record. *)
Lemma session_adopts R `{!PreOrder R} (I : World -> Prop) q config wakes part e known msg s t log :
  (forall w w', R w w' -> I w -> I w') -> (forall w w', R w w' -> retains w w') ->
  (forall w, I w -> I (upd_dkg_sessions (touch_session sid) w)) -> (forall w, I w -> I (upd_dkg_sessions (delete sid) w)) ->
  (forall w, I w -> authentic sid parties q w /\ (known = None \/ group_pubkey w = known)) -> I s ->
  wp R (let!? (share, pk) := run_session (pt_key q) wakes sid part (pt_peers q) DKG_ROUND_TIMEOUT in
        let! w := get in
        if negb (master_preserved (group_pubkey w) pk) then Ret (Err msg)
        else
          store_share config (pt_key q)
            (mkShardState (pt_id q) (share_to_bytes (gennaro_share_to_blsful (Z.to_nat (pt_id q)) share)) e) pk;;;
          Ret (Ok tt))
    (fun r s' _ log' => r = Ok tt -> exists share pk,
       session_run sid (authentic sid parties q) part (pt_peers q) log log' share pk /\ adopted e q share pk s' /\
       (known = None \/ known = Some pk)) s t log.
Proof.
  intros HI HR Ht Hd Hk Hs. eapply wp_ok_call with (I := fun _ => True); [apply _| | |done].
  { eapply wp_mono; [|apply (run_session_spec (pt_key q) sid R I HI Ht Hd); exact Hs]. intros ? ? ? ? Hr. split; [done|exact Hr]. }
  intros [share pk] s1 t1 log1 _ Hsess. destruct (Hsess _ _ eq_refl) as [I1 Hrun]. clear Hsess.
  do 2 wp_step. match goal with |- context [master_preserved (group_pubkey ?w) pk] => assert (I w) as I2 by eauto end.
  destruct (master_preserved _ pk) eqn:Em; cbn [negb]; [|by wp_step].
  wp_step. eapply wp_mono; [|eapply wp_rely_mono; [exact HR|apply store_share_stores]].
  intros [] s4 t4 log4 (A4 & Hsh & Hpk). wp_step. intros _. match goal with H : R s4 _ |- _ => apply HR in H as [R1 R2] end.
  exists share, pk. split; [|split; [split; [by apply R1|by apply R2]|]].
  - eapply session_run_extend; [apply adds_refl| |exact A4]. eapply session_run_weaken; [|exact Hrun]. intros w Hw. by apply Hk.
  - destruct (Hk _ I2) as [_ [->|Hg]]; [by left|]. rewrite Hg in Em. destruct known as [g|]; [|by left]. right.
    by apply bool_decide_eq_true_1 in Em as ->.
Qed.

Lemma dealer_spec config q wakes pos sh s t log :
  default_share_value ->
  threshold (cluster config) = Z.of_nat thr -> total_nodes (cluster config) = n ->
  position (is_self (pt_key q)) nodes = Some pos -> pt_id q = Z.of_nat pos + 1 -> shard_index sh = pt_id q ->
  holds (fun _ => d) s sh -> dealing config q sh s ->
  wp (dealer_rely config q)
    (run_reshare_dealer config (pt_key q) wakes sid (rr_recovering_id req) (rr_dealer_ids req) (rr_epoch req))
    (fun r s' _ log' => Forall (ev_ok (registry_ok config)) log' -> r = Ok tt -> dealt_anew q s' log log') s t log.
Proof.
  intros Hv Hthr Hn Hpos Hid Hsh (_ & _ & _ & Hshare) Hd. unfold run_reshare_dealer. rewrite Hthr, Hn.
  eapply (dealing_call _ config q sh _ _ (fun l => l = nodes)); [done|apply calm_list|apply dealing_list|exact Hd|apply adds_refl| |done].
  intros ? s1 t1 log1 D1 -> A1. rewrite Hpos. cbn [ok_or].
  eapply (wp_ok_pure _ (dealing config q sh)); [exact D1| |done]. intros pos' s2 t2 D2 [= <-]. cbv zeta. rewrite <-Hid.
  eapply (wp_ok_pure _ (dealing config q sh)); [exact D2| |done]. intros k s3 t3 D3 Hk%ok_or_Ok.
  do 2 wp_step. destruct (_ <=? _); [by wp_step|]. do 2 wp_step.
  repeat match goal with
    Hr : dealer_rely config q ?w ?w', Hw : dealing config q sh ?w |- _ => pose proof (dealing_stable _ _ _ _ _ Hr Hw); clear Hr end.
  match goal with Hw : dealing config q sh ?w |- context [ok_or (shard ?w) _] => destruct Hw as (_ & -> & _) end.
  match goal with Hw : dealing config q sh ?w |- wp _ _ _ ?w _ _ => rename Hw into D4 end.
  eapply (wp_ok_pure _ (dealing config q sh)); [exact D4| |done]. intros ? s5 t5 D5 [= <-]. rewrite Hshare.
  eapply (wp_ok_pure _ (dealing config q sh)); [exact D5| |done]. intros ? s6 t6 D6 [= <-].
  unfold blsful_share_scalar, gennaro_share_to_blsful. rewrite Hv, Hsh.
  eapply (dealing_call _ config q sh _ _ (fun peers => peers = pt_peers q));
    [done|apply calm_resolve|apply dealing_peers|exact D6|exact A1| |done]. intros ? s7 t7 log7 D7 -> A7.
  eapply (wp_ok_pure _ (dealing config q sh)); [exact D7| |done]. intros _ s8 t8 D8 _. do 2 wp_step.
  eapply (wp_ok_pure _ (dealing config q sh)); [by repeat (eapply dealing_stable; [eassumption|])| |done].
  intros part s9 t9 D9 Hp%map_err_Ok. eapply wp_mono.
  2: { apply (session_adopts (dealer_rely config q) (dealing config q sh) q config wakes part (rr_epoch req) (Some gpk)); [..|exact D9].
       - intros w w'. apply dealing_stable.
       - by intros w w' [_ ?].
       - intros w. apply dealing_sessions, authentic_touch.
       - intros w. apply dealing_sessions, authentic_drop.
       - intros w ((? & _) & _ & ?). split; [done|by right]. }
  intros r s10 t10 log10 Hdone _ Hr. destruct (Hdone Hr) as (share & pk & Hsess & Had & [|[= <-]]); [done|].
  apply position_Some in Hk as (i & Hk & Hi%Z.eqb_eq & _). subst i.
  eexists _, k, part, share. split; [done|]. split; [exact Hp|]. split; [|done].
  eapply session_run_extend; [|exact Hsess|apply adds_refl]. eapply adds_trans; [exact A7|]. by apply adds_one.
Qed.

(** *** The recovering member *)

(** The requests go to every dealer, and nothing else does. *)
Lemma start_sends R `{!PreOrder R} (I : World -> Prop) peers sid rid ids e sig ts s t log :
  (forall w w', R w w' -> I w -> I w') -> I s ->
  wp R (for_each peers (fun peer => send_start_reshare (sp_grpc_url peer) sid rid ids e sig ts;;; Ret tt))
    (fun _ s' _ log' => I s' /\ adds not_sent log log' /\
       forall peer, peer ∈ peers -> exists a,
         Ev (Grpc_start_reshare (sp_grpc_url peer) (mkReshareRequest sid rid ids e) sig ts) a ∈ log') s t log.
Proof.
  intros HI. revert s t log. induction peers as [|p peers IH]; intros s t log Hs; cbn [for_each].
  { wp_step. split; [by eapply HI|]. split; [apply adds_refl|set_solver]. }
  unfold send_start_reshare. repeat wp_step. eapply wp_mono; [|apply IH; carry HI].
  intros [] s1 t1 log1 (I1 & A1 & Hall). split; [done|]. split; [eapply adds_trans; [|exact A1]; by apply adds_one|].
  intros peer [->|Hp]%elem_of_cons; [|by apply Hall]. eexists. eapply elem_of_prefix; [|by eapply adds_prefix].
  apply elem_of_app. right. by apply list_elem_of_singleton.
Qed.

(** What the recovery leaves behind, and the session it comes from. *)
Definition recovered (q : Party) (w : World) (log log' : list kms_event) : Prop :=
  rr_dealer_ids req = merge_sort Z.le (map sp_id (pt_peers q)) /\ (1 <= thr <= length (pt_peers q))%nat /\
  exists rng part share pk, refresh_new rng (pt_id q) (Z.of_nat thr) n = Ok part /\
    session_run sid (authentic sid parties q) part (pt_peers q) log log' share pk /\ adopted (rr_epoch req) q share pk w.

Lemma recovery_spec config q wakes m s t log :
  m_own_id m = pt_id q -> m_threshold m = Z.of_nat thr -> m_total m = n -> leading_dealers m = pt_peers q ->
  authentic sid parties q s ->
  wp (recovery_rely q) (run_reshare_recovery config (pt_key q) wakes m)
    (fun r s' _ log' => Forall (ev_ok starts) log' -> r = Ok tt -> recovered q s' log log') s t log.
Proof.
  intros Hid Hthr Hn Hlead Ha. unfold run_reshare_recovery. rewrite Hid, Hthr, Hn, Hlead.
  assert (forall w w', recovery_rely q w w' -> authentic sid parties q w -> authentic sid parties q w') as HR by (by intros w w' [H _]).
  eapply (wp_ok_pure _ (authentic sid parties q)); [exact Ha| |done]. intros [] s1 t1 A1 Hgate. unfold read_known_epoch. repeat wp_step.
  destruct (sign_request _ _ _) as [sig|]; [|by wp_step]. wp_step.
  eapply wp_mono; [|apply (start_sends _ (authentic sid parties q)); [exact HR|carry HR]].
  match goal with |- context [adds not_sent ?l _] => assert (adds not_sent log l) as L1
    by (eapply adds_trans; by apply adds_one) end.
  intros [] s2 t2 log2 (A2 & L2 & Hstart). eapply (wp_ok_pure _ (authentic sid parties q)); [exact A2| |done].
  intros [] s3 t3 A3 Hpar. apply wp_assume. intros Hlog.
  assert (1 <= thr <= length (pt_peers q))%nat as Hlen.
  { unfold check_params in Hpar. unfold recovery_gates in Hgate. destruct (Z.of_nat thr =? 0) eqn:E0; [done|].
    destruct (_ <? Z.of_nat thr) eqn:E1; [done|]. lia. }
  destruct (pt_peers q) as [|peer0 peers] eqn:Ep; [cbn in Hlen; lia|]. rewrite <-Ep in *.
  destruct (Hstart peer0) as [a1 Hev]; [rewrite Ep; left|]. rewrite Forall_forall in Hlog. apply Hlog in Hev. cbn in Hev.
  match type of Hev with mkReshareRequest ?i ?r ?l ?x = _ =>
    assert (i = sid /\ l = rr_dealer_ids req /\ x = rr_epoch req) as (-> & Hids & ->) by (by rewrite <-Hev) end.
  do 2 wp_step. eapply (wp_ok_pure _ (authentic sid parties q)); [carry HR| |done].
  intros part s4 t4 A4 Hp%map_err_Ok. eapply wp_mono.
  2: { apply (session_adopts (recovery_rely q) (authentic sid parties q) q config wakes part (rr_epoch req) None); [..|exact A4].
       - exact HR.
       - by intros w w' [_ ?].
       - intros w. apply authentic_touch.
       - intros w. apply authentic_drop.
       - intros w Hw. split; [done|by left]. }
  intros r s5 t5 log5 Hdone _ Hr. destruct (Hdone Hr) as (share & pk & Hsess & Had & _).
  split; [done|]. split; [lia|]. eexists _, part, share, pk. split; [exact Hp|]. split; [|done].
  eapply session_run_extend; [|exact Hsess|apply adds_refl]. eapply adds_trans; [exact L1|].
  eapply adds_trans; [exact L2|]. by apply adds_one.
Qed.

(** A node is not among its own peers. *)
Lemma not_own_dealer config l now table pos p :
  p ∈ leading_dealers (membership_of config l now table pos) -> sp_id p <> Z.of_nat pos + 1.
Proof.
  unfold leading_dealers, live_dealers, membership_of. pose proof (scan_members_spec table now (Z.of_nat pos + 1) 0 l) as H.
  destruct (scan_members _ _ _ _ _) as [peers all]. destruct H as [Hok _]. cbn [m_peers].
  intros [[Hp _]%List_filter_elem _]%List_filter_elem. rewrite Forall_forall in Hok. by destruct (Hok p Hp) as (k & a & info & _ & _ & ? & _).
Qed.

Lemma recovers_ok q y : recovers q y -> recovered q (x_st y) [] (pt_log q) /\ pt_id q ∉ map sp_id (pt_peers q).
Proof.
  intros (o & config & wakes & x & now & table & pos & Hthr & Hn & Hpos & Hid & Hlead & Ho & Ha & Hlog & Hrun & Hend & Hstart). split.
  - pose proof (wp_sound _ o _ _ x Ho (recovery_spec config q wakes (membership_of config nodes now table pos) _ (x_now x) (x_log x)
      ltac:(unfold membership_of; destruct (scan_members _ _ _ _ _); cbn; congruence)
      ltac:(unfold membership_of; destruct (scan_members _ _ _ _ _); cbn; congruence)
      ltac:(unfold membership_of; destruct (scan_members _ _ _ _ _); cbn; congruence) Hlead Ha)) as Hw.
    rewrite Hrun, Hlog in Hw. cbn [fst snd] in Hw. rewrite Hend in Hw, Hstart. by apply Hw.
  - rewrite <-Hlead, Hid. intros (p & Hp & Hin)%list_elem_of_fmap. symmetry in Hp. by eapply not_own_dealer.
Qed.

Lemma deals_ok q y : default_share_value -> deals q y -> dealt_anew q (x_st y) [] (pt_log q).
Proof.
  intros Hv (o & config & wakes & x & e & pos & Hthr & Hn & Hpos & Hid & Ho & Hp & (Hg & sh & Hi & _ & Hh) & Hlog & Hrun & Hend & Hok).
  pose proof (wp_sound _ o _ _ x Ho (dealer_spec config q wakes pos sh _ (x_now x) (x_log x) Hv Hthr Hn Hpos Hid Hi Hh
    ltac:(split; [exact Hp|split; [apply Hh|exact Hg]]))) as Hw.
  rewrite Hrun, Hlog in Hw. cbn [fst snd] in Hw. rewrite Hend in Hw, Hok. by apply Hw.
Qed.

End Members.

(** ** The committee *)

Section Redeal.
Context {T : ThresholdScheme} {X : Externals T} {G : Gennaro T} {thr : nat} {L : ThresholdLaws T thr}.
Context (n : Z) (req : ReshareRequest) (parties : list Party) (d : Dealing) (gpk : bytes).
Context (fin : Party -> exec World Call ans).
Context (Hagree : committee_agreed parties) (Hids : reshare_ids).

(** How each party enters the session. *)
Definition role (q : Party) (p : Participant) : Prop :=
  (exists rng k, rr_dealer_ids req !! k = Some (pt_id q) /\
     secret_with rng (pt_id q) (Z.of_nat thr) n (dealt d (Z.to_nat (pt_id q)))
       (map (fun id => scalar_from (Z.to_nat id)) (rr_dealer_ids req)) k = Ok p) \/
  (pt_id q ∉ rr_dealer_ids req /\ exists rng, refresh_new rng (pt_id q) (Z.of_nat thr) n = Ok p).

(** The party entered in its role, and adopted what its session ended with. *)
Definition had_role (q : Party) : Prop := exists part share pk,
  role q part /\ get_id part = pt_id q /\
  session_run (rr_session_id req) (authentic (rr_session_id req) parties q) part (pt_peers q) [] ([] ++ pt_log q) share pk /\
  adopted (rr_epoch req) q share pk (x_st (fin q)).

Lemma dealer_role q : dealt_anew n req parties d gpk q (x_st (fin q)) [] (pt_log q) -> had_role q.
Proof.
  intros (rng & k & part & share & Hk & Hp & Hs & Ha). destruct Hids as [Hi _].
  exists part, share, gpk. split; [left; eauto|]. split; [by eapply Hi|done].
Qed.

Lemma recovering_role q : recovered (thr := thr) n req parties q (x_st (fin q)) [] (pt_log q) -> pt_id q ∉ rr_dealer_ids req -> had_role q.
Proof.
  intros (_ & _ & rng & part & share & pk & Hp & Hs & Ha) Hni. destruct Hids as [_ Hi].
  exists part, share, pk. split; [right; eauto|]. split; [by eapply Hi|done].
Qed.

(** The runs of parties in their roles, a dealer among them, are one reshare of the dealing. *)
Lemma redeals qd : ecies_roundtrip X -> ecies_nonempty X -> gennaro_serde -> share_roundtrip X -> gennaro_reshare d ->
  (forall q, q ∈ parties -> 0 <= pt_id q /\ valid_id (Z.to_nat (pt_id q))) ->
  NoDup (rr_dealer_ids req) -> (thr <= length (rr_dealer_ids req))%nat ->
  (forall i, i ∈ rr_dealer_ids req -> i ∈ map pt_id parties) -> (forall q, q ∈ parties -> had_role q) ->
  qd ∈ parties -> group_pubkey (x_st (fin qd)) = Some gpk ->
  exists d', group_key d' = group_key d /\ public_key_try gpk = Ok (group_key d) /\
    forall q, q ∈ parties -> member_after d' gpk (rr_epoch req) q (x_st (fin q)).
Proof.
  intros Hec Hne Hs Hshare Hlaw Hval Hnd Hlen Hex Hrole Hqd Hpk.
  destruct (committee_adopts (rr_session_id req) parties (rr_epoch req) role (fun d' => group_key d' = group_key d)
    (fun q => x_st (fin q)) Hagree Hec Hne Hs Hshare) as (d' & gpk' & Hd & Hg & Hall).
  - intros q Hq. destruct (Hval q Hq) as [H0 Hv]. split; [done|]. split; [done|].
    destruct (Hrole q Hq) as (part & share & pk & H). by exists part, share, pk, [].
  - intros ps ps' Hmap Hps Hdrive. destruct (Hlaw n (rr_dealer_ids req) ps ps' Hnd Hlen) as (d' & g & ? & ? & ?); [| | |done|by exists d', g].
    + rewrite Hmap. by destruct Hagree.
    + by rewrite Hmap.
    + intros p Hp. destruct (Hps p Hp) as (q & _ & E & Hr). unfold enters, role in *. by rewrite E.
  - assert (gpk' = gpk) as -> by (destruct (Hall qd Hqd) as [Hpk' _]; congruence). exists d'. split; [done|]. by rewrite <-Hd.
Qed.

End Redeal.

Section Committee.
Context {T : ThresholdScheme} {X : Externals T} {G : Gennaro T} {thr : nat} {L : ThresholdLaws T thr}.
Context (n : Z) (nodes : list Address) (req : ReshareRequest) (parties : list Party) (q0 : Party) (d : Dealing) (gpk : bytes).
Context (fin : Party -> exec World Call ans).

Context (Hq0 : q0 ∈ parties) (Hagree : committee_agreed parties) (Hids : reshare_ids).
Context (Hrec : recovered (thr := thr) n req parties q0 (x_st (fin q0)) [] (pt_log q0)) (Hself : pt_id q0 ∉ map sp_id (pt_peers q0)).
Context (Hdeal : forall q, q ∈ parties -> pt_id q <> pt_id q0 -> dealt_anew n req parties d gpk q (x_st (fin q)) [] (pt_log q)).

Lemma dealer_ids_spec : NoDup (rr_dealer_ids req) /\ (1 <= thr <= length (rr_dealer_ids req))%nat /\
  pt_id q0 ∉ rr_dealer_ids req /\ forall i, i ∈ rr_dealer_ids req -> exists q, q ∈ parties /\ pt_id q <> pt_id q0 /\ pt_id q = i.
Proof.
  destruct Hrec as (Hl & Hlen & _). destruct Hagree as (_ & _ & Hall). destruct (Hall q0 Hq0) as (_ & Hnd & Hdesc & _).
  assert (rr_dealer_ids req ≡ₚ map sp_id (pt_peers q0)) as Hp by (rewrite Hl; apply merge_sort_Permutation).
  rewrite Hp. split; [done|]. split; [by rewrite length_map|]. split; [done|]. intros i Hi. rewrite Hp in Hi.
  apply list_elem_of_fmap in Hi as (peer & -> & Hpeer). destruct (Hdesc peer Hpeer) as (q & Hq & Hid & _).
  exists q. split; [done|]. split; [|done]. intros E. destruct Hself. rewrite <-E, <-Hid. by apply list_elem_of_fmap_2.
Qed.

Lemma recovery_redeals : ecies_roundtrip X -> ecies_nonempty X -> gennaro_serde -> share_roundtrip X -> gennaro_reshare d ->
  (forall q, q ∈ parties -> 0 <= pt_id q /\ valid_id (Z.to_nat (pt_id q))) ->
  exists d', group_key d' = group_key d /\ public_key_try gpk = Ok (group_key d) /\
    forall q, q ∈ parties -> member_after d' gpk (rr_epoch req) q (x_st (fin q)).
Proof.
  intros Hec Hne Hs Hshare Hlaw Hval. destruct dealer_ids_spec as (Hnd & Hlen & Hni & Hex).
  destruct (rr_dealer_ids req) as [|i ids] eqn:El; [cbn in Hlen; lia|]. destruct (Hex i) as (qd & Hqd & Hn & _); [left|].
  rewrite <-El in *. eapply (redeals n req parties d gpk fin Hagree qd); try done; [lia| | |].
  - intros j Hj. destruct (Hex j Hj) as (q & Hq & _ & <-). by apply list_elem_of_fmap_2.
  - intros q Hq. destruct (decide (pt_id q = pt_id q0)) as [E|Hne']; [|by apply (dealer_role n req parties d gpk fin Hids), Hdeal].
    destruct Hagree as (Hnd' & _). rewrite (NoDup_map_inj _ _ Hnd' _ _ Hq Hq0 E). by apply recovering_role.
  - by destruct (Hdeal qd Hqd Hn) as (_ & _ & _ & _ & _ & _ & _ & _ & Hpk).
Qed.

End Committee.

(** C7: a recovery restores the member and keeps the master.  A member without a share runs
    its recovery; the holders of the leading epoch it asked run as dealers of that request;
    messages arrive as they were sent, the registry answers with one node list, and nobody
    else replaces a share meanwhile.  If all of them end well, there is a new dealing under
    the same group key of which everybody, the recovered member included, holds its own
    share, under its own index and the new epoch, with the master the dealers had on record.
    That the dealers are distinct, enough, and none of them the recovering member is what the
    code establishes, not an assumption. *)
Theorem recovery_restores_the_member {T : ThresholdScheme} {X : Externals T} {G : Gennaro T} {thr : nat}
    {L : ThresholdLaws T thr} n nodes req parties q0 d gpk (fin : Party -> exec World Call ans) :
  committee_agreed parties -> ecies_roundtrip X -> ecies_nonempty X -> gennaro_serde -> share_roundtrip X ->
  default_share_value -> reshare_ids -> gennaro_reshare d ->
  (forall q, q ∈ parties -> 0 <= pt_id q /\ valid_id (Z.to_nat (pt_id q))) ->
  q0 ∈ parties -> recovers (thr := thr) n nodes req parties q0 (fin q0) ->
  (forall q, q ∈ parties -> pt_id q <> pt_id q0 -> deals n nodes req parties d gpk q (fin q)) ->
  exists d', group_key d' = group_key d /\ public_key_try gpk = Ok (group_key d) /\
    forall q, q ∈ parties -> member_after d' gpk (rr_epoch req) q (x_st (fin q)).
Proof.
  intros Hag Hec Hne Hs Hshare Hv Hids Hlaw Hval Hq0 [Hrec Hself]%recovers_ok Hdeal.
  eapply recovery_redeals; eauto. intros q Hq Hn. by apply (deals_ok n nodes), Hdeal.
Qed.

(** ** Two nodes *)

(** The application of [Toy.config] with threshold one. *)
Definition toy_config : Config :=
  let c := cluster Toy.config in
  Build_Config (server Toy.config) (tapp Toy.config) (chain Toy.config)
    (Build_ClusterConfig 1 2 (bootstrap c) (self_url c) (seeds c) (cfg_sealed_share c) (cfg_sealed_share_path c)) (verifier Toy.config).

Definition toy_request : ReshareRequest := mkReshareRequest "reshare:kms:4:1000" 2 [1] 4.

(** Node 1 holds its share of epoch 3; node 2 has none and sees node 1. *)
Definition toy_holder : World :=
  set_shard (Some Toy.share1) (set_group_pubkey (Some Toy.group) (toy_buffers (rr_session_id toy_request) 2)).

Definition toy_table : gmap Address PeerInfo :=
  {[eth_address Toy.node1 := mkPeerInfo "http://n1" 1000 (Toy.pubkey Toy.sk1) 3 Toy.group]}.

Definition toy_deal : result unit string * exec World Call ans :=
  run Toy.idle (run_reshare_dealer (G := toy_dkg) toy_config Toy.node1 1 "reshare:kms:4:1000" 2 [1] 4) (start toy_holder 0).

Definition toy_recover : result unit string * exec World Call ans :=
  run Toy.idle (run_reshare_recovery (G := toy_dkg) toy_config Toy.node2 1 (membership_of toy_config Toy.members 1000 toy_table 1))
    (start (toy_buffers (rr_session_id toy_request) 1) 0).

Definition toy_members : list Party := toy_parties 3 (x_log toy_deal.2) (x_log toy_recover.2).
Definition toy_after (q : Party) : exec World Call ans := if pt_id q =? 1 then toy_deal.2 else toy_recover.2.

Lemma toy_reshare_sent :
  toy_sent (rr_session_id toy_request) 1 "http://n2" Toy.node2 (x_log toy_deal.2) /\
  toy_sent (rr_session_id toy_request) 2 "http://n1" Toy.node1 (x_log toy_recover.2).
Proof. split; [apply (toy_sent_at _ _ _ _ _ 3 5 7 9)|apply (toy_sent_at _ _ _ _ _ 6 8 10 12)]; find_messages. Qed.

Lemma toy_members_authentic q : q ∈ toy_members ->
  authentic (rr_session_id toy_request) toy_members q (toy_buffers (rr_session_id toy_request) (3 - pt_id q)).
Proof. destruct toy_reshare_sent. by apply toy_buffers_authentic. Qed.

Lemma toy_ids : reshare_ids (G := toy_dkg).
Proof. split; [intros rng i t n s ids k p H|intros rng i t n p H]; injection H as H; exact (eq_sym H). Qed.

Lemma toy_reshares : gennaro_reshare (G := toy_dkg) (L := Toy.laws 0) Byte.x07.
Proof.
  intros n ids ps ps' _ _ _ _ _ Hl. exists Byte.x07, [Byte.x07]. split; [done|]. split; [done|]. apply Forall2_same_length_lookup_2.
  - symmetry. by apply drive_length.
  - intros i p p' _ _ s pk [= <-] [= <-]. done.
Qed.

Lemma toy_recovers : recovers (G := toy_dkg) (thr := 1) 2 Toy.members toy_request toy_members
  (mkParty 2 Toy.node2 (Toy.pubkey Toy.sk2) "http://n2" [mkSessionPeer 1 "http://n1" (Toy.pubkey Toy.sk1) 3] (x_log toy_recover.2)) toy_recover.2.
Proof.
  exists Toy.idle, toy_config, 1%nat, (start (toy_buffers (rr_session_id toy_request) 1) 0), 1000, toy_table, 1%nat.
  split; [done|]. split; [done|]. split; [vm_compute; reflexivity|]. split; [done|]. split; [vm_compute; reflexivity|].
  split; [by intros n w; split; [intros H|]|]. split; [apply (toy_members_authentic (mkParty 2 _ _ _ _ _)); right; left|].
  split; [done|]. split; [|split; [done|]].
  - cbn [pt_key]. change (run _ _ _) with toy_recover. assert (toy_recover.1 = Ok tt) as E by (vm_compute; reflexivity).
    destruct toy_recover as [r y]. cbn in E. by subst r.
  - vm_compute. repeat constructor.
Qed.

Lemma toy_deals : deals (G := toy_dkg) (L := Toy.laws 0) 2 Toy.members toy_request toy_members Byte.x07 Toy.group
  (mkParty 1 Toy.node1 (Toy.pubkey Toy.sk1) "http://n1" [mkSessionPeer 2 "http://n2" (Toy.pubkey Toy.sk2) 3] (x_log toy_deal.2)) toy_deal.2.
Proof.
  exists Toy.idle, toy_config, 1%nat, (start toy_holder 0), 3, 0%nat.
  split; [done|]. split; [done|]. split; [vm_compute; reflexivity|]. split; [done|].
  split; [by intros n w; split; [intros H|]|]. split; [split; [|split]|].
  - exact (toy_members_authentic (mkParty 1 _ _ _ _ _) ltac:(left)).
  - intros app e H Ha. unfold toy_holder in H. cbn in H. apply lookup_singleton_Some in H as [_ <-]. done.
  - vm_compute. reflexivity.
  - split; [split; [done|]; exists Toy.share1; by repeat split|]. split; [done|]. split; [|split; [done|]].
    + cbn [pt_key]. change (run _ _ _) with toy_deal. assert (toy_deal.1 = Ok tt) as E by (vm_compute; reflexivity).
      destruct toy_deal as [r y]. cbn in E. by subst r.
    + vm_compute. repeat constructor.
Qed.

Lemma recovery_restores_the_member_witness :
  exists d', group_key (ThresholdLaws := Toy.laws 0) d' = Byte.x07 /\ public_key_try Toy.group = Ok Byte.x07 /\
    forall q, q ∈ toy_members -> member_after (L := Toy.laws 0) d' Toy.group 4 q (x_st (toy_after q)).
Proof.
  apply (recovery_restores_the_member (G := toy_dkg) (L := Toy.laws 0) 2 Toy.members toy_request toy_members
    (mkParty 2 Toy.node2 (Toy.pubkey Toy.sk2) "http://n2" [mkSessionPeer 1 "http://n1" (Toy.pubkey Toy.sk1) 3] (x_log toy_recover.2))
    Byte.x07 Toy.group toy_after);
    [apply toy_agreed|exact Toy.ecies_ok|exact Toy.ecies_nonempty_ok|exact toy_serde|exact Toy.share_ok|by intros i v
    |exact toy_ids|exact toy_reshares| |right; left|exact toy_recovers|].
  - intros q Hq. split; [|exact I]. unfold toy_members, toy_parties in Hq.
    apply elem_of_cons in Hq as [->|[->|[]%not_elem_of_nil]%elem_of_cons]; vm_compute; discriminate.
  - intros q Hq Hn. unfold toy_members, toy_parties in Hq.
    apply elem_of_cons in Hq as [->|[->|[]%not_elem_of_nil]%elem_of_cons]; [exact toy_deals|destruct (Hn eq_refl)].
Defined.
