(* ===== verification/Refresh.v ===== *)
(** Proactive refresh of a whole committee ([trigger_refresh] of [src/src/init.rs]): one holder
    assembles the committee and asks everybody to deal anew, and all members, itself
    included, run as dealers of that request.  The runs are composed as in [Reshare]; the
    theorem shows that the committee ends with a new dealing of the same master. *)
From S2P Require Import Base Threshold Prelude Prog State Externals Models Crypto Chain Auth Derive Membership Dkg Lifecycle Epoch Cluster Ceremony Reshare.
From Stdlib Require Import ZArith Lia.
From Stdlib.Strings Require Import Byte.
From stdpp Require Import base list gmap strings pretty relations sorting.
Local Open Scope Z_scope.

(** ** The committee in a request *)

(** The peers resolved from ids are the ids besides the node's own. *)
Lemma resolve_ids_spec l table own ids peers : resolve_ids l table own ids = Ok peers ->
  forall i, i ∈ ids -> i <> 0 -> i <> own -> i ∈ map sp_id peers.
Proof.
  revert peers. induction ids as [|id ids IH]; intros peers; cbn [resolve_ids]; [set_solver|].
  destruct ((id =? 0) || (id =? own)) eqn:E.
  { intros Hr i [->|Hi]%elem_of_cons H0 H1; [lia|by apply IH]. }
  destruct (l !! _) as [addr|]; [|done]. destruct (table !! addr) as [info|]; [|done].
  destruct (discovered info); [|done]. destruct (resolve_ids l table own ids) as [ps|]; [|done].
  intros [= <-] i [->|Hi]%elem_of_cons H0 H1; [left|right; by apply (IH ps)].
Qed.

(** What a fully discovered committee looks like. *)
Lemma all_discovered_ids config l now table pos :
  (pos < length l)%nat -> let m := membership_of config l now table pos in all_discovered m = true ->
  NoDup (map sp_id (m_peers m) ++ [m_own_id m]) /\ m_own_id m = Z.of_nat pos + 1 /\
  (length l <= length (map sp_id (m_peers m) ++ [m_own_id m]))%nat /\
  (forall i, i ∈ map sp_id (m_peers m) -> 1 <= i).
Proof.
  intros Hpos. unfold membership_of. pose proof (scan_members_spec table now (Z.of_nat pos + 1) 0 l) as H.
  destruct (scan_members _ _ _ _ _) as [peers all]. destruct H as (Hok & Hs & Hall). cbn. intros ->.
  rewrite Forall_forall in Hok. pose proof (proj1 Hall eq_refl) as Hd. clear Hall. split; [|split; [done|split]].
  - apply NoDup_app. split; [by apply ssorted_lt_NoDup|]. split; [|apply NoDup_singleton].
    intros i (p & -> & Hp)%list_elem_of_fmap Hi%list_elem_of_singleton. by destruct (Hok p Hp) as (k & a & info & _ & _ & ? & _).
  - transitivity (length (seqZ 1 (Z.of_nat (length l)))); [by rewrite length_seqZ, Nat2Z.id|].
    apply submseteq_length, NoDup_submseteq; [apply NoDup_seqZ|]. intros i [Hi1 Hi2]%elem_of_seqZ.
    apply elem_of_app. destruct (decide (i = Z.of_nat pos + 1)) as [->|Hne]; [right; by apply list_elem_of_singleton|left].
    destruct (lookup_lt_is_Some_2 l (Z.to_nat (i - 1))) as [a Ha]; [lia|].
    destruct (Hd _ _ Ha) as (p & Hp & Hid); [lia|]. apply list_elem_of_fmap. exists p. split; [lia|done].
  - intros i (p & -> & Hp)%list_elem_of_fmap. destruct (Hok p Hp) as (k & a & info & _ & -> & _). lia.
Qed.

(** ** The member that triggers *)

Section Trigger.
Context {T : ThresholdScheme} {X : Externals T} {G : Gennaro T} {thr : nat} {L : ThresholdLaws T thr}.
Context (n : Z) (nodes : list Address) (req : ReshareRequest) (parties : list Party) (d : Dealing) (gpk : bytes).

Abbreviation dealing := (dealing nodes req parties gpk).
Abbreviation dealer_rely := (dealer_rely nodes req parties).

(** The registry answers with the list, and the requests that go out are [req]. *)
Definition refresh_ok (config : Config) (c : Call) (a : ans c) : Prop := registry_ok nodes config c a /\ starts req c a.

(** The member ran its refresh, asking for [req]. *)
Definition refreshes (q : Party) (y : exec World Call ans) : Prop :=
  exists (o : kms_oracle) config wakes x e pos,
    threshold (cluster config) = Z.of_nat thr /\ total_nodes (cluster config) = n /\
    position (is_self (pt_key q)) nodes = Some pos /\ pt_id q = Z.of_nat pos + 1 /\
    relies o (dealer_rely config q) /\ prepared nodes req parties config q (x_st x) /\
    member_after d gpk e q (x_st x) /\ x_log x = [] /\
    run o (trigger_refresh config (pt_key q) wakes) x = (Ok tt, y) /\
    x_log y = pt_log q /\ Forall (ev_ok (refresh_ok config)) (x_log y).

Lemma dealing_assemble config q sh pos :
  total_nodes (cluster config) = n -> position (is_self (pt_key q)) nodes = Some pos ->
  safe (dealing config q sh) (registry_ok nodes config) (assemble_participants config (pt_key q))
    (fun r => forall om, r = Ok om -> forall m, om = Some m ->
       n <= Z.of_nat (length nodes) /\ exists now table, m = membership_of config nodes now table pos).
Proof.
  intros Hn Hpos. unfold assemble_participants. safe_seq. eapply safe_mono; [apply dealing_list|].
  intros [l|] Hl; [|done]. rewrite (Hl l eq_refl), Hn, Hpos. destruct (Z.ltb_spec (Z.of_nat (length nodes)) n); [by intros om [= <-]|].
  repeat safe_seq. intros om [= <-] m [= <-]. split; [done|]. by eexists _, _.
Qed.

(** The ids of the request: distinct, enough, and all of the committee. *)
Definition whole_committee (q : Party) : Prop :=
  NoDup (rr_dealer_ids req) /\ n <= Z.of_nat (length (rr_dealer_ids req)) /\ rr_recovering_id req = 0 /\
  (forall i, i ∈ rr_dealer_ids req -> i <> pt_id q -> i ∈ map sp_id (pt_peers q)).

Lemma refresh_spec config q wakes pos sh s t log :
  default_share_value ->
  threshold (cluster config) = Z.of_nat thr -> total_nodes (cluster config) = n ->
  position (is_self (pt_key q)) nodes = Some pos -> pt_id q = Z.of_nat pos + 1 -> shard_index sh = pt_id q ->
  (2 <= length nodes)%nat -> holds (fun _ => d) s sh -> dealing config q sh s ->
  wp (dealer_rely config q) (trigger_refresh config (pt_key q) wakes)
    (fun r s' _ log' => Forall (ev_ok (refresh_ok config)) log' -> r = Ok tt ->
       dealt_anew n req parties d gpk q s' log log' /\ whole_committee q) s t log.
Proof.
  intros Hv Hthr Hn Hpos Hid Hsh H2 Hh Hd. unfold trigger_refresh. do 2 wp_step. destruct (negb _); [by wp_step|].
  pose proof (dealing_stable nodes req parties gpk config q sh) as HR.
  eapply (dealing_call nodes req parties gpk (refresh_ok config) config q sh _ _ (fun om => forall m, om = Some m ->
       n <= Z.of_nat (length nodes) /\ exists now table, m = membership_of config nodes now table pos) _ _ _ log);
    [by intros c a [? _]|apply calm_assemble|by apply dealing_assemble|carry HR|apply adds_refl| |done].
  intros om s1 t1 log1 D1 Hom A1. eapply (wp_ok_pure _ (dealing config q sh)); [exact D1| |done].
  intros m s2 t2 D2 Hm%ok_or_Ok. destruct (Hom m Hm) as (Hlen & now & table & Em). clear Hom.
  destruct (all_discovered m) eqn:Ea; cbn [negb]; [|by wp_step]. rewrite Em in Ea.
  destruct (all_discovered_ids config nodes now table pos ltac:(by eapply position_lt) Ea) as (Hnd & Hown & Hle & Hpos1).
  rewrite <-Em in Hnd, Hown, Hle, Hpos1. rewrite length_app, length_map in Hle. cbn [length] in Hle. clear Ea Em now table.
  do 2 wp_step. destruct (List.filter _ _); [|by wp_step]. unfold read_known_epoch. repeat wp_step.
  destruct (sign_request _ _ _) as [sig|]; [|by wp_step]. wp_step.
  eapply wp_mono; [|apply (start_sends _ (dealing config q sh)); [exact HR|carry HR]].
  match goal with |- context [adds not_sent ?l _] => assert (adds not_sent log l) as L1
    by (do 2 (eapply adds_trans; [|by apply adds_one]); exact A1) end.
  intros [] s3 t3 log3 (D3 & L3 & Hstart). apply wp_assume. intros Hlog.
  destruct (m_peers m) as [|peer0 peers] eqn:Ep; [cbn in Hle; lia|]. rewrite <-Ep in *.
  destruct (Hstart peer0) as [a1 Hev]; [rewrite Ep; left|]. rewrite Forall_forall in Hlog. apply Hlog in Hev as [_ Hev]. cbn in Hev.
  match type of Hev with mkReshareRequest ?i ?r ?l ?x = _ =>
    assert (i = rr_session_id req /\ r = rr_recovering_id req /\ rr_dealer_ids req = l /\ x = rr_epoch req) as (-> & H0r & Hids & ->)
      by (by rewrite <-Hev) end.
  rewrite <-Hids, H0r. eapply wp_mono; [|apply (dealer_spec n nodes req parties d gpk config q wakes pos sh); try done].
  2: { destruct Hh as [_ Hh]. split; [apply D3|exact Hh]. }
  intros r s4 t4 log4 Hdone Hok Hr. destruct (Hdone ltac:(eapply Forall_impl; [exact Hok|by intros [c b] [? _]]) Hr)
    as (rng & k & part & share & Hk & Hp & Hsess & Had).
  assert (rr_dealer_ids req ≡ₚ map sp_id (m_peers m) ++ [m_own_id m]) as Hperm by (rewrite Hids; apply merge_sort_Permutation).
  split; [exists rng, k, part, share; split; [done|]; split; [done|]; split; [|done]|].
  - eapply session_run_extend; [|exact Hsess|apply adds_refl]. by eapply adds_trans.
  - split; [by rewrite Hperm|]. split; [rewrite Hperm, length_app, length_map; cbn [length]; lia|]. split; [done|].
    intros i Hi Hne. destruct D3 as ((_ & _ & Hres) & _). unfold participants in Hres. rewrite <-H0r in Hres. cbn in Hres.
    eapply resolve_ids_spec; [exact Hres|done| |done]. rewrite Hperm in Hi.
    apply elem_of_app in Hi as [Hi|Hi%list_elem_of_singleton]; [apply Hpos1 in Hi; lia|lia].
Qed.

End Trigger.

(** ** The committee *)

Section Committee.
Context {T : ThresholdScheme} {X : Externals T} {G : Gennaro T} {thr : nat} {L : ThresholdLaws T thr}.
Context (n : Z) (nodes : list Address) (req : ReshareRequest) (parties : list Party) (d : Dealing) (gpk : bytes).

Lemma refreshes_ok q y : default_share_value -> (2 <= length nodes)%nat -> refreshes (thr := thr) n nodes req parties d gpk q y ->
  dealt_anew n req parties d gpk q (x_st y) [] (pt_log q) /\ whole_committee n req q.
Proof.
  intros Hv H2 (o & config & wakes & x & e & pos & Hthr & Hn & Hpos & Hid & Ho & Hp & (Hg & sh & Hi & _ & Hh) & Hlog & Hrun & Hend & Hok).
  pose proof (wp_sound _ o _ _ x Ho (refresh_spec n nodes req parties d gpk config q wakes pos sh _ (x_now x) (x_log x)
    Hv Hthr Hn Hpos Hid Hi H2 Hh ltac:(split; [exact Hp|split; [apply Hh|exact Hg]]))) as Hw.
  rewrite Hrun, Hlog in Hw. cbn [fst snd] in Hw. rewrite Hend in Hw, Hok. by apply Hw.
Qed.

Lemma refresh_redeals q0 (fin : Party -> exec World Call ans) :
  committee_agreed parties -> ecies_roundtrip X -> ecies_nonempty X -> gennaro_serde -> share_roundtrip X ->
  default_share_value -> reshare_ids -> gennaro_reshare d ->
  (forall q, q ∈ parties -> 0 <= pt_id q /\ valid_id (Z.to_nat (pt_id q))) ->
  (2 <= length nodes)%nat -> Z.of_nat thr <= n ->
  q0 ∈ parties -> refreshes (thr := thr) n nodes req parties d gpk q0 (fin q0) ->
  (forall q, q ∈ parties -> pt_id q <> pt_id q0 -> deals n nodes req parties d gpk q (fin q)) ->
  exists d', group_key d' = group_key d /\ public_key_try gpk = Ok (group_key d) /\
    forall q, q ∈ parties -> member_after d' gpk (rr_epoch req) q (x_st (fin q)).
Proof.
  intros Hag Hec Hne Hs Hshare Hv Hids Hlaw Hval H2 Hthr Hq0 [Hown (Hnd & Hlen & _ & Hin)]%refreshes_ok Hdeal; [|done..].
  eapply (redeals n req parties d gpk fin Hag q0); try done; [lia| | |].
  - intros i Hi. destruct (decide (i = pt_id q0)) as [->|Hn]; [by apply list_elem_of_fmap_2|].
    destruct (proj1 (list_elem_of_fmap _ _ _) (Hin i Hi Hn)) as (peer & -> & Hpeer). destruct Hag as (_ & _ & Hall).
    destruct (Hall q0 Hq0) as (_ & _ & Hdesc & _). destruct (Hdesc peer Hpeer) as (q & Hq & -> & _). by apply list_elem_of_fmap_2.
  - intros q Hq. apply (dealer_role n req parties d gpk fin Hids). destruct (decide (pt_id q = pt_id q0)) as [E|Hn].
    + destruct Hag as (Hnd' & _). by rewrite (NoDup_map_inj _ _ Hnd' _ _ Hq Hq0 E).
    + by apply (deals_ok n nodes), Hdeal.
  - by destruct Hown as (_ & _ & _ & _ & _ & _ & _ & _ & Hpk).
Qed.

End Committee.

(** C9: a refresh moves the whole committee to a new dealing of the same master.  A holder
    triggers the refresh; the members it asked run as dealers of that request; messages
    arrive as they were sent, the registry answers with one node list of at least two
    members, and nobody else replaces a share meanwhile.  If all of them end well, there is a
    new dealing under the same group key of which every member holds its own share, under its own
    index and the new epoch, with the master that was on record. *)
Theorem refresh_keeps_the_master {T : ThresholdScheme} {X : Externals T} {G : Gennaro T} {thr : nat}
    {L : ThresholdLaws T thr} n nodes req parties q0 d gpk (fin : Party -> exec World Call ans) :
  committee_agreed parties -> ecies_roundtrip X -> ecies_nonempty X -> gennaro_serde -> share_roundtrip X ->
  default_share_value -> reshare_ids -> gennaro_reshare d ->
  (forall q, q ∈ parties -> 0 <= pt_id q /\ valid_id (Z.to_nat (pt_id q))) ->
  (2 <= length nodes)%nat -> Z.of_nat thr <= n ->
  q0 ∈ parties -> refreshes (thr := thr) n nodes req parties d gpk q0 (fin q0) ->
  (forall q, q ∈ parties -> pt_id q <> pt_id q0 -> deals n nodes req parties d gpk q (fin q)) ->
  exists d', group_key d' = group_key d /\ public_key_try gpk = Ok (group_key d) /\
    forall q, q ∈ parties -> member_after d' gpk (rr_epoch req) q (x_st (fin q)).
Proof. apply refresh_redeals. Qed.

(** ** Two nodes *)

Definition toy_refresh : ReshareRequest := mkReshareRequest "refresh:kms:4:1000" 0 [1; 2] 4.

(** Both nodes hold shares of epoch 3 and see each other. *)
Definition toy_holder1 : World :=
  set_shard (Some Toy.share1) (set_group_pubkey (Some Toy.group) (toy_buffers (rr_session_id toy_refresh) 2)).
Definition toy_holder2 : World :=
  upd_peer_table (fun _ => toy_table)
    (set_shard (Some Toy.share2) (set_group_pubkey (Some Toy.group) (toy_buffers (rr_session_id toy_refresh) 1))).

Definition toy_trigger : result unit string * exec World Call ans :=
  run Toy.idle (trigger_refresh (G := toy_dkg) toy_config Toy.node1 1) (start toy_holder1 0).
Definition toy_deal2 : result unit string * exec World Call ans :=
  run Toy.idle (run_reshare_dealer (G := toy_dkg) toy_config Toy.node2 1 "refresh:kms:4:1000" 0 [1; 2] 4) (start toy_holder2 0).

Definition toy_refreshed : list Party := toy_parties 3 (x_log toy_trigger.2) (x_log toy_deal2.2).
Definition toy_renewed (q : Party) : exec World Call ans := if pt_id q =? 1 then toy_trigger.2 else toy_deal2.2.

Lemma toy_refresh_sent :
  toy_sent (rr_session_id toy_refresh) 1 "http://n2" Toy.node2 (x_log toy_trigger.2) /\
  toy_sent (rr_session_id toy_refresh) 2 "http://n1" Toy.node1 (x_log toy_deal2.2).
Proof. split; [apply (toy_sent_at _ _ _ _ _ 7 9 11 13)|apply (toy_sent_at _ _ _ _ _ 3 5 7 9)]; find_messages. Qed.

Lemma toy_refreshed_authentic q : q ∈ toy_refreshed ->
  authentic (rr_session_id toy_refresh) toy_refreshed q (toy_buffers (rr_session_id toy_refresh) (3 - pt_id q)).
Proof. destruct toy_refresh_sent. by apply toy_buffers_authentic. Qed.

(** Node [i] as a party. *)
Definition toy_party1 : Party :=
  mkParty 1 Toy.node1 (Toy.pubkey Toy.sk1) "http://n1" [mkSessionPeer 2 "http://n2" (Toy.pubkey Toy.sk2) 3] (x_log toy_trigger.2).
Definition toy_party2 : Party :=
  mkParty 2 Toy.node2 (Toy.pubkey Toy.sk2) "http://n2" [mkSessionPeer 1 "http://n1" (Toy.pubkey Toy.sk1) 3] (x_log toy_deal2.2).

(** The list in the caches of both is the registered one. *)
Lemma toy_list_vouched w : node_list_cache w = node_list_cache Toy.world ->
  vouched (rpc_url (chain toy_config)) (contract_address (chain toy_config)) (registered Toy.members toy_config) w.
Proof. intros Hw app e H Ha. rewrite Hw in H. cbn in H. apply lookup_singleton_Some in H as [_ <-]. done. Qed.

Lemma toy_refreshes : refreshes (G := toy_dkg) (L := Toy.laws 0) 2 Toy.members toy_refresh toy_refreshed Byte.x07 Toy.group
  toy_party1 toy_trigger.2.
Proof.
  exists Toy.idle, toy_config, 1%nat, (start toy_holder1 0), 3, 0%nat.
  split; [done|]. split; [done|]. split; [vm_compute; reflexivity|]. split; [done|].
  split; [by intros n w; split; [intros H|]|]. split; [split; [|split]|].
  - exact (toy_refreshed_authentic toy_party1 ltac:(left)).
  - by apply toy_list_vouched.
  - vm_compute. reflexivity.
  - split; [split; [done|]; exists Toy.share1; by repeat split|]. split; [done|]. split; [|split; [done|]].
    + cbn [pt_key toy_party1]. change (run _ _ _) with toy_trigger. assert (toy_trigger.1 = Ok tt) as E by (vm_compute; reflexivity).
      destruct toy_trigger as [r y]. cbn in E. by subst r.
    + vm_compute. repeat constructor.
Qed.

Lemma toy_deals2 : deals (G := toy_dkg) (L := Toy.laws 0) 2 Toy.members toy_refresh toy_refreshed Byte.x07 Toy.group
  toy_party2 toy_deal2.2.
Proof.
  exists Toy.idle, toy_config, 1%nat, (start toy_holder2 0), 3, 1%nat.
  split; [done|]. split; [done|]. split; [vm_compute; reflexivity|]. split; [done|].
  split; [by intros n w; split; [intros H|]|]. split; [split; [|split]|].
  - exact (toy_refreshed_authentic toy_party2 ltac:(right; left)).
  - by apply toy_list_vouched.
  - vm_compute. reflexivity.
  - split; [split; [done|]; exists Toy.share2; by repeat split|]. split; [done|]. split; [|split; [done|]].
    + cbn [pt_key toy_party2]. change (run _ _ _) with toy_deal2. assert (toy_deal2.1 = Ok tt) as E by (vm_compute; reflexivity).
      destruct toy_deal2 as [r y]. cbn in E. by subst r.
    + vm_compute. repeat constructor.
Qed.

Lemma refresh_keeps_the_master_witness :
  exists d', group_key (ThresholdLaws := Toy.laws 0) d' = Byte.x07 /\ public_key_try Toy.group = Ok Byte.x07 /\
    forall q, q ∈ toy_refreshed -> member_after (L := Toy.laws 0) d' Toy.group 4 q (x_st (toy_renewed q)).
Proof.
  apply (refresh_keeps_the_master (G := toy_dkg) (L := Toy.laws 0) 2 Toy.members toy_refresh toy_refreshed toy_party1
    Byte.x07 Toy.group toy_renewed);
    [apply toy_agreed|exact Toy.ecies_ok|exact Toy.ecies_nonempty_ok|exact toy_serde|exact Toy.share_ok|by intros i v
    |exact toy_ids|exact toy_reshares| |vm_compute; lia|vm_compute; discriminate|left|exact toy_refreshes|].
  - intros q Hq. split; [|exact I]. unfold toy_refreshed, toy_parties in Hq.
    apply elem_of_cons in Hq as [->|[->|[]%not_elem_of_nil]%elem_of_cons]; vm_compute; discriminate.
  - intros q Hq Hn. unfold toy_refreshed, toy_parties in Hq.
    apply elem_of_cons in Hq as [->|[->|[]%not_elem_of_nil]%elem_of_cons]; [destruct (Hn eq_refl)|exact toy_deals2].
Defined.
