(* ===== verification/Continuity.v ===== *)
(** The life of the master across components: a committee that has completed genesis, or a
    recovery, serves derivations, and the keys it derives are the keys that were derived under
    that master before.  The file composes [Ceremony] and [Reshare] (what the nodes hold),
    [Cluster] (what a coordinator obtains from members that hold shares) and [Derive] (that
    a master and a request determine the key). *)
From S2P Require Import Base Threshold Prelude Prog State Externals Models Crypto Chain Verifier Auth Derive Membership Dkg Lifecycle Cluster Ceremony Reshare Refresh.
From Stdlib Require Import ZArith Lia.
From Stdlib.Strings Require Import Byte.
From stdpp Require Import base list gmap strings pretty.
Local Open Scope Z_scope.

Section Serving.
Context {T : ThresholdScheme} {X : Externals T} {thr : nat} {L : ThresholdLaws T thr}.

(** The node has kept what it held. *)
Definition kept (w w' : World) : Prop := shard w' = shard w /\ group_pubkey w' = group_pubkey w.

(** A member that is up, whatever its share: quiet, its clock agrees with the request's, it
    signs, and it still trusts the caller when it has answered. *)
Definition up (caller : Address) (app : string) (material sig : bytes) (ts : Z) (m : Member) : Prop :=
  quiet (mb_oracle m) /\
  (forall n, too_far (o_ans (mb_oracle m) n Utc_now) ts (timestamp_tolerance_secs (server (mb_config m))) = false) /\
  signer (mb_key m) (mb_pubkey m) /\
  trusts (mb_config m) (x_st (mb_exec m)) (x_now (answer m app material sig ts).2) caller.

(** A request put to coordinator [qc] of the committee: the members answer at their urls, the
    clocks agree, and a threshold of distinct indices of the committee is up. *)
Record request (parties : list Party) (fin : Party -> World) (party : Member -> Party)
    (oc : kms_oracle) (config : Config) (qc : Party) (cpk : bytes) (members : list Member)
    (app : string) (material sig : bytes) (ts : Z) (ids : list Z) (x : exec World Call ans) : Prop := {
  rq_quiet : quiet oc;
  rq_clock : forall n, o_ans oc n Utc_now = ts;
  rq_time : in_i64 ts;
  rq_signer : signer (pt_key qc) cpk;
  rq_signed : sign_request (private_key (pt_key qc)) "GetDprfPartial" ts = Ok sig;
  rq_threshold : threshold (cluster config) = Z.of_nat thr;
  rq_coordinator : qc ∈ parties /\ kept (fin qc) (x_st x);
  rq_members : forall m, m ∈ members -> party m ∈ parties /\ kept (fin (party m)) (x_st (mb_exec m)) /\
    shard (x_st (mb_exec m)) = Some (mb_shard m);
  rq_known : forall m, m ∈ members -> mb_url m ∈ peer_urls (x_st x);
  rq_up : forall m, m ∈ members -> up (eth_address (pt_key qc)) app material sig ts m;
  rq_network : network oc members app material sig ts;
  rq_distinct : NoDup ids;
  rq_enough : (thr <= length ids)%nat;
  rq_present : forall i, i ∈ ids -> i = pt_id qc \/ exists m, m ∈ members /\ i = pt_id (party m)
}.

(** The key is the one the master determines for the request: every coordinator that only
    ever knew this master and answered the request, before or after, answered with it. *)
Definition the_key (gpk : bytes) (app : string) (material key : bytes) : Prop :=
  forall (o : kms_oracle) config sk x key' tr, relies o (fun w w' => group_key_is gpk w -> group_key_is gpk w') ->
    group_key_is gpk (x_st x) -> (run o (collect_and_dprf config sk app material) x).1 = Ok (key', tr) -> key' = key.

Lemma quiet_relies (o : kms_oracle) (I : World -> Prop) : quiet o -> relies o (fun w w' => I w -> I w').
Proof. intros Hq n w. by rewrite Hq. Qed.

(** A committee whose members all hold shares of one dealing serves such a request. *)
Lemma committee_derives parties fin party oc config qc cpk members app material sig ts ids x d gpk e :
  hex_roundtrip X -> ecdsa_recover X -> ecies_roundtrip X -> ecies_total X -> partial_roundtrip X ->
  public_key_try gpk = Ok (group_key d) -> (forall q, q ∈ parties -> member_after d gpk e q (fin q)) ->
  request parties fin party oc config qc cpk members app material sig ts ids x ->
  let '(r, y) := run oc (collect_and_dprf config (pt_key qc) app material) x in
  trusts_all config members (x_st x) (x_now y) ->
  exists key tr, r = Ok (key, tr) /\ the_key gpk app material key.
Proof.
  intros Hhex Hec Hes Htot Hpart Hgpk Hall [Hq Hclock Hts Hkey Hsig Hthr [Hqc [Ks Kg]] Hmem Hurl Hup Hnet Hnd Hlen Hids].
  destruct (Hall qc Hqc) as (Hg & own & Hi & He & Hh). rewrite <-Kg in Hg.
  assert (holds (fun _ => d) (x_st x) own) as Hown by (destruct Hh as [Hs Hh]; split; [by rewrite Ks|exact Hh]).
  assert (forall m, m ∈ members -> shard_index (mb_shard m) = pt_id (party m) /\ shard_epoch (mb_shard m) = e /\
    holds (fun _ => d) (x_st (mb_exec m)) (mb_shard m)) as Hm.
  { intros m Hm. destruct (Hmem m Hm) as (Hp & [Ks' _] & Hs). destruct (Hall _ Hp) as (_ & sh & Hi' & He' & Hs' & Hh').
    assert (sh = mb_shard m) as -> by congruence. split; [done|]. split; [done|]. by split. }
  pose proof (derives Hhex Hec Hes Htot Hpart config (pt_key qc) (fun _ => d) oc members app material sig ts cpk
    Hkey Hts Hq Hnet Hsig) as Hd.
  assert (forall m, m ∈ members -> serving (fun _ => d) (eth_address (pt_key qc)) app material sig ts m) as Hserv.
  { intros m Hin. destruct (Hup m Hin) as (? & ? & ? & ?). destruct (Hm m Hin) as (_ & _ & ?). do 3 (split; [done|]). by split. }
  assert (quorum (thr := thr) members own e ids) as Hquorum.
  { split; [done|]. split; [done|]. intros i Hin. destruct (Hids i Hin) as [->|(m & Hm' & ->)]; [by left; rewrite Hi, He|right].
    exists m. destruct (Hm m Hm') as (? & ? & _). done. }
  specialize (Hd Hserv (group_key d) gpk own e ids x (fun _ => eq_refl) Hgpk Hthr Hclock Hown Hg Hurl Hquorum).
  destruct (run oc _ x) as [r y] eqn:Er. intros (s & tr & -> & Hv)%Hd. exists (sigma_to_app_key s), tr. split; [done|].
  intros o config' sk x' key' tr' Ho Hk Hr'.
  eapply (coordinators_agree o oc config' config sk (pt_key qc) gpk app material x' x); [done|done|by apply quiet_relies| |exact Hr'|].
  - intros g Hg'. congruence.
  - by rewrite Er.
Qed.

End Serving.

(** Genesis makes a committee that serves: once every member has completed it, a request put
    to any of them while a threshold is up is answered with the one key of its master. *)
Theorem founded_committee_serves {T : ThresholdScheme} {X : Externals T} {G : Gennaro T} {thr : nat}
    {L : ThresholdLaws T thr} genesis_app parties n (fin : Party -> exec World Call ans) :
  committee_agreed parties -> ecies_roundtrip X -> ecies_nonempty X -> gennaro_serde -> share_roundtrip X ->
  hex_roundtrip X -> ecdsa_recover X -> ecies_total X -> partial_roundtrip X ->
  gennaro_ids -> gennaro_honest (thr := thr) -> Z.of_nat (length parties) = n ->
  (forall q, q ∈ parties -> 0 <= pt_id q /\ valid_id (Z.to_nat (pt_id q)) /\ completes (thr := thr) genesis_app parties q n (fin q)) ->
  exists gpk, (forall q, q ∈ parties -> group_pubkey (x_st (fin q)) = Some gpk) /\
  forall party oc config qc cpk members app material sig ts ids x,
  request (thr := thr) parties (fun q => x_st (fin q)) party oc config qc cpk members app material sig ts ids x ->
  let '(r, y) := run oc (collect_and_dprf config (pt_key qc) app material) x in
  trusts_all config members (x_st x) (x_now y) ->
  exists key tr, r = Ok (key, tr) /\ the_key gpk app material key.
Proof.
  intros Hag Hes Hne Hs Hshare Hhex Hec Htot Hpart Hids Hon Hn H.
  destruct (genesis_deals genesis_app parties n fin Hag Hes Hne Hs Hshare Hids Hon Hn H) as (d & gpk & Hg & Hall).
  exists gpk. split; [intros q Hq; by destruct (Hall q Hq)|]. intros party oc config qc cpk members app material sig ts ids x Hreq.
  exact (committee_derives _ _ _ _ _ _ _ _ _ _ _ _ _ _ _ _ _ Hhex Hec Hes Htot Hpart Hg Hall Hreq).
Qed.

(** C8: the keys of the applications survive recoveries and refreshes.  A member without a
    share recovers, or a holder refreshes the committee, and everybody asked deals its share
    of the old dealing.  If all of them end well, then a request put to any member, the
    recovered one included, while a threshold of the new shares is up, is answered, and with the
    key that every coordinator which only ever knew this master has given for that
    application and material, before the ceremony as after it. *)
Theorem keys_survive_reshares {T : ThresholdScheme} {X : Externals T} {G : Gennaro T} {thr : nat}
    {L : ThresholdLaws T thr} n nodes req parties q0 d gpk (fin : Party -> exec World Call ans) :
  committee_agreed parties -> ecies_roundtrip X -> ecies_nonempty X -> gennaro_serde -> share_roundtrip X ->
  hex_roundtrip X -> ecdsa_recover X -> ecies_total X -> partial_roundtrip X ->
  default_share_value -> reshare_ids -> gennaro_reshare d ->
  (forall q, q ∈ parties -> 0 <= pt_id q /\ valid_id (Z.to_nat (pt_id q))) -> q0 ∈ parties ->
  recovers (thr := thr) n nodes req parties q0 (fin q0) \/
    (2 <= length nodes)%nat /\ Z.of_nat thr <= n /\ refreshes n nodes req parties d gpk q0 (fin q0) ->
  (forall q, q ∈ parties -> pt_id q <> pt_id q0 -> deals n nodes req parties d gpk q (fin q)) ->
  forall party oc config qc cpk members app material sig ts ids x,
  request (thr := thr) parties (fun q => x_st (fin q)) party oc config qc cpk members app material sig ts ids x ->
  let '(r, y) := run oc (collect_and_dprf config (pt_key qc) app material) x in
  trusts_all config members (x_st x) (x_now y) ->
  exists key tr, r = Ok (key, tr) /\ the_key gpk app material key.
Proof.
  intros Hag Hes Hne Hs Hshare Hhex Hec Htot Hpart Hv Hids Hlaw Hval Hq0 Hrun Hdeal party oc config qc cpk members app material sig ts ids x Hreq.
  assert (exists d', group_key d' = group_key d /\ public_key_try gpk = Ok (group_key d) /\
    forall q, q ∈ parties -> member_after d' gpk (rr_epoch req) q (x_st (fin q))) as (d' & Hd & Hg & Hall).
  { destruct Hrun as [[Hrec Hself]%recovers_ok|(H2 & Hn & Hr)]; [|by eapply refresh_redeals].
    eapply recovery_redeals; eauto. intros q Hq Hn. by apply (deals_ok n nodes), Hdeal. }
  rewrite <-Hd in Hg. exact (committee_derives _ _ _ _ _ _ _ _ _ _ _ _ _ _ _ _ _ Hhex Hec Hes Htot Hpart Hg Hall Hreq).
Qed.

(** ** Two nodes *)

Definition toy_recovered : Party :=
  mkParty 2 Toy.node2 (Toy.pubkey Toy.sk2) "http://n2" [mkSessionPeer 1 "http://n1" (Toy.pubkey Toy.sk1) 3] (x_log toy_recover.2).

(** The recovered node 2 derives alone after the recovery, as node 1 could before it. *)
Definition toy_before : result (bytes * DeriveTrace) KmsError :=
  (run Toy.idle (collect_and_dprf toy_config Toy.node1 "shop" [Byte.x05]) (start toy_holder 0)).1.
Definition toy_after_recovery : result (bytes * DeriveTrace) KmsError * exec World Call ans :=
  run Toy.idle (collect_and_dprf toy_config Toy.node2 "shop" [Byte.x05]) (start (x_st (toy_after toy_recovered)) 0).

Definition toy_signed : bytes := match sign_request Toy.sk2 "GetDprfPartial" 1000 with Ok s => s | Err _ => [] end.

Lemma toy_recovered_in : toy_recovered ∈ toy_members.
Proof. unfold toy_members, toy_parties. right. apply list_elem_of_here. Qed.

Lemma toy_put (fin : Party -> World) : request (thr := 1) toy_members fin (fun _ => toy_recovered)
  Toy.idle toy_config toy_recovered (Toy.pubkey Toy.sk2) [] "shop" [Byte.x05] toy_signed 1000 [2] (start (fin toy_recovered) 0).
Proof.
  split; try (by intros m ?%not_elem_of_nil).
  - apply Toy.alone_quiet.
  - done.
  - split; [vm_compute; discriminate|vm_compute; reflexivity].
  - exact (toy_signer Toy.sk2 eq_refl).
  - vm_compute. reflexivity.
  - done.
  - split; [exact toy_recovered_in|]. by split.
  - split; [apply NoDup_nil_2|]. split; [by intros n m ?%not_elem_of_nil|]. by intros n url _ a.
  - apply NoDup_singleton.
  - vm_compute. lia.
  - intros i ->%list_elem_of_singleton. by left.
Qed.

Lemma keys_survive_reshares_witness :
  exists key tr tr', toy_before = Ok (key, tr) /\ toy_after_recovery.1 = Ok (key, tr').
Proof.
  pose proof (keys_survive_reshares (G := toy_dkg) (L := Toy.laws 0) 2 Toy.members toy_request toy_members toy_recovered
    Byte.x07 Toy.group toy_after (toy_agreed _ _ _) Toy.ecies_ok Toy.ecies_nonempty_ok toy_serde Toy.share_ok Toy.hex_ok
    Toy.ecdsa_ok Toy.ecies_total_ok Toy.partial_ok ltac:(by intros i v) toy_ids toy_reshares) as H.
  assert (forall q, q ∈ toy_members -> 0 <= pt_id q /\ valid_id (ThresholdLaws := Toy.laws 0) (Z.to_nat (pt_id q))) as Hval.
  { intros q Hq. split; [|exact I]. unfold toy_members, toy_parties in Hq.
    apply elem_of_cons in Hq as [->|[->|[]%not_elem_of_nil]%elem_of_cons]; vm_compute; discriminate. }
  assert (forall q, q ∈ toy_members -> pt_id q <> pt_id toy_recovered ->
    deals (G := toy_dkg) (L := Toy.laws 0) 2 Toy.members toy_request toy_members Byte.x07 Toy.group q (toy_after q)) as Hdeal.
  { intros q Hq Hn. unfold toy_members, toy_parties in Hq.
    apply elem_of_cons in Hq as [->|[->|[]%not_elem_of_nil]%elem_of_cons]; [exact toy_deals|destruct (Hn eq_refl)]. }
  specialize (H Hval toy_recovered_in (or_introl toy_recovers) Hdeal _ _ _ _ _ _ _ _ _ _ _ _ (toy_put (fun q => x_st (toy_after q)))).
  change (run _ _ _) with toy_after_recovery in H. destruct toy_after_recovery as [r y].
  destruct H as (key & tr & -> & Hkey); [by intros m ?%not_elem_of_nil|].
  destruct toy_before as [[key' tr']|] eqn:E; [|vm_compute in E; discriminate E].
  assert (key' = key) as ->.
  { apply (Hkey Toy.idle toy_config Toy.node1 (start toy_holder 0) key' tr'); [apply Toy.alone_relies| |exact E].
    intros g. vm_compute. congruence. }
  exists key, tr', tr. split; reflexivity.
Defined.
