(* ===== verification/Testing.v ===== *)
(** How a unit test of the program reads in the model: a program over the node's state that
    ends in [Ok] when it passes.  An assertion that does not hold, an [unwrap] of an error and
    an index out of bounds fail it. *)
From S2P Require Import Base Prelude Prog State.
From Stdlib Require Import ZArith.
From stdpp Require Import base list strings.

#[export] Instance result_eq_dec {A E} `{EqDecision A, EqDecision E} : EqDecision (result A E).
Proof. solve_decision. Defined.

Abbreviation test := (kms (result unit string)).

Definition check (b : bool) : test := Ret (if b then Ok tt else Err "assertion failed").
Definition unwrap {A E} (r : result A E) : kms (result A string) := Ret (map_err (fun _ => "unwrap of an error") r).
Definition index {A} (l : list A) (i : nat) : kms (result A string) := Ret (ok_or (l !! i) "index out of bounds").
Abbreviation assert_eq a b := (check (bool_decide (a = b))).
Abbreviation assert_ne a b := (check (negb (bool_decide (a = b)))).

Fixpoint collect {A B} (f : A -> kms (result B string)) (l : list A) : kms (result (list B) string) :=
  match l with
  | [] => Ret (Ok [])
  | x :: l => let!? y := f x in let!? ys := collect f l in Ret (Ok (y :: ys))
  end.

(** The outcome of a test, and its state for what follows. *)
Definition outcome_of (o : kms_oracle) (t : test) (x : exec World Call ans) : bool * exec World Call ans :=
  let '(r, y) := run o t x in (is_ok r, y).

(** Run every test of a list. *)
Ltac run_tests := repeat (apply List.Forall_cons; [vm_compute; reflexivity|]); apply List.Forall_nil.
