(* ===== verification/Shamir.v ===== *)
(** An executable model of the threshold libraries in which sharing really is Shamir sharing:
    scalars are integers modulo 251, a signature is the secret times a digest of the message,
    partial signatures interpolate at 0, and the distributed key generation deals
    polynomials, checks shares against commitments, and reshares.  On it run the tests of
    [src/src/crypto.rs], the ones of the derivation and the ones of the DKG bridge: genesis
    without a dealer, recovery of a lost share, recovery while a member is absent, and
    proactive refresh.  It makes no claim about cryptography. *)
From S2P Require Import Base Threshold Prelude Prog State Externals Models Crypto Auth Dkg Ceremony.
From Stdlib Require Import ZArith Lia.
From Stdlib.Strings Require Import Byte.
From stdpp Require Import base list gmap strings pretty.
Local Open Scope Z_scope.

Module Shamir.

(** ** The field *)

Definition q : Z := 251.
Definition invert (a : Z) : Z := (a ^ (q - 2)) mod q.

(** A polynomial, the constant term first. *)
Definition eval (poly : list Z) (x : Z) : Z := foldr (fun c acc => (c + x * acc) mod q) 0 poly.

(** The factors of the [i]-th term of the interpolation at 0. *)
Definition num_den {A} (points : list (Z * A)) (i : nat) (xi : Z) : Z * Z :=
  foldl (fun nd e => let '(j, (xj, _)) := e in
                     if decide (i = j) then nd else ((nd.1 * xj) mod q, (nd.2 * (xj - xi)) mod q))
        (1, 1) (imap pair points).

(** Interpolation at 0. *)
Definition interpolate0 (points : list (Z * Z)) : Z :=
  foldl (fun acc e => let '(i, (xi, yi)) := e in
                      let '(num, den) := num_den points i xi in (acc + yi * num * invert den) mod q)
        0 (imap pair points).

Definition digest (msg : bytes) : Z := 1 + foldl (fun a b => (a * 7 + Z_of_byte b) mod (q - 1)) 0 msg.

(** ** Threshold signatures *)

#[export] Instance scheme : ThresholdScheme := {|
  Scalar := Z; SecretKeyShare := Z * Z; SignatureShare := Z * Z; Signature := Z; PublicKey := Z;
  scalar_from i := Z.of_nat i mod q;
  default_share i v := (i, v);
  share_value := snd;
  share_sign s msg := Ok (s.1, (s.2 * digest msg) mod q);
  from_shares ps := if (length ps <? 2)%nat then Err "fewer than two shares"
                    else if decide (NoDup ps.*1) then Ok (interpolate0 ps) else Err "duplicate identifier";
  sig_verify s pk msg := if s =? (pk * digest msg) mod q then Ok tt else Err "bad signature"
|}.

(** ** The other interfaces *)

Definition coefficients (rng : bytes) (n : nat) : list Z := take n (map (fun b => Z_of_byte b mod q) rng ++ replicate n 1).

Definition hash (m : bytes) : bytes :=
  map (fun k => byte_of_Z (foldl (fun a b => (a * (2 * Z.of_nat k + 3) + Z_of_byte b) mod q) 0 m)) (seq 0 32).

(** Recovery gives the signer's key for the digest that was signed, and another key for
    any other. *)
Definition recovered (h s : bytes) : bytes :=
  zip_with (fun k d => byte_of_Z (Z_of_byte k + d)) (take 32 s)
           (zip_with (fun a b => Z_of_byte a - Z_of_byte b) h (drop 32 s)).

#[export] Instance externals : Externals scheme := {|
  keccak256 := hash;
  hex_encode := Toy.hex; hex_decode := Toy.unhex; b64url_encode := Toy.hex; b64url_decode := Toy.unhex;
  ecies_enc _ pk m := if (length pk =? 65)%nat then Ok (pk ++ m) else Err "bad public key";
  ecies_dec sk c := if decide (take 65 c = Toy.pubkey sk) then Ok (drop 65 c) else Err "not for us";
  k256_pubkey := Toy.pubkey_of;
  k256_sign sk h := if ((length sk =? 32) && (length h =? 32))%nat then Ok (sk ++ h, 0) else Err "bad key";
  k256_sig_parse s := if (length s =? 64)%nat then Ok s else Err "bad signature";
  k256_recover h s v := Ok (Toy.pubkey (recovered h s));
  bare_record_ser := Toy.record_ser; bare_record_de := Toy.record_de;
  share_vec s := [byte_of_Z s.1; byte_of_Z s.2];
  share_try b := match b with [i; v] => Ok (Z_of_byte i, Z_of_byte v) | _ => Err "bad share" end;
  partial_vec p := [byte_of_Z p.1; byte_of_Z p.2];
  partial_try b := match b with [i; v] => Ok (Z_of_byte i, Z_of_byte v) | _ => Err "bad partial" end;
  public_key_try b := match b with [k] => Ok (Z_of_byte k) | _ => Err "bad group key" end;
  sigma_vec s := [byte_of_Z s];
  bls_split rng t n :=
    let poly := coefficients rng t in Ok (map (fun i => (Z.of_nat i, eval poly (Z.of_nat i))) (seq 1 n));
  hkdf_sha256 ikm info := take 32 (ikm ++ info ++ replicate 32 Byte.x00);
  provider_try u := if decide (u = EmptyString) then Err "empty" else Ok tt;
  address_parse s := match Toy.unhex (trim_0x s) with
    | Some a => if (length a =? 20)%nat then Some a else None | None => None end
|}.

(** ** Distributed key generation *)

Record participant := mkParticipant {
  g_id : Z;
  g_limit : Z;
  g_poly : list Z;
  (** the share and the public key so far, and whether the protocol is over *)
  g_share : Z;
  g_pk : Z;
  g_done : bool
}.

Definition new_participant (id t n : Z) (poly : list Z) : result participant string :=
  if (1 <=? id) && (id <=? n) && (1 <=? t) && (t <=? n) then Ok (mkParticipant id n poly 0 0 false)
  else Err "invalid parameters".

(** Everybody's view of the public key must be this one. *)
Definition agreed (pk : Z) (views : gmap Z Z) : bool := forallb (fun e => e.2 =? pk) (map_to_list views).

(** Shares that do not lie on the committed polynomial are refused. *)
Definition receive_shares (p : participant) (bs : gmap Z (list Z)) (ps : gmap Z Z) : result participant string :=
  if forallb (fun e => match bs !! e.1 with Some c => eval c (g_id p) =? e.2 | None => false end) (map_to_list ps) then
    Ok (mkParticipant (g_id p) (g_limit p) (g_poly p)
          (foldl (fun acc e => (acc + e.2) mod q) (eval (g_poly p) (g_id p)) (map_to_list ps))
          (foldl (fun acc e => (acc + eval e.2 0) mod q) (eval (g_poly p) 0) (map_to_list bs)) false)
  else Err "share does not match commitments".

#[export] Instance gennaro : Gennaro scheme := {|
  Participant := participant;
  Round1BroadcastData := list Z; Round1P2PData := Z; Round2EchoBroadcastData := Z;
  Round3BroadcastData := Z; Round4EchoBroadcastData := Z;
  secret_new rng id t n := new_participant id t n (coefficients rng (Z.to_nat t));
  secret_with rng id t n share ids index :=
    match ids !! index with
    | None => Err "no such dealer"
    | Some x => let '(num, den) := num_den (map (fun i => (i, tt)) ids) index x in
                new_participant id t n ((share * num * invert den) mod q :: coefficients rng (Z.to_nat t - 1))
    end;
  refresh_new rng id t n := new_participant id t n (0 :: coefficients rng (Z.to_nat t - 1));
  get_id := g_id;
  round1 p := Ok (p, g_poly p, list_to_map (map (fun j => (Z.of_nat j, eval (g_poly p) (Z.of_nat j)))
                                                (filter (fun j => Z.of_nat j <> g_id p) (seq 1 (Z.to_nat (g_limit p))))));
  round2 p bs ps := let? p := receive_shares p bs ps in Ok (p, g_pk p);
  round3 p bs := if agreed (g_pk p) bs then Ok (p, g_pk p) else Err "echo mismatch";
  round4 p bs := if agreed (g_pk p) bs then Ok (p, g_pk p) else Err "public keys differ";
  round5 p bs := if agreed (g_pk p) bs
                 then Ok (mkParticipant (g_id p) (g_limit p) (g_poly p) (g_share p) (g_pk p) true) else Err "echo mismatch";
  get_secret_share p := if g_done p then Some (g_share p) else None;
  get_public_key p := if g_done p then Some [byte_of_Z (g_pk p)] else None;
  ser_b1 l := Ok (map byte_of_Z l); de_b1 b := Ok (map Z_of_byte b);
  ser_p1 z := Ok [byte_of_Z z]; de_p1 b := match b with [z] => Ok (Z_of_byte z) | _ => Err "length" end;
  ser_b2 z := Ok [byte_of_Z z]; de_b2 b := match b with [z] => Ok (Z_of_byte z) | _ => Err "length" end;
  ser_b3 z := Ok [byte_of_Z z]; de_b3 b := match b with [z] => Ok (Z_of_byte z) | _ => Err "length" end;
  ser_b4 z := Ok [byte_of_Z z]; de_b4 b := match b with [z] => Ok (Z_of_byte z) | _ => Err "length" end
|}.

End Shamir.
