(* ===== verification/CryptoTests.v ===== *)
(** The tests of [src/src/crypto.rs] on the model: [mod tests] (derivation, serialisation,
    response signatures) and [mod dkg_tests] (the DKG bridge), translated statement by
    statement and run over [Shamir], where they hold as they do over the real libraries. *)
From S2P Require Import Base Threshold Prelude Prog State Externals Models Crypto Auth Dkg Ceremony Testing Shamir.
From Stdlib Require Import ZArith Lia.
From Stdlib.Strings Require Import Byte.
From stdpp Require Import base list gmap strings pretty.
Local Open Scope Z_scope.

Import Shamir.

(** * [mod tests] *)

Module Tests.

Definition partials (shares : list (Z * Z)) (msg : bytes) : kms (result (list (Z * Z)) string) :=
  collect (fun s => unwrap (dprf_partial s msg)) shares.

Definition derive (shares : list (Z * Z)) (app_id : string) (material : bytes) : kms (result bytes string) :=
  let!? ps := partials shares (dprf_message app_id material) in unwrap (dprf_combine ps).

Definition dprf_is_deterministic : test :=
  let!? shares := split_master 2 3 in
  let!? k1 := derive (take 2 shares) "app-A" (str_bytes "material-1") in
  let!? k2 := derive (take 2 shares) "app-A" (str_bytes "material-1") in
  assert_eq k1 k2.

Definition dprf_threshold_subsets_agree : test :=
  let!? shares := split_master 2 3 in
  let!? p := partials shares (dprf_message "app-A" (str_bytes "mat")) in
  let!? p0 := index p 0 in let!? p1 := index p 1 in let!? p2 := index p 2 in
  let!? k01 := unwrap (dprf_combine [p0; p1]) in
  let!? k02 := unwrap (dprf_combine [p0; p2]) in
  let!? k12 := unwrap (dprf_combine [p1; p2]) in
  let!? k012 := unwrap (dprf_combine p) in
  let!? _ := assert_eq k01 k02 in
  let!? _ := assert_eq k01 k12 in
  assert_eq k01 k012.

Definition dprf_subthreshold_differs : test :=
  let!? shares := split_master 3 4 in
  let!? p := partials shares (dprf_message "app-A" (str_bytes "mat")) in
  let!? p0 := index p 0 in let!? p1 := index p 1 in let!? p2 := index p 2 in
  let!? wrong := unwrap (dprf_combine [p0; p1]) in
  let!? right_ := unwrap (dprf_combine [p0; p1; p2]) in
  assert_ne wrong right_.

Definition dprf_material_binding : test :=
  let!? shares := split_master 2 3 in
  let!? k1 := derive (take 2 shares) "app-A" (str_bytes "material-1") in
  let!? k2 := derive (take 2 shares) "app-A" (str_bytes "material-2") in
  assert_ne k1 k2.

Definition dprf_appid_namespace_isolation : test :=
  let!? shares := split_master 2 3 in
  let!? k_a := derive (take 2 shares) "app-A" (str_bytes "same-material") in
  let!? k_b := derive (take 2 shares) "app-B" (str_bytes "same-material") in
  assert_ne k_a k_b.

Definition dprf_message_is_unambiguous : test :=
  assert_ne (dprf_message "ab" (str_bytes "c")) (dprf_message "a" (str_bytes "bc")).

Definition share_survives_roundtrip : test :=
  let!? shares := split_master 2 3 in
  let!? s0 := index shares 0 in
  let!? back := unwrap (share_from_bytes (share_to_bytes s0)) in
  let msg := dprf_message "app" (str_bytes "m") in
  let!? p := unwrap (dprf_partial s0 msg) in
  let!? p' := unwrap (dprf_partial back msg) in
  assert_eq (partial_to_bytes p) (partial_to_bytes p').

Definition partial_roundtrip_and_combine : test :=
  let!? shares := split_master 2 3 in
  let msg := dprf_message "app" (str_bytes "m") in
  let!? direct := partials (take 2 shares) msg in
  let!? viawire := collect (fun p => unwrap (partial_from_bytes (partial_to_bytes p))) direct in
  let!? k := unwrap (dprf_combine direct) in
  let!? k' := unwrap (dprf_combine viawire) in
  assert_eq k k'.

(** [SigningKey::random]: 32 bytes of the generator. *)
Definition random_key : kms bytes := let! rng := ask Os_rng in Ret (take 32 (rng ++ replicate 32 Byte.x2a)).

Definition test_ecies_roundtrip : test :=
  let! privkey := random_key in
  let!? pubkey := unwrap (pubkey_from_private privkey) in
  let plaintext := str_bytes "hello kms shard" in
  let! ciphertext := ecies_encrypt pubkey plaintext in
  let!? ciphertext := unwrap ciphertext in
  let!? decrypted := unwrap (ecies_decrypt privkey ciphertext) in
  assert_eq decrypted plaintext.

Definition test_sign_request : test :=
  let! privkey := random_key in
  let!? sig := unwrap (sign_request privkey "GetShardContribution" 1234567890) in
  assert_eq (length sig) 65%nat.

Definition ecies_response_signature_binds_ciphertext_and_caller : test :=
  let! privkey := random_key in
  let!? pk := unwrap (pubkey_from_private privkey) in
  let signer := eth_address_from_pubkey pk in
  let caller := replicate 20 Byte.x11 in
  let ct := str_bytes "ecies-ciphertext-bytes" in
  let msg := dprf_partial_signing_msg caller 3 5 ct in
  let!? sig := unwrap (sign_bytes privkey msg) in
  let!? _ := assert_eq (length sig) 65%nat in
  let!? honest := unwrap (recover_signer_address msg sig) in
  let!? _ := assert_eq honest signer in
  let tampered := dprf_partial_signing_msg caller 3 5 (str_bytes "attacker-ciphertext") in
  let!? r := unwrap (recover_signer_address tampered sig) in
  let!? _ := assert_ne r signer in
  let wrong_epoch := dprf_partial_signing_msg caller 3 6 ct in
  let!? r := unwrap (recover_signer_address wrong_epoch sig) in
  let!? _ := assert_ne r signer in
  let other_caller := dprf_partial_signing_msg (replicate 20 Byte.x22) 3 5 ct in
  let!? r := unwrap (recover_signer_address other_caller sig) in
  assert_ne r signer.

End Tests.

(** * [mod dkg_tests] *)

Module DkgTests.

Definition new_participants (t n : Z) : kms (result (list participant) string) :=
  collect (fun i => let! rng := ask Os_rng in unwrap (secret_new rng (Z.of_nat i) t n)) (seq 1 (Z.to_nat n)).

Definition shares_of (ps : list participant) : kms (result (list (Z * Z)) string) :=
  collect (fun p => let!? s := unwrap (ok_or (get_secret_share p) "None") in Ret (Ok (get_id p, s))) ps.

Definition public_key_of (p : participant) : kms (result bytes string) := unwrap (ok_or (get_public_key p) "None").

Definition app_key (shares : list (Z * Z)) (app_id : string) (material : bytes) : kms (result bytes string) :=
  let msg := dprf_message app_id material in
  let!? partials := collect (fun '(id, s) => unwrap (dprf_partial (gennaro_share_to_blsful (Z.to_nat id) s) msg)) shares in
  unwrap (dprf_combine partials).

Definition dprf_verify_accepts_honest_and_rejects_garbage : test :=
  let!? ps := new_participants 2 3 in
  let!? ps := unwrap (drive ps) in
  let!? p0 := index ps 0 in
  let!? group_pk_bytes := public_key_of p0 in
  let!? sh := shares_of ps in
  let msg := dprf_message "app" (str_bytes "m") in
  let partial i msg := (let!? s := index sh i in unwrap (dprf_partial (gennaro_share_to_blsful (Z.to_nat s.1) s.2) msg)) in
  let!? h0 := partial 0%nat msg in
  let!? h1 := partial 1%nat msg in
  let!? sigma := unwrap (dprf_sigma [h0; h1]) in
  let!? _ := check (is_ok (dprf_verify sigma group_pk_bytes msg)) in
  let wrong_msg := dprf_message "app" (str_bytes "garbage") in
  let!? bad := partial 1%nat wrong_msg in
  let!? bad_sigma := unwrap (dprf_sigma [h0; bad]) in
  let!? _ := check (negb (is_ok (dprf_verify bad_sigma group_pk_bytes msg))) in
  check (negb (is_ok (dprf_verify sigma group_pk_bytes wrong_msg))).

Definition dkg_genesis_bridges_to_dprf : test :=
  let!? ps := new_participants 2 3 in
  let!? ps := unwrap (drive ps) in
  let!? p0 := index ps 0 in let!? p1 := index ps 1 in let!? p2 := index ps 2 in
  let!? pk := public_key_of p0 in
  let!? pk1 := public_key_of p1 in
  let!? _ := assert_eq pk pk1 in
  let!? pk2 := public_key_of p2 in
  let!? _ := assert_eq pk pk2 in
  let!? sh := shares_of ps in
  let!? k_all := app_key sh "app" (str_bytes "m") in
  let!? k01 := app_key (take 2 sh) "app" (str_bytes "m") in
  let!? _ := assert_eq k_all k01 in
  let!? k12 := app_key (take 2 (drop 1 sh)) "app" (str_bytes "m") in
  let!? _ := assert_eq k_all k12 in
  let!? other := app_key sh "app" (str_bytes "other") in
  let!? _ := assert_ne k_all other in
  assert_eq [byte_of_Z (interpolate0 (take 2 sh))] pk.

(** One reshare: the given participants go through the rounds. *)
Definition dkg_reshare_recovers_lost_share : test :=
  let!? ps := new_participants 2 3 in
  let!? ps := unwrap (drive ps) in
  let!? p0 := index ps 0 in
  let!? pk0 := public_key_of p0 in
  let!? sh0 := shares_of ps in
  let!? k0 := app_key sh0 "app" (str_bytes "m") in
  let dealer_ids := [1; 2] in
  let!? s0 := index sh0 0 in let!? s1 := index sh0 1 in
  let! rng1 := ask Os_rng in
  let!? d1 := unwrap (secret_with rng1 1 2 3 s0.2 dealer_ids 0) in
  let! rng2 := ask Os_rng in
  let!? d2 := unwrap (secret_with rng2 2 2 3 s1.2 dealer_ids 1) in
  let! rng3 := ask Os_rng in
  let!? r3 := unwrap (refresh_new rng3 3 2 3) in
  let!? (d1, b1, p1) := unwrap (round1 d1) in
  let!? (d2, b2, p2) := unwrap (round1 d2) in
  let!? (r3, b3, p3) := unwrap (round1 r3) in
  let at_ (m : gmap Z Z) i := unwrap (ok_or (m !! i) "no entry found for key") in
  let!? p21 := at_ p2 1 in let!? p31 := at_ p3 1 in
  let!? (d1, r2_1) := unwrap (round2 d1 {[2 := b2; 3 := b3]} {[2 := p21; 3 := p31]}) in
  let!? p12 := at_ p1 2 in let!? p32 := at_ p3 2 in
  let!? (d2, r2_2) := unwrap (round2 d2 {[1 := b1; 3 := b3]} {[1 := p12; 3 := p32]}) in
  let!? p13 := at_ p1 3 in let!? p23 := at_ p2 3 in
  let!? (r3, r2_3) := unwrap (round2 r3 {[1 := b1; 2 := b2]} {[1 := p13; 2 := p23]}) in
  let b2map : gmap Z Z := {[1 := r2_1; 2 := r2_2; 3 := r2_3]} in
  let!? (d1, c1) := unwrap (round3 d1 b2map) in
  let!? (d2, c2) := unwrap (round3 d2 b2map) in
  let!? (r3, c3) := unwrap (round3 r3 b2map) in
  let b3map : gmap Z Z := {[1 := c1; 2 := c2; 3 := c3]} in
  let!? (d1, e1) := unwrap (round4 d1 b3map) in
  let!? (d2, e2) := unwrap (round4 d2 b3map) in
  let!? (r3, e3) := unwrap (round4 r3 b3map) in
  let b4map : gmap Z Z := {[1 := e1; 2 := e2; 3 := e3]} in
  let!? d1 := unwrap (round5 d1 b4map) in
  let!? d2 := unwrap (round5 d2 b4map) in
  let!? r3 := unwrap (round5 r3 b4map) in
  let!? pk := public_key_of r3 in
  let!? _ := assert_eq pk pk0 in
  let!? sh_new := shares_of [d1; d2; r3] in
  let!? k := app_key sh_new "app" (str_bytes "m") in
  assert_eq k k0.

Definition dkg_reshare_recovers_with_absent_committee_member : test :=
  let!? ps := new_participants 2 4 in
  let!? ps := unwrap (drive ps) in
  let!? p0 := index ps 0 in
  let!? pk0 := public_key_of p0 in
  let!? sh0 := shares_of ps in
  let!? k0 := app_key (take 2 sh0) "app" (str_bytes "m") in
  let dealer_ids := [3; 4] in
  let!? s2 := index sh0 2 in let!? s3 := index sh0 3 in
  let! rng1 := ask Os_rng in
  let!? r1 := unwrap (refresh_new rng1 1 2 4) in
  let! rng3 := ask Os_rng in
  let!? d3 := unwrap (secret_with rng3 3 2 4 s2.2 dealer_ids 0) in
  let! rng4 := ask Os_rng in
  let!? d4 := unwrap (secret_with rng4 4 2 4 s3.2 dealer_ids 1) in
  let!? (r1, b1, p1) := unwrap (round1 r1) in
  let!? (d3, b3, p3) := unwrap (round1 d3) in
  let!? (d4, b4, p4) := unwrap (round1 d4) in
  let at_ (m : gmap Z Z) i := unwrap (ok_or (m !! i) "no entry found for key") in
  let!? p31 := at_ p3 1 in let!? p41 := at_ p4 1 in
  let!? (r1, r2_1) := unwrap (round2 r1 {[3 := b3; 4 := b4]} {[3 := p31; 4 := p41]}) in
  let!? p13 := at_ p1 3 in let!? p43 := at_ p4 3 in
  let!? (d3, r2_3) := unwrap (round2 d3 {[1 := b1; 4 := b4]} {[1 := p13; 4 := p43]}) in
  let!? p14 := at_ p1 4 in let!? p34 := at_ p3 4 in
  let!? (d4, r2_4) := unwrap (round2 d4 {[1 := b1; 3 := b3]} {[1 := p14; 3 := p34]}) in
  let b2map : gmap Z Z := {[1 := r2_1; 3 := r2_3; 4 := r2_4]} in
  let!? (r1, c1) := unwrap (round3 r1 b2map) in
  let!? (d3, c3) := unwrap (round3 d3 b2map) in
  let!? (d4, c4) := unwrap (round3 d4 b2map) in
  let b3map : gmap Z Z := {[1 := c1; 3 := c3; 4 := c4]} in
  let!? (r1, e1) := unwrap (round4 r1 b3map) in
  let!? (d3, e3) := unwrap (round4 d3 b3map) in
  let!? (d4, e4) := unwrap (round4 d4 b3map) in
  let b4map : gmap Z Z := {[1 := e1; 3 := e3; 4 := e4]} in
  let!? r1 := unwrap (round5 r1 b4map) in
  let!? d3 := unwrap (round5 d3 b4map) in
  let!? d4 := unwrap (round5 d4 b4map) in
  let!? pk := public_key_of r1 in
  let!? _ := assert_eq pk pk0 in
  let!? sh_new := shares_of [r1; d3; d4] in
  let!? k01 := app_key (take 2 sh_new) "app" (str_bytes "m") in
  let!? _ := assert_eq k01 k0 in
  let!? k := app_key sh_new "app" (str_bytes "m") in
  assert_eq k k0.

Definition dkg_proactive_refresh_preserves_master_and_expires_old_shares : test :=
  let!? ps := new_participants 2 3 in
  let!? ps := unwrap (drive ps) in
  let!? sh_old := shares_of ps in
  let!? k0 := app_key sh_old "app" (str_bytes "m") in
  let ids := [1; 2; 3] in
  let!? rs := collect (fun i => let!? s := index sh_old i in let! rng := ask Os_rng in
                                unwrap (secret_with rng (Z.of_nat i + 1) 2 3 s.2 ids i)) (seq 0 3) in
  let!? rs := unwrap (drive rs) in
  let!? sh_new := shares_of rs in
  let!? k := app_key sh_new "app" (str_bytes "m") in
  let!? _ := assert_eq k k0 in
  let!? new0 := index sh_new 0 in let!? old0 := index sh_old 0 in
  let!? _ := assert_ne new0.2 old0.2 in
  let!? new1 := index sh_new 1 in
  let!? mixed := app_key [old0; new1] "app" (str_bytes "m") in
  assert_ne mixed k0.

End DkgTests.

(** * The tests hold *)

(** A generator whose draws differ. *)
Definition rng (n : nat) : bytes := map (fun k => byte_of_Z (Z.of_nat n * 37 + Z.of_nat k * 101 + 19)) (seq 0 4).

Definition test_oracle : kms_oracle :=
  {| o_ans := fun n c => match c return ans c with Os_rng => rng n | c => Toy.no_answer c end;
     o_env := fun _ w => w; o_delay := fun _ => 1%N |}.

Definition passes (t : test) : bool := is_ok (run test_oracle t (start Toy.world 0)).1.

(** The derivation tests hold. *)
Theorem crypto_tests_hold :
  Forall (fun t => passes t = true)
    [Tests.dprf_is_deterministic; Tests.dprf_threshold_subsets_agree; Tests.dprf_subthreshold_differs;
     Tests.dprf_material_binding; Tests.dprf_appid_namespace_isolation; Tests.dprf_message_is_unambiguous;
     Tests.share_survives_roundtrip; Tests.partial_roundtrip_and_combine; Tests.test_ecies_roundtrip;
     Tests.test_sign_request; Tests.ecies_response_signature_binds_ciphertext_and_caller].
Proof. run_tests. Qed.

(** The bridge tests hold. *)
Theorem dkg_bridge_tests_hold :
  Forall (fun t => passes t = true)
    [DkgTests.dprf_verify_accepts_honest_and_rejects_garbage; DkgTests.dkg_genesis_bridges_to_dprf;
     DkgTests.dkg_reshare_recovers_lost_share; DkgTests.dkg_reshare_recovers_with_absent_committee_member;
     DkgTests.dkg_proactive_refresh_preserves_master_and_expires_old_shares].
Proof. run_tests. Qed.
