(* ===== verification/Ambient.v ===== *)
(** The interface between an invariant of the process state and the tasks of the process.
    [Ambient] states what an invariant has to promise for the parts every task shares (the
    two caches, the counters, the session buffers, the disk); [Gossiping] and [Adopting]
    add the peer table and the share.  Against it, every handler and background task is
    shown to keep the invariant; the instances are in [Node]. *)
From S2P Require Import Base Threshold Prelude Prog State Externals Models Crypto Seal Metrics Exposition Chain Verifier Auth Derive Gossip Membership Dkg Lifecycle Server.
From Stdlib Require Import ZArith Lia.
From stdpp Require Import base list gmap strings pretty.
Local Open Scope Z_scope.

Abbreviation any := (fun _ => True).

Class Ambient {T : ThresholdScheme} {X : Externals T} (config : Config) (I : World -> Prop)
    (OK : forall c, ans c -> Prop) : Prop := {
  amb_list app :
    safe I OK (get_signer_addresses (rpc_url (chain config)) (contract_address (chain config)) app) any;
  amb_list_for app a :
    safe I OK (get_signer_addresses_for (rpc_url (chain config)) (contract_address (chain config)) app a) any;
  amb_gate app a wait : safe I OK (require_verified app a wait) any;
  amb_providers u w : I w -> I (upd_providers u w);
  amb_metrics u w : I w -> I (upd_metrics u w);
  amb_sessions u w : I w -> I (upd_dkg_sessions u w);
  amb_fs u w : I w -> I (upd_fs u w);
  amb_sealed v w : I w -> I (set_sealed_share v w)
}.

(** The peer table: a caller's entry, given an acceptable report and clock reading, and the
    merge of an acceptable push. *)
Class Gossiping {T : ThresholdScheme} {X : Externals T} (config : Config) (I : World -> Prop)
    (OK : forall c, ans c -> Prop) (okN : NodeInfo -> Prop) : Prop := {
  gossip_caller pk now info w :
    OK Utc_now now -> okN info -> I w ->
    I (upd_peer_table (record_caller (mkAuthContext pk (eth_address_from_pubkey pk)) now info) w);
  gossip_push now url self sig ts target peers w :
    OK Utc_now now -> OK (Grpc_gossip url self sig ts) (RpcOk peers) -> I w ->
    I (upd_peer_table (apply_push config now target peers) w)
}.

(** The share: adoption of an acceptable index and epoch, and where those come from, the
    position in the on-chain list, a peer's assignment, a sealed record, the next epoch. *)
Class Adopting {T : ThresholdScheme} {X : Externals T} (config : Config) (I : World -> Prop)
    (OK : forall c, ans c -> Prop) (okI okE : Z -> Prop) : Prop := {
  adopt_shard s w : okI (shard_index s) -> okE (shard_epoch s) -> I w -> I (set_shard (Some s) w);
  adopt_master g w : I w -> I (set_group_pubkey (Some g) w);
  adopt_position app :
    safe I OK (get_signer_addresses (rpc_url (chain config)) (contract_address (chain config)) app)
      (fun r => forall l, r = Ok l -> forall i, (i < length l)%nat -> okI (Z.of_nat i + 1));
  adopt_assigned url sig ts resp : OK (Grpc_request_shard url sig ts) (RpcOk resp) -> okI (es_shard_index resp);
  adopt_record b64 sk rec : unseal_b64 b64 sk = Ok (Some rec) -> okI (rec_shard_index rec) /\ okE (rec_epoch rec);
  adopt_next e : okE (wrap_u64 e);
  adopt_genesis : okE GENESIS_EPOCH
}.

Create HintDb ambient.
#[export] Hint Resolve amb_list amb_list_for amb_gate : ambient.

(** Descend, closing what the interface or a lemma about a part covers. *)
Ltac ambient := repeat first [solve [eauto 2 with ambient] | any_step]; eauto 2 with ambient.

Section Tasks.
Context {T : ThresholdScheme} {X : Externals T} {G : Gennaro T}.
Context (config : Config) (signing_key : NodeKey) (wakes : nat).
Context (I : World -> Prop) (OK : forall c, ans c -> Prop) `{!Ambient config I OK}.

Abbreviation ok p := (safe I OK p any).

#[local] Hint Extern 1 (I (upd_providers _ _)) => apply amb_providers : ambient.
#[local] Hint Extern 1 (I (upd_metrics _ _)) => apply amb_metrics : ambient.
#[local] Hint Extern 1 (I (upd_dkg_sessions _ _)) => apply amb_sessions : ambient.
#[local] Hint Extern 1 (I (upd_fs _ _)) => apply amb_fs : ambient.
#[local] Hint Extern 1 (I (set_sealed_share _ _)) => apply amb_sealed : ambient.

(** ** The parts *)

Lemma inc_ok f : ok (inc f).
Proof. unfold inc. ambient. Qed.
Lemma store_metric_ok f v : ok (store_metric f v).
Proof. unfold store_metric. ambient. Qed.
Lemma record_ok {A E} a b (r : result A E) : ok (record_outcome a b r).
Proof. apply inc_ok. Qed.
#[local] Hint Resolve inc_ok store_metric_ok record_ok : ambient.

Lemma authenticate_ok md method : ok (authenticate md method config).
Proof. unfold authenticate, verify_on_chain. ambient. Qed.
Lemma response_ok msg sig : ok (verify_cluster_response msg sig config).
Proof. unfold verify_cluster_response. ambient. Qed.
Lemma encrypt_ok pk m : ok (ecies_encrypt pk m).
Proof. unfold ecies_encrypt. ambient. Qed.
Lemma node_list_ok : ok (node_list config).
Proof. unfold node_list. ambient. Qed.
#[local] Hint Resolve authenticate_ok response_ok encrypt_ok node_list_ok : ambient.

Lemma assemble_ok : ok (assemble_participants config signing_key).
Proof. unfold assemble_participants. ambient. Qed.
Lemma resolve_ok ids own : ok (resolve_peers config ids own).
Proof. unfold resolve_peers. ambient. Qed.
Lemma known_epoch_ok : ok read_known_epoch.
Proof. unfold read_known_epoch. ambient. Qed.
Lemma view_ok : ok (cluster_view config).
Proof. unfold cluster_view. ambient. Qed.
#[local] Hint Resolve assemble_ok resolve_ok known_epoch_ok view_ok : ambient.

(** ** The disk *)

Lemma fs_write_ok path c : ok (fs_write path c).
Proof. unfold fs_write. ambient. Qed.
Lemma fs_rename_ok a b : ok (fs_rename a b).
Proof. unfold fs_rename. ambient. Qed.
Lemma fs_remove_ok a : ok (fs_remove a).
Proof. unfold fs_remove. ambient. Qed.
#[local] Hint Resolve fs_write_ok fs_rename_ok fs_remove_ok : ambient.
Lemma write_blob_ok path b64 : ok (write_blob_file path b64).
Proof. unfold write_blob_file. ambient. Qed.
Lemma read_blob_ok path : ok (read_blob_file path).
Proof. unfold read_blob_file. ambient. Qed.
Lemma share_path_ok : ok (sealed_share_path config).
Proof. unfold sealed_share_path. ambient. Qed.
#[local] Hint Resolve write_blob_ok read_blob_ok share_path_ok : ambient.
Lemma probe_ok p : ok (probe_share_path p).
Proof. unfold probe_share_path. ambient. Qed.
Lemma baseline_ok p m : ok (check_master_baseline p m).
Proof. unfold check_master_baseline. ambient. Qed.
Lemma note_share_ok : ok note_share_acquired.
Proof. unfold note_share_acquired. ambient. Qed.
Lemma seal_ok pk r : ok (seal_b64 pk r).
Proof. unfold seal_b64, seal_to_bytes. ambient. Qed.
#[local] Hint Resolve probe_ok baseline_ok note_share_ok seal_ok : ambient.
Lemma persist_ok sh gpk : ok (seal_and_persist config signing_key sh gpk).
Proof. unfold seal_and_persist. ambient. Qed.
#[local] Hint Resolve persist_ok : ambient.

(** ** Sessions *)

Lemma await_loop_ok n sid r exp d : ok (await_loop n sid r exp d).
Proof. induction n as [|n IH]; cbn [await_loop]; unfold notified_before; ambient. Qed.
#[local] Hint Resolve await_loop_ok : ambient.
Lemma await_ok sid r exp t : ok (await_round wakes sid r exp t).
Proof. unfold await_round. ambient. Qed.
Lemma broadcast_ok sid r own b m peers : ok (broadcast_round signing_key sid r own b m peers).
Proof. unfold broadcast_round, send_dkg_round. ambient. Qed.
Lemma encrypt_p2p_ok p2p peers acc : ok (encrypt_p2p p2p peers acc).
Proof. revert acc. induction peers as [|p peers IH]; intros acc; cbn [encrypt_p2p]; ambient. Qed.
#[local] Hint Resolve await_ok broadcast_ok encrypt_p2p_ok : ambient.
Lemma session_ok sid p peers t : ok (run_session signing_key wakes sid p peers t).
Proof. unfold run_session. ambient. Qed.
#[local] Hint Resolve session_ok : ambient.

(** ** Derivation *)

Lemma get_partial_ok url app m sig ts : ok (get_dprf_partial config signing_key url app m sig ts).
Proof. unfold get_dprf_partial, accept_partial. ambient. Qed.
#[local] Hint Resolve get_partial_ok : ambient.
Lemma collect_loop_ok thr call urls c :
  (forall url, ok (call url)) -> ok (collect_loop thr call urls c).
Proof.
  intros Hcall. revert c. induction urls as [|url urls IH]; intros c; cbn [collect_loop]; ambient.
Qed.
Lemma collect_ok app m : ok (collect_and_dprf config signing_key app m).
Proof.
  unfold collect_and_dprf. repeat first [apply collect_loop_ok; intros ?|solve [eauto 2 with ambient]|any_step]; eauto 2 with ambient.
Qed.
#[local] Hint Resolve collect_ok : ambient.

(** ** The handlers *)

Lemma app_key_ok req : ok (handle_app_key config signing_key req).
Proof. unfold handle_app_key, app_key_inner, app_key_authorize, app_key_issue. ambient. Qed.
Lemma shard_contribution_ok md : ok (handle_get_shard_contribution config signing_key md).
Proof. unfold handle_get_shard_contribution. ambient. Qed.
Lemma dprf_partial_ok md app m : ok (handle_get_dprf_partial config signing_key md app m).
Proof. unfold handle_get_dprf_partial, respond_partial. ambient. Qed.
Lemma dkg_round_ok md msg : ok (handle_dkg_round config signing_key md msg).
Proof. unfold handle_dkg_round. ambient. Qed.
Lemma request_shard_ok md : ok (handle_request_shard config signing_key md).
Proof. unfold handle_request_shard, try_assign_init_shard. ambient. Qed.
Lemma peers_ok : ok (handle_peers config signing_key).
Proof. unfold handle_peers. ambient. Qed.
Lemma sealed_share_ok : ok handle_sealed_share.
Proof. unfold handle_sealed_share. ambient. Qed.
Lemma ready_ok : ok handle_ready.
Proof. unfold handle_ready. ambient. Qed.
Lemma write_families_ok fs : ok (write_families fs).
Proof.
  assert (forall l, ok (read_samples l)) as Hs.
  { intros l. induction l as [|[suffix s] l IH]; cbn [read_samples]; [exact Logic.I|].
    destruct s; unfold read_source, uptime; ambient. }
  induction fs as [|f fs IH]; cbn [write_families]; ambient.
Qed.
#[local] Hint Resolve write_families_ok : ambient.
Lemma metrics_ok version : ok (handle_metrics config version).
Proof. unfold handle_metrics, render. ambient. Qed.

(** ** Gossip *)

Lemma authenticate_address md method :
  safe I OK (authenticate md method config)
    (fun r => forall ctx, r = Ok ctx -> ctx = mkAuthContext (caller_pubkey ctx) (eth_address_from_pubkey (caller_pubkey ctx))).
Proof.
  unfold authenticate. repeat safe_seq. destruct (parse_metadata md) as [[sig ts]|e]; [|done]. repeat safe_seq.
  destruct (too_far _ _ _); [done|]. repeat safe_seq. destruct (recover_pubkey _ _); [|done]. cbn [map_err].
  safe_seq. eapply safe_mono; [unfold verify_on_chain; ambient|]. intros r _. repeat safe_seq.
  destruct r as [[]|e]; [|done]. cbn [map_err]. safe_seq. eapply safe_mono; [apply amb_gate|]. intros r _. repeat safe_seq.
  destruct r as [[]|e]; [|done]. cbn [map_err]. safe_seq. by intros ctx [= <-].
Qed.

Section Gossip.
Context (okN : NodeInfo -> Prop) `{!Gossiping config I OK okN}.

Lemma gossip_ok md info : (forall n, info = Some n -> okN n) -> ok (handle_gossip config md info).
Proof.
  intros Hn. unfold handle_gossip. apply safe_bind_ok. eapply safe_mono; [apply authenticate_address|].
  intros [ctx|e] Hctx; [|done]. apply safe_bind_any; [|intros _; ambient].
  destruct info as [n|]; [|exact Logic.I]. destruct (decide _); [exact Logic.I|]. apply safe_bind. intros now Hnow.
  intros w Hw. split; [|exact Logic.I]. rewrite (Hctx ctx eq_refl). apply gossip_caller; auto.
Qed.

Lemma gossip_to_ok self sig ts target : ok (gossip_to config self sig ts target).
Proof.
  unfold gossip_to, push_gossip. apply safe_bind. apply safe_bind. intros reply Hreply. apply safe_ret.
  destruct reply as [m|st|peers]; [ambient..|]. apply safe_bind_any; [ambient|]. intros _.
  apply safe_bind. intros now Hnow. apply safe_bind_any; [ambient|]. intros _ w Hw. split; [|exact Logic.I].
  by eapply gossip_push.
Qed.
#[local] Hint Resolve gossip_to_ok : ambient.

Lemma gossip_turn_ok path : ok path -> ok (gossip_turn config signing_key path).
Proof. intros Hp. unfold gossip_turn, gossip_round. ambient. Qed.

End Gossip.

(** ** The lifecycle *)

Section Adopt.
Context (okI okE : Z -> Prop) `{!Adopting config I OK okI okE}.

Lemma store_share_ok sh gpk :
  okI (shard_index sh) -> okE (shard_epoch sh) -> ok (store_share config signing_key sh gpk).
Proof.
  intros Hi He. unfold store_share. repeat first [solve [eauto 2 with ambient]|any_step].
  - by apply adopt_master.
  - by apply adopt_shard.
Qed.

(** The positions a list gives rise to. *)
Lemma node_list_positions :
  safe I OK (node_list config) (fun r => forall l, r = Ok l -> forall i, (i < length l)%nat -> okI (Z.of_nat i + 1)).
Proof.
  unfold node_list. apply safe_bind. eapply safe_mono; [apply adopt_position|]. intros [l|e] Hl; apply safe_ret; [|done].
  by intros ? [= <-]; apply Hl.
Qed.

Lemma assemble_own_id :
  safe I OK (assemble_participants config signing_key) (fun r => forall m, r = Ok (Some m) -> okI (m_own_id m)).
Proof.
  unfold assemble_participants. apply safe_bind_ok. eapply safe_mono; [apply node_list_positions|].
  intros [l|e] Hl; [|done]. destruct (_ <? _); [done|]. destruct (position _ l) as [pos|] eqn:Ep; [|done].
  repeat safe_seq. intros m [= <-]. unfold membership_of. destruct (scan_members _ _ _ _ _) as [peers all]. simpl.
  apply (Hl l eq_refl). by eapply position_lt.
Qed.

Lemma join_seeds_ok sig ts l any_reachable : ok (join_seeds config signing_key sig ts l any_reachable).
Proof.
  revert any_reachable. induction l as [|url l IH]; intros b; cbn [join_seeds]; [exact Logic.I|].
  apply safe_bind. eapply safe_mono with (Q := fun r => forall s, r = Ok s -> okI (shard_index s) /\ okE (shard_epoch s)).
  - unfold request_shard_from_peer. apply safe_bind. intros reply Hreply. destruct reply as [m|st|resp]; [done..|].
    apply safe_bind. eapply safe_mono; [apply response_ok|]. intros v _. repeat safe_seq.
    destruct (map_err _ v); [|done]. repeat safe_seq. destruct (map_err _ (ecies_decrypt _ _)); [|done]. safe_seq.
    intros s [= <-]. split; [by eapply adopt_assigned|apply adopt_genesis].
  - intros [s|[e|e]] Hs; [|apply IH..]. destruct (Hs s eq_refl). apply safe_bind_any; [|done].
    intros w Hw. split; [by apply adopt_shard|exact Logic.I].
Qed.
#[local] Hint Resolve join_seeds_ok : ambient.
Lemma join_ok : ok (join_cluster config signing_key).
Proof. unfold join_cluster. ambient. Qed.
Lemma wait_for_peers_ok n : ok (wait_for_peers n).
Proof. induction n as [|n IH]; cbn [wait_for_peers]; ambient. Qed.
#[local] Hint Resolve join_ok wait_for_peers_ok : ambient.

Lemma reload_ok : ok (try_reload_sealed config signing_key).
Proof.
  assert (forall b64, ok (adopt_sealed config signing_key b64)) as Ha.
  { intros b64. unfold adopt_sealed. destruct (unseal_b64 _ _) as [[rec|]|e] eqn:E; [|ambient..].
    destruct (adopt_record b64 _ rec E) as [Hi He].
    repeat first [solve [eauto 2 with ambient]|any_step]; [by apply adopt_master|by apply adopt_shard]. }
  unfold try_reload_sealed, reload_source, sealed_share_blob. ambient.
Qed.

Lemma run_genesis_ok own peers t n : okI own -> ok (run_genesis config signing_key wakes own peers t n).
Proof.
  intros Hi. pose proof adopt_genesis. unfold run_genesis.
  repeat first [apply store_share_ok; by auto|solve [eauto 2 with ambient]|any_step].
Qed.

Lemma run_recovery_ok m : okI (m_own_id m) -> ok (run_reshare_recovery config signing_key wakes m).
Proof.
  intros Hi. unfold run_reshare_recovery, send_start_reshare.
  repeat first [apply store_share_ok; [done|apply adopt_next]|solve [eauto 2 with ambient]|any_step].
Qed.

Lemma run_dealer_ok sid rid ids e : okE e -> ok (run_reshare_dealer config signing_key wakes sid rid ids e).
Proof.
  intros He. unfold run_reshare_dealer. apply safe_bind_ok. eapply safe_mono; [apply node_list_positions|].
  intros [l|e'] Hl; [|done]. apply safe_bind_ok, safe_ret. destruct (position _ l) as [pos|] eqn:Ep; [|done].
  assert (okI (Z.of_nat pos + 1)) as Hi by (apply (Hl l eq_refl); by eapply position_lt). cbn [ok_or].
  repeat first [apply store_share_ok; done|solve [eauto 2 with ambient]|any_step].
Qed.
#[local] Hint Resolve reload_ok : ambient.

Lemma trigger_refresh_ok : ok (trigger_refresh config signing_key wakes).
Proof.
  unfold trigger_refresh, send_start_reshare.
  repeat first [apply run_dealer_ok, adopt_next|solve [eauto 2 with ambient]|any_step].
Qed.

Lemma watchdog_turn_ok b : ok (watchdog_turn config signing_key wakes b).
Proof.
  unfold watchdog_turn. repeat first [solve [eauto 2 with ambient]|
    match goal with |- safe _ _ (bind (assemble_participants _ _) _) _ => apply safe_bind end|any_step].
  eapply safe_mono; [apply assemble_own_id|]. intros [[m|]|e] Hm; [|done|ambient].
  apply safe_bind_any; [by apply run_recovery_ok, Hm|intros r; ambient].
Qed.

Lemma watchdog_ok n b : ok (fall_behind_watchdog config signing_key wakes n b).
Proof.
  revert b. induction n as [|n IH]; intros b; cbn [fall_behind_watchdog]; [exact Logic.I|].
  apply safe_bind_any; [apply watchdog_turn_ok|done].
Qed.

Lemma formation_turn_ok since : ok (formation_turn config signing_key wakes since).
Proof.
  unfold formation_turn. apply safe_bind. eapply safe_mono; [apply assemble_own_id|].
  intros [[m|]|e] Hm; [|ambient..]. specialize (Hm m eq_refl).
  repeat first [by apply run_genesis_ok|by apply run_recovery_ok|solve [eauto 2 with ambient]|any_step].
Qed.

Lemma form_loop_ok n since : ok (form_loop config signing_key wakes n since).
Proof.
  revert since. induction n as [|n IH]; intros since; cbn [form_loop];
    repeat first [apply formation_turn_ok|apply IH|any_step].
Qed.

Lemma form_cluster_ok n : ok (form_cluster config signing_key wakes n).
Proof.
  unfold form_cluster. repeat first [apply form_loop_ok|apply watchdog_ok|solve [eauto 2 with ambient]|any_step].
Qed.

Lemma app_owner_ok app : ok (get_app_owner (rpc_url (chain config)) (contract_address (chain config)) app).
Proof. unfold get_app_owner, provider_for. ambient. Qed.
#[local] Hint Resolve trigger_refresh_ok app_owner_ok : ambient.

Lemma handle_refresh_ok req : ok (handle_refresh config signing_key wakes req).
Proof. unfold handle_refresh. ambient. Qed.

(** The handler and the dealer task it spawns. *)
Lemma start_reshare_ok md req :
  okE (rr_epoch req) ->
  safe I OK (handle_start_reshare config signing_key wakes md req)
    (fun rd => forall p, rd.2 = Some p -> ok p).
Proof.
  intros He. unfold handle_start_reshare. apply safe_bind. eapply safe_mono; [apply authenticate_ok|].
  intros [ctx|e] _; [|by apply safe_ret]. apply safe_bind. intros w Hw. split; [done|].
  cbn [safe]. destruct (is_initialized w); cbn [negb]; apply safe_ret; [|done].
  intros p Hp. cbn [snd] in Hp. match type of Hp with Some ?q = _ => assert (p = q) as -> by congruence end.
  apply safe_bind_any; [by apply run_dealer_ok|intros r; ambient].
Qed.

End Adopt.

End Tasks.
