(* ===== verification/Node.v ===== *)
(** The node process: how [src/src/main.rs] boots it (logging, configuration, verifier,
    signing key), the tasks it then runs (the gossip loop, the formation task, and one task
    per HTTP request and gRPC call, [server::router] and [grpc::service]), and their
    interleaving over the shared state.  The theorems lift the components' guarantees to
    every reachable state of the process. *)
From S2P Require Import Base Threshold Prelude Prog State Externals Models Crypto Seal Metrics Exposition Tee Chain Verifier Auth Derive Gossip Membership Dkg Lifecycle Server Ambient.
From Stdlib Require Import ZArith Lia.
From stdpp Require Import base list gmap strings pretty relations.
Local Open Scope Z_scope.

(** * Booting *)

Definition LOG_FILES_KEPT : Z := 7.

Record Logging := mkLogging {
  log_filter : string;
  log_dir : option string;
  log_ansi : bool;
  log_json : bool
}.

Inductive BootError : Type :=
| LogDirectory (dir m : string)
| ConfigFile (path m : string)
| VerifierInit (e : NewError + string)
| SigningKey (e : TeeError).

Section Boot.
Context {T : ThresholdScheme} {X : Externals T}.
(** [EnvFilter]'s syntax check, the TOML deserialiser, whether the TLS client builds, and
    [Channel::from_shared]. *)
Context (filter_ok : string -> bool) (toml_from_str : string -> result Config string).
Context (builds : bool) (endpoint_try : string -> result unit string).

Definition init_logging : kms (result Logging BootError) :=
  let! env := ask (Env_var "RUST_LOG") in
  let filter := match env : option string with
                | Some f => if filter_ok f then f else "kms=info"
                | None => "kms=info"
                end in
  let! dir := ask (Env_var "KMS_LOG_DIR") in
  let!? guard :=
    (match nonblank dir with
     | Some dir =>
         let! r := ask (Log_dir_open (trim dir) LOG_FILES_KEPT) in
         Ret (match r : option string with
              | Some m => Err (LogDirectory (trim dir) m)
              | None => Ok (Some (trim dir))
              end)
     | None => Ret (Ok None)
     end) in
  let! ansi := (match guard with Some _ => Ret false | None => ask Is_terminal end) in
  let! format := ask (Env_var "KMS_LOG_FORMAT") in
  Ret (Ok (mkLogging filter guard ansi (bool_decide ((format : option string) = Some "json")))).

(** [Config::load]. *)
Definition Config_load (path : string) : kms (result Config string) :=
  let! r := ask (Fs_read path) in
  match r : option string with
  | Some m => Ret (Err m)
  | None =>
      let! w := get in
      match fs w !! path with
      | None => Ret (Err "No such file or directory (os error 2)")
      | Some content => Ret (toml_from_str content)
      end
  end.

(** [metrics::m()] before anything else: the process clock starts. *)
Definition metrics_m : kms unit := let! t := now in modify (set_started t).

(** [main] up to the tasks it spawns. *)
Definition boot : kms (outcome (result (Config * NodeKey) BootError)) :=
  let! l := init_logging in
  match l with
  | Err e => Ret (Returned (Err e))
  | Ok _ =>
      metrics_m;;;
      let! args := ask Cli_args in
      let config_path := default "kms.toml" ((args : list string) !! 1%nat) in
      let! c := Config_load config_path in
      match c with
      | Err m => Ret (Returned (Err (ConfigFile config_path m)))
      | Ok config =>
          let! v := init builds config in
          match v with
          | Err e => Ret (Returned (Err (VerifierInit e)))
          | Ok _ =>
              let! k := fetch_signing_key endpoint_try (tapp config) in
              Ret (match k with
                   | Panicked m => Panicked m
                   | Returned (Err e) => Returned (Err (SigningKey e))
                   | Returned (Ok key) => Returned (Ok (config, key))
                   end)
          end
      end
  end.

End Boot.

(** * The tasks of a running node *)

(** A request of one of the routes, an RPC of the service, or a task spawned at boot; the
    loops run for any number of turns. *)
Inductive Task : Type :=
| PostAppKey (req : AppKeyRequest)
| PostRefresh (req : RefreshRequest)
| GetPeers
| GetSealedShare
| GetHealth
| GetReady
| GetMetrics
| RpcRequestShard (md : MetadataMap)
| RpcGetShardContribution (md : MetadataMap)
| RpcGetDprfPartial (md : MetadataMap) (app_id : string) (material : bytes)
| RpcGossip (md : MetadataMap) (self_info : option NodeInfo)
| RpcDkgRound (md : MetadataMap) (msg : DkgRoundMsg)
| RpcStartReshare (md : MetadataMap) (req : ReshareRequest)
| GossipTask (turns : nat)
| FormCluster (turns : nat)
| Watchdog (turns : nat) (behind_checks : Z).

(** What a task has answered when it is done. *)
Inductive Reply : Type :=
| AppKeyReply (req : AppKeyRequest) (r : result string KmsError)
| RpcReplied (md : MetadataMap) (method : string) (accepted : bool)
| Done.

(** [server::router]: what a method and a path are routed to, given the decoded body. *)
Definition router (method path : string) (app_key : option AppKeyRequest) (refresh : option RefreshRequest) :
    option Task :=
  if decide (method = "POST") then
    if decide (path = "/app-key") then option_map PostAppKey app_key
    else if decide (path = "/refresh") then option_map PostRefresh refresh
    else None
  else if decide (method = "GET") then
    if decide (path = "/peers") then Some GetPeers
    else if decide (path = "/sealed-share") then Some GetSealedShare
    else if decide (path = "/health") then Some GetHealth
    else if decide (path = "/ready") then Some GetReady
    else if decide (path = "/metrics") then Some GetMetrics
    else None
  else None.

Section Tasks.
Context {T : ThresholdScheme} {X : Externals T} {G : Gennaro T}.
Context (config : Config) (signing_key : NodeKey) (wakes : nat) (version : string).

(** The body of [start_gossip_task]. *)
Fixpoint gossip_turns (turns : nat) : kms unit :=
  match turns with
  | O => Ret tt
  | S turns => gossip_turn config signing_key (sealed_share_path config);;; gossip_turns turns
  end.

Definition start_gossip_task (turns : nat) : kms unit := sleep (secs 5);;; gossip_turns turns.

(** A handler that answers [accepted] or a status. *)
Definition replied {A} (md : MetadataMap) (method : string) (p : kms (result A Status)) : kms Reply :=
  let! r := p in Ret (RpcReplied md method (is_ok r)).

Definition no_reply {A} (p : kms A) : kms Reply := let! _ := p in Ret Done.

Definition task_prog (t : Task) : kms Reply :=
  match t with
  | PostAppKey req => let! r := handle_app_key config signing_key req in Ret (AppKeyReply req r)
  | PostRefresh req => no_reply (handle_refresh config signing_key wakes req)
  | GetPeers => no_reply (handle_peers config signing_key)
  | GetSealedShare => no_reply handle_sealed_share
  | GetHealth => no_reply handle_health
  | GetReady => no_reply handle_ready
  | GetMetrics => no_reply (handle_metrics config version)
  | RpcRequestShard md => replied md "RequestShard" (handle_request_shard config signing_key md)
  | RpcGetShardContribution md =>
      replied md "GetShardContribution" (handle_get_shard_contribution config signing_key md)
  | RpcGetDprfPartial md app material =>
      replied md "GetDprfPartial" (handle_get_dprf_partial config signing_key md app material)
  | RpcGossip md self_info => replied md "Gossip" (handle_gossip config md self_info)
  | RpcDkgRound md msg => replied md "DkgRound" (handle_dkg_round config signing_key md msg)
  | RpcStartReshare md req =>
      let! (r, dealer) := handle_start_reshare config signing_key wakes md req in
      (match dealer with Some p => p | None => Ret tt end);;;
      Ret (RpcReplied md "StartReshare" (is_ok r))
  | GossipTask turns => no_reply (start_gossip_task turns)
  | FormCluster turns => no_reply (form_cluster config signing_key wakes turns)
  | Watchdog turns b => no_reply (fall_behind_watchdog config signing_key wakes turns b)
  end.

(** A step of the process: one of its tasks moves, or a request arrives. *)
Inductive node_step (OK : forall c, ans c -> Prop) (arrives : Task -> Prop) :
    pool World Call ans Reply -> pool World Call ans Reply -> Prop :=
| node_task P P' : pool_step_ok OK P P' -> node_step OK arrives P P'
| node_arrival s t h ps task :
    arrives task -> node_step OK arrives (Pool s t h ps) (Pool s t h (ps ++ [task_prog task])).

(** The process [main] starts, from the state and clock of the boot. *)
Definition spawned (s : World) (t : Z) (turns : nat) : pool World Call ans Reply :=
  Pool s t ∅ [task_prog (GossipTask turns); task_prog (FormCluster turns)].

End Tasks.

(** * Theorems *)

(** ** A node that boots does what its configuration says *)

(** Nothing that is served from has changed. *)
Definition unserved (w w' : World) : Prop :=
  (shard w', pending_shards w', peer_table w', dkg_sessions w', group_pubkey w', sealed_share w') =
  (shard w, pending_shards w, peer_table w, dkg_sessions w, group_pubkey w, sealed_share w) /\
  (node_list_cache w', verdict_cache w', fs w') = (node_list_cache w, verdict_cache w, fs w).

Section BootProofs.
Context {T : ThresholdScheme} {X : Externals T}.
Context (filter_ok : string -> bool) (toml_from_str : string -> result Config string).
Context (builds : bool) (endpoint_try : string -> result unit string).

Lemma init_logging_spec s t log :
  wp eq (init_logging filter_ok) (fun _ s' _ _ => s' = s) s t log.
Proof.
  unfold init_logging. do 5 wp_step. destruct (nonblank _) as [dir|].
  - do 3 wp_step. match goal with |- context [match ?a with Some _ => Err _ | None => _ end] => destruct a end.
    + by wp_step.
    + by repeat wp_step.
  - by repeat wp_step.
Qed.

Lemma Config_load_spec path s t log :
  wp eq (Config_load toml_from_str path)
    (fun r s' _ _ => s' = s /\ forall c, r = Ok c ->
       exists content, fs s !! path = Some content /\ toml_from_str content = Ok c) s t log.
Proof.
  unfold Config_load. do 2 wp_step. match goal with a : ans _ |- _ => destruct a as [m|] end; [by wp_step|].
  do 2 wp_step. unfold id in *. destruct (fs _ !! path) eqn:E; wp_step; (split; [done|]); [|done]. eauto.
Qed.

Lemma unserved_refl w : unserved w w.
Proof. done. Qed.
Lemma unserved_metrics u w w' : unserved w w' -> unserved w (upd_metrics u w').
Proof. by destruct w'. Qed.
Lemma unserved_verifier v w w' : unserved w w' -> unserved w (set_the_verifier v w').
Proof. by destruct w'. Qed.
Lemma unserved_started v w w' : unserved w w' -> unserved w (set_started v w').
Proof. by destruct w'. Qed.

Lemma init_spec config s t log :
  the_verifier s = None ->
  wp eq (init builds config)
    (fun r s' _ _ => unserved s s' /\ (r = Ok tt -> the_verifier s' = Some (verifier config) /\
       forall cfg, verifier config = Some cfg -> pinned_or_insecure cfg)) s t log.
Proof.
  intros Hv. unfold init, store_metric.
  destruct (match verifier config with None => _ | Some cfg => _ end) as [v|e] eqn:E.
  2: { wp_step. by split. }
  do 2 wp_step. intros s2 t2 <- Ht2.
  assert (the_verifier (upd_metrics (metric_store verifier_enabled (match v with Some _ => 1 | None => 0 end)) s') = None)
    as Hv' by (by destruct s').
  cbv beta. rewrite !Hv'. wp_step. split; [by apply unserved_verifier, unserved_metrics|]. intros _.
  destruct (verifier config) as [cfg|] eqn:Ec.
  - destruct (Verifier_new builds cfg) as [c|] eqn:En; simplify_eq. split; [by destruct s'|].
    intros cfg' [= <-]. by eapply Verifier_new_ok.
  - simplify_eq. split; [by destruct s'|done].
Qed.

Lemma fetch_key_state cfg s t log :
  wp eq (fetch_signing_key endpoint_try cfg) (fun _ s' _ _ => s' = s) s t log.
Proof.
  eapply wp_mono; [|apply (wp_guar_eq eq)].
  - by intros r s' t' log' <-.
  - assert (forall app tries attempt last, guar eq (attempts app tries attempt last)) as Ha.
    { intros app tries. induction tries as [|tries IH]; intros attempt last; cbn [attempts]; [done|].
      repeat (apply IH || guar_step). }
    unfold fetch_signing_key, fetch_mock, fetch_grpc, mock_var. repeat (apply Ha || guar_step).
Qed.

Lemma wp_eq_anything {A} (p : kms A) Q s t log : wp anything p Q s t log -> wp eq p Q s t log.
Proof.
  revert s t log. induction p as [a|c k IH|u k IH|k IH|d k IH|l k IH|l k IH]; simpl; intros s t log Hwp s' t' HR Ht.
  all: specialize (Hwp s' t' I Ht); auto.
Qed.

(** The end of a boot: an error, or a node gated as it is configured. *)
Definition booted (s : World) (r : outcome (result (Config * NodeKey) BootError)) (s' : World) (log : list kms_event) : Prop :=
  unserved s s' /\ exists res, r = Returned res /\ forall config key, res = Ok (config, key) ->
    the_verifier s' = Some (verifier config) /\ well_formed_key key /\
    (forall cfg, verifier config = Some cfg -> pinned_or_insecure cfg) /\
    exists (args : list string) content, Ev Cli_args args ∈ log /\
      fs s !! default "kms.toml" (args !! 1%nat) = Some content /\ toml_from_str content = Ok config.

Lemma booted_err s e s' log : unserved s s' -> booted s (Returned (Err e)) s' log.
Proof. intros H. split; [done|]. by eexists. Qed.

Lemma unserved_trans a b c : unserved a b -> unserved b c -> unserved a c.
Proof. intros [] []. split; congruence. Qed.

Lemma boot_spec s t log :
  hex_length X -> the_verifier s = None ->
  wp eq (boot filter_ok toml_from_str builds endpoint_try) (fun r s' _ log' => booted s r s' log') s t log.
Proof.
  intros Hhex Hv. unfold boot, metrics_m. wp_step. eapply wp_mono; [|apply init_logging_spec].
  intros [l|e] s1 t1 log1 ->; [|wp_step; by apply booted_err]. do 4 wp_step.
  match goal with |- wp _ _ _ (set_started ?z ?s0) _ _ => assert (unserved s0 (set_started z s0) /\
    the_verifier (set_started z s0) = None) as [Hu Hv'] by (by destruct s0);
    generalize dependent (set_started z s0) end.
  intros s1 Hu Hv'. do 2 wp_step. match goal with |- context [Ev Cli_args ?args] => rename args into cli end.
  assert (Ev Cli_args cli ∈ log1 ++ [Ev Cli_args cli]) as Hin by set_solver.
  wp_step. eapply wp_mono; [|apply wp_conj; [apply Config_load_spec|apply wp_progress; apply _]].
  intros [config|e] s2 t2 log2 [[-> Hc] [_ Hl2]]; [|wp_step; by apply booted_err]. wp_step.
  destruct (Hc config eq_refl) as (content & Hf & Ht).
  eapply wp_mono; [|apply wp_conj; [by apply init_spec|apply wp_progress; apply _]]. intros [[]|e] s3 t3 log3 [[Hu3 Hv3] [_ Hl3]].
  2: { wp_step. apply booted_err. by eapply unserved_trans. }
  destruct (Hv3 eq_refl) as [Hset Hpins]. wp_step.
  eapply wp_mono; [|apply wp_conj; [apply wp_conj; [apply fetch_key_state|apply wp_progress; apply _]|
    apply wp_eq_anything, fetch_signing_key_spec, Hhex]].
  intros k s4 t4 log4 ([-> [_ Hl4]] & (res & -> & Hk) & _). wp_step.
  destruct res as [key|e]; [|by apply booted_err; eapply unserved_trans].
  split; [by eapply unserved_trans|]. eexists. split; [done|]. intros ? ? [= <- <-]. split; [done|]. split; [by apply Hk|]. split; [done|].
  exists cli, content. split; [|split; [|done]].
  - do 3 (eapply elem_of_prefix; [|eassumption]). exact Hin.
  - destruct Hu as [_ Hu]. simplify_eq. rewrite <-Hf. f_equal. congruence.
Qed.

End BootProofs.

(** ** Everything the node ever answers *)

Section System.
Context {T : ThresholdScheme} {X : Externals T} {G : Gennaro T}.
Context (config : Config) (signing_key : NodeKey) (wakes : nat) (version : string).

(** Invariants of the process: of the state, and of what each task may still answer. *)
Lemma node_invariant (I : World -> Prop) OK arrives (Q : Reply -> Prop) P P' :
  (forall t, arrives t -> safe I OK (task_prog config signing_key wakes version t) Q) ->
  I (p_st _ P) -> Forall (fun p => safe I OK p Q) (p_tasks _ P) ->
  rtc (node_step config signing_key wakes version OK arrives) P P' ->
  I (p_st _ P') /\ Forall (fun p => safe I OK p Q) (p_tasks _ P').
Proof.
  intros Ht HI HQ Hsteps. induction Hsteps as [P|P1 P2 P3 H12 _ IH]; [done|].
  assert (I (p_st _ P2) /\ Forall (fun p => safe I OK p Q) (p_tasks _ P2)) as [HI2 HQ2]; [|by apply IH].
  destruct H12 as [P P' Hp|s t h ps task Ha]; [by eapply pool_safe_step|].
  split; [done|]. apply Forall_app. split; [done|]. constructor; [by apply Ht|constructor].
Qed.

Lemma gossip_task_ok (J : World -> Prop) OK `{!Ambient config J OK} okN `{!Gossiping config J OK okN} turns :
  safe J OK (start_gossip_task config signing_key turns) any.
Proof.
  unfold start_gossip_task. apply safe_bind_any; [exact I|]. intros _.
  induction turns as [|turns IH]; cbn [gossip_turns]; [exact I|]. apply safe_bind_any; [|by intros _].
  apply (gossip_turn_ok config signing_key J OK okN). by apply share_path_ok.
Qed.

(** What a request has to satisfy for an invariant that restricts reports and epochs. *)
Definition task_within (okN : NodeInfo -> Prop) (okE : Z -> Prop) (t : Task) : Prop :=
  match t with
  | RpcGossip _ (Some info) => okN info
  | RpcStartReshare _ req => okE (rr_epoch req)
  | _ => True
  end.

(** Every task keeps every invariant that honours the interface. *)
Lemma task_ok (J : World -> Prop) OK okN okI okE `{!Ambient config J OK} `{!Gossiping config J OK okN}
    `{!Adopting config J OK okI okE} t :
  task_within okN okE t -> safe J OK (task_prog config signing_key wakes version t) any.
Proof.
  intros Ht. assert (forall A (p : kms A), safe J OK p any -> safe J OK (no_reply p) any) as Hn.
  { intros A p Hp. by apply safe_bind_any. }
  assert (forall A md method (p : kms (result A Status)), safe J OK p any -> safe J OK (replied md method p) any) as Hr.
  { intros A md method p Hp. by apply safe_bind_any. }
  destruct t as [req|req| | | | | |md|md|md app m|md info|md msg|md req|turns|turns|turns b]; cbn [task_prog];
    try apply Hn; try apply Hr.
  - apply safe_bind_any; [apply app_key_ok; apply _|done].
  - apply (handle_refresh_ok config signing_key wakes J OK okI okE).
  - apply peers_ok; apply _.
  - by eapply sealed_share_ok.
  - done.
  - by eapply ready_ok.
  - apply metrics_ok; apply _.
  - apply request_shard_ok; apply _.
  - apply shard_contribution_ok; apply _.
  - apply dprf_partial_ok; apply _.
  - apply (gossip_ok config J OK okN). by intros n ->.
  - apply dkg_round_ok; apply _.
  - apply safe_bind. eapply safe_mono; [by apply (start_reshare_ok config signing_key wakes J OK okI okE)|].
    intros [r [p|]] Hp; [apply safe_bind_any; [by apply Hp|done]|done].
  - apply (gossip_task_ok J OK okN).
  - apply (form_cluster_ok config signing_key wakes J OK okI okE).
  - apply (watchdog_ok config signing_key wakes J OK okI okE).
Qed.

Section Admission.
Context (cfg : VerifierConfig) (P : string -> list Address -> Prop) (V : Key -> Prop) (C : Z -> Prop).

Abbreviation inv := (admission_inv config cfg P V).
Abbreviation sources := (sources_ok config P V C).

Lemma list_safe app : safe inv sources (get_signer_addresses (rpc_url (chain config))
  (contract_address (chain config)) app) any.
Proof.
  eapply safe_equiv; [|eapply (safe_frame _ _ (fun w => verdicts_backed V w /\
    the_verifier w = Some (Some cfg))); [|eapply safe_ok_mono;
    [|eapply safe_mono; [apply (get_signer_addresses_vouched _ _ P)|done]]]].
  - done.
  - eapply guar_mono; [|apply get_signer_addresses_frame].
    intros s s' [Hc Hv] [H1 H2]. unfold verdicts_backed. rewrite Hv, (core_verifier _ _ Hc). done.
  - by intros c a [? _].
Qed.

#[export] Instance admission_ambient : Ambient config inv sources.
Proof.
  split.
  - apply list_safe.
  - intros app a. eapply safe_mono; [apply signers_safe|done].
  - intros app a wait. eapply safe_mono; [apply gate_safe|done].
  - by intros u [].
  - by intros u [].
  - by intros u [].
  - by intros u [].
  - by intros v [].
Qed.

#[export] Instance admission_gossiping : Gossiping config inv sources any.
Proof. split; intros; by destruct w. Qed.

#[export] Instance admission_adopting : Adopting config inv sources any any.
Proof.
  split; try done; try (intros; by destruct w). intros app. eapply safe_mono; [apply list_safe|done].
Qed.

(** The caller of an RPC signed this method and a timestamp that was fresh, and is a
    registered, attested node of the cluster's application. *)
Definition caller_admitted (md : MetadataMap) (method : string) : Prop :=
  exists sig ts t pk, parse_metadata md = Ok (sig, ts) /\ C t /\
    too_far t ts (timestamp_tolerance_secs (server config)) = false /\
    recover_pubkey (request_msg method ts) sig = Ok pk /\ admitted config P V (eth_address_from_pubkey pk).

(** What may be answered. *)
Definition good_reply (r : Reply) : Prop :=
  match r with
  | AppKeyReply req (Ok _) => entitled config P V C (req_app_id req) (req_timestamp req) (req_signature req)
  | RpcReplied md method true => caller_admitted md method
  | _ => True
  end.

Lemma authenticated md method :
  safe inv sources (authenticate md method config) (fun r => is_ok r = true -> caller_admitted md method).
Proof.
  eapply safe_mono; [apply authenticate_safe|]. intros [ctx|e] Hr; [|done]. intros _.
  destruct (Hr ctx eq_refl) as (sig & ts & t & H1 & H2 & H3 & H4 & H5 & H6).
  exists sig, ts, t, (caller_pubkey ctx). by rewrite <-H5.
Qed.

Lemma replied_safe {A} md method (p : kms (result A Status)) f :
  p = (let!? ctx := authenticate md method config in f ctx) ->
  safe inv sources p any -> safe inv sources (replied md method p) good_reply.
Proof.
  intros -> Hall. unfold replied. apply safe_bind.
  eapply safe_mono; [apply safe_bind_ok_fact; [exact Hall|apply authenticated]|].
  intros r Hr. apply safe_ret. simpl. destruct (is_ok r) eqn:E; [by apply Hr|done].
Qed.

Lemma no_reply_safe {A} (p : kms A) : safe inv sources p any -> safe inv sources (no_reply p) good_reply.
Proof. intros Hp. unfold no_reply. apply safe_bind. eapply safe_mono; [exact Hp|]. done. Qed.

Lemma app_key_reply_safe req :
  safe inv sources (let! r := handle_app_key config signing_key req in Ret (AppKeyReply req r)) good_reply.
Proof.
  pose proof (app_key_ok config signing_key inv sources req) as Hall.
  unfold handle_app_key, app_key_inner in Hall. apply safe_bind. unfold handle_app_key, app_key_inner. apply safe_bind.
  pose proof (safe_bind_inv _ _ _ _ _ Hall) as Hinner.
  eapply safe_mono; [apply safe_conj; [exact Hinner|apply safe_bind_ok_fact;
    [eapply safe_mono; [exact Hinner|done]|eapply safe_mono; [apply (authorize_admitted config cfg P V C)|]]]|].
  { intros [[]|e] He Hok; [by apply He|done]. }
  intros r [_ Hr]. unfold inc. apply safe_bind. intros w Hw. split; [by apply amb_metrics|].
  destruct r as [[enc tr]|e]; simpl; [by apply Hr|done].
Qed.

Lemma start_reshare_authenticated md req :
  safe inv sources (handle_start_reshare config signing_key wakes md req)
    (fun r => is_ok r.1 = true -> caller_admitted md "StartReshare").
Proof.
  unfold handle_start_reshare. apply safe_bind. eapply safe_mono; [apply authenticated|].
  intros [ctx|e] Ha; [|by apply safe_ret]. apply safe_bind. intros w Hw. split; [done|].
  cbn [safe]. destruct (is_initialized w); cbn [negb]; apply safe_ret; [|done]. intros _. by apply Ha.
Qed.

Lemma start_reshare_reply_safe md req :
  safe inv sources (task_prog config signing_key wakes version (RpcStartReshare md req)) good_reply.
Proof.
  cbn [task_prog]. apply safe_bind. eapply safe_mono; [apply safe_conj; [by apply (start_reshare_ok config signing_key wakes inv sources any any)|]|].
  - apply start_reshare_authenticated.
  - intros [r [p|]] [Hp Hr]; apply safe_bind.
    + eapply safe_mono; [by apply Hp|]. intros [] _. apply safe_ret. simpl in *. destruct (is_ok r) eqn:E; [by apply Hr|done].
    + apply safe_ret, safe_ret. simpl in *. destruct (is_ok r) eqn:E; [by apply Hr|done].
Qed.

Lemma task_safe t : safe inv sources (task_prog config signing_key wakes version t) good_reply.
Proof.
  destruct t as [req|req| | | | | |md|md|md app m|md info|md msg|md req|turns|turns|turns b]; cbn [task_prog].
  - apply app_key_reply_safe.
  - by apply no_reply_safe, (handle_refresh_ok config signing_key wakes inv sources any any).
  - by apply no_reply_safe, peers_ok.
  - by eapply no_reply_safe, sealed_share_ok.
  - done.
  - by eapply no_reply_safe, ready_ok.
  - by apply no_reply_safe, metrics_ok.
  - eapply replied_safe; [reflexivity|]. apply request_shard_ok; apply _.
  - eapply replied_safe; [reflexivity|]. apply shard_contribution_ok; apply _.
  - eapply replied_safe; [reflexivity|]. apply dprf_partial_ok; apply _.
  - eapply replied_safe; [reflexivity|]. by apply (gossip_ok config inv sources any).
  - eapply replied_safe; [reflexivity|]. apply dkg_round_ok; apply _.
  - apply start_reshare_reply_safe.
  - apply no_reply_safe, (gossip_task_ok inv sources any).
  - by apply no_reply_safe, (form_cluster_ok config signing_key wakes inv sources any any).
  - by apply no_reply_safe, (watchdog_ok config signing_key wakes inv sources any any).
Qed.

End Admission.

(** ** The master of a running node *)

Definition holds_share (w : World) : Prop := is_Some (shard w).

(** An invariant on the share and the group key alone is kept by the shared parts. *)
Lemma keeps_ambient (J : World -> Prop) :
  (forall w w', keeps w w' -> J w -> J w') -> Ambient config J (fun _ _ => True).
Proof.
  intros HJ. assert (forall A (p : kms A), guar keeps p -> safe J (fun _ _ => True) p any) as Hg.
  { intros A p Hp. apply safe_guar; [|done]. eapply guar_mono; [|exact Hp]. auto. }
  destruct keeps_updates as (_ & Hm & Hd & Hf & Hs). split; intros; try (apply Hg); try (eapply HJ; [|eassumption]); auto.
  - apply chain_keeps.
  - eapply guar_mono; [|apply get_signer_addresses_for_frame]. intros ? ? [? _]. by apply core_keeps.
  - eapply guar_mono; [|apply require_verified_frame]. intros ? ? [? _]. by apply core_keeps.
  - by destruct w.
Qed.

#[local] Instance share_ambient : Ambient config holds_share (fun _ _ => True).
Proof. apply keeps_ambient. unfold holds_share. by intros w w' (_ & -> & _). Qed.
#[local] Instance share_adopting : Adopting config holds_share (fun _ _ => True) any any.
Proof.
  split; try done; try (intros; by destruct w).
  - intros s [] _ _ _. by eexists.
  - intros app. eapply safe_mono; [apply amb_list|done].
Qed.

Section Master.
Context (gpk : bytes).

Definition running (w : World) : Prop := master_is gpk w /\ holds_share w.

#[local] Instance running_ambient : Ambient config running (fun _ _ => True).
Proof. apply keeps_ambient. unfold running, master_is, holds_share. by intros w w' (-> & -> & _). Qed.
#[local] Instance running_gossiping : Gossiping config running (fun _ _ => True) any.
Proof. split; intros; by destruct w. Qed.

Abbreviation ok p := (safe running (fun _ _ => True) p any).

Lemma watchdog_running turns b : ok (fall_behind_watchdog config signing_key wakes turns b).
Proof.
  revert b. induction turns as [|turns IH]; intros b; cbn [fall_behind_watchdog]; [exact I|].
  apply safe_bind_any; [|done]. apply safe_and; [apply watchdog_safe|by apply (watchdog_turn_ok config signing_key wakes holds_share (fun _ _ => True) any any)].
Qed.

Lemma form_cluster_running turns : ok (form_cluster config signing_key wakes turns).
Proof.
  assert (forall w, running w -> is_initialized w = true) as Hi.
  { intros w [_ [s Hs]]. unfold is_initialized. by rewrite Hs. }
  unfold form_cluster. apply safe_bind. intros w Hw. split; [done|]. cbn [safe]. rewrite (Hi w Hw).
  apply safe_bind_any; [exact I|]. intros _. apply safe_bind.
  destruct turns; cbn [form_loop]; apply safe_bind; intros w2 Hw2; (split; [done|]); cbn [safe]; rewrite (Hi w2 Hw2).
  all: apply safe_ret, watchdog_running.
Qed.

Lemma refresh_running req : ok (handle_refresh config signing_key wakes req).
Proof.
  unfold handle_refresh. apply safe_bind_any; [by intros ? ?|]. intros t. destruct (too_far _ _ _); [exact I|].
  apply safe_bind_ok_any; [exact I|]. intros a. apply safe_bind_ok_any.
  { apply app_owner_ok; apply _. }
  intros owner. destruct (negb _); [exact I|]. apply safe_bind_any.
  { apply safe_and; [apply refresh_safe|by apply (trigger_refresh_ok config signing_key wakes holds_share (fun _ _ => True) any any)]. }
  intros r. apply safe_bind_any; [apply (record_ok config running); apply _|]. by intros [].
Qed.

Lemma start_reshare_running md req :
  safe running (fun _ _ => True) (handle_start_reshare config signing_key wakes md req)
    (fun rd => forall p, rd.2 = Some p -> ok p).
Proof.
  unfold handle_start_reshare. apply safe_bind. eapply safe_mono; [apply authenticate_ok; apply _|].
  intros [ctx|e] _; [|by apply safe_ret]. apply safe_bind. intros w Hw. split; [done|].
  cbn [safe]. destruct (is_initialized w); cbn [negb]; apply safe_ret; [|done].
  intros p Hp. cbn [snd] in Hp. match type of Hp with Some ?q = _ => assert (p = q) as -> by congruence end.
  apply safe_bind_any; [|intros r; apply (record_ok config running); apply _].
  apply safe_and; [apply dealer_safe|by apply (run_dealer_ok config signing_key wakes holds_share (fun _ _ => True) any any)].
Qed.

Lemma no_reply_ok {A} (p : kms A) : ok p -> ok (no_reply p).
Proof. intros Hp. by apply safe_bind_any. Qed.
Lemma replied_ok {A} md method (p : kms (result A Status)) : ok p -> ok (replied md method p).
Proof. intros Hp. by apply safe_bind_any. Qed.

Lemma task_running t : ok (task_prog config signing_key wakes version t).
Proof.
  destruct t as [req|req| | | | | |md|md|md app m|md info|md msg|md req|turns|turns|turns b]; cbn [task_prog].
  - apply safe_bind_any; [apply app_key_ok; apply _|done].
  - apply no_reply_ok, refresh_running.
  - apply no_reply_ok, peers_ok; apply _.
  - by eapply no_reply_ok, sealed_share_ok.
  - done.
  - by eapply no_reply_ok, ready_ok.
  - apply no_reply_ok, metrics_ok; apply _.
  - apply replied_ok, request_shard_ok; apply _.
  - apply replied_ok, shard_contribution_ok; apply _.
  - apply replied_ok, dprf_partial_ok; apply _.
  - apply replied_ok. by apply (gossip_ok config running (fun _ _ => True) any).
  - apply replied_ok, dkg_round_ok; apply _.
  - apply safe_bind. eapply safe_mono; [apply start_reshare_running|]. intros [r [p|]] Hp.
    + apply safe_bind_any; [by apply Hp|done].
    + done.
  - apply no_reply_ok. apply (gossip_task_ok running (fun _ _ => True) any).
  - apply no_reply_ok, form_cluster_running.
  - apply no_reply_ok, watchdog_running.
Qed.

End Master.
End System.

(** C1: from boot on, everything the node answers is authorised.  Take a process booted from
    a configuration with a verifier, and any interleaving of its background tasks with any
    requests arriving at any time; let the registry, scan and the clock answer within [P],
    [V] and [C].  In every reachable state both caches hold only what those sources said and
    the gate is on; every secret an [/app-key] request was answered with went to a signer
    entitled to that application, and every RPC that was accepted came from an admitted
    node of the cluster that signed that method. *)
Theorem every_answer_is_authorised {T : ThresholdScheme} {X : Externals T} {G : Gennaro T} (o : kms_oracle)
    filter_ok toml_from_str builds endpoint_try t0 disk x y config key cfg P V C wakes version turns S' :
  hex_length X -> quiet o -> x_st x = AppState_new t0 disk ->
  run o (boot filter_ok toml_from_str builds endpoint_try) x = (Returned (Ok (config, key)), y) ->
  verifier config = Some cfg ->
  rtc (node_step config key wakes version (sources_ok config P V C) (fun _ => True))
    (spawned config key wakes version (x_st y) (x_now y) turns) S' ->
  admission_inv config cfg P V (p_st _ S') /\
  forall i r, p_tasks _ S' !! i = Some (Ret r) -> good_reply config P V C r.
Proof.
  intros Hhex Hq Hx Hb Hcfg Hsteps. assert (the_verifier (x_st x) = None) as Hv0 by (by rewrite Hx).
  pose proof (run_quiet o _ _ x Hq (boot_spec filter_ok toml_from_str builds endpoint_try _ (x_now x) (x_log x) Hhex Hv0)) as H. rewrite Hb in H.
  destruct H as [[_ Hu] (res & [= <-] & Hres)]. destruct (Hres config key eq_refl) as (Hv & _).
  cbn [fst snd] in *. rewrite Hx in Hu. simpl in Hu. injection Hu as Hn Hc Hf.
  assert (admission_inv config cfg P V (x_st y)) as Hi.
  { split; [|split; [|by rewrite Hv, Hcfg]].
    - intros app e. by rewrite Hn, lookup_empty.
    - unfold verdicts_backed. rewrite Hc. intros k e. by rewrite lookup_empty. }
  destruct (node_invariant config key wakes version (admission_inv config cfg P V) (sources_ok config P V C)
    (fun _ => True) (good_reply config P V C) (spawned config key wakes version (x_st y) (x_now y) turns) S')
    as [HI HQ]; [|done| |done|].
  - intros t _. apply task_safe.
  - constructor; [apply task_safe|]. constructor; [apply task_safe|constructor].
  - split; [done|]. intros i r Hr. exact (proj1 (Forall_lookup _ _) HQ i _ Hr).
Qed.

(** C11: a running node keeps its master whatever its tasks do.  From a state in which the
    node holds a share and knows the group public key, in every interleaving of any number
    of requests, RPCs, dealer sessions, refreshes, gossip rounds and watchdog turns, with
    any answers from outside, the group public key stays the same and the node keeps
    holding a share. *)
Theorem running_node_keeps_its_master {T : ThresholdScheme} {X : Externals T} {G : Gennaro T}
    config key wakes version gpk s t h tasks S' :
  group_pubkey s = Some gpk -> is_Some (shard s) ->
  rtc (node_step config key wakes version (fun _ _ => True) (fun _ => True))
    (Pool s t h (map (task_prog config key wakes version) tasks)) S' ->
  group_pubkey (p_st _ S') = Some gpk /\ is_Some (shard (p_st _ S')).
Proof.
  intros Hg Hs Hsteps.
  destruct (node_invariant config key wakes version (running gpk) (fun _ _ => True) (fun _ => True) (fun _ => True)
    (Pool s t h (map (task_prog config key wakes version) tasks)) S') as [[? ?] _]; [|by split| |done|by split].
  - intros task _. apply task_running.
  - apply Forall_map, Forall_forall. intros task _. apply task_running.
Qed.

(** C17: a node that comes up runs exactly what its configuration says.  The boot of a fresh
    process never panics and touches neither share, peers, caches nor disk; if it succeeds,
    the configuration is what the file named on the command line ([kms.toml] without one)
    holds, the attestation gate is set as configured (a
    configured verifier is reached over a pinned connection unless plain HTTP was asked for
    explicitly), and the signing key is well formed.  A malformed section, an unreadable
    file or a missing key ends the boot with an error instead. *)
Theorem boot_enforces_the_configuration {T : ThresholdScheme} {X : Externals T} (o : kms_oracle)
    filter_ok toml_from_str builds endpoint_try x :
  hex_length X -> quiet o -> the_verifier (x_st x) = None ->
  let '(r, y) := run o (boot filter_ok toml_from_str builds endpoint_try) x in
  booted toml_from_str (x_st x) r (x_st y) (x_log y).
Proof.
  intros Hhex Hq Hv.
  pose proof (run_quiet o _ _ x Hq (boot_spec filter_ok toml_from_str builds endpoint_try _ (x_now x) (x_log x) Hhex Hv)) as H.
  by destruct (run o _ x) as [r y].
Qed.

(** ** Node 1 booting *)

Definition pinned_scan : VerifierConfig :=
  {| verifier_url := "https://scan"; pubkeys := [Toy.hex (replicate 32 Byte.xaa)]; api_key := "k";
     insecure_http := false |}.

Definition pinned_config : Config :=
  {| server := server Toy.config; tapp := tapp Toy.config; chain := chain Toy.config;
     cluster := cluster Toy.config; verifier := Some pinned_scan |}.

Definition toy_toml (content : string) : result Config string :=
  if decide (content = "node 1") then Ok pinned_config else Err "expected a table".

Definition toy_env (c : Call) : ans c :=
  match c with
  | Env_var name =>
      if decide (name = "MOCK_APP_PRIVATE_KEY") then Some (Toy.hex Toy.sk1)
      else if decide (name = "MOCK_APP_ETH_ADDRESS") then Some (Toy.hex (Toy.addr_of Toy.sk1))
      else None
  | c => Toy.no_answer c
  end.

Definition toy_boot : kms (outcome (result (Config * NodeKey) BootError)) :=
  boot (fun _ => true) toy_toml true (fun _ => Ok tt).

Definition toy_disk : gmap string string := {["kms.toml" := "node 1"]}.

Lemma toy_boot_ok :
  (run (Toy.alone toy_env) toy_boot (start (AppState_new 0 toy_disk) 0)).1 = Returned (Ok (pinned_config, Toy.node1)).
Proof. vm_compute. reflexivity. Qed.

Lemma boot_enforces_the_configuration_witness :
  the_verifier (x_st (run (Toy.alone toy_env) toy_boot (start (AppState_new 0 toy_disk) 0)).2) =
  Some (Some pinned_scan).
Proof.
  pose proof (boot_enforces_the_configuration (Toy.alone toy_env) (fun _ => true) toy_toml true (fun _ => Ok tt)
    (start (AppState_new 0 toy_disk) 0) Toy.hex_length_ok (Toy.alone_quiet _) eq_refl) as H.
  change (boot _ _ _ _) with toy_boot in H. pose proof toy_boot_ok as E.
  destruct (run (Toy.alone toy_env) toy_boot _) as [r y]. destruct H as (_ & res & Hr & H).
  cbn [fst snd] in *. rewrite Hr in E. injection E as E. exact (proj1 (H _ _ E)).
Defined.

(** The booted node is asked for its health. *)
Lemma every_answer_is_authorised_witness :
  exists S' : pool World Call ans Reply, admission_inv pinned_config pinned_scan (fun _ _ => False) (fun _ => False) (p_st _ S') /\
    p_tasks _ S' !! 2%nat = Some (Ret Done).
Proof.
  pose proof (every_answer_is_authorised (G := ToyDkg.gennaro Byte.x09 [Byte.x08]) (Toy.alone toy_env) (fun _ => true)
    toy_toml true (fun _ => Ok tt) 0 toy_disk (start (AppState_new 0 toy_disk) 0)) as H.
  change (boot _ _ _ _) with toy_boot in H. pose proof toy_boot_ok as E.
  destruct (run (Toy.alone toy_env) toy_boot _) as [r y]. cbn [fst] in E. subst r.
  eexists. split; [refine (proj1 (H y pinned_config Toy.node1 pinned_scan (fun _ _ => False) (fun _ => False)
    (fun z => z = 1000) 1%nat "0.1.0" 3%nat _ Toy.hex_length_ok (Toy.alone_quiet _) eq_refl eq_refl eq_refl
    (rtc_once _ _ (node_arrival _ _ _ _ _ _ _ _ _ _ GetHealth I))))|reflexivity].
Defined.

(** A reshare that would end on another master arrives at node 1. *)
Lemma running_node_keeps_its_master_witness :
  exists S' : pool World Call ans Reply, group_pubkey (p_st _ S') = Some Toy.group /\ length (p_tasks _ S') = 2%nat.
Proof.
  pose proof (running_node_keeps_its_master (G := ToyDkg.gennaro Byte.x09 [Byte.x08]) Toy.config Toy.node1 1 "0.1.0"
    Toy.group Toy.world 0 ∅ [Watchdog 3 0]) as H.
  eexists. split; [refine (proj1 (H _ eq_refl ltac:(by eexists) (rtc_once _ _ (node_arrival _ _ _ _ _ _ _ _ _ _
    (RpcStartReshare ∅ (mkReshareRequest "reshare:kms:4:1000" 1 [1] 4)) I))))|reflexivity].
Defined.
