(* ===== verification/Main.v ===== *)
(** The end of [main] ([src/src/main.rs]): the two server tasks next to the node's tasks, and
    [try_join!] over them.  A server task panics when its address does not parse or cannot be
    bound or when serving fails; [main], when it is polled after one has panicked or both have
    ended, returns, which ends every other task.  The gRPC address is parsed by the standard library's
    [SocketAddr] parser, written out in [SocketAddr]. *)
From S2P Require Import Base Threshold Prelude Prog State Externals Models Dkg Tee Node.
From Stdlib Require Import ZArith Lia Ascii.
From Stdlib.Strings Require Import Byte.
From stdpp Require Import base list gmap strings pretty relations.
Local Open Scope Z_scope.

(** * [str::parse::<SocketAddr>] *)

Module SocketAddr.

Abbreviation parser A := (list Ascii.ascii -> option (A * list Ascii.ascii)).

(** [char::to_digit]. *)
Definition to_digit (radix : Z) (c : Ascii.ascii) : option Z :=
  let n := Z.of_nat (Ascii.nat_of_ascii c) in
  let d := if (48 <=? n) && (n <=? 57) then n - 48
           else if (97 <=? n) && (n <=? 122) then n - 87
           else if (65 <=? n) && (n <=? 90) then n - 55 else 99 in
  if d <? radix then Some d else None.

(** The digits at the front: their value, their number, the rest. *)
Fixpoint read_digits (radix value : Z) (count : nat) (l : list Ascii.ascii) : Z * nat * list Ascii.ascii :=
  match l with
  | c :: l' =>
      match to_digit radix c with
      | Some d => read_digits radix (value * radix + d) (S count) l'
      | None => (value, count, l)
      end
  | [] => (value, count, l)
  end.

(** [read_number]: at most [max_digits] digits, no zero prefix unless allowed, at most
    [limit]. *)
Definition read_number (radix : Z) (max_digits : option nat) (allow_zero_prefix : bool) (limit : Z) : parser Z := fun l =>
  let '(value, count, rest) := read_digits radix 0 0 l in
  let leading_zero := match l with c :: _ => Ascii.eqb c "0"%char | [] => false end in
  if (match max_digits with Some m => (m <? count)%nat | None => false end) || (limit <? value) then None
  else if (count =? 0)%nat then None
  else if negb allow_zero_prefix && leading_zero && (1 <? count)%nat then None
  else Some (value, rest).

Definition read_given_char (c : Ascii.ascii) (l : list Ascii.ascii) : option (list Ascii.ascii) :=
  match l with c' :: l => if Ascii.eqb c' c then Some l else None | [] => None end.

(** [read_separator]: the separator, unless it is the first element. *)
Definition read_separator {A} (sep : Ascii.ascii) (index : nat) (inner : parser A) : parser A := fun l =>
  match index with O => inner l | S _ => match read_given_char sep l with Some l => inner l | None => None end end.

Fixpoint read_octets (index n : nat) : parser (list Z) := fun l =>
  match n with
  | O => Some ([], l)
  | S n =>
      match read_separator "."%char index (read_number 10 (Some 3%nat) false 255) l with
      | None => None
      | Some (o, l) => match read_octets (S index) n l with Some (os, l) => Some (o :: os, l) | None => None end
      end
  end.

Definition read_ipv4_addr : parser (list Z) := read_octets 0 4.

(** [read_groups]: up to [n] more groups, the last two of which may be an IPv4 address;
    whether they are. *)
Fixpoint read_groups (index n : nat) (l : list Ascii.ascii) : list Z * bool * list Ascii.ascii :=
  match n with
  | O => ([], false, l)
  | S n' =>
      let v4 := if (1 <? n)%nat then read_separator ":"%char index read_ipv4_addr l else None in
      match v4 with
      | Some ([a; b; c; d], l) => ([a * 256 + b; c * 256 + d], true, l)
      | _ =>
          match read_separator ":"%char index (read_number 16 (Some 4%nat) true 65535) l with
          | Some (g, l) => let '(gs, v4, l) := read_groups (S index) n' l in (g :: gs, v4, l)
          | None => ([], false, l)
          end
      end
  end.

Definition read_ipv6_addr : parser (list Z) := fun l =>
  let '(head, v4, l) := read_groups 0 8 l in
  if (length head =? 8)%nat then Some (head, l)
  else if v4 : bool then None
  else match read_given_char ":"%char l with
       | None => None
       | Some l =>
           match read_given_char ":"%char l with
           | None => None
           | Some l =>
               let '(tail, _, l) := read_groups 0 (8 - (length head + 1)) l in
               Some (head ++ replicate (8 - (length head + length tail)) 0 ++ tail, l)
           end
       end.

Definition read_port : parser Z := fun l =>
  match read_given_char ":"%char l with Some l => read_number 10 None true 65535 l | None => None end.

Definition read_scope_id : parser Z := fun l =>
  match read_given_char "%"%char l with Some l => read_number 10 None true (2 ^ 32 - 1) l | None => None end.

Inductive t : Type :=
| V4 (ip : list Z) (port : Z)
| V6 (ip : list Z) (port scope_id : Z).

Definition read_v4 : parser t := fun l =>
  match read_ipv4_addr l with
  | None => None
  | Some (ip, l) => match read_port l with Some (p, l) => Some (V4 ip p, l) | None => None end
  end.

Definition read_v6 : parser t := fun l =>
  match read_given_char "["%char l with
  | None => None
  | Some l =>
      match read_ipv6_addr l with
      | None => None
      | Some (ip, l) =>
          let '(scope, l) := match read_scope_id l with Some r => r | None => (0, l) end in
          match read_given_char "]"%char l with
          | None => None
          | Some l => match read_port l with Some (p, l) => Some (V6 ip p scope, l) | None => None end
          end
      end
  end.

(** The whole text must be read. *)
Definition parse (s : string) : option t :=
  let l := String.list_ascii_of_string s in
  match (match read_v4 l with Some r => Some r | None => read_v6 l end) with
  | Some (a, []) => Some a
  | _ => None
  end.

End SocketAddr.

(** * The server tasks *)

Inductive Server : Type :=
| Starting
| Serving
| Ended (o : outcome unit).

(** The HTTP task: bind, then serve. *)
Inductive http_step : Server -> Server -> Prop :=
| http_bound : http_step Starting Serving
| http_unbound m : http_step Starting (Ended (Panicked ("Failed to bind HTTP: " +:+ m)))
| http_error m : http_step Serving (Ended (Panicked ("HTTP server error: " +:+ m)))
| http_ended : http_step Serving (Ended (Returned tt)).

(** The gRPC task: parse the address, then serve (which binds). *)
Inductive grpc_step (grpc_bind : string) : Server -> Server -> Prop :=
| grpc_parsed addr : SocketAddr.parse grpc_bind = Some addr -> grpc_step grpc_bind Starting Serving
| grpc_unparsed : SocketAddr.parse grpc_bind = None ->
    grpc_step grpc_bind Starting (Ended (Panicked "Invalid gRPC bind address: AddrParseError(Socket)"))
| grpc_error m : grpc_step grpc_bind Serving (Ended (Panicked ("gRPC server error: " +:+ m)))
| grpc_ended : grpc_step grpc_bind Serving (Ended (Returned tt)).

(** Which server a request comes in at; the background tasks do not arrive. *)
Definition over_http (t : Task) : bool :=
  match t with
  | PostAppKey _ | PostRefresh _ | GetPeers | GetSealedShare | GetHealth | GetReady | GetMetrics => true
  | _ => false
  end.

Definition over_grpc (t : Task) : bool :=
  match t with
  | RpcRequestShard _ | RpcGetShardContribution _ | RpcGetDprfPartial _ _ _ | RpcGossip _ _ | RpcDkgRound _ _
  | RpcStartReshare _ _ => true
  | _ => false
  end.

Inductive MainError : Type :=
| HttpPanicked (m : string)
| GrpcPanicked (m : string).

Section Main.
Context {T : ThresholdScheme} {X : Externals T} {G : Gennaro T}.
Context (config : Config) (signing_key : NodeKey) (wakes : nat) (version : string).

(** The process while [main] waits for its servers, and after [main] has returned: the
    runtime is dropped with it, and all tasks. *)
Inductive Process : Type :=
| Live (tasks : pool World Call ans Reply) (http grpc : Server)
| Exited (r : result unit MainError).

(** [try_join!(http, grpc)?; Ok(())]: a panic (either one, when both have panicked), or the
    end of both. *)
Inductive main_returns : Server -> Server -> result unit MainError -> Prop :=
| returns_http m g : main_returns (Ended (Panicked m)) g (Err (HttpPanicked m))
| returns_grpc h m : main_returns h (Ended (Panicked m)) (Err (GrpcPanicked m))
| returns_ok : main_returns (Ended (Returned tt)) (Ended (Returned tt)) (Ok tt).

(** Whose move a step is. *)
Inductive Actor : Type := Tasks | Requests | HttpServer | GrpcServer | MainTask.

(** A step of the process: a task of the node moves, a request arrives at a server that
    serves, a server moves, or [main] is polled and finds its servers joined. *)
Inductive main_step (OK : forall c, ans c -> Prop) : Actor -> Process -> Process -> Prop :=
| main_task P P' h g : pool_step_ok OK P P' -> main_step OK Tasks (Live P h g) (Live P' h g)
| main_request s t l ps h g task :
    (over_http task = true /\ h = Serving) \/ (over_grpc task = true /\ g = Serving) ->
    main_step OK Requests (Live (Pool s t l ps) h g)
      (Live (Pool s t l (ps ++ [task_prog config signing_key wakes version task])) h g)
| main_http P h h' g : http_step h h' -> main_step OK HttpServer (Live P h g) (Live P h' g)
| main_grpc P h g g' :
    grpc_step (grpc_bind (server config)) g g' -> main_step OK GrpcServer (Live P h g) (Live P h g')
| main_join P h g r : main_returns h g r -> main_step OK MainTask (Live P h g) (Exited r).

(** What [main] has started when it joins the servers. *)
Definition main_start (s : World) (t : Z) (turns : nat) : Process :=
  Live (spawned config signing_key wakes version s t turns) Starting Starting.

(** An execution: the processes [sigma] and whose move each step is; a process that has
    exited stays so. *)
Record execution (OK : forall c, ans c -> Prop) (s : World) (t : Z) (turns : nat)
    (sigma : nat -> Process) (who : nat -> Actor) : Prop := {
  begins : sigma 0%nat = main_start s t turns;
  moves n : main_step OK (who n) (sigma n) (sigma (S n)) \/ exists r, sigma n = Exited r /\ sigma (S n) = Exited r
}.

(** What the runtime's scheduler promises: the spawned gRPC task is polled, and so is [main]
    once a server it waits for has ended in a way that lets it return. *)
Record scheduled (sigma : nat -> Process) (who : nat -> Actor) : Prop := {
  grpc_is_polled : exists n, who n = GrpcServer \/ exists r, sigma n = Exited r;
  main_is_polled n P h g r : sigma n = Live P h g -> main_returns h g r ->
    exists m, (n <= m)%nat /\ (who m = MainTask \/ exists r, sigma m = Exited r)
}.

(** A server has panicked, or [main] has returned with an error. *)
Definition doomed (P : Process) : Prop :=
  match P with
  | Live _ h g => exists m, h = Ended (Panicked m) \/ g = Ended (Panicked m)
  | Exited r => exists e, r = Err e
  end.

Lemma doomed_step OK who P P' : main_step OK who P P' -> doomed P -> doomed P'.
Proof.
  destruct 1 as [| |P h h' g Hh|P h g g' Hg|P h g r Hr]; cbn; [done|done|..].
  - intros (m & [->| ->]); [inversion Hh|exists m; by right].
  - intros (m & [->| ->]); [exists m; by left|inversion Hg].
  - intros (m & [->| ->]); inversion Hr; subst; by eexists.
Qed.

(** The error of an address that is no socket address. *)
Definition bad_address : string := "Invalid gRPC bind address: AddrParseError(Socket)".

(** Where a process with such an address can be. *)
Definition without_grpc (s : World) (t : Z) (turns : nat) (OK : forall c, ans c -> Prop) (P : Process) : Prop :=
  match P with
  | Live Q h g =>
      rtc (node_step config signing_key wakes version OK (fun task => over_http task = true))
        (spawned config signing_key wakes version s t turns) Q /\
      (g = Starting \/ g = Ended (Panicked bad_address))
  | Exited r => exists e, r = Err e /\ (e = GrpcPanicked bad_address \/ exists m, e = HttpPanicked m)
  end.

Lemma without_grpc_step s t turns OK who P P' :
  SocketAddr.parse (grpc_bind (server config)) = None ->
  main_step OK who P P' -> without_grpc s t turns OK P -> without_grpc s t turns OK P'.
Proof.
  intros Hp. destruct 1 as [P P' h g Hs|s' t' l ps h g task Ha|P h h' g Hh|P h g g' Hg|P h g r Hr]; cbn; intros [Hn Hst].
  - split; [|done]. eapply rtc_r; [exact Hn|by apply node_task].
  - split; [|done]. eapply rtc_r; [exact Hn|]. apply node_arrival. destruct Ha as [[Ha _]|[_ ->]]; [done|by destruct Hst].
  - done.
  - split; [done|]. right. destruct Hst as [->| ->]; inversion Hg; subst; [congruence|done].
  - destruct Hst as [->| ->]; inversion Hr; subst; eauto.
Qed.

(** The node's tasks in a live process are a run of the node. *)
Definition runs_node (s : World) (t : Z) (turns : nat) (OK : forall c, ans c -> Prop) (P : Process) : Prop :=
  match P with
  | Live Q _ _ =>
      rtc (node_step config signing_key wakes version OK (fun task => over_http task || over_grpc task = true))
        (spawned config signing_key wakes version s t turns) Q
  | Exited _ => True
  end.

Lemma runs_node_step s t turns OK who P P' : main_step OK who P P' -> runs_node s t turns OK P -> runs_node s t turns OK P'.
Proof.
  destruct 1 as [P P' h g Hs|s' t' l ps h g task Ha|P h h' g Hh|P h g g' Hg|P h g r Hr]; cbn; intros Hn; [..|done].
  - eapply rtc_r; [exact Hn|by apply node_task].
  - eapply rtc_r; [exact Hn|]. apply node_arrival. destruct Ha as [[-> _]|[-> _]]; [done|apply orb_true_r].
  - done.
  - done.
Qed.

Lemma join_exits OK P P' : main_step OK MainTask P P' -> exists r, P' = Exited r.
Proof. intros H. inversion H; subst. by eexists. Qed.

Lemma grpc_moves OK P P' : main_step OK GrpcServer P P' ->
  exists Q h g g', P = Live Q h g /\ P' = Live Q h g' /\ grpc_step (grpc_bind (server config)) g g'.
Proof. intros H. inversion H; subst. by eexists _, _, _, _. Qed.

Section Executions.
Context (OK : forall c, ans c -> Prop) (s : World) (t : Z) (turns : nat) (sigma : nat -> Process) (who : nat -> Actor).
Context (Hex : execution OK s t turns sigma who).

(** What the steps keep holds from any moment on. *)
Lemma from_then (I : Process -> Prop) n m :
  (forall who P P', main_step OK who P P' -> I P -> I P') -> I (sigma n) -> (n <= m)%nat -> I (sigma m).
Proof.
  intros Hstep Hn. induction 1 as [|m _ IH]; [done|].
  destruct (moves _ _ _ _ _ _ Hex m) as [Hm|(r & E & E')]; [by eapply Hstep|]. by rewrite E', <-E.
Qed.

(** A panic ends the process with an error. *)
Lemma doomed_exits n : scheduled sigma who -> doomed (sigma n) -> exists k e, (n <= k)%nat /\ sigma k = Exited (Err e).
Proof.
  intros Hf Hd. destruct (sigma n) as [P h g|r] eqn:E; [|destruct Hd as [e ->]; by exists n, e].
  assert (exists r, main_returns h g r) as [r Hr] by (destruct Hd as (m & [->| ->]); eexists; constructor).
  destruct (main_is_polled _ _ Hf n P h g r E Hr) as (m & Hnm & Hm). rewrite <-E in Hd.
  pose proof (from_then doomed n m (doomed_step OK) Hd Hnm) as Hdm.
  destruct Hm as [Hw|[r' Hx]]; [|rewrite Hx in Hdm; destruct Hdm as [e ->]; by exists m, e].
  pose proof (from_then doomed n (S m) (doomed_step OK) Hd ltac:(lia)) as HdS.
  destruct (moves _ _ _ _ _ _ Hex m) as [Hs|(r' & Hx & _)].
  - rewrite Hw in Hs. destruct (join_exits _ _ _ Hs) as [r' ES]. rewrite ES in HdS. destruct HdS as [e ->].
    exists (S m), e. split; [lia|done].
  - rewrite Hx in Hdm. destruct Hdm as [e ->]. by exists m, e.
Qed.

(** The gRPC task of a bad address panics, or the process is over before. *)
Lemma bad_address_dooms : scheduled sigma who -> SocketAddr.parse (grpc_bind (server config)) = None ->
  exists n, doomed (sigma n).
Proof.
  intros Hf Hp. destruct (grpc_is_polled _ _ Hf) as (n & Hn).
  assert (forall m, without_grpc s t turns OK (sigma m)) as Hinv.
  { intros m. apply (from_then (without_grpc s t turns OK) 0 m); [intros ? ? ?; by apply without_grpc_step| |lia].
    rewrite (begins _ _ _ _ _ _ Hex). split; [constructor|by left]. }
  assert (forall m r, sigma m = Exited r -> doomed (sigma m)) as Hx.
  { intros m r E. pose proof (Hinv m) as H. rewrite E in *. destruct H as (e & -> & _). by exists e. }
  destruct Hn as [Hw|[r E]]; [|exists n; by eapply Hx]. destruct (moves _ _ _ _ _ _ Hex n) as [Hs|(r & E & _)]; [|exists n; by eapply Hx].
  exists (S n). pose proof (Hinv n) as H. rewrite Hw in Hs. destruct (grpc_moves _ _ _ Hs) as (Q & h & g & g' & En & -> & Hg).
  rewrite En in H. destruct H as [_ [->| ->]]; inversion Hg; subst; [congruence|]. eexists. by right.
Qed.

End Executions.
End Main.


(** The default address parses; a host name is not a socket address. *)
Example default_bind_parses : SocketAddr.parse default_grpc_bind = Some (SocketAddr.V4 [0; 0; 0; 0] 9090).
Proof. reflexivity. Qed.

Definition named_config : Config := {|
  server := {| bind_addr := default_http_bind; grpc_bind := "localhost:9090"; timestamp_tolerance_secs := 300 |};
  chain := chain Toy.config; tapp := tapp Toy.config; cluster := cluster Toy.config; verifier := verifier Toy.config
|}.

Abbreviation toy_start := (main_start (G := ToyDkg.gennaro Byte.x07 [Byte.x07]) named_config Toy.node1 1 "1" Toy.world 0 1).

(** The gRPC task panics on its address, and [main] returns. *)
Definition toy_sigma (n : nat) : Process :=
  match n with
  | 0%nat => toy_start
  | 1%nat => Live (spawned (G := ToyDkg.gennaro Byte.x07 [Byte.x07]) named_config Toy.node1 1 "1" Toy.world 0 1)
               Starting (Ended (Panicked bad_address))
  | _ => Exited (Err (GrpcPanicked bad_address))
  end.

Definition toy_who (n : nat) : Actor := match n with 0%nat => GrpcServer | _ => MainTask end.

Lemma toy_execution :
  execution (G := ToyDkg.gennaro Byte.x07 [Byte.x07]) named_config Toy.node1 1 "1" (fun _ _ => True) Toy.world 0 1 toy_sigma toy_who.
Proof.
  split; [done|]. intros [|[|n]].
  - left. apply main_grpc, grpc_unparsed. reflexivity.
  - left. apply main_join. constructor.
  - right. eexists. split; reflexivity.
Qed.

Lemma toy_scheduled : scheduled toy_sigma toy_who.
Proof.
  split; [exists 0%nat; by left|]. intros n P h g r E Hr. exists (S n). split; [lia|by left].
Qed.

