(* ===== verification/Typed.v ===== *)
(** The machine types of the shared state.  The source's types ([u32] indices, [u64] epochs,
    [i64] times, [[u8; 20]] addresses) are an invariant of the model's unbounded integers and
    byte lists: every task keeps it as long as the answers and requests are of their types. *)
From S2P Require Import Base Threshold Prelude Prog State Externals Models Crypto Seal Metrics Chain Verifier Auth Derive Gossip Membership Dkg Lifecycle Server Ambient Node.
From Stdlib Require Import ZArith Lia.
From Stdlib.Strings Require Import Byte.
From stdpp Require Import base list gmap strings relations.
Local Open Scope Z_scope.

(** A list of addresses whose positions fit a [u32]. *)
Definition typed_list (l : list Address) : Prop :=
  Forall (fun a => length a = 20%nat) l /\ Z.of_nat (length l) < 2 ^ 32.

Definition typed_shard (s : ShardState) : Prop := in_u32 (shard_index s) /\ in_u64 (shard_epoch s).

Definition typed_peer (p : PeerInfo) : Prop := in_i64 (last_seen p) /\ in_u64 (peer_epoch p).

Definition typed_table (t : gmap Address PeerInfo) : Prop :=
  forall a p, t !! a = Some p -> length a = 20%nat /\ typed_peer p.

Definition typed_info (n : NodeInfo) : Prop := in_u64 (ni_epoch n).

Definition typed_answer (c : Call) : ans c -> Prop :=
  match c with
  | Utc_now => in_i64
  | Eth_get_node_list _ _ _ => fun r => forall l, r = Ok l -> typed_list l
  | Grpc_gossip _ _ _ _ => fun r => forall l, r = RpcOk l -> Forall typed_info l
  | Grpc_request_shard _ _ _ => fun r => forall e, r = RpcOk e -> in_u32 (es_shard_index e)
  | _ => fun _ => True
  end.

Section Typed.
Context {T : ThresholdScheme} {X : Externals T} (config : Config).

Abbreviation lists := (vouched (rpc_url (chain config)) (contract_address (chain config)) (fun _ => typed_list)).

Definition typed_local (w : World) : Prop :=
  (forall s, shard w = Some s -> typed_shard s) /\ typed_table (peer_table w).

Definition typed (w : World) : Prop := lists w /\ typed_local w.

(** ** The peer table *)

Lemma typed_insert a p t : length a = 20%nat -> typed_peer p -> typed_table t -> typed_table (<[a := p]> t).
Proof. intros Ha Hp Ht b q [[<- <-]|[_ Hq]]%lookup_insert_Some; [done|by apply Ht]. Qed.

Lemma typed_mark_alive now target t : in_i64 now -> typed_table t -> typed_table (mark_alive now target t).
Proof.
  intros Hn Ht a p. unfold mark_alive. rewrite lookup_fmap. destruct (t !! a) as [q|] eqn:E; [|done].
  destruct (Ht a q E) as (Ha & Hl & He). simpl. intros [= <-]. split; [done|]. by case_decide; split.
Qed.

Lemma typed_merge_peer t n : typed_info n -> typed_table t -> typed_table (merge_peer config t n).
Proof.
  intros Hn Ht. unfold merge_peer. destruct (_ || _)%bool; [done|]. destruct (hex_decode _) as [k|]; [|done].
  destruct (length k =? 20)%nat eqn:Ek; [|done]. apply Nat.eqb_eq in Ek.
  destruct (t !! k) as [e|] eqn:Ee; apply typed_insert; try done.
  destruct (Ht k e Ee) as (_ & Hl & He). split; [done|]. unfold typed_info, in_u64 in *. simpl. lia.
Qed.

Lemma typed_apply_push now target ns t :
  in_i64 now -> Forall typed_info ns -> typed_table t -> typed_table (apply_push config now target ns t).
Proof.
  intros Hnow Hns Ht. unfold apply_push. assert (typed_table (mark_alive now target t)) as H by (by apply typed_mark_alive).
  clear Ht. revert H. generalize (mark_alive now target t). induction Hns as [|n ns Hn _ IH]; intros t' H; [done|].
  simpl. by apply IH, typed_merge_peer.
Qed.

(** ** The interface *)

Lemma typed_sources c a : typed_answer c a ->
  registry_says (rpc_url (chain config)) (contract_address (chain config)) (fun _ => typed_list) c a.
Proof. destruct c; try done. intros H _ _. exact H. Qed.

(** The share and the table are outside the two caches. *)
Lemma typed_local_core w w' : core w' = core w -> typed_local w -> typed_local w'.
Proof. intros Hc. assert (shard w' = shard w /\ peer_table w' = peer_table w) as [E1 E2] by (unfold core in Hc; by simplify_eq).
  unfold typed_local. by rewrite E1, E2. Qed.

Lemma typed_list_safe app :
  safe typed typed_answer (get_signer_addresses (rpc_url (chain config)) (contract_address (chain config)) app)
    (fun r => forall l, r = Ok l -> typed_list l).
Proof.
  apply safe_frame.
  - eapply guar_mono; [|apply get_signer_addresses_frame]. intros w w' [Hc _]. by apply typed_local_core.
  - eapply safe_ok_mono; [apply typed_sources|]. apply (get_signer_addresses_vouched _ _ (fun _ => typed_list)).
Qed.

#[export] Instance typed_ambient : Ambient config typed typed_answer.
Proof.
  split; try (intros; by destruct w).
  - intros app. eapply safe_mono; [apply typed_list_safe|done].
  - intros app a. apply safe_frame.
    + eapply guar_mono; [|apply get_signer_addresses_for_frame]. intros w w' [Hc _]. by apply typed_local_core.
    + eapply safe_ok_mono; [apply typed_sources|].
      eapply safe_mono; [apply (get_signer_addresses_for_vouched _ _ (fun _ => typed_list))|done].
  - intros app a wait. apply safe_guar; [|done]. eapply guar_mono; [|apply require_verified_frame].
    intros w w' [Hc Hn] [Hl Ht]. split; [|by eapply typed_local_core]. unfold vouched. by rewrite Hn.
Qed.

Context (Hhash : keccak_length X) (Hrec : bare_record_typed X).

#[local] Instance typed_gossiping : Gossiping config typed typed_answer typed_info.
Proof.
  split.
  - intros pk now info w Hnow Hinfo [Hl [Hs Ht]]. split; [by destruct w|]. split; [by destruct w|].
    assert (peer_table (upd_peer_table (record_caller (mkAuthContext pk (eth_address_from_pubkey pk)) now info) w) =
      record_caller (mkAuthContext pk (eth_address_from_pubkey pk)) now info (peer_table w)) as -> by (by destruct w).
    apply typed_insert; [|by split|done]. simpl. unfold eth_address_from_pubkey.
    rewrite length_drop, Hhash. done.
  - intros now url self sig ts target peers w Hnow Hp [Hl [Hs Ht]]. split; [by destruct w|]. split; [by destruct w|].
    assert (peer_table (upd_peer_table (apply_push config now target peers) w) =
      apply_push config now target peers (peer_table w)) as -> by (by destruct w).
    apply typed_apply_push; [done|by apply Hp|done].
Qed.

Lemma unseal_typed b64 sk rec : unseal_b64 b64 sk = Ok (Some rec) -> in_u32 (rec_shard_index rec) /\ in_u64 (rec_epoch rec).
Proof.
  unfold unseal_b64, unseal_from_bytes. case_decide; [done|]. destruct (b64url_decode _) as [buf|]; [|done].
  destruct (_ || _)%bool; [done|]. case_decide as Hv; [|done]. destruct (ecies_decrypt _ _) as [payload|]; [|done].
  destruct (bare_record_de payload) as [r|] eqn:E; simpl; [|done]. case_decide; [|done].
  intros [= <-]. by eapply Hrec.
Qed.

#[local] Instance typed_adopting : Adopting config typed typed_answer in_u32 in_u64.
Proof.
  split.
  - intros s w Hi He [Hl [Hs Ht]]. split; [by destruct w|]. split; [|by destruct w].
    intros s' Hs'. assert (s' = s) as -> by (destruct w; simpl in Hs'; congruence). by split.
  - intros g w. by destruct w.
  - intros app. eapply safe_mono; [apply typed_list_safe|]. intros r Hr l -> i Hi.
    destruct (Hr l eq_refl) as [_ Hlen]. unfold in_u32. lia.
  - intros url sig ts resp H. by apply H.
  - apply unseal_typed.
  - intros e. unfold in_u64, wrap_u64. apply Z.mod_pos_bound. lia.
  - unfold in_u64, GENESIS_EPOCH. lia.
Qed.

Lemma task_typed {G : Gennaro T} key wakes version task : task_within typed_info in_u64 task ->
  safe typed typed_answer (task_prog config key wakes version task) any.
Proof. apply (task_ok config key wakes version typed typed_answer typed_info in_u32 in_u64). Qed.

End Typed.

(** The shared state keeps to the machine types of the source.  If the state a node
    starts from has [u32] shard indices, [u64] epochs, [i64] contact times, 20-byte addresses
    as peer keys and cached member lists of such addresses, then it still has after every
    interleaving of any tasks, as long as the requests that arrive and the answers of the
    clock, the chain and the peers are of their declared types: no handler, merge, position
    lookup, epoch step or restored record leaves the ranges the types promise. *)
Theorem state_stays_typed {T : ThresholdScheme} {X : Externals T} {G : Gennaro T}
    config key wakes version s t h tasks S' :
  keccak_length X -> bare_record_typed X ->
  typed config s -> Forall (task_within typed_info in_u64) tasks ->
  rtc (node_step config key wakes version typed_answer (task_within typed_info in_u64))
    (Pool s t h (map (task_prog config key wakes version) tasks)) S' ->
  typed config (p_st _ S').
Proof.
  intros Hh Hr Hs Ht Hsteps.
  eapply (node_invariant config key wakes version (typed config) typed_answer _ any (Pool s t h _));
    [by apply task_typed|exact Hs| |exact Hsteps].
  apply Forall_map. by eapply Forall_impl; [exact Ht|apply task_typed].
Qed.

(** Node 1 takes an order to reshare to the last epoch a [u64] can hold. *)
Lemma toy_world_typed : typed Toy.config Toy.world.
Proof.
  split; [|split].
  - intros app e He. unfold Toy.world in He. cbn [node_list_cache] in He. apply lookup_singleton_Some in He as [_ <-].
    split; [|vm_compute; reflexivity]. repeat constructor.
  - intros s [= <-]. unfold typed_shard, in_u32, in_u64. cbn -[Z.pow]. lia.
  - intros a p. cbn [peer_table Toy.world]. intros [<- <-]%lookup_singleton_Some. split; [reflexivity|].
    unfold typed_peer, in_i64, in_u64. cbn -[Z.pow]. lia.
Qed.

Lemma state_stays_typed_witness :
  exists S' : pool World Call ans Reply, typed Toy.config (p_st _ S') /\ length (p_tasks _ S') = 2%nat.
Proof.
  eexists. split.
  - refine (state_stays_typed (G := ToyDkg.gennaro Byte.x09 [Byte.x08]) Toy.config Toy.node1 1 "0.1.0"
      Toy.world 0 ∅ [Watchdog 3 0] _ Toy.keccak_ok Toy.bare_typed_ok toy_world_typed (Forall_cons_2 _ (Watchdog 3 0) _ I (Forall_nil_2 _))
      (rtc_once _ _ (node_arrival _ _ _ _ _ _ _ _ _ _
        (RpcStartReshare ∅ (mkReshareRequest "reshare:kms:4:1000" 1 [1] (2 ^ 64 - 1))) _))).
    split; [vm_compute; discriminate|vm_compute; reflexivity].
  - reflexivity.
Defined.
