(* ===== verification/ServiceTests.v ===== *)
(** The tests of [src/src/verifier.rs], [src/src/chain.rs], [src/src/seal.rs] and
    [src/src/metrics.rs] on the model.  A mock server is an oracle that answers the requests
    the mock would; what the mock expects of the number of requests is read off the log. *)
From S2P Require Import Base Threshold Prelude Prog State Externals Models Crypto Seal Metrics Chain Verifier Node Testing.
From Stdlib Require Import ZArith Lia.
From Stdlib.Strings Require Import Byte.
From stdpp Require Import base list gmap strings pretty.
Local Open Scope Z_scope.

#[local] Instance record_eq_dec : EqDecision SealedShareV1.
Proof. solve_decision. Defined.

(** A fresh process. *)
Definition fresh : exec World Call ans :=
  start (upd_verdict_cache (fun _ => ∅) (upd_node_list_cache (fun _ => ∅) Toy.world)) (secs 100000).

Definition mock_scan (reply : nat -> Address -> ScanReply) : kms_oracle :=
  {| o_ans := fun n c => match c return ans c with Scan_verify _ _ _ s => reply n s | c => Toy.no_answer c end;
     o_env := fun _ w => w; o_delay := fun _ => 1%N |}.

(** How often a signer was asked about. *)
Definition asked (s : Address) (log : list kms_event) : nat :=
  length (List.filter (fun ev => match ev with Ev (Scan_verify _ _ _ s') _ => bool_decide (s' = s) | _ => false end) log).

Definition yes : ScanReply := ScanHttp 200 (Some (true, EmptyString)).
Definition not_found : ScanReply := ScanHttp 404 None.

(** * [verifier.rs] *)

Module VerifierTests.

Definition test_cfg (url : string) : VerifierConfig :=
  {| verifier_url := url; pubkeys := []; api_key := "test-key"; insecure_http := true |}.

Abbreviation v := (test_cfg "http://127.0.0.1:4444").

(** A certificate is its key's encoding, a hash its last 32 bytes; the raw point is the
    encoding without its header. *)
Definition pin_accepts_exactly_the_pinned_key : bool :=
  let spki := fun cert : bytes => Some cert in
  let sha256 := Toy.hash in
  let kp1 := str_bytes "spki:" ++ Toy.pubkey Toy.sk1 in
  let kp2 := str_bytes "spki:" ++ Toy.pubkey Toy.sk2 in
  is_ok (verify_server_cert spki sha256 [sha256 kp1] kp1) &&
  negb (is_ok (verify_server_cert spki sha256 [sha256 kp1] kp2)) &&
  negb (is_ok (verify_server_cert spki sha256 [Toy.pubkey Toy.sk1] kp1)).

Definition repeat_str (s : string) (n : nat) : string := foldr String.app EmptyString (replicate n s).

Definition malformed_config_fails_at_boot : bool :=
  let new url pubkeys := is_ok (Verifier_new true {| verifier_url := url; pubkeys := pubkeys; api_key := EmptyString; insecure_http := false |}) in
  forallb (fun url => negb (new url ["0xabcd"])) ["scan.example"; "tcp://scan.example"; "htps://scan.example"] &&
  forallb (fun pubkeys => negb (new "https://scan.example" pubkeys))
    [[]; ["zz"]; [EmptyString]; ["0x"]; ["0x7b13d132"]; ["0x04" +:+ repeat_str "ab" 64]] &&
  new "https://scan.example" ["0x" +:+ repeat_str "ab" 32].

Definition good : Address := replicate 20 Byte.x11.
Definition bad : Address := replicate 20 Byte.x22.
Definition unseen : Address := replicate 20 Byte.x33.

Definition verdict_semantics : bool :=
  let scan := mock_scan (fun _ s => if decide (s = good) then yes
                                    else if decide (s = bad) then ScanHttp 200 (Some (false, "replay failed")) else not_found) in
  let alive : test :=
    (let! r := Verifier_require_verified v "app" good 0 in
     let!? _ := check (is_ok r) in
     let! r := Verifier_require_verified v "app" good 0 in
     let!? _ := check (is_ok r) in
     let! r := Verifier_require_verified v "app" bad 0 in
     let!? _ := assert_eq r (Err "attestation not verified: replay failed") in
     let! r := Verifier_require_verified v "app" bad 0 in
     assert_eq r (Err "attestation not verified (recently checked): replay failed")) in
  let dead : test :=
    (let! r := Verifier_require_verified v "app" good 0 in
     let!? _ := check (is_ok r) in
     let! r := Verifier_require_verified v "app" unseen 0 in
     check (negb (is_ok r))) in
  let '(passed, x) := outcome_of scan alive fresh in
  passed && (asked good (x_log x) =? 1)%nat && (asked bad (x_log x) =? 1)%nat &&
  (outcome_of (mock_scan (fun _ _ => ScanTransportError "connection refused")) dead x).1.

(** The mock's first answer, then the second: the first request is put within the first five
    steps of the call. *)
Definition first_then (a b : ScanReply) : kms_oracle := mock_scan (fun n _ => if (n <? 5)%nat then a else b).

Definition a_signer_scan_has_not_synced_yet_is_waited_for : bool :=
  let fresh_signer := replicate 20 Byte.x44 in
  let '(passed, x) := outcome_of (first_then not_found yes)
    (let! r := Verifier_require_verified v "app" fresh_signer SCAN_LAG_WAIT in assert_eq r (Ok tt)) fresh in
  passed && (asked fresh_signer (x_log x) =? 2)%nat.

Definition a_signer_scan_does_not_know_is_not_cached_as_a_negative : bool :=
  let s := replicate 20 Byte.x55 in
  let want := Err "attestation not verified: not registered on-chain per verifier" in
  let '(passed, x) := outcome_of (mock_scan (fun _ _ => not_found))
    (let! r := Verifier_require_verified v "app" s 0 in
     let!? _ := assert_eq r want in
     let! r := Verifier_require_verified v "app" s 0 in
     let!? _ := assert_eq r want in
     let! w := get in
     match verdict_cache w !! ("app", s) with
     | None => check false
     | Some e =>
         let!? _ := check (negb (verified e)) in
         let!? _ := assert_eq (damp e) SCAN_LAG_DAMP in
         check (SCAN_LAG_DAMP <? NEGATIVE_TTL)
     end) fresh in
  passed && (asked s (x_log x) =? 1)%nat.

Definition a_transient_scan_error_is_asked_through : bool :=
  let s := replicate 20 Byte.x77 in
  let '(passed, x) := outcome_of (first_then (ScanHttp 503 None) yes)
    (let! r := Verifier_require_verified v "app" s SCAN_LAG_WAIT in assert_eq r (Ok tt)) fresh in
  passed && (asked s (x_log x) =? 2)%nat.

Definition a_known_signer_is_not_held_up_when_scan_forgets_it : bool :=
  let s := replicate 20 Byte.x66 in
  let '(passed, x) := outcome_of (mock_scan (fun _ _ => not_found))
    (let! t := now in
     let two_hours_ago := t - secs (2 * 3600) in
     modify (upd_verdict_cache <[("app", s) := mkCacheEntry true EmptyString 0 two_hours_ago two_hours_ago]>);;;
     let! started_at := now in
     let! r := Verifier_require_verified v "app" s SCAN_LAG_WAIT in
     let!? _ := assert_eq r (Ok tt) in
     let! t := now in
     check (elapsed t started_at <? SCAN_LAG_POLL)) fresh in
  passed && (asked s (x_log x) =? 1)%nat.

End VerifierTests.

(** * [chain.rs] *)

Module ChainTests.

Definition mock_rpc (l : list Address) : kms_oracle :=
  {| o_ans := fun n c => match c return ans c with Eth_get_node_list _ _ _ => Ok l | c => Toy.no_answer c end;
     o_env := fun _ w => w; o_delay := fun _ => 1%N |}.

Definition eth_calls (log : list kms_event) : nat := length (List.filter is_chain_call log).

Definition a_signer_missing_from_the_cached_list_refreshes_it_once : bool :=
  let a := replicate 20 Byte.x11 in
  let b := replicate 20 Byte.x22 in
  let c := replicate 20 Byte.x33 in
  let rpc := "http://127.0.0.1:8545" in
  let contract := "0x00000000000000000000000000000000000000aa" in
  let app := "refresh-on-miss" in
  let key := cache_key rpc contract app in
  let '(passed, x) := outcome_of (mock_rpc [a])
    (let! l := get_signer_addresses_for rpc contract app a in
     let!? l := unwrap l in assert_eq l [a]) fresh in
  let '(passed', y) := outcome_of (mock_rpc [a; b])
    (modify (upd_node_list_cache (alter (fun e => mkNodeListEntry (addrs e) (fetched_at e - MISS_REFRESH_MIN) (miss_refresh_at e)) key));;;
     let! l := get_signer_addresses_for rpc contract app b in
     let!? l := unwrap l in
     let!? _ := assert_eq l [a; b] in
     let! l := get_signer_addresses_for rpc contract app c in
     let!? l := unwrap l in check (negb (bool_decide (c ∈ l)))) x in
  passed && passed' && (eth_calls (x_log x) =? 1)%nat && (eth_calls (x_log y) =? 2)%nat.

End ChainTests.

(** * [seal.rs] *)

Module SealTests.

Definition rec_ : SealedShareV1 := SealedShareV1_new 3 7 (replicate 48 Byte.xaa) (replicate 40 Byte.x11).
Definition sk : bytes := replicate 32 Byte.x07.

Definition url_safe (c : Ascii.ascii) : bool :=
  let n := Ascii.nat_of_ascii c in
  (((48 <=? n) && (n <=? 57)) || ((65 <=? n) && (n <=? 90)) || ((97 <=? n) && (n <=? 122)) || (n =? 45) || (n =? 95))%nat.

Definition seal_unseal_roundtrip_same_identity : test :=
  let!? pk := unwrap (pubkey_from_private sk) in
  let! s := seal_b64 pk rec_ in
  let!? s := unwrap s in
  let!? _ := check (string_forall url_safe s) in
  assert_eq (unseal_b64 s sk) (Ok (Some rec_)).

Definition unseal_fails_for_different_identity : test :=
  let!? pk := unwrap (pubkey_from_private sk) in
  let! s := seal_b64 pk rec_ in
  let!? s := unwrap s in
  assert_eq (unseal_b64 s (replicate 32 Byte.x09)) (Ok None).

Definition unseal_empty_or_foreign_is_none : test :=
  let!? _ := assert_eq (unseal_b64 EmptyString sk) (Ok None) in
  let!? _ := assert_eq (unseal_b64 "   " sk) (Ok None) in
  let!? _ := assert_eq (unseal_b64 "bm90IGEga21zIHNlYWw" sk) (Ok None) in
  assert_eq (unseal_b64 "!!!not base64!!!" sk) (Ok None).

Definition blob_file_roundtrip_and_absent : test :=
  let!? pk := unwrap (pubkey_from_private sk) in
  let path := "/tmp/kms-seal-file-1.b64" in
  let! r := read_blob_file path in
  let!? _ := assert_eq r (Ok None) in
  let! s := seal_b64 pk rec_ in
  let!? b64 := unwrap s in
  let! r := write_blob_file path b64 in
  let!? _ := unwrap r in
  let! r := read_blob_file path in
  let!? _ := assert_eq r (Ok (Some b64)) in
  let!? _ := assert_eq (unseal_b64 b64 sk) (Ok (Some rec_)) in
  let! _ := fs_remove path in Ret (Ok tt).

(** Encryption whose ciphertexts carry a digest of the plaintext, which decryption checks. *)
Definition authenticated : Externals Toy.scheme := {|
  keccak256 := keccak256 (Externals := Toy.externals);
  hex_encode := Toy.hex; hex_decode := Toy.unhex; b64url_encode := Toy.hex; b64url_decode := Toy.unhex;
  ecies_enc rng pk m := let? c := ecies_enc (Externals := Toy.externals) rng pk (Toy.hash m ++ m) in Ok c;
  ecies_dec sk c :=
    let? m := ecies_dec (Externals := Toy.externals) sk c in
    if decide (take 32 m = Toy.hash (drop 32 m)) then Ok (drop 32 m) else Err "bad tag";
  k256_pubkey := Toy.pubkey_of; k256_sign := k256_sign (Externals := Toy.externals);
  k256_sig_parse := k256_sig_parse (Externals := Toy.externals);
  k256_recover := k256_recover (Externals := Toy.externals);
  bare_record_ser := Toy.record_ser; bare_record_de := Toy.record_de;
  share_vec := share_vec (Externals := Toy.externals); share_try := share_try (Externals := Toy.externals);
  partial_vec := partial_vec (Externals := Toy.externals); partial_try := partial_try (Externals := Toy.externals);
  public_key_try := public_key_try (Externals := Toy.externals); sigma_vec := sigma_vec (Externals := Toy.externals);
  bls_split := bls_split (Externals := Toy.externals); hkdf_sha256 := hkdf_sha256 (Externals := Toy.externals);
  provider_try := provider_try (Externals := Toy.externals); address_parse := address_parse (Externals := Toy.externals)
|}.

Definition flip_last (b : bytes) : bytes :=
  alter (fun x => byte_of_Z (Z.lxor (Z_of_byte x) 255)) (length b - 1)%nat b.

Definition tampered_ciphertext_does_not_yield_share : test :=
  let!? pk := unwrap (pubkey_from_private sk) in
  let! b := seal_to_bytes (X := authenticated) pk rec_ in
  let!? buf := unwrap b in
  check (match unseal_from_bytes (X := authenticated) (flip_last buf) sk with
         | Ok None | Err _ => true
         | Ok (Some _) => false
         end).

End SealTests.

(** * [metrics.rs] *)

Module MetricsTests.

Definition share : string := "/tmp/kms-baseline/share.sealed".

Definition records_on_first_formation_then_verifies : test :=
  let master := str_bytes "master-one" in
  let! r := check_master_baseline (Some share) master in
  let!? _ := assert_eq r 1 in
  let! r := check_master_baseline (Some share) master in
  let!? _ := assert_eq r 1 in
  let!? path := unwrap (ok_or (baseline_path (Some share)) tt) in
  let! r := read_blob_file path in
  assert_eq r (Ok (Some (hex_encode master))).

Definition a_changed_master_is_reported_and_never_silently_adopted : test :=
  let! _ := check_master_baseline (Some share) (str_bytes "master-one") in
  let! r := check_master_baseline (Some share) (str_bytes "master-two") in
  let!? _ := assert_eq r 0 in
  let!? path := unwrap (ok_or (baseline_path (Some share)) tt) in
  let! r := read_blob_file path in
  assert_eq r (Ok (Some (hex_encode (str_bytes "master-one")))).

Definition no_durable_path_means_no_anchor : test :=
  let! r := check_master_baseline None (str_bytes "master-one") in assert_eq r (-1).

(** Nothing can be written under a regular file. *)
Definition mock_fs : kms_oracle :=
  {| o_ans := fun n c => match c return ans c with
       | Fs_write path _ => if decide (path = "/etc/hostname/share.sealed.probe") then WriteErr "Not a directory (os error 20)" None else WriteOk
       | c => Toy.no_answer c end;
     o_env := fun _ w => w; o_delay := fun _ => 1%N |}.

Definition writability_probe_distinguishes_the_three_states : test :=
  let! r := probe_share_path None in
  let!? _ := assert_eq r (-1) in
  let! r := probe_share_path (Some "/tmp/kms-probe-test/share.sealed") in
  let!? _ := assert_eq r 1 in
  let! w := get in
  let!? _ := assert_eq (fs w !! "/tmp/kms-probe-test/share.sealed.probe") None in
  let! r := probe_share_path (Some "/etc/hostname/share.sealed") in
  assert_eq r 0.

End MetricsTests.

(** * The tests hold *)

Definition holds_on (o : kms_oracle) (t : test) : bool := (outcome_of o t fresh).1.

(** The attestation gate's tests hold. *)
Theorem verifier_tests_hold :
  Forall (fun b => b = true)
    [VerifierTests.pin_accepts_exactly_the_pinned_key; VerifierTests.malformed_config_fails_at_boot;
     VerifierTests.verdict_semantics; VerifierTests.a_signer_scan_has_not_synced_yet_is_waited_for;
     VerifierTests.a_signer_scan_does_not_know_is_not_cached_as_a_negative;
     VerifierTests.a_transient_scan_error_is_asked_through;
     VerifierTests.a_known_signer_is_not_held_up_when_scan_forgets_it].
Proof. run_tests. Qed.

(** The list-refresh test, the sealing tests, the baseline and probe tests and the retention
    test hold. *)
Theorem chain_tests_hold : ChainTests.a_signer_missing_from_the_cached_list_refreshes_it_once = true.
Proof. vm_compute. reflexivity. Qed.

Theorem seal_tests_hold :
  Forall (fun t => holds_on Toy.idle t = true)
    [SealTests.seal_unseal_roundtrip_same_identity; SealTests.unseal_fails_for_different_identity;
     SealTests.unseal_empty_or_foreign_is_none; SealTests.blob_file_roundtrip_and_absent;
     SealTests.tampered_ciphertext_does_not_yield_share].
Proof. run_tests. Qed.

Theorem metrics_tests_hold :
  Forall (fun t => holds_on MetricsTests.mock_fs t = true)
    [MetricsTests.records_on_first_formation_then_verifies;
     MetricsTests.a_changed_master_is_reported_and_never_silently_adopted;
     MetricsTests.no_durable_path_means_no_anchor; MetricsTests.writability_probe_distinguishes_the_three_states].
Proof. run_tests. Qed.

Definition retention_is_capped : bool := (0 <? LOG_FILES_KEPT) && (LOG_FILES_KEPT <=? 14).

Theorem log_tests_hold : retention_is_capped = true.
Proof. reflexivity. Qed.
